(* ===== verification/_CoqProject ===== *)
-Q . S2P
Prelude.v
GoError.v
Bytes.v
Batch.v
Manifest.v
ObjStore.v
Enqueuer.v
S3.v
Config.v
Budget.v
Watcher.v
Accumulator.v
Retry.v
Committer.v
Stages.v
Pipeline.v
PipelineInv.v
Durability.v
Progress.v
Producer.v
Conform.v
Desk.v
Flush.v
ExporterConfig.v
Telemetry.v
Observed.v
Exporter.v
Client.v
Float.v
Stats.v
Bench.v
Report.v
Gauges.v
Compat.v
