(* ===== verification/Prelude.v ===== *)
(** * A verification library for opendata-go

    opendata-go is a producer that turns the appends of many callers into
    batches, writes each batch as one data object of an object store, and makes
    it visible to consumers by appending an entry to a manifest object that
    several producers share; and an exporter for the OpenTelemetry collector
    that embeds it. This library models the producer ([src/buffer/]), the
    object stores it runs on ([src/objstore/]), the exporter
    ([src/exporter/opendataexporter/]), the benchmark ([src/cmd/bench/]) and the
    compatibility producer ([src/test/compat-producer/]), and proves what their
    users rely on: formats that round-trip, appends to the manifest that are
    atomic and in order, watchers that tell the truth, a flush that is a barrier,
    a budget that is exact, a pipeline that neither loses a batch nor gets stuck,
    an exporter that acknowledges what is durable, metrics that count right, and
    benchmarks that measured what they report.

    ** The program and its parts

    A caller's [AppendContext] reserves bytes of the budget and sends a message
    to the rotator, which collects messages in an accumulator and, when a size,
    a time, a flush or the shutdown says so, takes a batch slot and emits a
    batch under the next ordinal. Encoder workers turn batches into payloads,
    uploader workers write them as data objects with retries, in any order. The
    manifest committer puts the completions back into the order of ordinals and
    appends the ones that were uploaded to the manifest by compare-and-swap,
    several at a time; a manifest write that keeps failing halts the producer.
    The watcher resolver then resolves the watchers that the callers hold,
    acknowledges a flush, and gives the batch's budget back.

    The exporter validates its configuration, starts a producer with it on an
    S3 store, and for each request marshals it, appends it as one entry and
    waits until it is durable; its telemetry is the producer's observer.

    The benchmark drives a producer over an in-memory store, times its calls, and
    writes order statistics of the samples as JSON. The compatibility producer
    appends and flushes three batches over S3.

    ** The files, in order

    - [Prelude]: tactics, hint databases, lists and sums.
    - [GoError] ([error.go]): sentinel errors, wrapping, [errors.Is], and the
      monad [outcome] of fallible code: a value, an error, or a panic.
    - [Bytes]: Go's integers at their widths, slices with their bounds checks,
      the little-endian codec.
    - [Batch] ([batch.go]): the data-batch format.
    - [Manifest] ([manifest.go], to line 258): the manifest format.
    - [ObjStore] ([objstore.go], [memory.go]): the interface [ObjectStore] as a
      class, what its callers rely on as the class [StoreLaws], what its comments
      document of each method as [documented], optimistic concurrency as
      [StoreEvolution], and the in-memory store as their instance.
    - [Enqueuer] ([manifest.go], from line 260): [enqueueBatch] as a program on
      any store, an environment that acts before every store call, the abstract
      manifest and the refinement of the append; [enqueueEffect] is what a call
      does to the store whatever the items; [repeating_store] a store whose
      client sends requests again.
    - [S3] ([s3.go]): the adapter around the SDK's client, the client as a class
      [S3Client] with what the code relies on as [S3ClientLaws]; a client that
      keeps its objects in a map and loses requests or answers.
    - [Config] ([config.go], [observer.go], the defaults of [NewProducer]).
    - [Budget] ([budget.go]): each critical section as a function; the blocking
      callers, their contexts and the channels they sleep on as a step
      relation.
    - [Watcher], [Accumulator] ([producer.go]): watchers, messages, batches.
    - [Retry] ([putWithRetry], [casWithRetry], [backoffFor]).
    - [Committer] ([manifestCommitter]): the committer's loop as a function of
      what it receives.
    - [Stages] ([rotator], [encoder], [uploaderWorker]): what each stage does
      to its own state and to one batch.
    - [Pipeline]: the goroutines, the channels and the shared objects as one
      step relation; a step is what a goroutine does between two points where
      another can interfere. [appendChecks], [append_step] are the inside of
      [AppendContext]; [rotator_step], [encoder_step], [uploader_step],
      [committer_step], [resolver_step] the goroutines; [world_step] is what
      [Close] does to the channels, and other processes at the store.
    - [PipelineInv], [Durability], [Progress]: invariants of the reachable
      states: where each ordinal is and what each byte of the budget is for;
      which watchers are open and what each batch carries; that no ordinal is
      missing and no wake-up is lost.
    - [Producer]: the guarantees that follow, and a run of the whole pipeline
      on the in-memory store.
    - [Conform]: the committer's steps of [Pipeline] compute the function of
      [Committer], on a log of what the goroutine received and handed on.
    - [Desk]: the pipeline seen from its callers, a desk of tickets that each
      owe their watchers a result and a flush its acknowledgement; every step
      of the pipeline is a step of the desk.
    - [Flush] ([AppendContext], [Append], [Flush], [Close]): the calls as
      relations on the pipeline, and their promises, from the desk.
    - [ExporterConfig] ([config.go], [metadata.go], the defaults of
      [factory.go]): the configuration and its validation.
    - [Telemetry] ([telemetry.go]): the instruments and what each method records.
    - [Observed]: the observer's calls along a run of the pipeline, as steps of
      their own, and what the instruments show of it.
    - [Exporter] ([exporter.go], [factory.go]): life cycle and requests, on the
      pipeline of the producer that the exporter holds.
    - [Client]: programs that call one producer, as computations in a monad of
      relations on its pipeline, with a triple and a rule for each call.
    - [Float]: [float64] as the binary64 numbers of [SpecFloat], and the rounding
      lemmas that [Stats] needs.
    - [Stats] ([cmd/bench/main.go]: [aggregate], [median], [percentile], [max],
      [sumOf]; [manifest.go]: [conflictRate]).
    - [Bench] ([cmd/bench/main.go]: flags, workload, [runExporterIteration],
      [runProducerIteration]), as programs of [Client].
    - [Report] ([cmd/bench/main.go]: [main], the JSON documents, [unitTable],
      [gitInfo], [variedParamObject]), a process that writes files and may exit.
    - [Gauges] ([emitInflightSnapshot]): the places that change the budget and
      the emissions after them, interleaved.
    - [Compat] ([test/compat-producer/main.go]), a program of [Client].

    ** What the theorems show

    - Formats: decoding an encoded batch gives its entries back, and decoding a
      manifest the entries appended to it over any number of writes
      ([manifest_roundtrip]); the decoders never panic on any bytes and return what the data
      holds; the encoders' outcome on every branch, with one divergence at
      4 GiB ([oversize_entry_corrupts_manifest]).
    - Stores and manifest: the in-memory store does what the interface documents
      and its conditional put is an exact compare-and-swap ([InMemory_contract]);
      the S3 store meets the laws over a client that sends each request once
      ([S3_meets_contract]); [enqueueBatch] refines one atomic append of the
      abstract manifest, whatever other processes do between its store calls,
      terminates when they leave it alone, and counts its conflicts; over a client
      that repeats a conditional put it appends its items twice
      ([repeated_put_duplicates]).
    - Components: the budget keeps its caps, loses no wake-up and a release
      lets the waiters that fit proceed; a watcher is decided once; a batch can
      be taken apart into its messages; retries are bounded, each all or
      nothing; the committer gives each batch exactly one result and writes the
      manifest in order, halts exactly when a manifest write fails, and leaves the
      manifest alone from then on ([committer_halted]).
    - The producer, in every state of every interleaving: a watcher reports
      success only for a message that can be read back from the store, as long as
      the manifest entries are within the limits of their format
      ([success_means_durable]); the manifest is written in the order of
      emission ([manifest_in_order]); the budget is exact ([budget_is_exact]);
      no batch gets stuck ([pipeline_never_stuck]); a drained producer and a
      producer that has shut down owe nothing ([drained_means_resolved],
      [shutdown_resolves_everyone]); the resolver never panics
      ([resolver_resolves]); the committer's goroutine refines its function
      ([committer_conforms]); and [Close] can make a concurrent append panic
      ([close_races_with_append]).
    - The calls: [Flush] is a barrier ([flush_barrier]) and is acknowledged once
      ([flush_acknowledged_once]); [Close] leaves nothing behind
      ([close_leaves_nothing]).
    - The exporter: validation accepts exactly the usable configurations
      ([Validate_accurate]) and what it accepted is what runs
      ([validated_config_runs], [Start_outcome]); an acknowledged request is in
      the store ([ConsumeMetrics_durable], [ConsumeLogs_durable]); requests and
      failures are counted ([ConsumeMetrics_counts]); the deadline of a request
      does not bound its enqueueing ([deadline_does_not_bound_enqueue]); a
      restart can lose the age gauge ([restart_loses_gauge]).
    - Metrics: the instruments are created, or the first refusal is reported
      ([newExporterTelemetry_outcome]); the counter of pending inputs is exact, up
      to the calls between their send and their report, until shutdown
      ([pending_inputs_exact]), may be negative because of them
      ([pending_inputs_negative]) and leaks at shutdown ([pending_inputs_leak]);
      the two
      series of conflicts agree ([conflict_metrics_agree]); the in-flight gauges
      are exact after a change whose emission is not overlapped ([gauge_exact])
      and never invent a value ([gauge_samples]), but a race can leave them stale
      ([gauge_stale]); the conflict rate is a percentage
      ([conflictRate_percentage]).
    - The benchmark: an iteration that returns measured the whole workload, and
      all of it is durable ([exporter_iteration_complete],
      [producer_iteration_complete]); the quantiles are exact order statistics
      ([quantiles_exact]), the two medians different ones ([medians_differ]); a
      run that ends normally leaves exactly its artifacts, the results computed
      from complete iterations ([main_artifacts], [main_measures]); no run of zero iterations does
      ([zero_iterations_fail]); unit and mode need not agree
      ([unit_mode_unchecked]).
    - The compatibility producer: when it ends normally each of its batches was
      settled by its own [Flush] ([produced_settled]); it starts only over a bucket ([setup_bucket]).

    ** Choices, bounds and fuel

    - Values of type [uint16], [uint32], [uint64] are integers of [Z] with the
      wrap-around written out. Sizes and counters of type [int] and [int64] are
      integers of [Z] without it: they count bytes and batches in memory; where
      the configuration can make one overflow the wrap-around is written out.
    - [enqueueBatch] retries for as long as other writers win: its fuel is the
      number of attempts, and [enqueueBatch_terminates] says how much is enough.
      [drain]'s fuel is one more than the completions at hand, which is always
      enough ([committer_complete]). The other loops are structural.
    - A store call may fail after it took effect; only a failed precondition
      promises that nothing happened. The other processes at the store leave
      this producer's data objects alone (their names hold a unique run id) and
      keep the manifest decodable.
    - The code bounds each field of a manifest entry but not the entry: what a
      manifest write leaves is specified only for entries within the limits of
      the format ([fits]), and durability is stated for runs in which all entries
      the producer tried to write were ([within_format]). The capacity that the
      decoders allocate from a count in the data is not modelled.
    - Ordinals are below [MaxUint64]: emitting a batch has this as its
      premise, since the code's counter wraps there.
    - The pools of workers are the lists of their busy workers. Sleeping is a
      state from which a goroutine may wake at any time. In the pipeline one
      manifest append is one step; [Enqueuer] shows that [enqueueBatch] is such
      a step, and [Committer] that the loop is the sequence of them.
    - A call of [AppendContext], [Flush] or [Close] is a relation between the
      state it was made in and the state it returns in, because others step
      meanwhile; a context is the error it ends with, if it ever does.
    - The observer's calls about inputs are steps of their own, interleaved with
      all others: [OnAccepted] some time after the send on [appendCh], [OnFlush]
      before the watchers are resolved.
    - Of the SDK's client the S3 store assumes two things that the SDK does not
      document: that each request is sent once, and that the texts the code
      searches error messages for occur only in errors of the matching status.
    - The order in which Go ranges over a map is a parameter, any function that
      lists the map's values.
    - zstd, the SDK's client, the collector's queue configuration, its
      marshalers and data types, and the meter are third-party code: parameters,
      with the laws the code relies on, and instances in the examples.
      Durations in measurements are nanoseconds, not fractions of a second.
    - [float64] is IEEE 754 binary64 as the library's [SpecFloat] computes it; NaN
      has one value. [quantiles_exact] holds up to 2^46 samples: beyond that
      rounding may move an index.
    - A program that uses a producer is a relation between the states it starts
      and ends in and its outcome: the goroutines and the clock decide. Its
      theorems say what holds if it returns a value; the runs at the end of
      [Bench] show that it can. The pseudo-random generator, SHA-256, the text of
      JSON, the clock, [git], the environment, the AWS SDK's set-up calls and the
      file system are parameters; the file system refuses a file, fails in the
      middle of it, or writes it in full.
    - [strings.ToLower] and the verb for quoted strings are those of ASCII text.

    ** What is not modelled

    Of the producer: the observer's calls about queue depths and busy workers
    (those of the retry loops, the committer, about inputs and about the budget
    are events), and time other than as a reading of a clock. Of the exporter:
    [NewFactory], one call of the collector's constructor; the descriptions of
    instruments and the fields of log messages. Of the benchmark: what the
    library's parser makes of a command line, what is printed, and the formatting
    of times ([tsNowISO], [runIDSlug]). *)

From stdpp Require Export prelude strings pretty gmap.
From Stdlib Require Strings.Byte.

Open Scope Z_scope.

(** ** Automation *)

Create HintDb opendata.
Create Rewrite HintDb len.

(** Case analysis on the innermost boolean test of the goal or of a
    hypothesis, turning the test into the proposition it decides. *)
Ltac split_test b :=
  lazymatch b with
  | Z.ltb ?x ?y => destruct (Z.ltb_spec x y)
  | Z.leb ?x ?y => destruct (Z.leb_spec x y)
  | Z.eqb ?x ?y => destruct (Z.eqb_spec x y)
  | bool_decide ?P => destruct (bool_decide_reflect P)
  | andb ?x _ => split_test x; cbn [andb]
  | orb ?x _ => split_test x; cbn [orb]
  | negb ?x => split_test x; cbn [negb]
  | _ => let E := fresh "Etest" in destruct b eqn:E
  end.

Ltac case_test :=
  match goal with
  | |- context [if ?b then _ else _] => lazymatch type of b with bool => split_test b end
  | H : context [if ?b then _ else _] |- _ => lazymatch type of b with bool => split_test b end
  end.

(** Splits every test, simplifies the equations that appear and closes the
    contradictory branches. *)
Ltac case_tests := repeat (case_test; simplify_eq/=; try lia).

(** ** Lengths

    Go's [len] as a [Z]: all sizes and offsets of the model are integers. *)

Definition len {A} (l : list A) : Z := Z.of_nat (length l).

Arguments len : simpl never.

Section Len.
Context {A : Type}.
Implicit Types l k : list A.

Lemma len_nonneg l : 0 <= len l.
Proof. unfold len. lia. Qed.

Lemma len_nil : len (@nil A) = 0.
Proof. done. Qed.

Lemma len_cons x l : len (x :: l) = 1 + len l.
Proof. unfold len. cbn [length]. lia. Qed.

Lemma len_app l k : len (l ++ k) = len l + len k.
Proof. unfold len. rewrite length_app. lia. Qed.

Lemma len_zero_nil l : len l = 0 -> l = [].
Proof. destruct l; [done|]. rewrite len_cons. pose proof (len_nonneg l). lia. Qed.

Lemma len_take l n : 0 <= n <= len l -> len (take (Z.to_nat n) l) = n.
Proof. unfold len. intros H. rewrite length_take. lia. Qed.

Lemma len_drop l n : 0 <= n <= len l -> len (drop (Z.to_nat n) l) = len l - n.
Proof. unfold len. intros H. rewrite length_drop. lia. Qed.
End Len.

Lemma len_fmap {A B} (f : A -> B) (l : list A) : len (f <$> l) = len l.
Proof. unfold len. by rewrite length_fmap. Qed.

#[export] Instance len_proper {A} : Proper ((≡ₚ) ==> (=)) (@len A).
Proof. intros l k Hp. unfold len. by rewrite Hp. Qed.

#[export] Hint Rewrite @len_nil @len_cons @len_app @len_fmap : len.

(** Normalises lengths and hands the arithmetic to [lia]. *)
Ltac len_pose :=
  repeat match goal with
  | |- context [len ?l] =>
      lazymatch goal with
      | _ : 0 <= len l |- _ => fail
      | _ => pose proof (len_nonneg l)
      end
  | H : context [len ?l] |- _ =>
      lazymatch goal with
      | _ : 0 <= len l |- _ => fail
      | _ => pose proof (len_nonneg l)
      end
  end.

Ltac len_lia := autorewrite with len in *; len_pose; lia.

(** ** Sums of integers *)

Definition sumZ (l : list Z) : Z := foldr Z.add 0 l.

Arguments sumZ : simpl never.

Lemma sumZ_nil : sumZ [] = 0.
Proof. done. Qed.

Lemma sumZ_cons x l : sumZ (x :: l) = x + sumZ l.
Proof. done. Qed.

Lemma sumZ_app l k : sumZ (l ++ k) = sumZ l + sumZ k.
Proof. induction l as [|x l IH]; cbn [app]; rewrite ?sumZ_cons, ?sumZ_nil; lia. Qed.

Lemma sumZ_nonneg l : Forall (fun x => 0 <= x) l -> 0 <= sumZ l.
Proof. induction 1; rewrite ?sumZ_cons, ?sumZ_nil; lia. Qed.

Lemma sumZ_permutation l k : l ≡ₚ k -> sumZ l = sumZ k.
Proof. induction 1; rewrite ?sumZ_cons in *; lia. Qed.

#[export] Hint Rewrite sumZ_nil sumZ_cons sumZ_app : len.
#[export] Hint Resolve len_nonneg sumZ_nonneg : opendata.

#[export] Instance sumZ_proper : Proper ((≡ₚ) ==> (=)) sumZ.
Proof. intros l k. apply sumZ_permutation. Qed.

(** ** Loops that accumulate into a buffer

    The source builds its buffers with loops that append to a slice; the
    lemma turns such a loop into the concatenation of what it appends. *)

Lemma foldl_append {A B} (f : A -> list B) (l : list A) (buf : list B) :
  foldl (fun acc x => acc ++ f x) buf l = buf ++ (l ≫= f).
Proof.
  revert buf. induction l as [|x l IH]; intros buf; cbn.
  - by rewrite app_nil_r.
  - by rewrite IH, (assoc_L (++)).
Qed.

Lemma foldl_sum {A} (f : A -> Z) (l : list A) (acc : Z) :
  foldl (fun t x => t + f x) acc l = acc + sumZ (f <$> l).
Proof.
  revert acc. induction l as [|x l IH]; intros acc.
  - rewrite fmap_nil, sumZ_nil. cbn. lia.
  - rewrite fmap_cons, sumZ_cons. cbn [foldl]. rewrite IH. lia.
Qed.

Lemma take_app_len {A} (l k : list A) : take (Z.to_nat (len l)) (l ++ k) = l.
Proof. unfold len. rewrite Nat2Z.id. apply take_app_length. Qed.

Lemma drop_app_len {A} (l k : list A) : drop (Z.to_nat (len l)) (l ++ k) = k.
Proof. unfold len. rewrite Nat2Z.id. apply drop_app_length. Qed.

(** ** Invariants of step relations *)

Lemma rtc_invariant {A} (R : relation A) (P : A -> Prop) x y :
  P x -> (forall a b, P a -> R a b -> P b) -> rtc R x y -> P y.
Proof. intros Hx Hstep Hr. induction Hr; eauto. Qed.
