(* ===== verification/GoError.v ===== *)
(** * Errors and fallible code

    The error values of the program ([src/buffer/error.go], the two sentinels
    of [src/objstore/objstore.go], the errors of a [context.Context]) and the
    monad in which fallible Go code is written: a call returns a value,
    returns an error, or panics. *)

From S2P Require Import Prelude.

Local Open Scope string_scope.

(** The sentinel errors, the targets of [errors.Is]. *)
Inductive sentinel :=
  | ErrStorage
  | ErrSerialization
  | ErrInvalidInput
  | ErrFenced
  | ErrShutdown
  | ErrProducerHalted
  | ErrNotFound
  | ErrPreconditionFailed
  | CtxCanceled
  | CtxDeadlineExceeded.

#[export] Instance sentinel_eq_dec : EqDecision sentinel.
Proof. solve_decision. Defined.

(** An error is a sentinel, a sentinel wrapped with a message
    ([fmt.Errorf("%w: %s", ...)]), or an error of code outside the program. *)
Inductive error :=
  | Sentinel (s : sentinel)
  | Wrapped (s : sentinel) (msg : string)
  | Foreign (msg : string).

#[export] Instance error_eq_dec : EqDecision error.
Proof. solve_decision. Defined.

Definition sentinel_message (s : sentinel) : string :=
  match s with
  | ErrStorage => "storage error"
  | ErrSerialization => "serialization error"
  | ErrInvalidInput => "invalid input"
  | ErrFenced => "consumer fenced: epoch mismatch"
  | ErrShutdown => "buffer shut down"
  | ErrProducerHalted => "producer halted"
  | ErrNotFound => "object not found"
  | ErrPreconditionFailed => "precondition failed"
  | CtxCanceled => "context canceled"
  | CtxDeadlineExceeded => "context deadline exceeded"
  end.

(** The method [Error]. *)
Definition error_message (e : error) : string :=
  match e with
  | Sentinel s => sentinel_message s
  | Wrapped s msg => sentinel_message s +:+ ": " +:+ msg
  | Foreign msg => msg
  end.

(** [errors.Is]. *)
Definition errors_Is (e : error) (s : sentinel) : bool :=
  match e with
  | Sentinel s' | Wrapped s' _ => bool_decide (s' = s)
  | Foreign _ => false
  end.

Definition storageErr (msg : string) : error := Wrapped ErrStorage msg.
Definition serializationErr (msg : string) : error := Wrapped ErrSerialization msg.
Definition invalidInputErr (msg : string) : error := Wrapped ErrInvalidInput msg.

(** ** The monad of fallible code *)

Inductive outcome (A : Type) :=
  | Ret (a : A)
  | Fail (e : error)
  | Panic.
Arguments Ret {A} _.
Arguments Fail {A} _.
Arguments Panic {A}.

#[export] Instance outcome_ret : MRet outcome := @Ret.
#[export] Instance outcome_bind : MBind outcome := fun A B k m =>
  match m with Ret a => k a | Fail e => Fail e | Panic => Panic end.
#[export] Instance outcome_fmap : FMap outcome := fun A B f m =>
  match m with Ret a => Ret (f a) | Fail e => Fail e | Panic => Panic end.

#[export] Instance outcome_eq_dec {A} `{EqDecision A} : EqDecision (outcome A).
Proof. solve_decision. Defined.

(** Guarded failure: [if cond { return err }]. *)
Definition fail_if (cond : bool) (e : error) : outcome unit :=
  if cond then Fail e else Ret tt.

Section Monad.
Context {A B C : Type}.
Implicit Types m : outcome A.

Lemma bind_Ret_inv m (k : A -> outcome B) b :
  (m ≫= k) = Ret b -> exists a, m = Ret a /\ k a = Ret b.
Proof. destruct m; cbn; intros; simplify_eq; eauto. Qed.

Lemma bind_Fail_inv m (k : A -> outcome B) e :
  (m ≫= k) = Fail e -> m = Fail e \/ exists a, m = Ret a /\ k a = Fail e.
Proof. destruct m; cbn; intros; simplify_eq; eauto. Qed.

Lemma bind_not_Panic m (k : A -> outcome B) :
  m <> Panic -> (forall a, m = Ret a -> k a <> Panic) -> (m ≫= k) <> Panic.
Proof. destruct m; cbn; naive_solver. Qed.

Lemma bind_assoc m (f : A -> outcome B) (g : B -> outcome C) :
  ((m ≫= f) ≫= g) = (m ≫= fun a => f a ≫= g).
Proof. by destruct m. Qed.
End Monad.

Lemma fail_if_bind_inv {A} b e (k : unit -> outcome A) a :
  (fail_if b e ≫= k) = Ret a -> b = false /\ k tt = Ret a.
Proof. destruct b; cbn; intros; simplify_eq; eauto. Qed.

Lemma fail_if_not_Panic b e : fail_if b e <> Panic.
Proof. by destruct b. Qed.

Lemma fail_if_pass {A} b e (k : unit -> outcome A) :
  b = false -> (fail_if b e ≫= k) = k tt.
Proof. by intros ->. Qed.

Lemma fail_if_stop {A} b e (k : unit -> outcome A) :
  b = true -> (fail_if b e ≫= k) = Fail e.
Proof. by intros ->. Qed.

Lemma fail_if_bind_not_Panic {A} b e (k : unit -> outcome A) :
  (b = false -> k tt <> Panic) -> (fail_if b e ≫= k) <> Panic.
Proof. destruct b; cbn; auto. Qed.

#[export] Hint Resolve bind_not_Panic fail_if_not_Panic : opendata.

(** Takes a successful chain of calls apart into its steps. *)
Ltac bind_inv :=
  repeat match goal with
  | H : (_ ≫= _) = Ret _ |- _ =>
      apply bind_Ret_inv in H; destruct H as (? & ? & ?)
  | H : fail_if ?b _ = Ret _ |- _ =>
      let E := fresh "Eguard" in destruct b eqn:E; cbn in H; [discriminate H|]; clear H
  | H : Ret _ = Ret _ |- _ => injection H as H
  end.

Lemma errors_Is_wrapped s msg : errors_Is (Wrapped s msg) s = true.
Proof. cbn. by rewrite bool_decide_eq_true_2. Qed.
