(* ===== verification/Bytes.v ===== *)
(** * Machine integers, byte slices and the little-endian codec

    What the program uses of Go's integers, of slices and of
    [encoding/binary.LittleEndian]. Sized unsigned integers are elements of
    [Z] reduced modulo their width by the conversions [uint16], [uint32],
    [uint64] and [int64] at the points where the source converts; slice
    lengths and offsets (Go's 64-bit [int]) are elements of [Z], and
    [Manifest] and [Batch] show that the offsets computed by the decoders
    stay within the data they index. *)

From S2P Require Import Prelude GoError.

Abbreviation byte := Byte.byte.
Abbreviation bytes := (list byte).

#[export] Instance byte_eq_dec : EqDecision byte := Byte.byte_eq_dec.

(** ** Sized integers *)

Definition uint8 (z : Z) : Z := z `mod` 2 ^ 8.
Definition uint16 (z : Z) : Z := z `mod` 2 ^ 16.
Definition uint32 (z : Z) : Z := z `mod` 2 ^ 32.
Definition uint64 (z : Z) : Z := z `mod` 2 ^ 64.
Definition int64 (z : Z) : Z := (z + 2 ^ 63) `mod` 2 ^ 64 - 2 ^ 63.

Definition MaxUint16 : Z := 2 ^ 16 - 1.
Definition MaxUint32 : Z := 2 ^ 32 - 1.
Definition MaxUint64 : Z := 2 ^ 64 - 1.

Definition is_uint16 (z : Z) : Prop := 0 <= z <= MaxUint16.
Definition is_uint32 (z : Z) : Prop := 0 <= z <= MaxUint32.
Definition is_uint64 (z : Z) : Prop := 0 <= z <= MaxUint64.
Definition is_int64 (z : Z) : Prop := - 2 ^ 63 <= z < 2 ^ 63.

Lemma uint16_id z : is_uint16 z -> uint16 z = z.
Proof. unfold is_uint16, uint16, MaxUint16. intros. apply Z.mod_small. lia. Qed.

Lemma uint32_id z : is_uint32 z -> uint32 z = z.
Proof. unfold is_uint32, uint32, MaxUint32. intros. apply Z.mod_small. lia. Qed.

Lemma uint64_id z : is_uint64 z -> uint64 z = z.
Proof. unfold is_uint64, uint64, MaxUint64. intros. apply Z.mod_small. lia. Qed.

Lemma int64_id z : is_int64 z -> int64 z = z.
Proof. unfold is_int64, int64. intros. rewrite Z.mod_small; lia. Qed.

Lemma uint16_range z : is_uint16 (uint16 z).
Proof. unfold is_uint16, uint16, MaxUint16. pose proof (Z.mod_pos_bound z (2 ^ 16)). lia. Qed.

Lemma uint32_range z : is_uint32 (uint32 z).
Proof. unfold is_uint32, uint32, MaxUint32. pose proof (Z.mod_pos_bound z (2 ^ 32)). lia. Qed.

Lemma uint64_range z : is_uint64 (uint64 z).
Proof. unfold is_uint64, uint64, MaxUint64. pose proof (Z.mod_pos_bound z (2 ^ 64)). lia. Qed.

Lemma int64_range z : is_int64 (int64 z).
Proof. unfold is_int64, int64. pose proof (Z.mod_pos_bound (z + 2 ^ 63) (2 ^ 64)). lia. Qed.

(** Converting to [uint64] and back is the identity on 64-bit integers. *)
Lemma int64_uint64 z : is_int64 z -> int64 (uint64 z) = z.
Proof.
  unfold is_int64, int64, uint64. intros H.
  rewrite Zplus_mod_idemp_l, Z.mod_small; lia.
Qed.

#[export] Hint Resolve uint16_range uint32_range uint64_range int64_range : opendata.

(** ** Bytes *)

Definition byte_to_Z (b : byte) : Z := Z.of_N (Byte.to_N b).

(** The conversion [byte(x)]. *)
Definition byte_of_Z (z : Z) : byte :=
  default Byte.x00 (Byte.of_N (Z.to_N (uint8 z))).

Lemma byte_to_Z_range b : 0 <= byte_to_Z b < 256.
Proof.
  unfold byte_to_Z. pose proof (Byte.to_N_bounded b). lia.
Qed.

Lemma byte_to_of_Z z : byte_to_Z (byte_of_Z z) = uint8 z.
Proof.
  unfold byte_to_Z, byte_of_Z, uint8.
  pose proof (Z.mod_pos_bound z (2 ^ 8)) as Hb.
  destruct (Byte.of_N (Z.to_N (z `mod` 2 ^ 8))) as [b|] eqn:E; cbn.
  - apply Byte.to_of_N in E. lia.
  - apply Byte.of_N_None_iff in E. lia.
Qed.

Lemma byte_of_to_Z b : byte_of_Z (byte_to_Z b) = b.
Proof.
  unfold byte_of_Z, uint8. pose proof (byte_to_Z_range b).
  rewrite Z.mod_small by lia. unfold byte_to_Z.
  by rewrite N2Z.id, Byte.of_to_N.
Qed.

(** ** Little-endian encoding of an [n]-byte integer *)

Fixpoint le_put (n : nat) (z : Z) : bytes :=
  match n with
  | O => []
  | S n => byte_of_Z z :: le_put n (z `div` 2 ^ 8)
  end.

Fixpoint le_get (l : bytes) : Z :=
  match l with
  | [] => 0
  | b :: l => byte_to_Z b + 2 ^ 8 * le_get l
  end.

Lemma length_le_put n z : length (le_put n z) = n.
Proof. revert z. induction n as [|n IH]; intros z; cbn; by rewrite ?IH. Qed.

Lemma len_le_put n z : len (le_put n z) = Z.of_nat n.
Proof. unfold len. by rewrite length_le_put. Qed.

Lemma le_get_put n z : le_get (le_put n z) = z `mod` 2 ^ (8 * Z.of_nat n).
Proof.
  revert z. induction n as [|n IH]; intros z; cbn [le_put le_get].
  - by rewrite Z.mod_1_r.
  - rewrite IH, byte_to_of_Z. unfold uint8.
    replace (8 * Z.of_nat (S n)) with (8 + 8 * Z.of_nat n) by lia.
    rewrite Z.pow_add_r by lia.
    rewrite Z.rem_mul_r by (try apply Z.pow_nonzero; lia). lia.
Qed.

Lemma le_get_range l : 0 <= le_get l < 2 ^ (8 * len l).
Proof.
  induction l as [|b l IH]; cbn [le_get]; [done|].
  rewrite len_cons. replace (8 * (1 + len l)) with (8 + 8 * len l) by lia.
  pose proof (len_nonneg l). rewrite Z.pow_add_r by lia.
  pose proof (byte_to_Z_range b). lia.
Qed.

Lemma le_put_get l : le_put (length l) (le_get l) = l.
Proof.
  induction l as [|b l IH]; cbn [length le_put le_get]; [done|].
  pose proof (byte_to_Z_range b). f_equal.
  - rewrite <- (byte_of_to_Z b) at 2. unfold byte_of_Z, uint8. do 3 f_equal.
    rewrite (Z.mul_comm (2 ^ 8)), Z.mod_add by lia. done.
  - rewrite (Z.mul_comm (2 ^ 8)), Z.div_add by lia.
    rewrite Z.div_small by lia. done.
Qed.

#[export] Hint Rewrite len_le_put length_le_put : len.

Lemma le_put_mod n z : le_put n (z `mod` 2 ^ (8 * Z.of_nat n)) = le_put n z.
Proof.
  rewrite <- (le_put_get (le_put n (z `mod` _))), <- (le_put_get (le_put n z)).
  by rewrite !le_get_put, !length_le_put, Zmod_mod.
Qed.

Lemma le_put_uint16 z : le_put 2 (uint16 z) = le_put 2 z.
Proof. apply (le_put_mod 2). Qed.
Lemma le_put_uint32 z : le_put 4 (uint32 z) = le_put 4 z.
Proof. apply (le_put_mod 4). Qed.
Lemma le_put_uint64 z : le_put 8 (uint64 z) = le_put 8 z.
Proof. apply (le_put_mod 8). Qed.

(** ** [encoding/binary.LittleEndian] *)

Definition AppendUint16 (buf : bytes) (v : Z) : bytes := buf ++ le_put 2 v.
Definition AppendUint32 (buf : bytes) (v : Z) : bytes := buf ++ le_put 4 v.
Definition AppendUint64 (buf : bytes) (v : Z) : bytes := buf ++ le_put 8 v.

(** [UintN(b)] reads the first bytes of [b] and panics when [b] is shorter. *)
Definition UintN (n : nat) (b : bytes) : outcome Z :=
  if len b <? Z.of_nat n then Panic else Ret (le_get (take n b)).
Definition Uint16 : bytes -> outcome Z := UintN 2.
Definition Uint32 : bytes -> outcome Z := UintN 4.
Definition Uint64 : bytes -> outcome Z := UintN 8.

(** The slice expression [b[lo:hi]], which panics out of range. (Go checks
    [hi] against the capacity; a read that stays within the length, which is
    what the theorems below show of every read, satisfies both checks.) *)
Definition slice {A} (b : list A) (lo hi : Z) : outcome (list A) :=
  if (0 <=? lo) && (lo <=? hi) && (hi <=? len b)
  then Ret (take (Z.to_nat (hi - lo)) (drop (Z.to_nat lo) b))
  else Panic.

(** The slice expressions [b[lo:]] and [b[:hi]]. *)
Definition slice_from {A} (b : list A) (lo : Z) : outcome (list A) := slice b lo (len b).
Definition slice_to {A} (b : list A) (hi : Z) : outcome (list A) := slice b 0 hi.

(** A slice expression in range. *)
Lemma slice_Ret {A} (b : list A) lo hi :
  0 <= lo <= hi -> hi <= len b ->
  slice b lo hi = Ret (take (Z.to_nat (hi - lo)) (drop (Z.to_nat lo) b)).
Proof.
  intros. unfold slice.
  by rewrite (proj2 (Z.leb_le 0 lo)), (proj2 (Z.leb_le lo hi)), (proj2 (Z.leb_le hi (len b)))
    by lia.
Qed.

(** A slice expression that cuts out the middle of a concatenation. *)
Lemma slice_middle {A} (x y z : list A) :
  slice (x ++ y ++ z) (len x) (len x + len y) = Ret y.
Proof.
  rewrite slice_Ret by len_lia.
  replace (len x + len y - len x) with (len y) by lia.
  by rewrite drop_app_len, take_app_len.
Qed.

Lemma slice_middle' {A} (b x y z : list A) lo hi :
  b = x ++ y ++ z -> lo = len x -> hi = len x + len y -> slice b lo hi = Ret y.
Proof. intros -> -> ->. apply slice_middle. Qed.

Lemma UintN_exact n b : length b = n -> UintN n b = Ret (le_get b).
Proof.
  intros <-. unfold UintN, len. rewrite Z.ltb_irrefl.
  by rewrite firstn_all.
Qed.

Lemma UintN_put n z : UintN n (le_put n z) = Ret (z `mod` 2 ^ (8 * Z.of_nat n)).
Proof. rewrite UintN_exact by apply length_le_put. by rewrite le_get_put. Qed.

Lemma Uint16_put z : Uint16 (le_put 2 z) = Ret (uint16 z).
Proof. apply UintN_put. Qed.
Lemma Uint32_put z : Uint32 (le_put 4 z) = Ret (uint32 z).
Proof. apply UintN_put. Qed.
Lemma Uint64_put z : Uint64 (le_put 8 z) = Ret (uint64 z).
Proof. apply UintN_put. Qed.

(** Reading a fixed-width integer at an offset, [UintN(b[lo:lo+n])]: the
    composition every decoder uses. *)
Definition read_uint (n : nat) (b : bytes) (lo : Z) : outcome Z :=
  s ← slice b lo (lo + Z.of_nat n); UintN n s.

Lemma read_uint_Ret n b lo :
  0 <= lo -> lo + Z.of_nat n <= len b ->
  exists v, read_uint n b lo = Ret v /\ 0 <= v < 2 ^ (8 * Z.of_nat n).
Proof.
  intros. unfold read_uint. rewrite slice_Ret by lia. cbn.
  set (s := take _ _). assert (length s = n) as Hs.
  { unfold s, len in *. rewrite length_take, length_drop. lia. }
  rewrite UintN_exact by done. exists (le_get s). split; [done|].
  pose proof (le_get_range s). unfold len in *. by rewrite <- Hs.
Qed.

Lemma read_uint_put n (b x y : bytes) lo z :
  b = x ++ le_put n z ++ y -> lo = len x ->
  read_uint n b lo = Ret (z `mod` 2 ^ (8 * Z.of_nat n)).
Proof.
  intros -> ->. unfold read_uint.
  rewrite (slice_middle' _ x (le_put n z) y) by (done || len_lia).
  apply UintN_put.
Qed.

Lemma slice_not_Panic {A} (b : list A) lo hi :
  0 <= lo <= hi -> hi <= len b -> slice b lo hi <> Panic.
Proof. intros. by rewrite slice_Ret. Qed.

Lemma read_uint_not_Panic n b lo :
  0 <= lo -> lo + Z.of_nat n <= len b -> read_uint n b lo <> Panic.
Proof. intros. by destruct (read_uint_Ret n b lo) as (v & -> & _). Qed.

Lemma read_uint_inv n b lo v :
  read_uint n b lo = Ret v ->
  0 <= lo /\ lo + Z.of_nat n <= len b /\ 0 <= v < 2 ^ (8 * Z.of_nat n) /\
  le_put n v = take n (drop (Z.to_nat lo) b).
Proof.
  unfold read_uint. intros H. bind_inv.
  match goal with H : slice _ _ _ = _ |- _ => unfold slice in H; case_tests end.
  set (s := take _ _) in *. assert (length s = n) as Hs.
  { unfold s, len in *. rewrite length_take, length_drop. lia. }
  rewrite UintN_exact in * by done. bind_inv. subst v.
  pose proof (le_get_range s) as Hr. unfold len in Hr. rewrite Hs in Hr.
  repeat split; try lia. rewrite <- Hs at 1. rewrite le_put_get. unfold s.
  f_equal. lia.
Qed.

(** ** Cursors

    [suffix_at d off s]: what [d] holds from offset [off] on is [s]. The
    decoders advance such a cursor over the fields they read. *)

Definition suffix_at {A} (d : list A) (off : Z) (s : list A) : Prop :=
  0 <= off <= len d /\ drop (Z.to_nat off) d = s.

Lemma suffix_at_intro {A} (d x s : list A) off :
  d = x ++ s -> off = len x -> suffix_at d off s.
Proof. intros -> ->. split; [len_lia|apply drop_app_len]. Qed.

Lemma suffix_at_len {A} (d s : list A) off : suffix_at d off s -> len s = len d - off.
Proof. intros [H <-]. by apply len_drop. Qed.

Lemma suffix_at_advance {A} (d s y : list A) off n :
  suffix_at d off (s ++ y) -> n = len s -> suffix_at d (off + n) y.
Proof.
  intros Hs ->. pose proof (suffix_at_len _ _ _ Hs) as Hl. destruct Hs as [Hoff Hd].
  rewrite len_app in Hl. len_pose. split; [lia|].
  rewrite Z2Nat.inj_add, <- drop_drop, Hd by lia. apply drop_app_len.
Qed.

Lemma suffix_at_slice {A} (d s y : list A) off hi :
  suffix_at d off (s ++ y) -> hi = off + len s -> slice d off hi = Ret s.
Proof.
  intros Hs ->. pose proof (suffix_at_len _ _ _ Hs) as Hl. destruct Hs as [Hoff Hd].
  rewrite len_app in Hl. len_pose. rewrite slice_Ret, Hd by lia.
  replace (off + len s - off) with (len s) by lia. by rewrite take_app_len.
Qed.

Lemma suffix_at_read n (d y : bytes) off z :
  suffix_at d off (le_put n z ++ y) ->
  read_uint n d off = Ret (z `mod` 2 ^ (8 * Z.of_nat n)).
Proof.
  intros Hs. unfold read_uint.
  rewrite (suffix_at_slice _ _ _ _ _ Hs) by len_lia. apply UintN_put.
Qed.

Lemma suffix_at_read16 (d y : bytes) off z :
  suffix_at d off (le_put 2 z ++ y) -> is_uint16 z -> read_uint 2 d off = Ret z.
Proof. intros Hs Hz. rewrite (suffix_at_read _ _ _ _ _ Hs). by rewrite <- (uint16_id z) at 2. Qed.

Lemma suffix_at_read32 (d y : bytes) off z :
  suffix_at d off (le_put 4 z ++ y) -> is_uint32 z -> read_uint 4 d off = Ret z.
Proof. intros Hs Hz. rewrite (suffix_at_read _ _ _ _ _ Hs). by rewrite <- (uint32_id z) at 2. Qed.

Lemma suffix_at_read64 (d y : bytes) off z :
  suffix_at d off (le_put 8 z ++ y) -> read_uint 8 d off = Ret (uint64 z).
Proof. intros Hs. apply (suffix_at_read _ _ _ _ _ Hs). Qed.

Lemma suffix_at_put n (d y : bytes) off z :
  suffix_at d off (le_put n z ++ y) -> suffix_at d (off + Z.of_nat n) y.
Proof. intros Hs. apply (suffix_at_advance _ _ _ _ _ Hs). by rewrite len_le_put. Qed.

(** Advances the cursor [H] over the integer it stands at. *)
Ltac advance H :=
  apply suffix_at_put in H;
  lazymatch type of H with
  | suffix_at _ (_ + ?z) _ => let z' := eval vm_compute in z in change z with z' in H
  end.

(** ** Strings as byte sequences *)

Definition string_bytes (s : string) : bytes := String.list_byte_of_string s.
Definition bytes_string (b : bytes) : string := String.string_of_list_byte b.

Lemma bytes_string_bytes s : bytes_string (string_bytes s) = s.
Proof. apply String.string_of_list_byte_of_string. Qed.

Lemma string_bytes_string b : string_bytes (bytes_string b) = b.
Proof. apply String.list_byte_of_string_of_list_byte. Qed.

(** The index expression [b[i]], which panics out of range. *)
Definition index {A} (b : list A) (i : Z) : outcome A :=
  if 0 <=? i then match b !! Z.to_nat i with Some x => Ret x | None => Panic end else Panic.

Lemma index_app_len {A} (x y : list A) a : index (x ++ a :: y) (len x) = Ret a.
Proof.
  unfold index, len. rewrite (proj2 (Z.leb_le _ _)), Nat2Z.id by lia.
  by rewrite list_lookup_middle.
Qed.

Lemma index_not_Panic {A} (b : list A) i : 0 <= i < len b -> index b i <> Panic.
Proof.
  intros [H1 H2]. unfold index. rewrite (proj2 (Z.leb_le _ _)) by lia.
  destruct (lookup_lt_is_Some_2 b (Z.to_nat i)) as [x ->]; [unfold len in *; lia|done].
Qed.
