(* ===== verification/Batch.v ===== *)
(** * The data-batch format ([src/buffer/batch.go])

    [EncodeBatch] and [DecodeBatch], over every input: the layout
    [record block, compression type, record count, version], the size checks,
    and the two compression types. The zstd library is not part of the
    repository: it is the parameter [zstd_lib], and [ZstdLaws] states the
    documented behaviour of its [EncodeAll] and [DecodeAll] that the format
    relies on. *)

From S2P Require Import Prelude GoError Bytes.

(** ** Constants *)

Definition CompressionNone : Z := 0.
Definition CompressionZstd : Z := 1.

Definition batchEntryLenSize : Z := 4.
Definition batchVersionSize : Z := 2.
Definition batchCountSize : Z := 4.
Definition batchCompSize : Z := 1.
Definition batchFooterSize : Z := batchCompSize + batchCountSize + batchVersionSize.
Definition batchVersion : Z := 1.

(** ** The zstd library *)

Record zstd_lib := {
  zstd_NewWriter : option error;             (** error of creating an encoder *)
  zstd_EncodeAll : bytes -> bytes -> bytes;  (** [enc.EncodeAll(src, dst)] *)
  zstd_Close : option error;                 (** error of [enc.Close()] *)
  zstd_NewReader : option error;             (** error of creating a decoder *)
  zstd_DecodeAll : bytes -> bytes -> bytes + error;  (** [dec.DecodeAll(input, dst)] *)
}.

(** [DecodeAll] of what [EncodeAll] produced gives the input back. *)
Class ZstdLaws (z : zstd_lib) := {
  DecodeAll_EncodeAll src : zstd_DecodeAll z (zstd_EncodeAll z src []) [] = inl src;
}.

Section Codec.
  Context (zstd : zstd_lib).

(** ** Encoding *)

(** The size loop at the head of [EncodeBatch]: rejects an entry whose length
    does not fit the length prefix, and sums the block size (the capacity of
    the buffers allocated next). *)
Fixpoint blockSize (entries : list bytes) (dataSize : Z) : outcome Z :=
  match entries with
  | [] => Ret dataSize
  | e :: entries =>
      if MaxUint32 <? len e
      then Fail (invalidInputErr ("entry size " +:+ pretty (len e) +:+ " exceeds u32 max"))
      else blockSize entries (dataSize + (batchEntryLenSize + len e))
  end.

(** The loop that appends each entry after its length. *)
Definition appendRecords (buf : bytes) (entries : list bytes) : bytes :=
  foldl (fun buf e => AppendUint32 buf (uint32 (len e)) ++ e) buf entries.

(** The footer: compression type, record count, version. *)
Definition appendBatchFooter (buf : bytes) (compression : Z) (entries : list bytes) : bytes :=
  let buf := buf ++ [byte_of_Z compression] in
  let buf := AppendUint32 buf (uint32 (len entries)) in
  AppendUint16 buf batchVersion.

Definition EncodeBatch (entries : list bytes) (compression : Z) : outcome bytes :=
  _ ← blockSize entries 0;
  if compression =? CompressionNone then
    let buf := appendRecords [] entries in
    Ret (appendBatchFooter buf compression entries)
  else if compression =? CompressionZstd then
    let entryBuf := appendRecords [] entries in
    match zstd_NewWriter zstd with
    | Some err =>
        Fail (serializationErr ("zstd encoder init failed: " +:+ error_message err))
    | None =>
        let buf := zstd_EncodeAll zstd entryBuf [] in
        match zstd_Close zstd with
        | Some err =>
            Fail (serializationErr ("zstd encoder close failed: " +:+ error_message err))
        | None => Ret (appendBatchFooter buf compression entries)
        end
    end
  else Fail (serializationErr ("unsupported compression type: " +:+ pretty compression)).

(** ** Decoding *)

(** The record loop of [DecodeBatch]. *)
Fixpoint decodeRecords (n : nat) (entryData : bytes) (offset : Z) (entries : list bytes)
    : outcome (list bytes) :=
  match n with
  | O => Ret entries
  | S n =>
      _ ← fail_if (len entryData <? offset + batchEntryLenSize)
            (serializationErr "truncated record length");
      entryLen ← read_uint 4 entryData offset;
      let offset := offset + batchEntryLenSize in
      _ ← fail_if (len entryData <? offset + entryLen)
            (serializationErr "truncated record data");
      entry ← slice entryData offset (offset + entryLen);
      decodeRecords n entryData (offset + entryLen) (entries ++ [entry])
  end.

(** The switch of [DecodeBatch] on the compression type. *)
Definition decompressBlock (compType : Z) (recordBlock : bytes) : outcome bytes :=
  if compType =? CompressionNone then Ret recordBlock
  else if compType =? CompressionZstd then
    match zstd_NewReader zstd with
    | Some err =>
        Fail (serializationErr ("zstd decoder init failed: " +:+ error_message err))
    | None =>
        match zstd_DecodeAll zstd recordBlock [] with
        | inr err =>
            Fail (serializationErr ("zstd decompression failed: " +:+ error_message err))
        | inl decompressed => Ret decompressed
        end
    end
  else Fail (serializationErr ("unsupported compression type: " +:+ pretty compType)).

Definition DecodeBatch (data : bytes) : outcome (list bytes) :=
  _ ← fail_if (len data <? batchFooterSize) (serializationErr "batch too small for footer");
  let footerStart := len data - batchFooterSize in
  footer ← slice_from data footerStart;
  compressionByte ← index footer 0;
  recordCount ← read_uint 4 footer 1;
  version ← read_uint 2 footer 5;
  _ ← fail_if (negb (version =? batchVersion))
        (serializationErr ("unsupported batch version: " +:+ pretty version));
  let compType := byte_to_Z compressionByte in
  recordBlock ← slice_to data footerStart;
  entryData ← decompressBlock compType recordBlock;
  decodeRecords (Z.to_nat recordCount) entryData 0 [].

(** ** The record block *)

(** An entry fits the format when its length fits the 32-bit prefix. *)
Definition entry_fits (e : bytes) : Prop := len e <= MaxUint32.

Definition record (e : bytes) : bytes := le_put 4 (len e) ++ e.
Definition records (entries : list bytes) : bytes := entries ≫= record.

Lemma records_cons e entries : records (e :: entries) = record e ++ records entries.
Proof. done. Qed.

(** The bytes the block takes: what the size loop computes. *)
Definition recordsSize (entries : list bytes) : Z :=
  sumZ ((fun e => batchEntryLenSize + len e) <$> entries).

Lemma is_uint32_fits e : entry_fits e -> is_uint32 (len e).
Proof. unfold entry_fits, is_uint32. len_lia. Qed.

Lemma appendRecords_spec buf entries : appendRecords buf entries = buf ++ records entries.
Proof.
  unfold appendRecords, records. rewrite <- foldl_append.
  revert buf. induction entries as [|e entries IH]; intros buf; cbn; [done|].
  unfold AppendUint32. rewrite le_put_uint32, <- (assoc_L (++)). apply IH.
Qed.

Lemma len_records entries : len (records entries) = recordsSize entries.
Proof.
  unfold recordsSize. induction entries as [|e entries IH]; [done|].
  rewrite records_cons, fmap_cons. unfold record.
  autorewrite with len. rewrite IH. unfold batchEntryLenSize. lia.
Qed.

Lemma blockSize_spec entries d :
  Forall entry_fits entries -> blockSize entries d = Ret (d + recordsSize entries).
Proof.
  unfold recordsSize. intros H. revert d.
  induction H as [|e entries He _ IH]; intros d; cbn [blockSize].
  - rewrite fmap_nil, sumZ_nil. f_equal. lia.
  - unfold entry_fits in He. case_test; [lia|]. rewrite IH, fmap_cons, sumZ_cons. f_equal. lia.
Qed.

Lemma blockSize_Ret_inv entries d d' :
  blockSize entries d = Ret d' -> Forall entry_fits entries.
Proof.
  revert d. induction entries as [|e entries IH]; intros d; cbn [blockSize]; [constructor|].
  case_test; [done|]. intros. constructor; [unfold entry_fits; lia|eauto].
Qed.

Lemma blockSize_not_Panic entries d : blockSize entries d <> Panic.
Proof. revert d. induction entries; intros; cbn [blockSize]; [done|]. case_test; auto. Qed.

(** Decoding [n] records of an encoded block gives its first [n] entries. *)
Lemma decodeRecords_records n : forall entries d off y acc,
  Forall entry_fits entries -> (n <= length entries)%nat ->
  suffix_at d off (records entries ++ y) ->
  decodeRecords n d off acc = Ret (acc ++ take n entries).
Proof.
  induction n as [|n IH]; intros entries d off y acc Hfit Hn Hs; cbn [decodeRecords take].
  { by rewrite app_nil_r. }
  destruct entries as [|e entries]; [cbn in Hn; lia|].
  apply Forall_cons in Hfit as [He Hfit].
  rewrite records_cons in Hs. unfold record in Hs. rewrite <- !(assoc_L (++)) in Hs.
  pose proof (suffix_at_len _ _ _ Hs) as Hl. autorewrite with len in Hl.
  pose proof (len_nonneg (records entries)). len_pose. unfold batchEntryLenSize.
  rewrite fail_if_pass by (apply Z.ltb_ge; lia).
  rewrite (suffix_at_read32 _ _ _ _ Hs) by by apply is_uint32_fits. advance Hs.
  cbn [mbind outcome_bind]. rewrite fail_if_pass by (apply Z.ltb_ge; lia).
  rewrite (suffix_at_slice _ _ _ _ _ Hs) by done. cbn [mbind outcome_bind].
  apply suffix_at_advance with (n := len e) in Hs; [|done].
  rewrite (IH entries _ _ y); [|done|cbn in Hn; lia|done].
  by rewrite <- (assoc_L (++)).
Qed.

(** What the record loop accepts is the encoding of what it returns. *)
Lemma decodeRecords_sound n : forall d off acc es,
  decodeRecords n d off acc = Ret es -> 0 <= off <= len d ->
  exists entries rest,
    es = acc ++ entries /\ length entries = n /\ Forall entry_fits entries /\
    drop (Z.to_nat off) d = records entries ++ rest.
Proof.
  induction n as [|n IH]; intros d off acc es H Hoff; cbn [decodeRecords] in H.
  { bind_inv. subst. exists [], (drop (Z.to_nat off) d). by rewrite app_nil_r. }
  unfold batchEntryLenSize in *.
  apply fail_if_bind_inv in H as [Hg1 H]. apply Z.ltb_ge in Hg1.
  apply bind_Ret_inv in H as (v & Hread & H).
  apply read_uint_inv in Hread as (_ & _ & Hv & Hput).
  apply fail_if_bind_inv in H as [Hg2 H]. apply Z.ltb_ge in Hg2.
  rewrite slice_Ret in H by lia. cbn [mbind outcome_bind] in H.
  replace (off + 4 + v - (off + 4)) with v in H by lia.
  set (e := take _ _) in H.
  apply IH in H as (entries & rest & -> & Hn & Hfit & Hd); [|lia].
  exists (e :: entries), rest.
  assert (len e = v) as Hlen.
  { unfold e. rewrite len_take by (rewrite len_drop; lia). lia. }
  split_and!; [by rewrite <- (assoc_L (++))|cbn; lia| |].
  - constructor; [unfold entry_fits, MaxUint32; lia|done].
  - rewrite records_cons. unfold record. rewrite Hlen, Hput, <- !(assoc_L (++)).
    rewrite <- (take_drop 4 (drop (Z.to_nat off) d)) at 1. f_equal.
    rewrite drop_drop. replace (Z.to_nat off + 4)%nat with (Z.to_nat (off + 4)) by lia.
    rewrite <- (take_drop (Z.to_nat v) (drop _ d)) at 1. unfold e. f_equal.
    rewrite drop_drop, <- Hd. f_equal. lia.
Qed.

Lemma decodeRecords_not_Panic n : forall d off acc,
  0 <= off -> decodeRecords n d off acc <> Panic.
Proof.
  induction n as [|n IH]; intros d off acc Hoff; cbn [decodeRecords]; [done|].
  unfold batchEntryLenSize.
  apply fail_if_bind_not_Panic. intros Hg%Z.ltb_ge.
  destruct (read_uint_Ret 4 d off) as (v & -> & Hv); [lia|lia|]. cbn [mbind outcome_bind].
  apply fail_if_bind_not_Panic. intros Hg'%Z.ltb_ge.
  apply bind_not_Panic; [apply slice_not_Panic; lia|intros; apply IH; lia].
Qed.

(** ** The whole batch *)

Definition batchFooter (compression count : Z) : bytes :=
  byte_of_Z compression :: le_put 4 count ++ le_put 2 batchVersion.

Lemma appendBatchFooter_spec buf compression entries :
  appendBatchFooter buf compression entries =
    buf ++ batchFooter compression (len entries).
Proof.
  unfold appendBatchFooter, batchFooter, AppendUint32, AppendUint16.
  by rewrite le_put_uint32, <- !(assoc_L (++)).
Qed.

Lemma len_batchFooter compression count : len (batchFooter compression count) = batchFooterSize.
Proof. change batchFooterSize with 7. unfold batchFooter. len_lia. Qed.

(** What [DecodeBatch] does once the footer is read. *)
Definition decodeBlock (compType recordCount : Z) (recordBlock : bytes) : outcome (list bytes) :=
  entryData ← decompressBlock compType recordBlock;
  decodeRecords (Z.to_nat recordCount) entryData 0 [].

(** [DecodeBatch] on a block followed by a footer of the current version. *)
Lemma DecodeBatch_footer block compression count :
  DecodeBatch (block ++ batchFooter compression count) =
    decodeBlock (uint8 compression) (uint32 count) block.
Proof.
  unfold DecodeBatch.
  set (data := block ++ _).
  assert (len data = len block + batchFooterSize) as Hlen.
  { unfold data. rewrite len_app, len_batchFooter. done. }
  rewrite Hlen. replace (len block + batchFooterSize - batchFooterSize) with (len block) by lia.
  rewrite fail_if_pass by (apply Z.ltb_ge; len_pose; lia).
  unfold slice_from, slice_to. rewrite Hlen.
  rewrite (slice_middle' data block (batchFooter compression count) []
             (len block) (len block + batchFooterSize))
    by (by rewrite ?app_nil_r, ?len_batchFooter).
  cbn [mbind outcome_bind].
  change (index (batchFooter compression count) 0) with (Ret (byte_of_Z compression)).
  cbn [mbind outcome_bind].
  rewrite (read_uint_put 4 _ [byte_of_Z compression] (le_put 2 batchVersion) 1 count)
    by done. cbn [mbind outcome_bind].
  rewrite (read_uint_put 2 _ (byte_of_Z compression :: le_put 4 count) [] 5 batchVersion)
    by (rewrite ?app_nil_r; done || len_lia). cbn [mbind outcome_bind].
  change (batchVersion `mod` 2 ^ (8 * Z.of_nat 2)) with batchVersion.
  cbn [Z.eqb negb fail_if mbind outcome_bind].
  rewrite (slice_middle' data [] block (batchFooter compression count)) by done.
  by rewrite byte_to_of_Z.
Qed.

(** [DecodeBatch] succeeds only on such data. *)
Lemma DecodeBatch_inv data es :
  DecodeBatch data = Ret es ->
  exists block compression count,
    data = block ++ batchFooter compression count /\
    uint8 compression = compression /\ is_uint32 count /\
    decodeBlock compression count block = Ret es.
Proof.
  intros H. pose proof H as Hd. unfold DecodeBatch in H.
  apply fail_if_bind_inv in H as [Hlen%Z.ltb_ge H].
  change batchFooterSize with 7 in *.
  unfold slice_from in H. rewrite slice_Ret in H by lia.
  cbn [mbind outcome_bind] in H.
  set (fs := len data - 7) in *.
  set (footer := take _ (drop _ _)) in H.
  assert (footer = drop (Z.to_nat fs) data) as Hfooter.
  { unfold footer. apply take_ge. rewrite length_drop. unfold len in *. lia. }
  assert (len footer = 7) as Hlf.
  { rewrite Hfooter, len_drop by lia. unfold fs. lia. }
  clearbody footer.
  destruct footer as [|b [|c0 [|c1 [|c2 [|c3 [|v0 [|v1 [|? ?]]]]]]]];
    try (autorewrite with len in Hlf; len_lia).
  cbn [index Z.leb Z.to_nat lookup list_lookup mbind outcome_bind] in H.
  change (read_uint 4 _ 1) with (UintN 4 [c0; c1; c2; c3]) in H.
  change (read_uint 2 _ 5) with (UintN 2 [v0; v1]) in H.
  rewrite !UintN_exact in H by done. cbn [mbind outcome_bind] in H.
  apply fail_if_bind_inv in H as [Hv H].
  apply negb_false_iff, Z.eqb_eq in Hv.
  unfold slice_to in H. rewrite slice_Ret in H by lia. cbn [mbind outcome_bind] in H.
  exists (take (Z.to_nat fs) data), (byte_to_Z b), (le_get [c0; c1; c2; c3]).
  split_and!.
  - rewrite <- (take_drop (Z.to_nat fs) data) at 1. f_equal. rewrite <- Hfooter.
    unfold batchFooter. rewrite byte_of_to_Z, <- Hv.
    change 4%nat with (length [c0; c1; c2; c3]). rewrite le_put_get.
    change 2%nat with (length [v0; v1]). by rewrite le_put_get.
  - unfold uint8. apply Z.mod_small, byte_to_Z_range.
  - pose proof (le_get_range [c0; c1; c2; c3]) as Hr.
    change (2 ^ (8 * len [c0; c1; c2; c3])) with (2 ^ 32) in Hr.
    unfold is_uint32, MaxUint32. lia.
  - rewrite Z.sub_0_r in H. exact H.
Qed.
End Codec.

(** ** Properties *)

(** The codec is able to encode with compression type [c]. *)
Definition codec_ready (z : zstd_lib) (c : Z) : Prop :=
  c = CompressionNone \/
  (c = CompressionZstd /\ zstd_NewWriter z = None /\ zstd_Close z = None).

(** The record block that [EncodeBatch] writes before the footer. *)
Definition encodedBlock (z : zstd_lib) (c : Z) (entries : list bytes) : bytes :=
  if c =? CompressionNone then records entries else zstd_EncodeAll z (records entries) [].

Lemma EncodeBatch_Ret z entries c :
  Forall entry_fits entries -> codec_ready z c ->
  EncodeBatch z entries c = Ret (encodedBlock z c entries ++ batchFooter c (len entries)).
Proof.
  intros Hfit Hready. unfold EncodeBatch, encodedBlock.
  rewrite blockSize_spec by done. cbn [mbind outcome_bind].
  rewrite appendRecords_spec, app_nil_l, !appendBatchFooter_spec.
  destruct Hready as [->|(-> & -> & ->)]; done.
Qed.

Lemma EncodeBatch_Ret_inv z entries c data :
  EncodeBatch z entries c = Ret data ->
  Forall entry_fits entries /\ codec_ready z c /\
  data = encodedBlock z c entries ++ batchFooter c (len entries).
Proof.
  intros H. assert (Forall entry_fits entries /\ codec_ready z c) as [Hfit Hready].
  { unfold EncodeBatch in H. apply bind_Ret_inv in H as (d & Hd & H).
    split; [by eapply blockSize_Ret_inv|]. unfold codec_ready.
    do 2 (case_test; [destruct (zstd_NewWriter z), (zstd_Close z); naive_solver|]). done. }
  rewrite EncodeBatch_Ret in H by done. naive_solver.
Qed.

Lemma codec_ready_uint8 z c : codec_ready z c -> uint8 c = c.
Proof. by intros [->|(-> & _)]. Qed.

Lemma decompress_encodedBlock z c entries `{!ZstdLaws z} :
  codec_ready z c -> zstd_NewReader z = None ->
  decompressBlock z c (encodedBlock z c entries) = Ret (records entries).
Proof.
  intros Hready Hr. unfold decompressBlock, encodedBlock.
  destruct Hready as [->|(-> & _)]; cbn; [done|].
  by rewrite Hr, DecodeAll_EncodeAll.
Qed.

(** Encoding, then decoding; the statement the other components use. *)
Lemma DecodeBatch_encoded z entries c data `{!ZstdLaws z} :
  EncodeBatch z entries c = Ret data -> zstd_NewReader z = None ->
  DecodeBatch z data = Ret (take (Z.to_nat (uint32 (len entries))) entries).
Proof.
  intros (Hfit & Hready & ->)%EncodeBatch_Ret_inv Hr.
  rewrite DecodeBatch_footer, (codec_ready_uint8 _ _ Hready).
  unfold decodeBlock. rewrite decompress_encodedBlock by done. cbn [mbind outcome_bind].
  rewrite (decodeRecords_records _ entries _ _ []);
    [done|done| |by apply (suffix_at_intro _ []); rewrite ?app_nil_r].
  pose proof (Z.mod_le (len entries) (2 ^ 32)). unfold uint32, len in *. lia.
Qed.

(** C9. Decoding an encoded batch gives the entries back, under both
    compression types. The record count is written as a 32-bit integer, so the
    entries that come back are the first [uint32 (len entries)] of them: all
    of them as long as there are at most [MaxUint32]. *)
Theorem DecodeBatch_EncodeBatch z entries c data `{!ZstdLaws z} :
  EncodeBatch z entries c = Ret data -> zstd_NewReader z = None ->
  DecodeBatch z data = Ret (take (Z.to_nat (uint32 (len entries))) entries).
Proof. by apply DecodeBatch_encoded. Qed.

Lemma EncodeBatch_not_Panic z entries c : EncodeBatch z entries c <> Panic.
Proof.
  intros E. unfold EncodeBatch in E. pose proof (blockSize_not_Panic entries 0).
  destruct (blockSize entries 0); [|done..]. cbn [mbind outcome_bind] in E.
  repeat case_test; try done. by destruct (zstd_NewWriter z), (zstd_Close z).
Qed.

(** The outcome of [EncodeBatch] on every branch: it succeeds exactly when
    every entry fits its length prefix and the codec is available, then an
    uncompressed batch takes the framed size of its entries plus the footer;
    it reports invalid input for an oversize entry and a serialization error
    for an unavailable codec; it never panics. *)
Theorem EncodeBatch_outcome z entries c :
  match EncodeBatch z entries c with
  | Ret data =>
      Forall entry_fits entries /\ codec_ready z c /\
      (c = CompressionNone -> len data = recordsSize entries + batchFooterSize)
  | Fail e =>
      (errors_Is e ErrInvalidInput = true /\ ~ Forall entry_fits entries) \/
      (errors_Is e ErrSerialization = true /\ Forall entry_fits entries /\ ~ codec_ready z c)
  | Panic => False
  end.
Proof.
  destruct (EncodeBatch z entries c) as [data|e|] eqn:E.
  - apply EncodeBatch_Ret_inv in E as (Hfit & Hready & ->). split_and!; [done..|].
    intros ->. cbn. rewrite len_app, len_records, len_batchFooter. done.
  - unfold EncodeBatch in E. apply bind_Fail_inv in E as [E|(d & Hd & E)].
    + left. split; [|intros Hf; by rewrite blockSize_spec in E].
      clear -E. revert E. generalize 0. induction entries as [|x l IH]; intros d; cbn; [done|].
      case_test; [|by eauto]. intros [= <-]. apply errors_Is_wrapped.
    + right. apply blockSize_Ret_inv in Hd. unfold codec_ready.
      repeat case_test; [done| |]; destruct (zstd_NewWriter z), (zstd_Close z);
        simplify_eq; split_and!; try done; intros [?|(? & ? & ?)]; congruence.
  - by apply EncodeBatch_not_Panic in E.
Qed.

(** [DecodeBatch] never panics: on arbitrary bytes it returns entries or an
    error, all its reads being in range. *)
Theorem DecodeBatch_no_panic z data : DecodeBatch z data <> Panic.
Proof.
  unfold DecodeBatch. apply fail_if_bind_not_Panic. intros Hlen%Z.ltb_ge.
  change batchFooterSize with 7 in *. unfold slice_from, slice_to.
  rewrite (slice_Ret data (len data - 7) (len data)) by lia. cbn [mbind outcome_bind].
  set (footer := take _ _). assert (len footer = 7) as Hf.
  { unfold footer. rewrite len_take by (rewrite len_drop; lia). lia. }
  apply bind_not_Panic; [apply index_not_Panic; lia|intros b _].
  destruct (read_uint_Ret 4 footer 1) as (count & -> & Hc); [lia..|].
  destruct (read_uint_Ret 2 footer 5) as (v & -> & Hv); [lia..|].
  cbn [mbind outcome_bind]. apply fail_if_bind_not_Panic. intros _.
  apply bind_not_Panic; [apply slice_not_Panic; lia|intros block _].
  apply bind_not_Panic; [|intros; apply decodeRecords_not_Panic; lia].
  unfold decompressBlock. repeat case_test; try done.
  by destruct (zstd_NewReader z), (zstd_DecodeAll z block []).
Qed.

(** C34. What [DecodeBatch] returns is what the data holds: the data ends with a
    footer of the supported version, the number of entries returned is the
    footer's record count, and the decompressed block starts with the encoding
    of exactly these entries. *)
Theorem DecodeBatch_sound z data es :
  DecodeBatch z data = Ret es ->
  exists block c rest,
    data = block ++ batchFooter c (len es) /\
    is_uint32 (len es) /\ Forall entry_fits es /\
    decompressBlock z c block = Ret (records es ++ rest).
Proof.
  intros (block & c & count & -> & Hc & Hcount & H)%DecodeBatch_inv.
  unfold decodeBlock in H. apply bind_Ret_inv in H as (d & Hd & H).
  apply decodeRecords_sound in H as (entries & rest & -> & Hn & Hfit & Hrec);
    [|len_pose; lia].
  rewrite app_nil_l in *. assert (len entries = count) as <-.
  { unfold len. rewrite Hn. unfold is_uint32 in *. lia. }
  exists block, c, rest. split_and!; try done; [apply Hcount..|].
  rewrite Hd. by rewrite <- Hrec.
Qed.

(** *** Witnesses *)

(** A codec that stores its input. *)
Definition stored : zstd_lib := {|
  zstd_NewWriter := None;
  zstd_EncodeAll src dst := dst ++ src;
  zstd_Close := None;
  zstd_NewReader := None;
  zstd_DecodeAll input dst := inl (dst ++ input);
|}.

#[export] Instance stored_laws : ZstdLaws stored.
Proof. by split. Qed.

Definition sample_entries : list bytes :=
  [string_bytes "hello"; string_bytes ""; string_bytes "world"].

Lemma DecodeBatch_EncodeBatch_witness :
  exists data, EncodeBatch stored sample_entries CompressionZstd = Ret data /\
    DecodeBatch stored data = Ret sample_entries.
Proof.
  eexists. split; [vm_compute; reflexivity|].
  exact (DecodeBatch_EncodeBatch stored sample_entries CompressionZstd _ eq_refl eq_refl).
Defined.

Lemma DecodeBatch_sound_witness :
  exists data block c rest,
    DecodeBatch stored data = Ret sample_entries /\
    data = block ++ batchFooter c 3 /\
    decompressBlock stored c block = Ret (records sample_entries ++ rest).
Proof.
  set (data := records sample_entries ++ batchFooter CompressionNone 3).
  assert (DecodeBatch stored data = Ret sample_entries) as H by reflexivity.
  destruct (DecodeBatch_sound stored data sample_entries H)
    as (block & c & rest & Hd & _ & _ & Hblock).
  by exists data, block, c, rest.
Defined.
