(* ===== verification/Manifest.v ===== *)
(** * The queue manifest ([src/buffer/manifest.go], lines 13 to 258)

    The binary format of the manifest: a sequence of length-prefixed queue
    entries followed by a 22-byte footer (entry count, next sequence, epoch,
    version). Modelled are the in-memory [manifest] (the serialized bytes it
    was read from, plus the entries appended since), every operation on it,
    and the two codecs. [serialize] is the reference definition of the format;
    the operations are proved to implement it. Not modelled is the capacity of
    the slices the decoders allocate, which they take from a count in the data
    before they check it. *)

From S2P Require Import Prelude GoError Bytes.

(** ** Constants *)

Definition manifestVersion : Z := 1.
Definition mEntryLenSize : Z := 4.
Definition mSequenceSize : Z := 8.
Definition mLocationLenSize : Z := 2.
Definition mMetadataCountSize : Z := 4.
Definition mStartIndexSize : Z := 4.
Definition mIngestionTimeMsSize : Z := 8.
Definition mMetadataLenSize : Z := 4.
Definition mEntriesCountSize : Z := 4.
Definition mEpochSize : Z := 8.
Definition mVersionSize : Z := 2.
Definition mFooterSize : Z := mEntriesCountSize + mSequenceSize + mEpochSize + mVersionSize.

(** ** Data *)

Record QueueMetadata := {
  StartIndex : Z;       (** uint32 *)
  IngestionTimeMs : Z;  (** int64 *)
  Payload : bytes;
}.

Record QueueEntry := {
  Sequence : Z;         (** uint64 *)
  Location : string;
  Metadata : list QueueMetadata;
}.

Record manifest := {
  m_data : bytes;            (** existing serialized entries + footer *)
  m_appended : bytes;        (** newly appended entries *)
  m_appendedCount : Z;
  m_nextSequence : Z;        (** uint64 *)
  m_epoch : Z;               (** uint64 *)
}.

#[export] Instance QueueMetadata_eq_dec : EqDecision QueueMetadata.
Proof. solve_decision. Defined.
#[export] Instance QueueEntry_eq_dec : EqDecision QueueEntry.
Proof. solve_decision. Defined.

(** [len(s)] of a string. *)
Definition strlen (s : string) : Z := len (string_bytes s).

(** ** Encoding a queue entry *)

(** The first loop of [encodeQueueEntry]: checks each payload and sums the
    size of the metadata section. *)
Fixpoint metadataSizeLoop (ms : list QueueMetadata) (metadataSize : Z) : outcome Z :=
  match ms with
  | [] => Ret metadataSize
  | m :: ms =>
      if MaxUint32 <? len (Payload m)
      then Fail (invalidInputErr ("metadata payload size " +:+ pretty (len (Payload m))
                                  +:+ " exceeds u32 max"))
      else metadataSizeLoop ms
             (metadataSize + (mStartIndexSize + mIngestionTimeMsSize + mMetadataLenSize
                              + len (Payload m)))
  end.

(** The body of the second loop: one metadata range. *)
Definition appendMetadata (buf : bytes) (m : QueueMetadata) : bytes :=
  let buf := AppendUint32 buf (StartIndex m) in
  let buf := AppendUint64 buf (uint64 (IngestionTimeMs m)) in
  let buf := AppendUint32 buf (uint32 (len (Payload m))) in
  buf ++ Payload m.

Definition encodeQueueEntry (entry : QueueEntry) : outcome bytes :=
  if MaxUint16 <? strlen (Location entry)
  then Fail (invalidInputErr ("location length " +:+ pretty (strlen (Location entry))
                              +:+ " exceeds u16 max"))
  else
    metadataSize ← metadataSizeLoop (Metadata entry) mMetadataCountSize;
    let entryBodyLen :=
      mSequenceSize + mLocationLenSize + strlen (Location entry) + metadataSize in
    let buf := AppendUint32 [] (uint32 entryBodyLen) in
    let buf := AppendUint64 buf (Sequence entry) in
    let buf := AppendUint16 buf (uint16 (strlen (Location entry))) in
    let buf := buf ++ string_bytes (Location entry) in
    let buf := AppendUint32 buf (uint32 (len (Metadata entry))) in
    Ret (foldl appendMetadata buf (Metadata entry)).

(** ** The in-memory manifest *)

Definition emptyManifest : manifest :=
  let buf := AppendUint32 [] 0 in
  let buf := AppendUint64 buf 0 in
  let buf := AppendUint64 buf 0 in
  let buf := AppendUint16 buf manifestVersion in
  {| m_data := buf; m_appended := []; m_appendedCount := 0;
     m_nextSequence := 0; m_epoch := 0 |}.

Definition manifestFromBytes (data : bytes) : outcome manifest :=
  _ ← fail_if (len data =? 0) (serializationErr "queue manifest data must not be empty");
  _ ← fail_if (len data <? mFooterSize) (serializationErr "queue manifest too short for footer");
  let versionStart := len data - mVersionSize in
  versionBytes ← slice_from data versionStart;
  version ← Uint16 versionBytes;
  _ ← fail_if (negb (version =? manifestVersion))
        (serializationErr ("unsupported queue manifest version: " +:+ pretty version));
  let epochStart := len data - mVersionSize - mEpochSize in
  epoch ← read_uint 8 data epochStart;
  let seqStart := len data - mVersionSize - mEpochSize - mSequenceSize in
  nextSeq ← read_uint 8 data seqStart;
  Ret {| m_data := data; m_appended := []; m_appendedCount := 0;
         m_nextSequence := nextSeq; m_epoch := epoch |}.

Definition existingEntriesCount (m : manifest) : outcome Z :=
  if len (m_data m) =? 0 then Ret 0
  else read_uint 4 (m_data m) (len (m_data m) - mFooterSize).

(** The method [append]: the new manifest, or the error of the encoder, in
    which case the manifest is unchanged. *)
Definition append (m : manifest) (entry : QueueEntry) : outcome manifest :=
  let sequenced := {| Sequence := m_nextSequence m; Location := Location entry;
                      Metadata := Metadata entry |} in
  encoded ← encodeQueueEntry sequenced;
  Ret {| m_data := m_data m;
         m_appended := m_appended m ++ encoded;
         m_appendedCount := m_appendedCount m + 1;
         m_nextSequence := uint64 (m_nextSequence m + 1);
         m_epoch := m_epoch m |}.

Definition toBytes (m : manifest) : outcome bytes :=
  if len (m_appended m) =? 0 then Ret (m_data m)
  else
    baseCount ← existingEntriesCount m;
    prefix ← (if 0 <? len (m_data m)
              then slice_to (m_data m) (len (m_data m) - mFooterSize)
              else Ret []);
    let totalCount := uint64 (uint64 baseCount + uint64 (m_appendedCount m)) in
    if MaxUint32 <? totalCount
    then Fail (serializationErr ("total entry count " +:+ pretty totalCount
                                 +:+ " exceeds u32 max"))
    else
      let buf := [] ++ prefix in
      let buf := buf ++ m_appended m in
      let buf := AppendUint32 buf (uint32 totalCount) in
      let buf := AppendUint64 buf (m_nextSequence m) in
      let buf := AppendUint64 buf (m_epoch m) in
      Ret (AppendUint16 buf manifestVersion).

(** The entries of a write, appended in order. *)
Fixpoint appendEntries (m : manifest) (entries : list QueueEntry) : outcome manifest :=
  match entries with
  | [] => Ret m
  | e :: entries => m ← append m e; appendEntries m entries
  end.

(** A manifest that is read and written again once per group of entries, as
    producers do. *)
Fixpoint rewriteManifest (data : bytes) (groups : list (list QueueEntry)) : outcome bytes :=
  match groups with
  | [] => Ret data
  | entries :: groups =>
      m ← manifestFromBytes data;
      m ← appendEntries m entries;
      data ← toBytes m;
      rewriteManifest data groups
  end.

(** ** Decoding *)

(** The metadata loop of [decodeQueueEntry]. *)
Fixpoint decodeMetadata (n : nat) (data : bytes) (offset entryEnd : Z)
    (metadata : list QueueMetadata) : outcome (list QueueMetadata) :=
  match n with
  | O => Ret metadata
  | S n =>
      _ ← fail_if (entryEnd <? offset + mStartIndexSize)
            (serializationErr "queue entry corrupt: start index overflow");
      startIndex ← read_uint 4 data offset;
      let offset := offset + mStartIndexSize in
      _ ← fail_if (entryEnd <? offset + mIngestionTimeMsSize)
            (serializationErr "queue entry corrupt: ingestion time overflow");
      ingestionTimeMs ← read_uint 8 data offset;
      let offset := offset + mIngestionTimeMsSize in
      _ ← fail_if (entryEnd <? offset + mMetadataLenSize)
            (serializationErr "queue entry corrupt: metadata length overflow");
      mLen ← read_uint 4 data offset;
      let offset := offset + mMetadataLenSize in
      _ ← fail_if (entryEnd <? offset + mLen)
            (serializationErr "queue entry corrupt: metadata payload overflow");
      payload ← slice data offset (offset + mLen);
      let offset := offset + mLen in
      decodeMetadata n data offset entryEnd
        (metadata ++ [{| StartIndex := startIndex;
                         IngestionTimeMs := int64 ingestionTimeMs;
                         Payload := payload |}])
  end.

(** [decodeQueueEntry] returns the entry and the offset after it. *)
Definition decodeQueueEntry (data : bytes) (offset end_ : Z) : outcome (QueueEntry * Z) :=
  _ ← fail_if (end_ <? offset + mEntryLenSize)
        (serializationErr "queue entry corrupt: entry length field does not fit");
  entryLen ← read_uint 4 data offset;
  let offset := offset + mEntryLenSize in
  _ ← fail_if (end_ <? offset + entryLen)
        (serializationErr "queue entry corrupt: entry shorter than declared length");
  let entryEnd := offset + entryLen in
  seq ← read_uint 8 data offset;
  let offset := offset + mSequenceSize in
  locLen ← read_uint 2 data offset;
  let offset := offset + mLocationLenSize in
  _ ← fail_if (entryEnd <? offset + locLen + mMetadataCountSize)
        (serializationErr "queue entry corrupt: location + metadata count overflow");
  location ← slice data offset (offset + locLen);
  let offset := offset + locLen in
  metadataCount ← read_uint 4 data offset;
  let offset := offset + mMetadataCountSize in
  metadata ← decodeMetadata (Z.to_nat metadataCount) data offset entryEnd [];
  Ret ({| Sequence := seq; Location := bytes_string location; Metadata := metadata |}, entryEnd).

(** The entry loop of [DecodeManifestEntries]. *)
Fixpoint decodeEntries (n : nat) (data : bytes) (offset footerStart : Z)
    (entries : list QueueEntry) : outcome (list QueueEntry) :=
  match n with
  | O => Ret entries
  | S n =>
      entry_newOffset ← decodeQueueEntry data offset footerStart;
      decodeEntries n data entry_newOffset.2 footerStart (entries ++ [entry_newOffset.1])
  end.

Definition DecodeManifestEntries (data : bytes) : outcome (list QueueEntry) :=
  _ ← fail_if (len data <? mFooterSize) (serializationErr "manifest too short for footer");
  let footerStart := len data - mFooterSize in
  count ← read_uint 4 data footerStart;
  decodeEntries (Z.to_nat count) data 0 footerStart [].

(** ** Reference definition of the format *)

Definition payload_fits (m : QueueMetadata) : Prop := len (Payload m) <= MaxUint32.

(** The values of a metadata range and of an entry are within their widths,
    and the entry within the limits of the format. *)
Definition metadata_wf (m : QueueMetadata) : Prop :=
  is_uint32 (StartIndex m) /\ is_int64 (IngestionTimeMs m) /\ payload_fits m.

Definition metadataBytes (m : QueueMetadata) : bytes :=
  le_put 4 (StartIndex m) ++ le_put 8 (IngestionTimeMs m) ++
  le_put 4 (len (Payload m)) ++ Payload m.

Definition metadataSize (m : QueueMetadata) : Z :=
  mStartIndexSize + mIngestionTimeMsSize + mMetadataLenSize + len (Payload m).

Definition entryBodyLen (e : QueueEntry) : Z :=
  mSequenceSize + mLocationLenSize + strlen (Location e) +
  (mMetadataCountSize + sumZ (metadataSize <$> Metadata e)).

Definition entryBody (e : QueueEntry) : bytes :=
  le_put 8 (Sequence e) ++ le_put 2 (strlen (Location e)) ++ string_bytes (Location e) ++
  le_put 4 (len (Metadata e)) ++ (Metadata e ≫= metadataBytes).

Definition entryBytes (e : QueueEntry) : bytes := le_put 4 (entryBodyLen e) ++ entryBody e.

(** The limits [encodeQueueEntry] checks. *)
Definition entry_encodable (e : QueueEntry) : Prop :=
  strlen (Location e) <= MaxUint16 /\ Forall payload_fits (Metadata e).

Definition entry_wf (e : QueueEntry) : Prop :=
  is_uint64 (Sequence e) /\ strlen (Location e) <= MaxUint16 /\
  is_uint32 (len (Metadata e)) /\ Forall metadata_wf (Metadata e) /\
  entryBodyLen e <= MaxUint32.

Definition footerBytes (count next epoch : Z) : bytes :=
  le_put 4 count ++ le_put 8 next ++ le_put 8 epoch ++ le_put 2 manifestVersion.

Definition serialize (es : list QueueEntry) (next epoch : Z) : bytes :=
  (es ≫= entryBytes) ++ footerBytes (len es) next epoch.

(** *** Sizes *)

Lemma mFooterSize_eq : mFooterSize = 22.
Proof. done. Qed.

Lemma len_metadataBytes m : len (metadataBytes m) = metadataSize m.
Proof.
  unfold metadataBytes, metadataSize, mStartIndexSize, mIngestionTimeMsSize, mMetadataLenSize.
  len_lia.
Qed.

Lemma len_metadatas ms : len (ms ≫= metadataBytes) = sumZ (metadataSize <$> ms).
Proof.
  induction ms as [|m ms IH]; [done|].
  rewrite bind_cons, len_app, len_metadataBytes, IH, fmap_cons, sumZ_cons. done.
Qed.

Lemma len_entryBody e : len (entryBody e) = entryBodyLen e.
Proof.
  unfold entryBody, entryBodyLen, strlen, mSequenceSize, mLocationLenSize, mMetadataCountSize.
  autorewrite with len. rewrite len_metadatas. lia.
Qed.

Lemma metadataSize_pos m : 16 <= metadataSize m.
Proof.
  unfold metadataSize, mStartIndexSize, mIngestionTimeMsSize, mMetadataLenSize. len_pose. lia.
Qed.

Lemma sum_metadataSize_nonneg ms : 0 <= sumZ (metadataSize <$> ms).
Proof.
  apply sumZ_nonneg, Forall_fmap, Forall_true. intros m. cbn.
  pose proof (metadataSize_pos m). lia.
Qed.

Lemma entryBodyLen_pos e : 14 <= entryBodyLen e.
Proof.
  unfold entryBodyLen, strlen, mSequenceSize, mLocationLenSize, mMetadataCountSize.
  pose proof (sum_metadataSize_nonneg (Metadata e)). len_pose. lia.
Qed.

Lemma len_entryBytes e : len (entryBytes e) = 4 + entryBodyLen e.
Proof. unfold entryBytes. rewrite len_app, len_entryBody, len_le_put. lia. Qed.

Lemma len_footerBytes count next epoch : len (footerBytes count next epoch) = mFooterSize.
Proof. rewrite mFooterSize_eq. unfold footerBytes. len_lia. Qed.

Lemma len_serialize es next epoch :
  len (serialize es next epoch) = len (es ≫= entryBytes) + mFooterSize.
Proof. unfold serialize. by rewrite len_app, len_footerBytes. Qed.

(** *** The encoder writes the format *)

Lemma appendMetadata_spec buf m : appendMetadata buf m = buf ++ metadataBytes m.
Proof.
  unfold appendMetadata, metadataBytes, AppendUint32, AppendUint64.
  by rewrite le_put_uint32, le_put_uint64, <- !(assoc_L (++)).
Qed.

Lemma foldl_appendMetadata buf ms :
  foldl appendMetadata buf ms = buf ++ (ms ≫= metadataBytes).
Proof.
  rewrite <- foldl_append. revert buf. induction ms as [|m ms IH]; intros buf; cbn; [done|].
  by rewrite appendMetadata_spec, IH.
Qed.

Lemma metadataSizeLoop_spec ms d :
  Forall payload_fits ms -> metadataSizeLoop ms d = Ret (d + sumZ (metadataSize <$> ms)).
Proof.
  intros H. revert d. induction H as [|m ms Hm _ IH]; intros d; cbn [metadataSizeLoop].
  - rewrite fmap_nil, sumZ_nil. f_equal. lia.
  - unfold payload_fits in Hm. case_test; [lia|].
    rewrite IH, fmap_cons, sumZ_cons. unfold metadataSize. f_equal. lia.
Qed.

Lemma metadataSizeLoop_cases ms d :
  match metadataSizeLoop ms d with
  | Ret _ => Forall payload_fits ms
  | Fail e => errors_Is e ErrInvalidInput = true /\ ~ Forall payload_fits ms
  | Panic => False
  end.
Proof.
  revert d. induction ms as [|m ms IH]; intros d; cbn [metadataSizeLoop]; [constructor|].
  case_test.
  - split; [apply errors_Is_wrapped|]. rewrite Forall_cons. unfold payload_fits at 1. lia.
  - specialize (IH (d + (mStartIndexSize + mIngestionTimeMsSize + mMetadataLenSize
                         + len (Payload m)))).
    assert (payload_fits m) by (unfold payload_fits; lia).
    destruct (metadataSizeLoop ms _); rewrite ?Forall_cons; tauto.
Qed.

Lemma encodeQueueEntry_Ret e : entry_encodable e -> encodeQueueEntry e = Ret (entryBytes e).
Proof.
  intros [Hloc Hms]. unfold encodeQueueEntry. case_test; [lia|].
  rewrite metadataSizeLoop_spec by done. cbn [mbind outcome_bind]. f_equal.
  rewrite foldl_appendMetadata.
  unfold entryBytes, entryBody, entryBodyLen, AppendUint16, AppendUint32, AppendUint64.
  by rewrite !le_put_uint32, le_put_uint16, app_nil_l, <- !(assoc_L (++)).
Qed.

Lemma encodeQueueEntry_Ret_inv e b :
  encodeQueueEntry e = Ret b -> entry_encodable e /\ b = entryBytes e.
Proof.
  intros H. assert (entry_encodable e) as He.
  { unfold encodeQueueEntry in H. case_test; [done|]. split; [lia|].
    apply bind_Ret_inv in H as (d & Hd & _).
    pose proof (metadataSizeLoop_cases (Metadata e) mMetadataCountSize) as Hc.
    by rewrite Hd in Hc. }
  rewrite encodeQueueEntry_Ret in H by done. naive_solver.
Qed.

Lemma entry_wf_encodable e : entry_wf e -> entry_encodable e.
Proof.
  intros (_ & Hl & _ & Hms & _). split; [done|].
  eapply Forall_impl; [exact Hms|]. by intros m (_ & _ & ?).
Qed.

(** *** The decoder reads the format *)

Lemma decodeMetadata_spec ms : forall d off y entryEnd acc,
  Forall metadata_wf ms -> suffix_at d off ((ms ≫= metadataBytes) ++ y) ->
  off + sumZ (metadataSize <$> ms) <= entryEnd ->
  decodeMetadata (length ms) d off entryEnd acc = Ret (acc ++ ms).
Proof.
  induction ms as [|m ms IH]; intros d off y entryEnd acc Hwf Hs Hend.
  { cbn. by rewrite app_nil_r. }
  apply Forall_cons in Hwf as [(Hsi & Htime & Hpl) Hwf].
  rewrite fmap_cons, sumZ_cons in Hend.
  unfold metadataSize at 1, mStartIndexSize, mIngestionTimeMsSize, mMetadataLenSize in Hend.
  pose proof (sum_metadataSize_nonneg ms). pose proof (len_nonneg (Payload m)).
  rewrite bind_cons in Hs. unfold metadataBytes at 1 in Hs. rewrite <- !(assoc_L (++)) in Hs.
  cbn [length decodeMetadata].
  unfold mStartIndexSize, mIngestionTimeMsSize, mMetadataLenSize.
  rewrite fail_if_pass by (apply Z.ltb_ge; lia).
  rewrite (suffix_at_read32 _ _ _ _ Hs) by done. advance Hs. cbn [mbind outcome_bind].
  rewrite fail_if_pass by (apply Z.ltb_ge; lia).
  rewrite (suffix_at_read64 _ _ _ _ Hs). advance Hs. cbn [mbind outcome_bind].
  rewrite fail_if_pass by (apply Z.ltb_ge; lia).
  rewrite (suffix_at_read32 _ _ _ _ Hs) by (by split). advance Hs. cbn [mbind outcome_bind].
  rewrite fail_if_pass by (apply Z.ltb_ge; lia).
  rewrite (suffix_at_slice _ _ _ _ _ Hs) by done. cbn [mbind outcome_bind].
  apply suffix_at_advance with (n := len (Payload m)) in Hs; [|done].
  rewrite (IH _ _ y) by (done || lia).
  rewrite int64_uint64, <- (assoc_L (++)) by done. by destruct m.
Qed.

Lemma decodeQueueEntry_spec e d off y end_ :
  entry_wf e -> suffix_at d off (entryBytes e ++ y) ->
  off + len (entryBytes e) <= end_ ->
  decodeQueueEntry d off end_ = Ret (e, off + len (entryBytes e)).
Proof.
  intros (Hseq & Hloc & Hcnt & Hms & Hbody) Hs Hend.
  rewrite len_entryBytes in *. pose proof (entryBodyLen_pos e).
  pose proof (sum_metadataSize_nonneg (Metadata e)).
  unfold entryBytes, entryBody in Hs. rewrite <- !(assoc_L (++)) in Hs.
  assert (entryBodyLen e = 14 + strlen (Location e) + sumZ (metadataSize <$> Metadata e)) as Hbl.
  { unfold entryBodyLen, mSequenceSize, mLocationLenSize, mMetadataCountSize. lia. }
  assert (0 <= strlen (Location e)) by apply len_nonneg.
  unfold decodeQueueEntry, mEntryLenSize, mSequenceSize, mLocationLenSize, mMetadataCountSize.
  rewrite fail_if_pass by (apply Z.ltb_ge; lia).
  rewrite (suffix_at_read32 _ _ _ _ Hs) by (split; lia). advance Hs. cbn [mbind outcome_bind].
  rewrite fail_if_pass by (apply Z.ltb_ge; lia).
  rewrite (suffix_at_read64 _ _ _ _ Hs), uint64_id by done. advance Hs. cbn [mbind outcome_bind].
  rewrite (suffix_at_read16 _ _ _ _ Hs) by (by split). advance Hs. cbn [mbind outcome_bind].
  rewrite fail_if_pass by (apply Z.ltb_ge; lia).
  rewrite (suffix_at_slice _ _ _ _ _ Hs) by done. cbn [mbind outcome_bind].
  apply suffix_at_advance with (n := strlen (Location e)) in Hs; [|done].
  rewrite (suffix_at_read32 _ _ _ _ Hs) by done. advance Hs. cbn [mbind outcome_bind].
  replace (Z.to_nat (len (Metadata e))) with (length (Metadata e)) by (unfold len; lia).
  rewrite (decodeMetadata_spec _ _ _ y) by (done || lia).
  cbn [mbind outcome_bind]. rewrite bytes_string_bytes, app_nil_l.
  destruct e; cbn in *. do 2 f_equal. lia.
Qed.

Lemma decodeEntries_spec es : forall d off y footerStart acc,
  Forall entry_wf es -> suffix_at d off ((es ≫= entryBytes) ++ y) ->
  off + len (es ≫= entryBytes) <= footerStart ->
  decodeEntries (length es) d off footerStart acc = Ret (acc ++ es).
Proof.
  induction es as [|e es IH]; intros d off y footerStart acc Hwf Hs Hend.
  { cbn. by rewrite app_nil_r. }
  apply Forall_cons in Hwf as [He Hwf]. rewrite bind_cons in Hs, Hend.
  rewrite <- (assoc_L (++)) in Hs. rewrite len_app in Hend.
  pose proof (len_nonneg (es ≫= entryBytes)). cbn [length decodeEntries].
  rewrite (decodeQueueEntry_spec _ _ _ _ _ He Hs) by lia. cbn [mbind outcome_bind fst snd].
  apply suffix_at_advance with (n := len (entryBytes e)) in Hs; [|done].
  rewrite (IH _ _ y) by (done || lia). by rewrite <- (assoc_L (++)).
Qed.

(** *** Totality of the decoder

    The reads of [decodeQueueEntry] that precede the check of the declared
    entry length may run past [end_], by at most the ten bytes of the sequence
    and location-length fields; the footer that follows keeps them in range. *)

(** What a decoding step guarantees: no panic, and on success a well-formed
    value and an offset that advances within the data. *)
Definition decodes_within {A} (P : A -> Prop) (r : outcome A) : Prop :=
  match r with Ret a => P a | Fail e => errors_Is e ErrSerialization = true | Panic => False end.

Lemma decodes_within_fail_if {A} (P : A -> Prop) b msg (k : unit -> outcome A) :
  (b = false -> decodes_within P (k tt)) ->
  decodes_within P (fail_if b (serializationErr msg) ≫= k).
Proof. destruct b; cbn; [done|auto]. Qed.

Lemma decodes_within_read {A} (P : A -> Prop) n d off (k : Z -> outcome A) :
  0 <= off -> off + Z.of_nat n <= len d ->
  (forall v, 0 <= v < 2 ^ (8 * Z.of_nat n) -> decodes_within P (k v)) ->
  decodes_within P (read_uint n d off ≫= k).
Proof. intros ?? Hk. destruct (read_uint_Ret n d off) as (v & -> & ?); [done..|]. by apply Hk. Qed.

Lemma decodes_within_mono {A} (P Q : A -> Prop) (r : outcome A) :
  decodes_within P r -> (forall a, P a -> Q a) -> decodes_within Q r.
Proof. destruct r; cbn; auto. Qed.

Lemma decodes_within_slice {A B} (P : A -> Prop) (d : list B) lo hi (k : list B -> outcome A) :
  0 <= lo <= hi -> hi <= len d ->
  (forall s, len s = hi - lo -> decodes_within P (k s)) ->
  decodes_within P (slice d lo hi ≫= k).
Proof.
  intros. rewrite slice_Ret by done. cbn [mbind outcome_bind].
  match goal with H : forall _, _ |- _ => apply H end.
  rewrite len_take; [done|]. rewrite len_drop; lia.
Qed.

Lemma decodeMetadata_within n : forall d off entryEnd acc,
  0 <= off -> entryEnd <= len d -> Forall metadata_wf acc ->
  decodes_within (fun ms =>
      Forall metadata_wf ms /\ length ms = (length acc + n)%nat /\
      (off <= entryEnd ->
       off + sumZ (metadataSize <$> ms) <= entryEnd + sumZ (metadataSize <$> acc)))
    (decodeMetadata n d off entryEnd acc).
Proof.
  induction n as [|n IH]; intros d off entryEnd acc Hoff Hend Hacc; cbn [decodeMetadata].
  { split_and!; [done|lia|lia]. }
  unfold mStartIndexSize, mIngestionTimeMsSize, mMetadataLenSize.
  apply decodes_within_fail_if; intros ?%Z.ltb_ge.
  apply decodes_within_read; [lia..|intros si Hsi].
  apply decodes_within_fail_if; intros ?%Z.ltb_ge.
  apply decodes_within_read; [lia..|intros tm Htm].
  apply decodes_within_fail_if; intros ?%Z.ltb_ge.
  apply decodes_within_read; [lia..|intros ml Hml].
  apply decodes_within_fail_if; intros ?%Z.ltb_ge.
  apply decodes_within_slice; [lia..|intros pl Hpl].
  set (m := {| StartIndex := si |}). set (off' := off + 4 + 8 + 4 + ml).
  assert (metadata_wf m) as Hm.
  { split_and!; cbn; [unfold is_uint32, MaxUint32; lia|apply int64_range|].
    unfold payload_fits, MaxUint32; cbn; lia. }
  eapply decodes_within_mono.
  { apply (IH d off' entryEnd (acc ++ [m])); [lia|lia|].
    apply Forall_app; split; [done|by apply Forall_singleton]. }
  intros ms (Hms & Hn & Hsz). split_and!; [done|rewrite Hn, length_app; cbn; lia|]. intros _.
  rewrite fmap_app, sumZ_app, fmap_cons, fmap_nil, sumZ_cons, sumZ_nil in Hsz.
  unfold metadataSize at 3, mStartIndexSize, mIngestionTimeMsSize, mMetadataLenSize in Hsz.
  cbn [Payload m] in Hsz. lia.
Qed.

Lemma decodeQueueEntry_within d off end_ :
  0 <= off -> end_ + mFooterSize <= len d ->
  decodes_within (fun r => entry_wf r.1 /\ off + 4 + entryBodyLen r.1 <= r.2 <= end_)
    (decodeQueueEntry d off end_).
Proof.
  rewrite mFooterSize_eq. intros Hoff Hend.
  unfold decodeQueueEntry, mEntryLenSize, mSequenceSize, mLocationLenSize, mMetadataCountSize.
  apply decodes_within_fail_if; intros ?%Z.ltb_ge.
  apply decodes_within_read; [lia..|intros el Hel].
  apply decodes_within_fail_if; intros ?%Z.ltb_ge.
  apply decodes_within_read; [lia..|intros sq Hsq].
  apply decodes_within_read; [lia..|intros ll Hll].
  apply decodes_within_fail_if; intros ?%Z.ltb_ge.
  apply decodes_within_slice; [lia..|intros loc Hloc].
  apply decodes_within_read; [lia..|intros mc Hmc].
  set (off' := off + 4 + 8 + 2 + ll + 4). set (entryEnd := off + 4 + el) in *.
  pose proof (decodeMetadata_within (Z.to_nat mc) d off' entryEnd []) as Hmd.
  destruct (decodeMetadata _ _ _ _ _) as [ms|e|]; cbn in *; [|apply Hmd; [lia..|constructor]..].
  destruct Hmd as (Hms & Hn & Hsz); [lia..|constructor|]. specialize (Hsz ltac:(lia)).
  change (sumZ []) with 0 in Hsz.
  assert (strlen (bytes_string loc) = ll) as Hsl.
  { unfold strlen. rewrite string_bytes_string. lia. }
  assert (len ms = mc) as Hlms by (unfold len; lia).
  unfold entry_wf, entryBodyLen, mSequenceSize, mLocationLenSize, mMetadataCountSize; cbn.
  rewrite Hsl, Hlms. unfold is_uint64, is_uint32, MaxUint16, MaxUint32, MaxUint64.
  split_and!; try done; lia.
Qed.

Lemma decodeEntries_within n : forall d off footerStart acc,
  0 <= off -> footerStart + mFooterSize <= len d -> Forall entry_wf acc ->
  decodes_within (fun es => Forall entry_wf es /\ length es = (length acc + n)%nat)
    (decodeEntries n d off footerStart acc).
Proof.
  induction n as [|n IH]; intros d off fs acc Hoff Hfs Hacc; cbn [decodeEntries].
  { split; [done|lia]. }
  pose proof (decodeQueueEntry_within d off fs Hoff Hfs) as He.
  destruct (decodeQueueEntry d off fs) as [[e off']|e|]; cbn in *; [|done..].
  destruct He as [He Hoff']. pose proof (entryBodyLen_pos e).
  eapply decodes_within_mono.
  { apply IH; [lia|done|]. apply Forall_app; split; [done|by apply Forall_singleton]. }
  intros es [Hes Hn]. split; [done|]. rewrite Hn, length_app. cbn. lia.
Qed.

Lemma DecodeManifestEntries_within d :
  decodes_within (fun es => Forall entry_wf es /\ is_uint32 (len es)) (DecodeManifestEntries d).
Proof.
  unfold DecodeManifestEntries. apply decodes_within_fail_if; intros Hd%Z.ltb_ge.
  rewrite mFooterSize_eq in *.
  apply decodes_within_read; [lia..|intros count Hc].
  eapply decodes_within_mono.
  { apply decodeEntries_within; [lia|rewrite mFooterSize_eq; lia|constructor]. }
  intros es [Hes Hn]. split; [done|]. unfold is_uint32, len, MaxUint32 in *. cbn in Hn. lia.
Qed.

(** *** Entries whose body outgrows the entry length *)

(** Whatever end the loop is given, the metadata it returns is what the data
    holds. *)
Lemma decodeMetadata_reads ms : forall d off y entryEnd acc r,
  Forall metadata_wf ms -> suffix_at d off ((ms ≫= metadataBytes) ++ y) ->
  decodeMetadata (length ms) d off entryEnd acc = Ret r -> r = acc ++ ms.
Proof.
  induction ms as [|m ms IH]; intros d off y entryEnd acc r Hwf Hs H.
  { cbn in H. simplify_eq. by rewrite app_nil_r. }
  apply Forall_cons in Hwf as [(Hsi & Htime & Hpl) Hwf].
  rewrite bind_cons in Hs. unfold metadataBytes at 1 in Hs. rewrite <- !(assoc_L (++)) in Hs.
  cbn [length decodeMetadata] in H.
  unfold mStartIndexSize, mIngestionTimeMsSize, mMetadataLenSize in H.
  apply fail_if_bind_inv in H as [_ H].
  rewrite (suffix_at_read32 _ _ _ _ Hs) in H by done. advance Hs.
  apply fail_if_bind_inv in H as [_ H].
  rewrite (suffix_at_read64 _ _ _ _ Hs) in H. advance Hs.
  apply fail_if_bind_inv in H as [_ H].
  rewrite (suffix_at_read32 _ _ _ _ Hs) in H by (split; [apply len_nonneg|done]). advance Hs.
  apply fail_if_bind_inv in H as [_ H].
  rewrite (suffix_at_slice _ _ _ _ _ Hs) in H by done. cbn [mbind outcome_bind] in H.
  apply suffix_at_advance with (n := len (Payload m)) in Hs; [|done].
  apply (IH _ _ y) in H; [|done..].
  rewrite int64_uint64, <- (assoc_L (++)) in H by done. subst r. by destruct m.
Qed.

(** Within its widths, but with a body longer than the entry length can say. *)
Definition entry_oversize (e : QueueEntry) : Prop :=
  entry_encodable e /\ is_uint64 (Sequence e) /\ is_uint32 (len (Metadata e)) /\
  Forall metadata_wf (Metadata e) /\ MaxUint32 < entryBodyLen e.

Lemma decodeQueueEntry_oversize e d off y end_ :
  entry_oversize e -> suffix_at d off (entryBytes e ++ y) -> end_ + mFooterSize <= len d ->
  exists err, decodeQueueEntry d off end_ = Fail err.
Proof.
  intros ([Hloc _] & Hseq & Hcnt & Hms & Hbig) Hs Hend.
  pose proof (decodeQueueEntry_within d off end_ (proj1 (proj1 Hs)) Hend) as Hw.
  destruct (decodeQueueEntry d off end_) as [[e' o]|err|] eqn:H; [|by eauto|done].
  destruct Hw as [_ [Hw _]]. cbn [fst snd] in Hw. exfalso.
  unfold entryBytes, entryBody in Hs. rewrite <- !(assoc_L (++)) in Hs.
  unfold decodeQueueEntry, mEntryLenSize, mSequenceSize, mLocationLenSize,
    mMetadataCountSize in H.
  apply fail_if_bind_inv in H as [_ H].
  rewrite (suffix_at_read _ _ _ _ _ Hs) in H. advance Hs. cbn [mbind outcome_bind] in H.
  apply fail_if_bind_inv in H as [_ H].
  rewrite (suffix_at_read64 _ _ _ _ Hs), uint64_id in H by done. advance Hs.
  cbn [mbind outcome_bind] in H.
  rewrite (suffix_at_read16 _ _ _ _ Hs) in H by (split; [apply len_nonneg|done]). advance Hs.
  cbn [mbind outcome_bind] in H. apply fail_if_bind_inv in H as [_ H].
  rewrite (suffix_at_slice _ _ _ _ _ Hs) in H by done. cbn [mbind outcome_bind] in H.
  apply suffix_at_advance with (n := strlen (Location e)) in Hs; [|done].
  rewrite (suffix_at_read32 _ _ _ _ Hs) in H by done. advance Hs. cbn [mbind outcome_bind] in H.
  replace (Z.to_nat (len (Metadata e))) with (length (Metadata e)) in H by (unfold len; lia).
  apply bind_Ret_inv in H as (ms & Hmd & H).
  apply (decodeMetadata_reads _ _ _ y) in Hmd; [|done..]. rewrite app_nil_l in Hmd.
  simplify_eq. unfold entryBodyLen in *. cbn in Hw. rewrite bytes_string_bytes in Hw.
  match type of Hbig with _ < ?b => pose proof (Z.mod_pos_bound b (2 ^ 32)) end.
  change (2 ^ (8 * Z.of_nat 4)) with (2 ^ 32) in Hw. unfold MaxUint32 in *. lia.
Qed.

Lemma decodeEntries_oversize es1 : forall e d off y footerStart acc n,
  Forall entry_wf es1 -> entry_oversize e ->
  suffix_at d off ((es1 ≫= entryBytes) ++ entryBytes e ++ y) ->
  off + len (es1 ≫= entryBytes) <= footerStart -> footerStart + mFooterSize <= len d ->
  exists err, decodeEntries (length es1 + S n) d off footerStart acc = Fail err.
Proof.
  induction es1 as [|e1 es1 IH]; intros e d off y fs acc n Hwf Hbig Hs Hend Hfs.
  { cbn [length Nat.add decodeEntries].
    destruct (decodeQueueEntry_oversize e d off y fs) as [err ->]; [done..|]. by eexists. }
  apply Forall_cons in Hwf as [He Hwf]. rewrite bind_cons in Hs, Hend.
  rewrite <- (assoc_L (++)) in Hs. rewrite len_app in Hend.
  pose proof (len_nonneg (es1 ≫= entryBytes)). cbn [length Nat.add decodeEntries].
  rewrite (decodeQueueEntry_spec _ _ _ _ _ He Hs) by lia. cbn [mbind outcome_bind fst snd].
  apply suffix_at_advance with (n := len (entryBytes e1)) in Hs; [|done].
  by apply (IH e _ _ y); [..|lia|].
Qed.

(** *** The in-memory manifest *)

Lemma suffix_at_footer (body : bytes) count next epoch :
  suffix_at (body ++ footerBytes count next epoch) (len body) (footerBytes count next epoch).
Proof. by eapply suffix_at_intro. Qed.

(** Any bytes followed by a footer are accepted; the counters come from it. *)
Lemma manifestFromBytes_footer body count next epoch :
  is_uint64 next -> is_uint64 epoch ->
  let data := body ++ footerBytes count next epoch in
  manifestFromBytes data =
    Ret {| m_data := data; m_appended := []; m_appendedCount := 0;
           m_nextSequence := next; m_epoch := epoch |}.
Proof.
  intros Hn He data. assert (len data = len body + 22) as Hlen.
  { unfold data. rewrite len_app, len_footerBytes, mFooterSize_eq. done. }
  pose proof (len_nonneg body).
  assert (suffix_at data (len body) (footerBytes count next epoch)) as Hs
    by apply suffix_at_footer.
  unfold manifestFromBytes, mVersionSize, mEpochSize, mSequenceSize.
  rewrite mFooterSize_eq, Hlen.
  rewrite fail_if_pass by (apply Z.eqb_neq; lia).
  rewrite fail_if_pass by (apply Z.ltb_ge; lia).
  unfold footerBytes in Hs. advance Hs.
  replace (len body + 22 - 2 - 8 - 8) with (len body + 4) by lia.
  rewrite (suffix_at_read64 _ _ _ _ Hs), uint64_id by done. advance Hs.
  replace (len body + 22 - 2 - 8) with (len body + 4 + 8) by lia.
  rewrite (suffix_at_read64 _ _ _ _ Hs), uint64_id by done. advance Hs.
  replace (len body + 22 - 2) with (len body + 4 + 8 + 8) by lia.
  unfold slice_from. rewrite (suffix_at_slice _ (le_put 2 manifestVersion) [] _ _)
    by (by rewrite ?app_nil_r || (rewrite len_le_put; lia)).
  cbn [mbind outcome_bind]. rewrite Uint16_put. done.
Qed.

Lemma existingEntriesCount_footer body count next epoch m :
  m_data m = body ++ footerBytes count next epoch ->
  existingEntriesCount m = Ret (uint32 count).
Proof.
  intros Hm. unfold existingEntriesCount. rewrite Hm, len_app, len_footerBytes, mFooterSize_eq.
  case_test; [len_pose; lia|].
  replace (len body + 22 - 22) with (len body) by lia.
  unfold footerBytes. apply (suffix_at_read 4 _ _ _ _ (suffix_at_footer body count next epoch)).
Qed.

(** The manifest holds the entries [base], read from the store, and the entries
    [news], appended since. *)
Definition manifest_repr (m : manifest) (base news : list QueueEntry) (next epoch : Z) : Prop :=
  m_data m = serialize base next epoch /\
  m_appended m = (news ≫= entryBytes) /\
  m_appendedCount m = len news /\
  m_nextSequence m = uint64 (next + len news) /\
  m_epoch m = epoch.

Lemma manifestFromBytes_repr base next epoch :
  is_uint64 next -> is_uint64 epoch ->
  exists m, manifestFromBytes (serialize base next epoch) = Ret m /\
    manifest_repr m base [] next epoch.
Proof.
  intros Hn He. unfold serialize. rewrite manifestFromBytes_footer by done.
  eexists; split; [done|]. unfold manifest_repr; cbn.
  change (len []) with 0. rewrite Z.add_0_r, uint64_id by done. done.
Qed.

Lemma emptyManifest_repr : manifest_repr emptyManifest [] [] 0 0.
Proof. done. Qed.

(** The entry as [append] writes it. *)
Definition sequenced (seq : Z) (e : QueueEntry) : QueueEntry :=
  {| Sequence := seq; Location := Location e; Metadata := Metadata e |}.

Lemma entry_encodable_sequenced seq e : entry_encodable (sequenced seq e) <-> entry_encodable e.
Proof. done. Qed.

Lemma append_repr m base news next epoch e :
  manifest_repr m base news next epoch -> entry_encodable e ->
  exists m', append m e = Ret m' /\
    manifest_repr m' base (news ++ [sequenced (uint64 (next + len news)) e]) next epoch.
Proof.
  intros (Hd & Ha & Hc & Hn & He) Henc. unfold append. fold (sequenced (m_nextSequence m) e).
  rewrite encodeQueueEntry_Ret by done. cbn [mbind outcome_bind]. rewrite <- Hn.
  eexists; split; [done|]. split_and!; cbn; [done| | | |done].
  - rewrite bind_app, Ha. f_equal. cbn. by rewrite app_nil_r.
  - rewrite Hc. len_lia.
  - rewrite Hn. unfold uint64. rewrite Zplus_mod_idemp_l. f_equal. len_lia.
Qed.

Lemma entryBytes_nonempty e : 0 < len (entryBytes e).
Proof. rewrite len_entryBytes. pose proof (entryBodyLen_pos e). lia. Qed.

Lemma toBytes_repr_nil m base next epoch :
  manifest_repr m base [] next epoch -> toBytes m = Ret (serialize base next epoch).
Proof. intros (Hd & Ha & _). unfold toBytes. by rewrite Ha, Hd. Qed.

Lemma toBytes_repr m base news next epoch :
  manifest_repr m base news next epoch -> news <> [] ->
  is_uint32 (len base) -> is_int64 (len news) ->
  toBytes m =
    if MaxUint32 <? len base + len news
    then Fail (serializationErr ("total entry count " +:+ pretty (len base + len news)
                                 +:+ " exceeds u32 max"))
    else Ret (serialize (base ++ news) (uint64 (next + len news)) epoch).
Proof.
  intros (Hd & Ha & Hc & Hn & He) Hne Hb Hnews. unfold toBytes. rewrite Ha.
  destruct news as [|e news]; [done|].
  assert ((len ((e :: news) ≫= entryBytes) =? 0) = false) as ->.
  { apply Z.eqb_neq. rewrite bind_cons, len_app. pose proof (entryBytes_nonempty e).
    pose proof (len_nonneg (news ≫= entryBytes)). lia. }
  rewrite (existingEntriesCount_footer (base ≫= entryBytes) (len base) next epoch)
    by (by rewrite Hd).
  cbn [mbind outcome_bind]. rewrite Hd, len_serialize.
  destruct (Z.ltb_spec 0 (len (base ≫= entryBytes) + mFooterSize));
    [|rewrite mFooterSize_eq in *; len_pose; lia].
  replace (len (base ≫= entryBytes) + mFooterSize - mFooterSize) with (len (base ≫= entryBytes))
    by lia.
  unfold slice_to. rewrite (suffix_at_slice _ (base ≫= entryBytes) (footerBytes (len base) next epoch))
    by (by apply (suffix_at_intro _ []) || lia).
  cbn [mbind outcome_bind]. rewrite uint32_id, Hc by done.
  assert (uint64 (uint64 (len base) + uint64 (len (e :: news))) = len base + len (e :: news)) as ->.
  { unfold is_uint32, is_int64, MaxUint32 in *. pose proof (len_nonneg (e :: news)).
    rewrite !uint64_id; rewrite ?uint64_id; unfold is_uint64, MaxUint64; lia. }
  case_test; [done|].
  f_equal. unfold serialize, footerBytes, AppendUint16, AppendUint32, AppendUint64.
  rewrite Hn, He, le_put_uint32, bind_app, len_app, app_nil_l, <- !(assoc_L (++)). done.
Qed.

Lemma DecodeManifestEntries_body es next epoch :
  Forall entry_wf es -> is_uint32 (len es) ->
  DecodeManifestEntries (serialize es next epoch) = Ret es.
Proof.
  intros Hwf Hlen. unfold DecodeManifestEntries. rewrite len_serialize.
  rewrite fail_if_pass by (apply Z.ltb_ge; len_pose; lia).
  replace (len (es ≫= entryBytes) + mFooterSize - mFooterSize)
    with (len (es ≫= entryBytes)) by lia.
  pose proof (suffix_at_footer (es ≫= entryBytes) (len es) next epoch) as Hs.
  unfold serialize, footerBytes in *. rewrite (suffix_at_read32 _ _ _ _ Hs) by done.
  cbn [mbind outcome_bind].
  replace (Z.to_nat (len es)) with (length es) by (unfold len; lia).
  erewrite decodeEntries_spec; [done|done|by eapply (suffix_at_intro _ [])|lia].
Qed.

(** ** Writing a manifest in many steps *)

(** The entries as consecutive [append]s write them. *)
Fixpoint numbered (next : Z) (es : list QueueEntry) : list QueueEntry :=
  match es with
  | [] => []
  | e :: es => sequenced next e :: numbered (uint64 (next + 1)) es
  end.

Lemma len_numbered es : forall next, len (numbered next es) = len es.
Proof. induction es as [|e es IH]; intros next; cbn; [done|]. by rewrite !len_cons, IH. Qed.

Lemma numbered_app es1 es2 : forall next,
  is_uint64 next -> numbered next (es1 ++ es2) = numbered next es1 ++ numbered (uint64 (next + len es1)) es2.
Proof.
  induction es1 as [|e es1 IH]; intros next Hn; cbn; [by rewrite len_nil, Z.add_0_r, uint64_id|].
  rewrite IH by apply uint64_range. f_equal. f_equal. f_equal. unfold uint64.
  rewrite Zplus_mod_idemp_l. f_equal. len_lia.
Qed.

Lemma numbered_wf es : forall next, is_uint64 next -> Forall entry_wf es -> Forall entry_wf (numbered next es).
Proof.
  induction es as [|e es IH]; intros next Hn; [constructor|]. cbn. intros [He Hes]%Forall_cons.
  constructor; [|by apply IH; [apply uint64_range|]]. destruct He as (_ & He). split; [done|exact He].
Qed.

Lemma numbered_fields es : forall next,
  Forall2 (fun e e' => Location e' = Location e /\ Metadata e' = Metadata e) es (numbered next es).
Proof. induction es as [|e es IH]; intros next; cbn; by constructor. Qed.

Lemma numbered_sequences es : forall next,
  0 <= next -> next + len es <= MaxUint64 -> Sequence <$> numbered next es = seqZ next (len es).
Proof.
  induction es as [|e es IH]; intros next Hn Hl; [done|]. rewrite len_cons in Hl |- *. len_pose.
  rewrite seqZ_cons by lia. cbn. f_equal. rewrite uint64_id by (unfold is_uint64; lia).
  rewrite IH by lia. f_equal; lia.
Qed.

Lemma appendEntries_repr es : forall m base news next epoch,
  manifest_repr m base news next epoch -> Forall entry_encodable es ->
  exists m', appendEntries m es = Ret m' /\
    manifest_repr m' base (news ++ numbered (uint64 (next + len news)) es) next epoch.
Proof.
  induction es as [|e es IH]; intros m base news next epoch Hm Hi; cbn.
  { exists m. by rewrite app_nil_r. }
  apply Forall_cons in Hi as [Hi Hes].
  destruct (append_repr m base news next epoch e Hm Hi) as (m1 & -> & Hm1). cbn [mbind outcome_bind].
  destruct (IH _ _ _ _ _ Hm1 Hes) as (m2 & -> & Hm2).
  exists m2. split; [done|]. rewrite <- (assoc_L (++)) in Hm2. cbn in Hm2.
  replace (uint64 (next + len (news ++ [_]))) with (uint64 (uint64 (next + len news) + 1)) in Hm2;
    [done|].
  unfold uint64. rewrite Zplus_mod_idemp_l. f_equal. len_lia.
Qed.

Lemma toBytes_numbered m base es next epoch :
  manifest_repr m base (numbered next es) next epoch -> is_uint64 next ->
  len base + len es <= MaxUint32 ->
  toBytes m = Ret (serialize (base ++ numbered next es) (uint64 (next + len es)) epoch).
Proof.
  intros Hm Hn Hl. len_pose. destruct es as [|e es].
  { cbn [numbered] in *. rewrite (toBytes_repr_nil _ _ _ _ Hm), app_nil_r, len_nil, Z.add_0_r, uint64_id by done. done. }
  rewrite (toBytes_repr _ _ _ _ _ Hm); rewrite ?len_numbered; [|done|unfold is_uint32; lia|
    unfold is_int64, MaxUint32 in *; lia].
  destruct (Z.ltb_spec MaxUint32 (len base + len (e :: es))); [lia|done].
Qed.

Lemma rewriteManifest_serialize groups : forall base next epoch,
  is_uint64 next -> is_uint64 epoch -> Forall entry_wf (concat groups) ->
  len base + len (concat groups) <= MaxUint32 ->
  rewriteManifest (serialize base next epoch) groups =
    Ret (serialize (base ++ numbered next (concat groups)) (uint64 (next + len (concat groups))) epoch).
Proof.
  induction groups as [|es groups IH]; intros base next epoch Hn He Hwf Hl; cbn [rewriteManifest concat].
  { cbn [numbered]. by rewrite app_nil_r, len_nil, Z.add_0_r, uint64_id. }
  cbn [concat] in Hwf, Hl. apply Forall_app in Hwf as [Hwf1 Hwf2]. rewrite len_app in Hl. len_pose.
  destruct (manifestFromBytes_repr base next epoch Hn He) as (m & -> & Hm). cbn [mbind outcome_bind].
  destruct (appendEntries_repr es _ _ _ _ _ Hm) as (m1 & -> & Hm1);
    [by eapply Forall_impl; [exact Hwf1|apply entry_wf_encodable]|].
  rewrite app_nil_l, len_nil, Z.add_0_r, uint64_id in Hm1 by done. cbn [mbind outcome_bind].
  rewrite (toBytes_numbered _ _ _ _ _ Hm1) by (done || lia). cbn [mbind outcome_bind].
  rewrite IH; [|apply uint64_range|done|done|rewrite len_app, len_numbered; lia].
  rewrite numbered_app, <- (assoc_L (++)) by done. do 2 f_equal.
  unfold uint64. rewrite Zplus_mod_idemp_l. f_equal. rewrite len_app. lia.
Qed.

(** ** Properties *)

(** C8. Round trip of the manifest. However the entries are split into
    writes, starting from the empty manifest and reading the manifest back
    before each write ([manifestFromBytes], [append] per entry, [toBytes]):
    every write succeeds, and decoding the last one gives the entries back, in
    the order they were appended, with their locations and every metadata range,
    and with the consecutive sequence numbers from zero. *)
Theorem manifest_roundtrip groups :
  Forall entry_wf (concat groups) -> len (concat groups) <= MaxUint32 ->
  exists data0 data es, toBytes emptyManifest = Ret data0 /\
    rewriteManifest data0 groups = Ret data /\ DecodeManifestEntries data = Ret es /\
    Sequence <$> es = seqZ 0 (len es) /\
    Forall2 (fun e e' => Location e' = Location e /\ Metadata e' = Metadata e) (concat groups) es.
Proof.
  intros Hwf Hl. assert (is_uint64 0) as H0 by (unfold is_uint64, MaxUint64; lia). len_pose.
  exists (serialize [] 0 0), (serialize (numbered 0 (concat groups)) (uint64 (len (concat groups))) 0),
    (numbered 0 (concat groups)). split_and!.
  - apply (toBytes_repr_nil _ _ _ _ emptyManifest_repr).
  - rewrite rewriteManifest_serialize by (done || (rewrite len_nil; lia)). done.
  - apply DecodeManifestEntries_body; [by apply numbered_wf|]. unfold is_uint32. rewrite len_numbered. lia.
  - rewrite len_numbered. apply numbered_sequences; unfold MaxUint32, MaxUint64 in *; lia.
  - apply numbered_fields.
Qed.

(** C35. [DecodeManifestEntries] is total and its result well typed: on
    arbitrary bytes it never panics, its only errors are serialization errors,
    and the entries it returns are within the widths and limits of the format,
    so that writing them again and decoding gives them back. *)
Theorem DecodeManifestEntries_total data :
  match DecodeManifestEntries data with
  | Ret es =>
      Forall entry_wf es /\
      forall next epoch, DecodeManifestEntries (serialize es next epoch) = Ret es
  | Fail e => errors_Is e ErrSerialization = true
  | Panic => False
  end.
Proof.
  pose proof (DecodeManifestEntries_within data) as H.
  destruct (DecodeManifestEntries data) as [es|e|]; [|done..].
  destruct H as [Hwf Hlen]. split; [done|]. intros. by apply DecodeManifestEntries_body.
Qed.

(** The outcome of [encodeQueueEntry] on every branch: it writes the
    reference encoding exactly when the location and every payload fit their
    length prefixes, and reports invalid input otherwise. *)
Theorem encodeQueueEntry_outcome e :
  match encodeQueueEntry e with
  | Ret b => entry_encodable e /\ b = entryBytes e
  | Fail err => errors_Is err ErrInvalidInput = true /\ ~ entry_encodable e
  | Panic => False
  end.
Proof.
  destruct (encodeQueueEntry e) as [b|err|] eqn:E.
  - by apply encodeQueueEntry_Ret_inv.
  - split; [|intros He; by rewrite encodeQueueEntry_Ret in E].
    unfold encodeQueueEntry in E. case_test; [simplify_eq; apply errors_Is_wrapped|].
    apply bind_Fail_inv in E as [E|(d & _ & E)]; [|done].
    pose proof (metadataSizeLoop_cases (Metadata e) mMetadataCountSize) as Hc.
    rewrite E in Hc. apply Hc.
  - unfold encodeQueueEntry in E. case_test; [done|].
    pose proof (metadataSizeLoop_cases (Metadata e) mMetadataCountSize) as Hc.
    by destruct (metadataSizeLoop _ _).
Qed.

Lemma oversize_undecodable es1 e es2 next epoch :
  Forall entry_wf es1 -> entry_oversize e -> is_uint32 (len (es1 ++ e :: es2)) ->
  exists err, DecodeManifestEntries (serialize (es1 ++ e :: es2) next epoch) = Fail err.
Proof.
  intros Hwf Hbig Hlen.
  unfold DecodeManifestEntries. rewrite len_serialize.
  rewrite fail_if_pass by (apply Z.ltb_ge; len_pose; lia).
  set (body := (es1 ++ e :: es2) ≫= entryBytes).
  replace (len body + mFooterSize - mFooterSize) with (len body) by lia.
  pose proof (suffix_at_footer body (len (es1 ++ e :: es2)) next epoch) as Hs.
  unfold serialize, footerBytes in *. fold body.
  rewrite (suffix_at_read32 _ _ _ _ Hs) by done. cbn [mbind outcome_bind].
  replace (Z.to_nat (len (es1 ++ e :: es2))) with (length es1 + S (length es2))%nat
    by (unfold len; rewrite length_app; cbn; lia).
  eapply (decodeEntries_oversize es1 e); [done|done| | |].
  - apply (suffix_at_intro _ []); [|done]. unfold body.
    rewrite bind_app, bind_cons, <- !(assoc_L (++)). done.
  - unfold body. rewrite bind_app, len_app. len_pose. lia.
  - rewrite len_app, mFooterSize_eq. len_lia.
Qed.

(** C37. The size check is per field only: an entry whose location and payloads
    all fit, but whose body is longer than the 32-bit entry length can say, is
    accepted by the encoder, written with a length that has wrapped around,
    and makes the manifest that holds it undecodable; and such a manifest is
    what a producer writes, without an error, when it appends the entry among
    others. *)
Theorem oversize_entry_corrupts_manifest es1 e es2 next epoch :
  Forall entry_wf es1 -> entry_oversize e -> is_uint32 (len (es1 ++ e :: es2)) ->
  encodeQueueEntry e = Ret (entryBytes e) /\
  (exists err, DecodeManifestEntries (serialize (es1 ++ e :: es2) next epoch) = Fail err) /\
  (Forall entry_encodable es2 ->
   exists data0 data err, toBytes emptyManifest = Ret data0 /\
     rewriteManifest data0 [es1 ++ e :: es2] = Ret data /\ DecodeManifestEntries data = Fail err).
Proof.
  intros Hwf Hbig Hlen. assert (is_uint64 0) as H0 by (unfold is_uint64, MaxUint64; lia).
  split_and!; [by apply encodeQueueEntry_Ret, Hbig|by apply oversize_undecodable|]. intros Henc.
  destruct (appendEntries_repr (es1 ++ e :: es2) _ _ _ _ _ emptyManifest_repr) as (m & Hm & Hrepr).
  { apply Forall_app; split; [eapply Forall_impl; [exact Hwf|apply entry_wf_encodable]|].
    constructor; [apply Hbig|done]. }
  destruct (oversize_undecodable (numbered 0 es1) (sequenced (uint64 (0 + len es1)) e)
    (numbered (uint64 (uint64 (0 + len es1) + 1)) es2) (uint64 (0 + len (es1 ++ e :: es2))) 0) as [err Herr].
  { by apply numbered_wf. }
  { destruct Hbig as (? & _ & Hbig). split; [done|]. split; [apply uint64_range|exact Hbig]. }
  { unfold is_uint32 in *. rewrite len_app, len_cons, !len_numbered in *. lia. }
  eexists (serialize [] 0 0), _, err. split_and!; [apply (toBytes_repr_nil _ _ _ _ emptyManifest_repr)| |exact Herr].
  cbn [rewriteManifest]. change (manifestFromBytes (serialize [] 0 0)) with (Ret emptyManifest).
  cbn [mbind outcome_bind]. rewrite Hm. cbn [mbind outcome_bind].
  rewrite (toBytes_numbered m [] (es1 ++ e :: es2) 0 0 Hrepr H0) by (rewrite len_nil; unfold is_uint32 in Hlen; lia).
  cbn [mbind outcome_bind]. by rewrite app_nil_l, numbered_app.
Qed.

(** *** Witnesses *)

(** Decides the closed bounds of a well-formedness condition. *)
Ltac solve_bounds := repeat (split || constructor); vm_compute; (reflexivity || discriminate).

Definition sample_entry (seq : Z) (loc : string) : QueueEntry :=
  {| Sequence := seq; Location := loc;
     Metadata := [{| StartIndex := 0; IngestionTimeMs := -1; Payload := string_bytes "meta" |};
                  {| StartIndex := 2; IngestionTimeMs := 1700000000000; Payload := [] |}] |}.

Definition sample_manifest : list QueueEntry :=
  [sample_entry 7 "ingest/a"; sample_entry 8 "ingest/b"].

Lemma manifest_roundtrip_witness : exists data0 data es, toBytes emptyManifest = Ret data0 /\
  rewriteManifest data0 [[sample_entry 7 "ingest/a"]; []; [sample_entry 8 "ingest/b"; sample_entry 9 "ingest/c"]] = Ret data /\
  DecodeManifestEntries data = Ret es /\ Sequence <$> es = [0; 1; 2] /\
  Location <$> es = ["ingest/a"; "ingest/b"; "ingest/c"].
Proof.
  destruct (manifest_roundtrip [[sample_entry 7 "ingest/a"]; []; [sample_entry 8 "ingest/b"; sample_entry 9 "ingest/c"]])
    as (data0 & data & es & H1 & H2 & H3 & H4 & H5); [solve_bounds|vm_compute; discriminate|].
  exists data0, data, es. split_and!; [exact H1|exact H2|exact H3| |].
  - rewrite H4. pose proof (Forall2_length _ _ _ H5) as Hl. cbn in Hl. unfold len. rewrite <- Hl. reflexivity.
  - assert (forall l l', Forall2 (fun e e' => Location e' = Location e /\ Metadata e' = Metadata e) l l' ->
      Location <$> l' = Location <$> l) as Hloc by (induction 1 as [|? ? ? ? [? _]]; cbn; congruence).
    rewrite (Hloc _ _ H5). reflexivity.
Defined.

(** Two metadata payloads of 2 GiB each. *)
Definition big_payload : bytes := replicate (Z.to_nat (2 ^ 31)) Byte.x00.
Definition big_entry : QueueEntry :=
  {| Sequence := 0; Location := "ingest/a";
     Metadata := [{| StartIndex := 0; IngestionTimeMs := 0; Payload := big_payload |};
                  {| StartIndex := 1; IngestionTimeMs := 0; Payload := big_payload |}] |}.

Lemma len_big_payload : len big_payload = 2 ^ 31.
Proof. unfold len, big_payload. rewrite length_replicate. apply Z2Nat.id. lia. Qed.

#[local] Opaque big_payload.

Lemma big_metadata_wf i :
  is_uint32 i ->
  metadata_wf {| StartIndex := i; IngestionTimeMs := 0; Payload := big_payload |}.
Proof.
  intros Hi. unfold metadata_wf, payload_fits, is_int64, MaxUint32; cbn.
  rewrite len_big_payload. split_and!; [apply Hi..|lia|lia|lia].
Qed.

Lemma big_entry_oversize : entry_oversize big_entry.
Proof.
  assert (Forall metadata_wf (Metadata big_entry)) as Hms.
  { apply Forall_cons_2; [|apply Forall_singleton]; apply big_metadata_wf; solve_bounds. }
  refine (conj (conj _ _) (conj _ (conj _ (conj Hms _)))).
  - change (Location big_entry) with "ingest/a". solve_bounds.
  - eapply Forall_impl; [exact Hms|]. by intros m (_ & _ & ?).
  - change (Sequence big_entry) with 0. solve_bounds.
  - change (len (Metadata big_entry)) with 2. solve_bounds.
  - unfold entryBodyLen, metadataSize; cbn. rewrite !sumZ_cons, sumZ_nil, len_big_payload.
    vm_compute. reflexivity.
Qed.

Lemma oversize_entry_corrupts_manifest_witness :
  encodeQueueEntry big_entry = Ret (entryBytes big_entry) /\
  exists data0 data err, toBytes emptyManifest = Ret data0 /\
    rewriteManifest data0 [[big_entry]] = Ret data /\ DecodeManifestEntries data = Fail err.
Proof.
  destruct (oversize_entry_corrupts_manifest [] big_entry [] 1 0) as (H1 & _ & H2).
  - constructor.
  - exact big_entry_oversize.
  - change (len ([] ++ [big_entry])) with 1. solve_bounds.
  - split; [exact H1|]. apply H2. constructor.
Defined.
