(* ===== verification/ObjStore.v ===== *)
(** * Object stores ([src/objstore/objstore.go], [src/objstore/memory.go])

    The interface [ObjectStore] as a class of operations on a store state,
    the contract its clients rely on as the class [StoreLaws], and the
    in-memory implementation with the proof that it satisfies the contract.

    The contract is the one the interface's comments document, with the
    freedom a remote store has: an operation that reports an error other than
    [ErrPreconditionFailed] may or may not have taken effect. *)

From S2P Require Import Prelude GoError Bytes.

(** ** The interface *)

Record Version := { ETag : string }.

#[export] Instance Version_eq_dec : EqDecision Version.
Proof. solve_decision. Defined.

Record GetResult := { Data : bytes; Ver : Version }.

#[export] Instance GetResult_eq_dec : EqDecision GetResult.
Proof. solve_decision. Defined.

(** Operations take the state of the store and return the state after the
    call with what the call returns. *)
Class ObjectStore (St : Type) := {
  Get : St -> string -> St * outcome GetResult;
  Put : St -> string -> bytes -> St * outcome unit;
  PutIfMatch : St -> string -> bytes -> option Version -> St * outcome unit;
  Delete : St -> string -> St * outcome unit;
}.

(** ** The contract *)

(** The object at a path, with its version. *)
Class StoreContents (St : Type) := contents : St -> string -> option (bytes * Version).

(** The condition of a conditional put: [None] is create mode. *)
Definition version_matches (obj : option (bytes * Version)) (version : option Version) : Prop :=
  snd <$> obj = version.

#[export] Instance version_matches_dec obj version : Decision (version_matches obj version).
Proof. unfold version_matches. apply _. Defined.

(** [s'] has [data] at [path] and is [s] elsewhere. *)
Definition writes `{StoreContents St} (s s' : St) (path : string) (data : bytes) : Prop :=
  (exists v, contents s' path = Some (data, v)) /\
  forall q, q <> path -> contents s' q = contents s q.

Definition same_contents `{StoreContents St} (s s' : St) : Prop :=
  forall q, contents s' q = contents s q.

Class StoreLaws (St : Type) `{ObjectStore St, StoreContents St} := {
  Get_frame s p : same_contents s (Get s p).1;
  Get_found s p r : (Get s p).2 = Ret r -> contents s p = Some (Data r, Ver r);
  Get_not_found s p e :
    (Get s p).2 = Fail e -> errors_Is e ErrNotFound = true -> contents s p = None;
  Get_no_panic s p : (Get s p).2 <> Panic;
  Put_ok s p d : (Put s p d).2 = Ret tt -> writes s (Put s p d).1 p d;
  Put_error s p d e :
    (Put s p d).2 = Fail e ->
    same_contents s (Put s p d).1 \/ writes s (Put s p d).1 p d;
  Put_no_panic s p d : (Put s p d).2 <> Panic;
  PutIfMatch_ok s p d v :
    (PutIfMatch s p d v).2 = Ret tt ->
    version_matches (contents s p) v /\ writes s (PutIfMatch s p d v).1 p d;
  PutIfMatch_conflict s p d v e :
    (PutIfMatch s p d v).2 = Fail e -> errors_Is e ErrPreconditionFailed = true ->
    same_contents s (PutIfMatch s p d v).1;
  PutIfMatch_error s p d v e :
    (PutIfMatch s p d v).2 = Fail e ->
    same_contents s (PutIfMatch s p d v).1 \/
    (version_matches (contents s p) v /\ writes s (PutIfMatch s p d v).1 p d);
  PutIfMatch_no_panic s p d v : (PutIfMatch s p d v).2 <> Panic;
}.

(** ** The documented behaviour of a call

    What the comments of the interface say of each method, of a store that is
    asked one call at a time and does not fail for reasons of its own. *)

Inductive storeCall :=
| CallGet (path : string)
| CallPut (path : string) (data : bytes)
| CallPutIfMatch (path : string) (data : bytes) (version : option Version)
| CallDelete (path : string).

(** The answer of a call: [Get] has a result, the others only an error. *)
Abbreviation answer := (outcome (option GetResult)).

Definition perform `{ObjectStore St} (c : storeCall) (s : St) : St * answer :=
  let quiet (r : St * outcome unit) := (r.1, r.2 ≫= fun _ => Ret None) in
  match c with
  | CallGet path => let '(s, r) := Get s path in (s, r ≫= fun res => Ret (Some res))
  | CallPut path data => quiet (Put s path data)
  | CallPutIfMatch path data version => quiet (PutIfMatch s path data version)
  | CallDelete path => quiet (Delete s path)
  end.

Definition documented `{StoreContents St} (c : storeCall) (s s' : St) (a : answer) : Prop :=
  match c with
  | CallGet path =>
      same_contents s s' /\
      a = match contents s path with
          | Some (data, version) => Ret (Some {| Data := data; Ver := version |})
          | None => Fail (Sentinel ErrNotFound)
          end
  | CallPut path data => writes s s' path data /\ a = Ret None
  | CallPutIfMatch path data version =>
      if decide (version_matches (contents s path) version)
      then writes s s' path data /\ a = Ret None
      else same_contents s s' /\ a = Fail (Sentinel ErrPreconditionFailed)
  | CallDelete path =>
      contents s' path = None /\ (forall q, q <> path -> contents s' q = contents s q) /\ a = Ret None
  end.

(** Calls in sequence, with their answers. *)
Fixpoint performAll `{ObjectStore St} (calls : list storeCall) (s : St)
    : St * list (storeCall * answer) :=
  match calls with
  | [] => (s, [])
  | c :: calls =>
      let '(s, a) := perform c s in
      let '(s, trace) := performAll calls s in
      (s, (c, a) :: trace)
  end.

(** A call that wrote the object at [path]. *)
Definition wrote (path : string) (ca : storeCall * answer) : bool :=
  match ca with
  | (CallPut q _, Ret _) | (CallPutIfMatch q _ _, Ret _) => bool_decide (q = path)
  | _ => false
  end.

Definition deletes (path : string) (c : storeCall) : bool :=
  match c with CallDelete q => bool_decide (q = path) | _ => false end.

(** Optimistic concurrency needs more of a store than each operation's own
    contract: a version token read once must not come to stand for other
    contents later. [evolves p s s'] says that [s'] is a later state of [s] in
    the course of which the object at [p] was not deleted. *)
Class StoreEvolution (St : Type) `{ObjectStore St, StoreContents St} := {
  evolves : string -> St -> St -> Prop;
  evolves_preorder p : PreOrder (evolves p);
  Get_evolves p s q : evolves p s (Get s q).1;
  Put_evolves p s q d : evolves p s (Put s q d).1;
  PutIfMatch_evolves p s q d v : evolves p s (PutIfMatch s q d v).1;
  Delete_evolves p s q : q <> p -> evolves p s (Delete s q).1;
  evolves_version p s s' d d' v :
    evolves p s s' -> contents s p = Some (d, v) -> contents s' p = Some (d', v) -> d = d';
}.
#[export] Existing Instance evolves_preorder.

Section Contract.
Context {St : Type} `{StoreContents St}.

#[export] Instance same_contents_equivalence : Equivalence (same_contents (St := St)).
Proof.
  split.
  - by intros s q.
  - intros s t Hst q. by rewrite (Hst q).
  - intros s t u Hst Htu q. by rewrite (Htu q), (Hst q).
Qed.

Lemma writes_lookup s s' p d : writes s s' p d -> exists v, contents s' p = Some (d, v).
Proof. by intros [? _]. Qed.

Lemma writes_other s s' p d q : writes s s' p d -> q <> p -> contents s' q = contents s q.
Proof. intros [_ Ho]. apply Ho. Qed.
End Contract.

(** ** The in-memory store *)

Record memObject := { mo_data : bytes; mo_version : Z }.

(** [InMemory.objects]; the mutex makes every operation atomic. *)
Record InMemory := { objects : gmap string memObject }.

Definition NewInMemory : InMemory := {| objects := ∅ |}.

(** [fmt.Sprintf("%d", version)]. *)
Definition versionOf (version : Z) : Version := {| ETag := pretty version |}.

Definition InMemory_Get (m : InMemory) (path : string) : InMemory * outcome GetResult :=
  match objects m !! path with
  | None => (m, Fail (Sentinel ErrNotFound))
  | Some obj => (m, Ret {| Data := mo_data obj; Ver := versionOf (mo_version obj) |})
  end.

Definition InMemory_Put (m : InMemory) (path : string) (data : bytes) : InMemory * outcome unit :=
  match objects m !! path with
  | Some obj =>
      ({| objects := <[path := {| mo_data := data; mo_version := mo_version obj + 1 |}]>
                       (objects m) |}, Ret tt)
  | None =>
      ({| objects := <[path := {| mo_data := data; mo_version := 1 |}]> (objects m) |}, Ret tt)
  end.

Definition InMemory_PutIfMatch (m : InMemory) (path : string) (data : bytes)
    (version : option Version) : InMemory * outcome unit :=
  match version with
  | None =>
      match objects m !! path with
      | Some _ => (m, Fail (Sentinel ErrPreconditionFailed))
      | None =>
          ({| objects := <[path := {| mo_data := data; mo_version := 1 |}]> (objects m) |},
           Ret tt)
      end
  | Some v =>
      match objects m !! path with
      | None => (m, Fail (Sentinel ErrPreconditionFailed))
      | Some obj =>
          let expected := pretty (mo_version obj) in
          if negb (bool_decide (ETag v = expected))
          then (m, Fail (Sentinel ErrPreconditionFailed))
          else
            ({| objects := <[path := {| mo_data := data; mo_version := mo_version obj + 1 |}]>
                             (objects m) |}, Ret tt)
      end
  end.

Definition InMemory_Delete (m : InMemory) (path : string) : InMemory * outcome unit :=
  ({| objects := delete path (objects m) |}, Ret tt).

#[export] Instance InMemory_store : ObjectStore InMemory := {|
  Get := InMemory_Get;
  Put := InMemory_Put;
  PutIfMatch := InMemory_PutIfMatch;
  Delete := InMemory_Delete;
|}.

#[export] Instance InMemory_contents : StoreContents InMemory := fun m path =>
  (fun obj => (mo_data obj, versionOf (mo_version obj))) <$> objects m !! path.

#[export] Instance versionOf_inj : Inj (=) (=) versionOf.
Proof. intros a b [= Hab]. by apply (inj pretty). Qed.

Lemma InMemory_writes m path data v :
  writes m {| objects := <[path := {| mo_data := data; mo_version := v |}]> (objects m) |}
    path data.
Proof.
  unfold writes, contents, InMemory_contents. cbn. split.
  - rewrite lookup_insert_eq. by eexists.
  - intros q Hq. by rewrite lookup_insert_ne.
Qed.

#[export] Hint Resolve InMemory_writes : opendata.

(** Case analysis on whether the object exists. *)
Ltac case_object :=
  match goal with
  | |- context [objects ?m !! ?p] => destruct (objects m !! p) as [[]|] eqn:?
  | H : context [objects ?m !! ?p] |- _ => destruct (objects m !! p) as [[]|] eqn:?
  end; simplify_eq/=.

#[export] Instance InMemory_laws : StoreLaws InMemory.
Proof.
  split; cbn; unfold InMemory_Get, InMemory_Put, InMemory_PutIfMatch, version_matches.
  - intros s p. by case_object.
  - intros s p r. unfold contents, InMemory_contents. by case_object; intros [= <-].
  - intros s p e. unfold contents, InMemory_contents. by case_object.
  - intros s p. by case_object.
  - intros s p d _. case_object; auto with opendata.
  - intros s p d e. by case_object.
  - intros s p d. by case_object.
  - intros s p d [v|]; unfold contents at 1, InMemory_contents;
      case_object; try (intros; discriminate).
    + case_test; cbn in *; [|by intros ?]. intros _. split; [|auto with opendata].
      destruct v; cbn in *. by subst.
    + auto with opendata.
  - intros s p d [v|] e; case_object; repeat case_test; done.
  - intros s p d [v|] e; case_object; repeat case_test; try done; intros; by left.
  - intros s p d [v|]; case_object; repeat case_test; done.
Qed.

(** An object of a later state is the same object or a newer version of it. *)
Definition InMemory_evolves (p : string) (m m' : InMemory) : Prop :=
  forall obj, objects m !! p = Some obj ->
  exists obj', objects m' !! p = Some obj' /\
    (mo_version obj < mo_version obj' \/ obj = obj').

#[local] Instance InMemory_evolves_preorder p : PreOrder (InMemory_evolves p).
Proof.
  split.
  - intros m obj Hobj. eauto.
  - intros m1 m2 m3 H12 H23 obj Hobj.
    destruct (H12 _ Hobj) as (obj2 & Hobj2 & Hv2).
    destruct (H23 _ Hobj2) as (obj3 & Hobj3 & Hv3).
    exists obj3. split; [done|]. destruct Hv2, Hv3; subst; auto; left; lia.
Qed.

Lemma InMemory_evolves_insert p q m data v :
  (forall obj, objects m !! q = Some obj -> mo_version obj < v) ->
  InMemory_evolves p m
    {| objects := <[q := {| mo_data := data; mo_version := v |}]> (objects m) |}.
Proof.
  intros Hv obj Hobj. cbn. destruct (decide (q = p)) as [->|Hne].
  - rewrite lookup_insert_eq. eexists; split; [done|]. left. cbn. by apply Hv.
  - rewrite lookup_insert_ne by done. eauto.
Qed.

#[export] Instance InMemory_evolution : StoreEvolution InMemory.
Proof.
  refine {| evolves := InMemory_evolves |}; cbn;
    unfold InMemory_Get, InMemory_Put, InMemory_PutIfMatch.
  - intros p s q. by case_object.
  - intros p s q d. case_object; apply InMemory_evolves_insert; intros; simplify_eq/=; lia.
  - intros p s q d [v|]; case_object; repeat case_test; try done;
      apply InMemory_evolves_insert; intros; simplify_eq/=; lia.
  - intros p s q Hne obj Hobj. cbn. rewrite lookup_delete_ne by done. eauto.
  - intros p s s' d d' v Hev. unfold contents, InMemory_contents.
    destruct (objects s !! p) as [obj|] eqn:Hobj; [|done]. cbn. intros [= <- <-].
    destruct (Hev _ Hobj) as (obj' & -> & Hv). cbn. intros [= <- ?%(inj pretty)].
    destruct Hv; [lia|by subst].
Defined.

Lemma InMemory_PutIfMatch_spec m path data version :
  match InMemory_PutIfMatch m path data version with
  | (m', Ret _) => version_matches (contents m path) version /\ writes m m' path data
  | (m', Fail e) =>
      ~ version_matches (contents m path) version /\
      e = Sentinel ErrPreconditionFailed /\ m' = m
  | (_, Panic) => False
  end.
Proof.
  destruct (InMemory_PutIfMatch m path data version) as [m' [[]|e|]] eqn:E.
  - pose proof (PutIfMatch_ok m path data version) as H. cbn in H. rewrite E in H. by apply H.
  - unfold InMemory_PutIfMatch, version_matches in *.
    unfold contents, InMemory_contents. destruct version as [[etag]|]; case_object.
    + case_test; cbn in *; simplify_eq. split_and!; [|done..].
      unfold versionOf. intros [= <-]. done.
    + done.
    + done.
  - pose proof (PutIfMatch_no_panic m path data version) as H. cbn in H. by rewrite E in H.
Qed.

Lemma InMemory_documented m c :
  documented c m (perform c m).1 (perform c m).2.
Proof.
  destruct c as [path|path data|path data version|path]; cbn.
  - unfold InMemory_Get, contents, InMemory_contents. by case_object.
  - unfold InMemory_Put. case_object; auto with opendata.
  - pose proof (InMemory_PutIfMatch_spec m path data version) as Hs.
    destruct (InMemory_PutIfMatch m path data version) as [m' [[]|e|]]; cbn; [| |done].
    + destruct Hs. by rewrite decide_True.
    + destruct Hs as (? & -> & ->). by rewrite decide_False.
  - unfold contents, InMemory_contents. cbn. rewrite lookup_delete_eq. split_and!; [done| |done].
    intros q Hq. by rewrite lookup_delete_ne.
Qed.

(** Every write of an object moves its version up by one; between writes the
    object stays as it is. *)
Lemma InMemory_perform_version m c path obj :
  objects m !! path = Some obj -> deletes path c = false ->
  exists obj', objects (perform c m).1 !! path = Some obj' /\
    if wrote path (c, (perform c m).2) then mo_version obj' = mo_version obj + 1 else obj' = obj.
Proof.
  intros Hobj Hdel. destruct c as [q|q data|q data version|q]; cbn in *.
  - unfold InMemory_Get. destruct (objects m !! q) as [o|]; cbn; eauto.
  - unfold InMemory_Put. destruct (decide (q = path)) as [->|Hq].
    + rewrite Hobj. cbn. rewrite lookup_insert_eq, bool_decide_true by done. by eexists.
    + destruct (objects m !! q) as [o|]; cbn; rewrite bool_decide_false, lookup_insert_ne by done; eauto.
  - unfold InMemory_PutIfMatch. destruct (decide (q = path)) as [->|Hq].
    + rewrite Hobj. destruct version as [v|]; cbn; [|by eauto]. destruct (negb _); cbn; [by eauto|].
      rewrite lookup_insert_eq, bool_decide_true by done. by eexists.
    + destruct version as [v|], (objects m !! q) as [o|]; cbn; try destruct (negb _); cbn; eauto;
        rewrite bool_decide_false, lookup_insert_ne by done; eauto.
  - apply bool_decide_eq_false in Hdel. rewrite lookup_delete_ne by done. eauto.
Qed.

Lemma InMemory_performAll_version calls : forall m path obj,
  objects m !! path = Some obj -> forallb (fun c => negb (deletes path c)) calls = true ->
  let '(m', trace) := performAll calls m in
  exists obj', objects m' !! path = Some obj' /\
    mo_version obj' = mo_version obj + len (List.filter (wrote path) trace) /\
    (existsb (wrote path) trace = false -> obj' = obj).
Proof.
  induction calls as [|c calls IH]; intros m path obj Hobj; cbn -[perform wrote].
  { intros _. exists obj. by rewrite len_nil, Z.add_0_r. }
  rewrite andb_true_iff, negb_true_iff. intros [Hc Hcalls].
  destruct (InMemory_perform_version m c path obj Hobj Hc) as (obj1 & Hobj1 & Hw).
  destruct (perform c m) as [m1 a]; cbn -[wrote] in *.
  specialize (IH m1 path obj1 Hobj1 Hcalls). destruct (performAll calls m1) as [m2 trace].
  destruct IH as (obj2 & Hobj2 & Hv & Hsame). cbn -[wrote]. exists obj2. split; [done|].
  destruct (wrote path (c, a)); cbn -[wrote]; rewrite ?len_cons.
  - split; [lia|done].
  - subst obj1. auto.
Qed.

(** Whether a conditional put at a version read earlier is accepted. *)
Lemma InMemory_put_at m path obj data :
  objects m !! path = Some obj -> forall version,
  (InMemory_PutIfMatch m path data (Some (versionOf version))).2 = Ret tt <-> mo_version obj = version.
Proof.
  intros Hobj version. unfold InMemory_PutIfMatch. rewrite Hobj. cbn.
  destruct (decide (pretty version = pretty (mo_version obj))) as [Heq|Hne].
  - rewrite bool_decide_true by done. split; [|done]. intros _. by apply (inj pretty).
  - rewrite bool_decide_false by done. split; [done|]. by intros <-.
Qed.

(** A store that never fails for reasons of its own: reads report only absence,
    conditional puts only a version that does not match. *)
Class ReliableStore (St : Type) `{ObjectStore St, StoreContents St} := {
  Get_reliable s p e : (Get s p).2 = Fail e -> errors_Is e ErrNotFound = true;
  PutIfMatch_reliable s p d v e :
    (PutIfMatch s p d v).2 = Fail e ->
    errors_Is e ErrPreconditionFailed = true /\ ~ version_matches (contents s p) v;
}.

#[export] Instance InMemory_reliable : ReliableStore InMemory.
Proof.
  split; cbn.
  - intros s p e. unfold InMemory_Get. case_object; [done|]. by intros [= <-].
  - intros s p d v e Hf. pose proof (InMemory_PutIfMatch_spec s p d v) as Hs.
    destruct (InMemory_PutIfMatch s p d v) as [s' [|e'|]]; cbn in *; simplify_eq.
    by destruct Hs as (? & -> & _).
Qed.

(** ** Properties *)

(** C12. The in-memory store does what the comments of the interface document,
    on every branch of every method: [Get] returns the object with its version,
    or [ErrNotFound] when there is none; [Put] overwrites; [PutIfMatch] writes
    exactly when the version condition holds, and otherwise reports
    [ErrPreconditionFailed] and changes nothing; [Delete] removes the object, or
    nothing when there is none, without an error; no call touches another path.
    And the condition is an exact compare-and-swap over any sequence of calls:
    with a version read by [Get], a conditional put after any calls that do
    not delete the object is accepted if and only if none of them wrote it. *)
Theorem InMemory_contract (m : InMemory) :
  (forall c, documented c m (perform c m).1 (perform c m).2) /\
  (forall path r data calls,
     (Get m path).2 = Ret r ->
     forallb (fun c => negb (deletes path c)) calls = true ->
     let '(m', trace) := performAll calls m in
     (PutIfMatch m' path data (Some (Ver r))).2 = Ret tt <-> existsb (wrote path) trace = false).
Proof.
  split; [exact (InMemory_documented m)|]. intros path r data calls Hr Hdel. cbn in Hr.
  unfold InMemory_Get in Hr. destruct (objects m !! path) as [obj|] eqn:Hobj; simplify_eq/=.
  pose proof (InMemory_performAll_version calls m path obj Hobj Hdel) as Hv.
  destruct (performAll calls m) as [m' trace]. destruct Hv as (obj' & Hobj' & Hv & Hsame).
  etrans; [exact (InMemory_put_at m' path obj' data Hobj' _)|].
  split; [|intros Hn; by rewrite (Hsame Hn)].
  intros Heq. apply not_true_iff_false. rewrite existsb_exists. intros (ca & Hin & Hw).
  assert (len (List.filter (wrote path) trace) = 0) as Hz by lia. apply len_zero_nil in Hz.
  assert (In ca (List.filter (wrote path) trace)) as Hf by by apply filter_In.
  by rewrite Hz in Hf.
Qed.

(** Reading back: after a put, unconditional or conditional and
    successful, [Get] returns the data written, and every other path reads as
    before. *)
Theorem InMemory_Get_Put m path data q :
  (InMemory_Get (InMemory_Put m path data).1 q).2 =
    if decide (q = path)
    then Ret {| Data := data;
                Ver := versionOf (match objects m !! path with
                                  | Some obj => mo_version obj + 1 | None => 1 end) |}
    else (InMemory_Get m q).2.
Proof.
  unfold InMemory_Get, InMemory_Put. case_decide as Hq; [subst q|].
  - destruct (objects m !! path) as [[]|]; cbn; by rewrite lookup_insert_eq.
  - destruct (objects m !! path) as [[]|]; cbn; rewrite lookup_insert_ne by done;
      by destruct (objects m !! q).
Qed.

(** Version tokens are only unique between deletions: the token of a new
    object is accepted again once the object has been deleted and recreated
    by someone else, so a stale conditional put then overwrites contents its
    caller never read. *)
Theorem InMemory_version_reuse_after_delete m path d0 d1 d2 :
  objects m !! path = None ->
  let m0 := (InMemory_Put m path d0).1 in
  let m1 := (InMemory_Put (InMemory_Delete m0 path).1 path d1).1 in
  exists r, (InMemory_Get m0 path).2 = Ret r /\ Data r = d0 /\
    (InMemory_Get m1 path).2 = Ret {| Data := d1; Ver := Ver r |} /\
    (InMemory_PutIfMatch m1 path d2 (Some (Ver r))).2 = Ret tt.
Proof.
  intros Hm. unfold InMemory_Get, InMemory_PutIfMatch, InMemory_Put, InMemory_Delete.
  rewrite Hm. cbn. rewrite lookup_delete_eq. cbn. rewrite !lookup_insert_eq.
  by eexists.
Qed.

(** *** Witnesses *)

(** A refused and an accepted conditional put of a rival. *)
Lemma InMemory_contract_witness :
  let m := (InMemory_Put NewInMemory "k" (string_bytes "a")).1 in
  let read := {| ETag := "1" |} in
  documented (CallDelete "k") m NewInMemory (Ret None) /\
  (InMemory_PutIfMatch m "k" (string_bytes "c") (Some read)).2 = Ret tt /\
  (InMemory_PutIfMatch (performAll [CallPutIfMatch "k" (string_bytes "b") None] m).1 "k"
     (string_bytes "c") (Some read)).2 = Ret tt /\
  (InMemory_PutIfMatch (performAll [CallPutIfMatch "k" (string_bytes "b") (Some read)] m).1 "k"
     (string_bytes "c") (Some read)).2 <> Ret tt.
Proof.
  cbv zeta. set (m := (InMemory_Put NewInMemory "k" (string_bytes "a")).1).
  destruct (InMemory_contract m) as [Hc Hcas].
  pose proof (fun calls => Hcas "k" {| Data := string_bytes "a"; Ver := {| ETag := "1" |} |}
    (string_bytes "c") calls eq_refl) as H.
  split_and!.
  - exact (Hc (CallDelete "k")).
  - apply (H [] eq_refl). reflexivity.
  - apply (H [CallPutIfMatch "k" (string_bytes "b") None] eq_refl). vm_compute. reflexivity.
  - intros Hr. apply (H [CallPutIfMatch "k" (string_bytes "b") (Some {| ETag := "1" |})] eq_refl) in Hr.
    vm_compute in Hr. discriminate.
Defined.

Lemma InMemory_version_reuse_after_delete_witness :
  let m0 := (InMemory_Put NewInMemory "k" (string_bytes "a")).1 in
  let m1 := (InMemory_Put (InMemory_Delete m0 "k").1 "k" (string_bytes "b")).1 in
  exists r, (InMemory_Get m0 "k").2 = Ret r /\ Data r = string_bytes "a" /\
    (InMemory_Get m1 "k").2 = Ret {| Data := string_bytes "b"; Ver := Ver r |} /\
    (InMemory_PutIfMatch m1 "k" (string_bytes "c") (Some (Ver r))).2 = Ret tt.
Proof. apply (InMemory_version_reuse_after_delete NewInMemory "k"). reflexivity. Defined.
