(* ===== verification/Enqueuer.v ===== *)
(** * The manifest enqueuer ([src/buffer/manifest.go], lines 260 to 375)

    [enqueueBatch] appends queue entries to a manifest that other processes
    append to as well: it reads the manifest, appends, and writes it back on
    the condition that the version it read is still current, starting over
    when it is not.

    The store is shared. Before each store call of the enqueuer the
    environment may act: [env k] is what the rest of the world does to the
    store before the [k]-th call. The model records the store before and after
    each call of the enqueuer ([w_calls]), which is what the atomicity theorem
    speaks of. The loop has no bound in the source; it runs here on fuel, and
    [enqueueBatch_terminates] shows how much is enough. *)

From S2P Require Import Prelude GoError Bytes Manifest ObjStore.

(** ** The conflict counter *)

Record conflictCounter := { writeCount : Z; conflictCount : Z }.

Definition recordWrite (c : conflictCounter) : conflictCounter :=
  {| writeCount := uint64 (writeCount c + 1); conflictCount := conflictCount c |}.
Definition recordConflict (c : conflictCounter) : conflictCounter :=
  {| writeCount := writeCount c; conflictCount := uint64 (conflictCount c + 1) |}.

Record enqueueItem := { item_Location : string; item_Metadata : list QueueMetadata }.

Definition item_entry (item : enqueueItem) : QueueEntry :=
  {| Sequence := 0; Location := item_Location item; Metadata := item_Metadata item |}.

(** The loop over the items: one [append] each, stopping at the first error. *)
Fixpoint appendAll (m : manifest) (items : list enqueueItem) : outcome manifest :=
  match items with
  | [] => Ret m
  | item :: items => m ← append m (item_entry item); appendAll m items
  end.

Section Enqueuer.
Context {St : Type} `{ObjectStore St}.

(** ** The shared store *)

Record world := {
  w_store : St;
  w_calls : list (St * St);  (** the store before and after each call *)
}.

Context (env : nat -> St -> St).

Definition call {A} (op : St -> St * outcome A) (w : world) : world * outcome A :=
  let s := env (length (w_calls w)) (w_store w) in
  let sr := op s in
  ({| w_store := sr.1; w_calls := w_calls w ++ [(s, sr.1)] |}, sr.2).

(** ** Operations *)

Record manifestEnqueuer := { manifestPath : string; counter : conflictCounter }.

Definition newManifestEnqueuer (path : string) : manifestEnqueuer :=
  {| manifestPath := path; counter := {| writeCount := 0; conflictCount := 0 |} |}.

Definition readManifest (p : manifestEnqueuer) (w : world)
    : world * outcome (manifest * option Version) :=
  let '(w, result) := call (fun s => Get s (manifestPath p)) w in
  match result with
  | Fail err =>
      if errors_Is err ErrNotFound then (w, Ret (emptyManifest, None))
      else (w, Fail (storageErr (error_message err)))
  | Panic => (w, Panic)
  | Ret r => (w, m ← manifestFromBytes (Data r); Ret (m, Some (Ver r)))
  end.

(** The result of a run of the loop: [None] when the fuel ran out, otherwise
    the number of conflicts retried and the error, if any. *)
Definition enqueueResult : Type := option (Z * outcome unit).

Fixpoint enqueueLoop (fuel : nat) (items : list enqueueItem) (p : manifestEnqueuer) (w : world)
    (conflicts : Z) : manifestEnqueuer * world * enqueueResult :=
  match fuel with
  | O => (p, w, None)
  | S fuel =>
      let '(w, read) := readManifest p w in
      match mv ← read; m ← appendAll mv.1 items; data ← toBytes m; Ret (data, mv.2) with
      | Fail err => (p, w, Some (conflicts, Fail err))
      | Panic => (p, w, Some (conflicts, Panic))
      | Ret (data, version) =>
          let p := {| manifestPath := manifestPath p; counter := recordWrite (counter p) |} in
          let '(w, put) := call (fun s => PutIfMatch s (manifestPath p) data version) w in
          match put with
          | Ret _ => (p, w, Some (conflicts, Ret tt))
          | Panic => (p, w, Some (conflicts, Panic))
          | Fail err =>
              if errors_Is err ErrPreconditionFailed then
                let p := {| manifestPath := manifestPath p;
                            counter := recordConflict (counter p) |} in
                enqueueLoop fuel items p w (conflicts + 1)
              else (p, w, Some (conflicts, Fail (storageErr (error_message err))))
          end
      end
  end.

Definition enqueueBatch (fuel : nat) (items : list enqueueItem) (p : manifestEnqueuer)
    (w : world) : manifestEnqueuer * world * enqueueResult :=
  if len items =? 0 then (p, w, Some (0, Ret tt))
  else enqueueLoop fuel items p w 0.

End Enqueuer.
Arguments world : clear implicits.

(** ** Abstract specification

    A manifest is a list of entries with the next sequence number and the
    epoch; enqueueing appends the items in order, with consecutive sequence
    numbers. *)

Fixpoint sequence_from (next : Z) (items : list enqueueItem) : list QueueEntry :=
  match items with
  | [] => []
  | item :: items => sequenced next (item_entry item) :: sequence_from (uint64 (next + 1)) items
  end.

(** What the limits of the format demand of an item. *)
Definition item_wf (item : enqueueItem) : Prop := entry_wf (item_entry item).

Record manifest_state := { ms_entries : list QueueEntry; ms_next : Z; ms_epoch : Z }.

Definition manifest_state_wf (a : manifest_state) : Prop :=
  Forall entry_wf (ms_entries a) /\ is_uint32 (len (ms_entries a)) /\
  is_uint64 (ms_next a) /\ is_uint64 (ms_epoch a).

Definition spec_append (items : list enqueueItem) (a : manifest_state) : manifest_state :=
  {| ms_entries := ms_entries a ++ sequence_from (ms_next a) items;
     ms_next := uint64 (ms_next a + len items);
     ms_epoch := ms_epoch a |}.

Section Spec.
Context {St : Type} `{StoreContents St}.

(** The manifest at a path of the store: absent stands for empty. *)
Definition manifest_at (s : St) (path : string) (a : manifest_state) : Prop :=
  manifest_state_wf a /\
  match contents s path with
  | None => a = {| ms_entries := []; ms_next := 0; ms_epoch := 0 |}
  | Some (data, _) => data = serialize (ms_entries a) (ms_next a) (ms_epoch a)
  end.

(** The step of the specification: the items are appended, and nothing else
    in the store changes. *)
Definition appends (path : string) (items : list enqueueItem) (s s' : St) : Prop :=
  exists a, manifest_at s path a /\ manifest_at s' path (spec_append items a) /\
    forall q, q <> path -> contents s' q = contents s q.

(** Items within the limits of the format. *)
Definition fits (items : list enqueueItem) : Prop :=
  Forall item_wf items /\ items <> [] /\ is_int64 (len items).

(** What the last store call of an enqueue that ended with [err] does, for any
    items: it touches no object but the manifest. Only when the items are
    within the limits of the format and the manifest is one that the format
    describes is it known what becomes of the manifest: an entry of more than
    [MaxUint32] bytes is written with its length cut to 32 bits. *)
Definition enqueueEffect (path : string) (items : list enqueueItem) (s s' : St)
    (err : option error) : Prop :=
  (forall q, q <> path -> contents s' q = contents s q) /\
  (fits items -> forall a, manifest_at s path a ->
   match err with
   | None => appends path items s s'
   | Some _ => same_contents s s' \/ appends path items s s'
   end).
End Spec.

(** ** Lemmas on manifests *)

Lemma len_sequence_from next items : len (sequence_from next items) = len items.
Proof.
  revert next. induction items as [|i items IH]; intros next; cbn; [done|].
  by rewrite !len_cons, IH.
Qed.

Lemma sequence_from_wf next items :
  is_uint64 next -> Forall item_wf items -> Forall entry_wf (sequence_from next items).
Proof.
  intros Hn Hi. revert next Hn. induction Hi as [|i items Hi _ IH]; intros next Hn; cbn;
    constructor; [|by apply IH, uint64_range].
  destruct Hi as (_ & Hi). split; [done|exact Hi].
Qed.

Lemma item_wf_encodable item : item_wf item -> entry_encodable (item_entry item).
Proof. apply entry_wf_encodable. Qed.

Lemma sequence_from_numbered items : forall next,
  sequence_from next items = numbered next (item_entry <$> items).
Proof. induction items as [|i items IH]; intros next; cbn; [done|]. f_equal. apply IH. Qed.

Lemma appendAll_entries items : forall m, appendAll m items = appendEntries m (item_entry <$> items).
Proof.
  induction items as [|i items IH]; intros m; cbn; [done|].
  destruct (append m (item_entry i)); cbn; [apply IH|done|done].
Qed.

Lemma appendAll_repr items m base news next epoch :
  manifest_repr m base news next epoch -> Forall item_wf items ->
  exists m', appendAll m items = Ret m' /\
    manifest_repr m' base (news ++ sequence_from (uint64 (next + len news)) items) next epoch.
Proof.
  intros Hm Hi. rewrite appendAll_entries, sequence_from_numbered. apply appendEntries_repr; [done|].
  apply Forall_fmap. eapply Forall_impl; [exact Hi|apply item_wf_encodable].
Qed.

(** Reading a serialized manifest, appending the items and serializing again
    is the abstract append; it fails only when the entry count overflows. *)
Lemma append_refines m a items :
  manifest_repr m (ms_entries a) [] (ms_next a) (ms_epoch a) -> manifest_state_wf a ->
  Forall item_wf items -> items <> [] -> is_int64 (len items) ->
  (m ← appendAll m items; toBytes m) =
    if MaxUint32 <? len (ms_entries a) + len items
    then Fail (serializationErr ("total entry count "
                 +:+ pretty (len (ms_entries a) + len items) +:+ " exceeds u32 max"))
    else Ret (serialize (ms_entries (spec_append items a)) (ms_next (spec_append items a))
                (ms_epoch (spec_append items a))).
Proof.
  intros Hm (Hwf & Hlen & Hn & He) Hi Hne Hli.
  destruct (appendAll_repr items _ _ _ _ _ Hm Hi) as (m' & -> & Hm').
  rewrite app_nil_l, len_nil, Z.add_0_r, uint64_id in Hm' by done.
  cbn [mbind outcome_bind]. rewrite (toBytes_repr _ _ _ _ _ Hm'); rewrite ?len_sequence_from;
    [done| |done..].
  destruct items; [done|]. cbn. done.
Qed.

Lemma spec_append_wf items a :
  manifest_state_wf a -> Forall item_wf items ->
  len (ms_entries a) + len items <= MaxUint32 -> manifest_state_wf (spec_append items a).
Proof.
  intros (Hwf & Hlen & Hn & He) Hi Hc. split_and!; cbn.
  - apply Forall_app; split; [done|]. by apply sequence_from_wf.
  - unfold is_uint32. rewrite len_app, len_sequence_from. len_pose. lia.
  - apply uint64_range.
  - done.
Qed.

(** ** The loop implements the specification *)

Section Refinement.
Context {St : Type} {HO : ObjectStore St} {HC : StoreContents St}
        {HL : StoreLaws St} {HE : StoreEvolution St}.
Context (env : nat -> St -> St) (path : string).

(** The environment: it may do anything to the store but delete the manifest
    or leave it malformed (other producers run the same protocol). *)
Class EnvOk := {
  env_evolves k s : evolves path s (env k s);
  env_manifest k s a : manifest_at s path a -> exists a', manifest_at (env k s) path a';
}.
Context {Henv : EnvOk}.

Context (items : list enqueueItem).
Context (Hitems : Forall item_wf items) (Hne : items <> []) (Hlen : is_int64 (len items)).

Lemma manifest_at_same s s' a : same_contents s s' -> manifest_at s path a -> manifest_at s' path a.
Proof. intros Hs [Hwf Ha]. split; [done|]. by rewrite (Hs path). Qed.

(** The compare-and-swap argument: when the version read is still current, so
    is the manifest it was read with. *)
Lemma manifest_at_cas s1 s2 a v :
  manifest_at s1 path a -> version_matches (contents s1 path) v ->
  evolves path s1 s2 -> version_matches (contents s2 path) v -> manifest_at s2 path a.
Proof.
  intros [Hwf Ha] Hv1 Hev Hv2. split; [done|]. unfold version_matches in *.
  destruct (contents s1 path) as [[d1 v1]|] eqn:E1, (contents s2 path) as [[d2 v2]|] eqn:E2;
    cbn in *; [|by subst v|by subst v|done].
  subst v. injection Hv2 as ->. by rewrite <- (evolves_version path s1 s2 d1 d2 v1).
Qed.

Lemma writes_appends s s' a data :
  manifest_at s path a -> len (ms_entries a) + len items <= MaxUint32 ->
  writes s s' path data ->
  data = serialize (ms_entries (spec_append items a)) (ms_next (spec_append items a))
           (ms_epoch (spec_append items a)) ->
  appends path items s s'.
Proof.
  intros Ha Hc [(v & Hw) Ho] ->. exists a. split_and!; [done| |done].
  split; [by apply spec_append_wf; [apply Ha|..]|]. by rewrite Hw.
Qed.

(** What [readManifest] reads is the manifest that is in the store. *)
Lemma readManifest_spec p w a :
  manifestPath p = path -> manifest_at (w_store w) path a ->
  exists s w' r, readManifest env p w = (w', r) /\
    same_contents s (w_store w') /\ w_calls w' = w_calls w ++ [(s, w_store w')] /\
    match r with
    | Ret (m, v) => exists a', manifest_at (w_store w') path a' /\
        manifest_repr m (ms_entries a') [] (ms_next a') (ms_epoch a') /\
        version_matches (contents (w_store w') path) v
    | Fail _ => True
    | Panic => False
    end /\ exists a', manifest_at (w_store w') path a'.
Proof.
  intros Hp Ha. unfold readManifest, call. rewrite Hp.
  set (s := env _ _). destruct (env_manifest (length (w_calls w)) _ _ Ha) as [a' Ha']. fold s in Ha'.
  pose proof (Get_frame s path) as Hframe.
  pose proof (manifest_at_same _ _ _ Hframe Ha') as Ha1.
  pose proof (Get_found s path) as Hfound.
  pose proof (Get_not_found s path) as Hnf.
  pose proof (Get_no_panic s path) as Hnp.
  destruct (Get s path) as [s1 [r|e|]] eqn:EGet; cbn in *; [| |done].
  - exists s. eexists _, _. split_and!; [done..| |by eauto]. cbn.
    specialize (Hfound _ eq_refl). destruct Ha1 as [Hwf Ha1]. cbn in Ha1.
    pose proof (Hframe path) as Hc1. rewrite Hfound in Hc1. rewrite Hc1 in Ha1.
    rewrite Ha1. destruct Hwf as (? & ? & Hn & He).
    destruct (manifestFromBytes_repr (ms_entries a') _ _ Hn He) as (m & -> & Hm). cbn.
    exists a'. split_and!; [by split; [|rewrite Hc1]|done|]. by rewrite Hc1.
  - specialize (Hnf _ eq_refl).
    case_test; exists s; eexists _, _; (split_and!; [done..| |by eauto]); [|done].
    specialize (Hnf eq_refl). pose proof (Hframe path) as Hc1. rewrite Hnf in Hc1.
    exists a'. destruct Ha1 as [Hwf Ha1]. rewrite Hc1 in Ha1. subst a'. cbn.
    split_and!; [|apply emptyManifest_repr|by rewrite Hc1]. split; [done|by rewrite Hc1].
Qed.

Definition unchanged (c : St * St) : Prop := same_contents c.1 c.2.

(** All or nothing, as a property of the calls a run made: every call leaves
    the contents of the store as they were, except the last, which on success
    appends all items in one step, and on a storage error may have done so. *)
Definition all_or_nothing (r : enqueueResult) (s' : St) (log : list (St * St)) : Prop :=
  match r with
  | Some (_, Ret _) =>
      exists log0 s, log = log0 ++ [(s, s')] /\ Forall unchanged log0 /\ appends path items s s'
  | Some (_, Fail _) =>
      Forall unchanged log \/
      exists log0 s, log = log0 ++ [(s, s')] /\ Forall unchanged log0 /\ appends path items s s'
  | Some (_, Panic) => False
  | None => Forall unchanged log
  end.

Lemma all_or_nothing_prefix r s' log0 log :
  Forall unchanged log0 -> all_or_nothing r s' log -> all_or_nothing r s' (log0 ++ log).
Proof.
  intros H0. destruct r as [[c [u|e|]]|]; cbn; [| |done|].
  - intros (l & s & -> & Hl & Ha). exists (log0 ++ l), s. rewrite <- (assoc_L (++)).
    split_and!; [done| |done]. by apply Forall_app.
  - intros [Hl|(l & s & -> & Hl & Ha)]; [left; by apply Forall_app|right].
    exists (log0 ++ l), s. rewrite <- (assoc_L (++)). split_and!; [done| |done].
    by apply Forall_app.
  - intros Hl. by apply Forall_app.
Qed.

Lemma enqueueLoop_all_or_nothing fuel : forall p w c a,
  manifestPath p = path -> manifest_at (w_store w) path a ->
  let '(p', w', r) := enqueueLoop env fuel items p w c in
  (exists log, w_calls w' = w_calls w ++ log /\ all_or_nothing r (w_store w') log) /\
  exists a', manifest_at (w_store w') path a'.
Proof.
  induction fuel as [|fuel IH]; intros p w c a Hp Ha; cbn [enqueueLoop].
  { split; [|by eauto]. exists []. rewrite app_nil_r. split; [done|constructor]. }
  destruct (readManifest_spec p w a Hp Ha) as (s & w1 & r & -> & Hs & Hlog & Hr & a1 & Ha1).
  assert (Forall unchanged [(s, w_store w1)]) as Hun by by apply Forall_singleton.
  destruct r as [[m v]|e|]; [|split; [|by eauto]; exists [(s, w_store w1)]; by split; [|left]|done].
  destruct Hr as (a2 & Ha2 & Hm & Hv). cbn [mbind outcome_bind fst snd].
  pose proof (append_refines m a2 items Hm (proj1 Ha2) Hitems Hne Hlen) as Hap.
  destruct (appendAll m items) as [m'|e|]; cbn [mbind outcome_bind] in *;
    [|split; [|by eauto]; exists [(s, w_store w1)]; by split; [|left]|by destruct (MaxUint32 <? _)].
  rewrite Hap. destruct (Z.ltb_spec MaxUint32 (len (ms_entries a2) + len items)) as [|Hc];
    cbn [mbind outcome_bind]; [split; [|by eauto]; exists [(s, w_store w1)]; by split; [|left]|].
  set (data := serialize _ _ _). unfold call. rewrite Hp. cbn [manifestPath].
  set (s2 := env _ (w_store w1)).
  pose proof (env_evolves (length (w_calls w1)) (w_store w1)) as Hev. fold s2 in Hev.
  destruct (env_manifest (length (w_calls w1)) _ _ Ha1) as [a3 Ha3]. fold s2 in Ha3.
  pose proof (PutIfMatch_ok s2 path data v) as Hok.
  pose proof (PutIfMatch_conflict s2 path data v) as Hconf.
  pose proof (PutIfMatch_error s2 path data v) as Herr.
  pose proof (PutIfMatch_no_panic s2 path data v) as Hnp.
  assert (forall s3, version_matches (contents s2 path) v /\ writes s2 s3 path data ->
                     appends path items s2 s3) as Happ.
  { intros s3 [Hv2 Hw]. apply (writes_appends s2 s3 a2 data); [|done..].
    by apply (manifest_at_cas (w_store w1) s2 a2 v). }
  assert (forall s3, appends path items s2 s3 -> exists a', manifest_at s3 path a') as Hafter.
  { intros s3 (a' & _ & Ha' & _). eauto. }
  destruct (PutIfMatch s2 path data v) as [s3 [[]|e|]]; cbn in *; [| |done].
  - split; [|by apply Hafter, Happ, Hok].
    exists ([(s, w_store w1)] ++ [(s2, s3)]). rewrite Hlog, <- (assoc_L (++)). split; [done|].
    exists [(s, w_store w1)], s2. split_and!; [done..|by apply Happ, Hok].
  - specialize (Hconf _ eq_refl). case_test.
    + specialize (Hconf eq_refl).
      match goal with |- context [enqueueLoop env fuel items ?p ?w ?c] =>
        specialize (IH p w c a3 eq_refl (manifest_at_same _ _ _ Hconf Ha3));
        destruct (enqueueLoop env fuel items p w c) as [[p' w'] r]
      end.
      destruct IH as [(log & Hcalls & Hspec) Hman]. cbn in Hcalls. split; [|done].
      exists ([(s, w_store w1); (s2, s3)] ++ log). split.
      * rewrite Hcalls, Hlog, <- !(assoc_L (++)). done.
      * apply all_or_nothing_prefix; [|done]. by apply Forall_cons; split; [|apply Forall_singleton].
    + split; [|destruct (Herr _ eq_refl) as [Hsame|Hw];
                 [exists a3; by apply (manifest_at_same s2)|by apply Hafter, Happ]].
      exists ([(s, w_store w1)] ++ [(s2, s3)]). rewrite Hlog, <- (assoc_L (++)). split; [done|].
      destruct (Herr _ eq_refl) as [Hsame|Hw].
      * left. by apply Forall_app; split; [|apply Forall_singleton].
      * right. exists [(s, w_store w1)], s2. split_and!; [done..|by apply Happ].
Qed.

Lemma enqueueBatch_spec fuel p w a :
  manifestPath p = path -> manifest_at (w_store w) path a ->
  let '(p', w', r) := enqueueBatch env fuel items p w in
  (exists log, w_calls w' = w_calls w ++ log /\ all_or_nothing r (w_store w') log) /\
  exists a', manifest_at (w_store w') path a'.
Proof.
  intros Hp Ha. unfold enqueueBatch.
  destruct (Z.eqb_spec (len items) 0) as [H0|_]; [by apply len_zero_nil in H0|].
  by apply enqueueLoop_all_or_nothing with a.
Qed.
End Refinement.

(** ** What a run does, whatever the items *)

Section Effect.
Context {St : Type} {HO : ObjectStore St} {HC : StoreContents St}
        {HL : StoreLaws St} {HE : StoreEvolution St}.
Context (env : nat -> St -> St) (path : string).
Context (Henv : forall k s, evolves path s (env k s)).
Context (items : list enqueueItem).

Lemma unchanged_effect (s s' : St) err : same_contents s s' -> enqueueEffect path items s s' (Some err).
Proof. intros Hs. split; [intros q _; apply Hs|]. intros _ a _. by left. Qed.

(** What [readManifest] reads is in the store, at the version it returns. *)
Lemma readManifest_read p w w' m v :
  manifestPath p = path -> readManifest env p w = (w', Ret (m, v)) ->
  match contents (w_store w') path with
  | Some (data, ver) => v = Some ver /\ manifestFromBytes data = Ret m
  | None => v = None /\ m = emptyManifest
  end.
Proof.
  intros Hp. unfold readManifest, call. rewrite Hp. set (s := env _ _).
  pose proof (Get_frame s path path) as Hframe. pose proof (Get_found s path) as Hfound.
  pose proof (Get_not_found s path) as Hnf.
  destruct (Get s path) as [s1 [r|e|]]; cbn in *; [| |done].
  - specialize (Hfound _ eq_refl). destruct (manifestFromBytes (Data r)) as [m'|e|] eqn:Hm;
      cbn [mbind outcome_bind]; intros [= <- <- <-]. cbn. by rewrite Hframe, Hfound.
  - specialize (Hnf _ eq_refl). case_test; intros [= <- <- <-]. cbn. by rewrite Hframe, Hnf.
Qed.

Lemma readManifest_call p w w' r :
  readManifest env p w = (w', r) ->
  exists s, w_calls w' = w_calls w ++ [(s, w_store w')] /\ same_contents s (w_store w').
Proof.
  unfold readManifest, call. set (s := env _ _). pose proof (Get_frame s (manifestPath p)) as Hf.
  destruct (Get s (manifestPath p)) as [s1 r1]. cbn in *.
  intros Hr. exists s. assert (w' = {| w_store := s1; w_calls := w_calls w ++ [(s, s1)] |}) as ->;
    [|by cbn].
  destruct r1; [|case_test|]; by injection Hr as <- _.
Qed.

(** A write at the version read, of what was read with the items appended. *)
Lemma cas_appends (s1 s2 s3 : St) m v m' data :
  match contents s1 path with
  | Some (d, ver) => v = Some ver /\ manifestFromBytes d = Ret m
  | None => v = None /\ m = emptyManifest
  end ->
  evolves path s1 s2 -> version_matches (contents s2 path) v -> writes s2 s3 path data ->
  appendAll m items = Ret m' -> toBytes m' = Ret data ->
  fits items -> forall a, manifest_at s2 path a -> appends path items s2 s3.
Proof.
  intros Hread Hev Hv2 Hw Hall Hto (Hwf & Hne & Hlen) a Ha.
  assert (manifest_repr m (ms_entries a) [] (ms_next a) (ms_epoch a)) as Hm.
  { destruct Ha as [(_ & _ & Hn & He) Ha]. unfold version_matches in Hv2.
    destruct (contents s2 path) as [[d2 v2]|] eqn:E2; cbn in Hv2; subst v.
    - destruct (contents s1 path) as [[d1 v1]|] eqn:E1; [|by destruct Hread].
      destruct Hread as [[= ->] Hread]. rewrite (evolves_version path s1 s2 d1 d2 v1 Hev E1 E2), Ha in Hread.
      destruct (manifestFromBytes_repr (ms_entries a) _ _ Hn He) as (m1 & Hm1 & ?). congruence.
    - destruct (contents s1 path) as [[d1 v1]|]; [by destruct Hread|]. destruct Hread as [_ ->].
      rewrite Ha. apply emptyManifest_repr. }
  pose proof (append_refines m a items Hm (proj1 Ha) Hwf Hne Hlen) as Hap.
  rewrite Hall in Hap. cbn [mbind outcome_bind] in Hap. rewrite Hto in Hap.
  destruct (Z.ltb_spec MaxUint32 (len (ms_entries a) + len items)) as [|Hc]; [done|].
  injection Hap as ->. by eapply writes_appends.
Qed.

(** A run that returns ends with one call whose effect is [enqueueEffect];
    the calls before it changed nothing. *)
Lemma enqueueLoop_effect fuel : forall p w c p' w' c' r,
  manifestPath p = path -> enqueueLoop env fuel items p w c = (p', w', Some (c', r)) -> r <> Panic ->
  exists log s, w_calls w' = w_calls w ++ log ++ [(s, w_store w')] /\ Forall unchanged log /\
    enqueueEffect path items s (w_store w')
      match r with Fail e => Some e | _ => None end.
Proof.
  induction fuel as [|fuel IH]; intros p w c p' w' c' r Hp; cbn [enqueueLoop]; [done|].
  destruct (readManifest env p w) as [w1 read] eqn:Hread.
  destruct (readManifest_call _ _ _ _ Hread) as (s & Hlog & Hsame).
  destruct (mv ← read; m ← appendAll mv.1 items; data ← toBytes m; Ret (data, mv.2))
    as [[data v]|e|] eqn:Hdata.
  2: { intros [= <- <- <- <-] _. exists [], s. split_and!; [done|constructor|]. by apply unchanged_effect. }
  2: by intros [= <- <- <- <-] ?.
  destruct read as [[m v0]|e|]; try done. cbn [mbind outcome_bind fst snd] in Hdata.
  destruct (appendAll m items) as [m'|e|] eqn:Hall; try done. cbn [mbind outcome_bind] in Hdata.
  destruct (toBytes m') as [d|e|] eqn:Hto; try done. cbn [mbind outcome_bind] in Hdata.
  injection Hdata as -> ->. pose proof (readManifest_read _ _ _ _ _ Hp Hread) as Hr.
  unfold call. cbn [manifestPath]. rewrite Hp. set (s2 := env _ (w_store w1)).
  pose proof (Henv (length (w_calls w1)) (w_store w1)) as Hev. fold s2 in Hev.
  pose proof (PutIfMatch_ok s2 path data v) as Hok.
  pose proof (PutIfMatch_conflict s2 path data v) as Hconf.
  pose proof (PutIfMatch_error s2 path data v) as Herr.
  destruct (PutIfMatch s2 path data v) as [s3 [[]|e|]]; cbn in *.
  - intros [= <- <- <- <-] _. destruct (Hok eq_refl) as [Hv Hw]. exists [(s, w_store w1)], s2.
    rewrite Hlog, <- !(assoc_L (++)). split_and!; [done|by apply Forall_singleton|].
    split; [intros q; by eapply writes_other|]. by eapply cas_appends.
  - specialize (Hconf _ eq_refl). case_test.
    + intros Hrun Hnp. eapply IH in Hrun as (log & s4 & Hcalls & Hun & Heff); [|done..].
      exists ([(s, w_store w1); (s2, s3)] ++ log), s4. cbn in Hcalls.
      rewrite Hcalls, Hlog, <- !(assoc_L (++)). split_and!; [done| |done].
      apply Forall_app; split; [|done]. specialize (Hconf eq_refl).
      by apply Forall_cons; split; [|apply Forall_singleton].
    + intros [= <- <- <- <-] _. exists [(s, w_store w1)], s2.
      rewrite Hlog, <- !(assoc_L (++)). split_and!; [done|by apply Forall_singleton|].
      destruct (Herr _ eq_refl) as [Hs|[Hv Hw]]; [by apply unchanged_effect|].
      split; [intros q; by eapply writes_other|]. intros Hf a Ha. right. by eapply cas_appends.
  - by intros [= <- <- <- <-] ?.
Qed.

Lemma enqueueBatch_effect fuel p w p' w' c r :
  manifestPath p = path -> items <> [] ->
  enqueueBatch env fuel items p w = (p', w', Some (c, r)) -> r <> Panic ->
  exists log s, w_calls w' = w_calls w ++ log ++ [(s, w_store w')] /\ Forall unchanged log /\
    enqueueEffect path items s (w_store w') match r with Fail e => Some e | _ => None end.
Proof.
  intros Hp Hne. unfold enqueueBatch.
  destruct (Z.eqb_spec (len items) 0) as [H0|_]; [by apply len_zero_nil in H0|].
  by apply enqueueLoop_effect.
Qed.
End Effect.

(** ** Termination *)

Section Termination.
Context {St : Type} {HO : ObjectStore St} {HC : StoreContents St}
        {HL : StoreLaws St} {HE : StoreEvolution St} {HR : ReliableStore St}.
Context (env : nat -> St -> St) (path : string) {Henv : EnvOk env path}.
Context (items : list enqueueItem).
Context (Hitems : Forall item_wf items) (Hne : items <> []) (Hlen : is_int64 (len items)).

(** The environment leaves the store alone from the [t]-th call on. *)
Context (t : nat) (Hquiet : forall k s, (t <= k)%nat -> env k s = s).

Lemma readManifest_reliable p w a e w' :
  manifestPath p = path -> manifest_at (w_store w) path a ->
  readManifest env p w <> (w', Fail e).
Proof.
  intros Hp Ha Hr.
  unfold readManifest, call in Hr. rewrite Hp in Hr.
  set (s0 := env _ _) in Hr.
  destruct (env_manifest env path (length (w_calls w)) _ _ Ha) as [a' Ha']. fold s0 in Ha'.
  pose proof (Get_found s0 path) as Hfound. pose proof (Get_reliable s0 path) as Hrel.
  destruct (Get s0 path) as [s1 [g|e'|]]; cbn in *; [| |done].
  - specialize (Hfound _ eq_refl). destruct Ha' as ((_ & _ & Hn & He) & Ha').
    rewrite Hfound in Ha'. rewrite Ha' in Hr.
    by destruct (manifestFromBytes_repr (ms_entries a') _ _ Hn He) as (m & Hm & _);
      rewrite Hm in Hr.
  - by rewrite (Hrel _ eq_refl) in Hr.
Qed.

Lemma enqueueLoop_terminates fuel : forall p w c a,
  manifestPath p = path -> manifest_at (w_store w) path a ->
  (1 <= fuel)%nat -> (t < length (w_calls w) + 2 * fuel)%nat ->
  exists c' r, (enqueueLoop env fuel items p w c).2 = Some (c', r) /\
    c <= c' <= c + Z.of_nat fuel - 1 /\
    (r = Ret tt \/ exists msg, r = Fail (serializationErr msg)).
Proof.
  induction fuel as [|fuel IH]; intros p w c a Hp Ha Hfuel Ht; [lia|]. cbn [enqueueLoop].
  pose proof (readManifest_reliable p w a) as Hnofail.
  destruct (readManifest_spec env path p w a Hp Ha)
    as (s & w1 & r & Heq & Hs & Hlog & Hr & a1 & Ha1). rewrite Heq in Hnofail |- *.
  destruct r as [[m v]|e|]; [|by destruct (Hnofail e w1)|done].
  destruct Hr as (a2 & Ha2 & Hm & Hv). cbn [mbind outcome_bind fst snd].
  pose proof (append_refines m a2 items Hm (proj1 Ha2) Hitems Hne Hlen) as Hap.
  destruct (appendAll m items) as [m'|e|]; cbn [mbind outcome_bind] in *.
  2: { exists c, (Fail e). split_and!; [done|lia|lia|right].
       destruct (MaxUint32 <? _); simplify_eq. by eexists. }
  2: { by destruct (MaxUint32 <? _). }
  rewrite Hap. destruct (MaxUint32 <? _); cbn [mbind outcome_bind].
  { eexists c, _. split_and!; [done|lia|lia|right]. by eexists. }
  set (data := serialize _ _ _). unfold call. rewrite Hp. cbn [manifestPath].
  set (s2 := env _ (w_store w1)).
  destruct (env_manifest env path (length (w_calls w1)) _ _ Ha1) as [a3 Ha3]. fold s2 in Ha3.
  pose proof (PutIfMatch_reliable s2 path data v) as Hrel.
  pose proof (PutIfMatch_conflict s2 path data v) as Hconf.
  pose proof (PutIfMatch_no_panic s2 path data v) as Hnp.
  destruct (PutIfMatch s2 path data v) as [s3 [[]|e|]]; cbn in *; [| |done].
  { exists c, (Ret tt). split_and!; [done|lia|lia|by left]. }
  destruct (Hrel _ eq_refl) as [Hpc Hnm]. rewrite Hpc. specialize (Hconf _ eq_refl Hpc).
  assert (length (w_calls w1) < t)%nat as Hbusy.
  { destruct (decide (length (w_calls w1) < t)%nat) as [|Hq]; [done|]. destruct Hnm.
    unfold s2. rewrite Hquiet by lia. done. }
  assert (length (w_calls w1) = S (length (w_calls w))) as Hl1.
  { rewrite Hlog, length_app. cbn. lia. }
  destruct fuel as [|fuel]; [lia|].
  match goal with |- context [enqueueLoop env (S fuel) items ?p ?w ?c] =>
    destruct (IH p w c a3) as (c' & r' & -> & Hc' & Hr')
  end.
  - done.
  - by apply (manifest_at_same path s2).
  - lia.
  - cbn. rewrite length_app. cbn. lia.
  - exists c', r'. split_and!; [done|lia|lia|done].
Qed.
End Termination.

(** ** A store that repeats requests

    A client of a remote store may send a request again when it got no answer
    (the AWS SDK's do, by default). [r_lost] is the number of conditional puts
    to come whose first answer gets lost: the request has been served, and is
    sent once more. *)

Record repeating (St : Type) := Repeating { r_store : St; r_lost : nat }.
Arguments Repeating {St}.
Arguments r_store {St}.
Arguments r_lost {St}.

Definition repeating_store {St} (HO : ObjectStore St) : ObjectStore (repeating St) := {|
  Get s path := let '(st, r) := Get (r_store s) path in (Repeating st (r_lost s), r);
  Put s path data := let '(st, r) := Put (r_store s) path data in (Repeating st (r_lost s), r);
  PutIfMatch s path data v :=
    let '(st, r) := PutIfMatch (r_store s) path data v in
    match r_lost s with
    | O => (Repeating st O, r)
    | S lost => let '(st, r) := PutIfMatch st path data v in (Repeating st lost, r)
    end;
  Delete s path := let '(st, r) := Delete (r_store s) path in (Repeating st (r_lost s), r);
|}.

Section Repeating.
Context {St : Type} {HO : ObjectStore St} {HC : StoreContents St}
        {HL : StoreLaws St} {HE : StoreEvolution St} {HR : ReliableStore St}.
Context (path : string) (items : list enqueueItem) (Hfits : fits items).

#[local] Existing Instance repeating_store.
Abbreviation quiet := (fun (_ : nat) (s : repeating St) => s).

Definition manifest_bytes (a : manifest_state) : bytes := serialize (ms_entries a) (ms_next a) (ms_epoch a).

Lemma repeating_read p (w : world (repeating St)) a :
  manifestPath p = path -> manifest_at (r_store (w_store w)) path a ->
  exists w' m v, readManifest quiet p w = (w', Ret (m, v)) /\
    r_lost (w_store w') = r_lost (w_store w) /\
    manifest_at (r_store (w_store w')) path a /\
    version_matches (contents (r_store (w_store w')) path) v /\
    manifest_repr m (ms_entries a) [] (ms_next a) (ms_epoch a).
Proof.
  intros Hp Ha. unfold readManifest, call. rewrite Hp. cbn.
  pose proof (Get_frame (r_store (w_store w)) path) as Hf.
  pose proof (Get_found (r_store (w_store w)) path) as Hfound.
  pose proof (Get_not_found (r_store (w_store w)) path) as Hnf.
  pose proof (Get_reliable (r_store (w_store w)) path) as Hrel.
  pose proof (Get_no_panic (r_store (w_store w)) path) as Hnp.
  pose proof (manifest_at_same path _ _ _ Hf Ha) as Ha'.
  destruct (Get (r_store (w_store w)) path) as [st [r|e|]]; cbn in *; [| |done].
  - specialize (Hfound _ eq_refl). destruct Ha as [(_ & _ & Hn & He) Ha]. rewrite Hfound in Ha.
    destruct (manifestFromBytes_repr (ms_entries a) _ _ Hn He) as (m & Hm & Hrepr).
    rewrite Ha, Hm. cbn. eexists _, m, _. split_and!; [done|done|done| |done]. cbn.
    by rewrite (Hf path), Hfound.
  - rewrite (Hrel _ eq_refl). specialize (Hnf _ eq_refl (Hrel _ eq_refl)).
    eexists _, emptyManifest, None. split_and!; [done|done|done| |].
    + cbn. by rewrite (Hf path), Hnf.
    + destruct Ha as [_ Ha]. rewrite Hnf in Ha. subst a. apply emptyManifest_repr.
Qed.

(** The conditional put at the version read takes effect. *)
Lemma put_takes_effect st a v :
  manifest_at st path a -> version_matches (contents st path) v ->
  len (ms_entries a) + len items <= MaxUint32 ->
  exists st', PutIfMatch st path (manifest_bytes (spec_append items a)) v = (st', Ret tt) /\
    manifest_at st' path (spec_append items a) /\ ~ version_matches (contents st' path) v.
Proof.
  intros Ha Hv Hc. set (data := manifest_bytes (spec_append items a)).
  pose proof (PutIfMatch_ok st path data v) as Hok. pose proof (PutIfMatch_reliable st path data v) as Hrel.
  pose proof (PutIfMatch_no_panic st path data v) as Hnp. pose proof (PutIfMatch_evolves path st path data v) as Hev.
  destruct (PutIfMatch st path data v) as [st' [[]|e|]]; cbn [fst snd] in *; [|by destruct (Hrel _ eq_refl)|done].
  destruct (Hok eq_refl) as [_ Hw]. exists st'. split; [done|].
  destruct (writes_appends path items (proj1 Hfits) st st' a data Ha Hc Hw eq_refl) as (a0 & Ha0 & Ha' & _).
  destruct Hw as [(v' & Hw) _]. split.
  - destruct Ha as [Hwf _]. split; [by apply spec_append_wf; [|apply Hfits|]|]. by rewrite Hw.
  - unfold version_matches in Hv |- *. rewrite Hw, <- Hv.
    destruct (contents st path) as [[d0 v0]|] eqn:E; [|done]. intros [= ->].
    pose proof (evolves_version path st st' d0 data v0 Hev E Hw) as Heq.
    destruct Ha as [_ Ha]. rewrite E in Ha. subst d0. unfold data, manifest_bytes in Heq.
    apply (f_equal len) in Heq. rewrite !len_serialize in Heq. cbn [spec_append ms_entries] in Heq.
    rewrite bind_app, len_app in Heq. destruct Hfits as (_ & Hne & _). destruct items as [|i l]; [done|].
    cbn [sequence_from] in Heq. rewrite bind_cons, len_app in Heq.
    pose proof (entryBytes_nonempty (sequenced (ms_next a) (item_entry i))). len_pose. lia.
Qed.

(** One attempt of the loop up to its put. *)
Lemma repeating_attempt fuel p (w : world (repeating St)) c a :
  manifestPath p = path -> manifest_at (r_store (w_store w)) path a ->
  len (ms_entries a) + len items <= MaxUint32 ->
  exists st st' v calls, PutIfMatch st path (manifest_bytes (spec_append items a)) v = (st', Ret tt) /\
    manifest_at st' path (spec_append items a) /\ ~ version_matches (contents st' path) v /\
    enqueueLoop quiet (S fuel) items p w c =
      let p := {| manifestPath := path; counter := recordWrite (counter p) |} in
      let '(w, put) := call quiet (fun s => PutIfMatch s path (manifest_bytes (spec_append items a)) v)
                         {| w_store := Repeating st (r_lost (w_store w)); w_calls := calls |} in
      match put with
      | Ret _ => (p, w, Some (c, Ret tt))
      | Panic => (p, w, Some (c, Panic))
      | Fail err =>
          if errors_Is err ErrPreconditionFailed
          then enqueueLoop quiet fuel items
                 {| manifestPath := path; counter := recordConflict (counter p) |} w (c + 1)
          else (p, w, Some (c, Fail (storageErr (error_message err))))
      end.
Proof.
  intros Hp Ha Hc. destruct (repeating_read p w a Hp Ha) as ([[st lost] calls] & m & v & Hr & Hl & Ha1 & Hv & Hm).
  cbn in Hl, Ha1, Hv. destruct (put_takes_effect st a v Ha1 Hv Hc) as (st' & Hput & Ha' & Hv').
  exists st, st', v, calls. split_and!; [done..|]. cbn [enqueueLoop]. rewrite Hr, <- Hl.
  cbn [mbind outcome_bind fst snd].
  destruct Hfits as (Hwf & Hne & Hlen).
  pose proof (append_refines m a items Hm (proj1 Ha) Hwf Hne Hlen) as Hap.
  destruct (Z.ltb_spec MaxUint32 (len (ms_entries a) + len items)) as [|_]; [lia|].
  destruct (appendAll m items) as [m'|e|]; cbn [mbind outcome_bind] in *; [|done|done].
  rewrite Hap. cbn [mbind outcome_bind]. rewrite Hp. done.
Qed.

Lemma repeated_duplicates p st a :
  manifestPath p = path -> manifest_at st path a ->
  len (ms_entries a) + 2 * len items <= MaxUint32 ->
  exists p' w', enqueueBatch quiet 2 items p {| w_store := Repeating st 1; w_calls := [] |}
                = (p', w', Some (1, Ret tt)) /\
    manifest_at (r_store (w_store w')) path (spec_append items (spec_append items a)).
Proof.
  intros Hp Ha Hc. len_pose. unfold enqueueBatch.
  destruct (Z.eqb_spec (len items) 0) as [Hz|_]; [apply len_zero_nil in Hz; by destruct Hfits as (_ & ? & _)|].
  destruct (repeating_attempt 1 p {| w_store := Repeating st 1; w_calls := [] |} 0 a Hp Ha ltac:(lia))
    as (s1 & s1' & v1 & calls & Hput & Ha1 & Hv1 & ->). cbv zeta.
  unfold call at 1. cbn -[enqueueLoop manifest_bytes spec_append]. rewrite Hput.
  set (data := manifest_bytes (spec_append items a)) in *.
  pose proof (PutIfMatch_ok s1' path data v1) as Hok. pose proof (PutIfMatch_reliable s1' path data v1) as Hrel.
  pose proof (PutIfMatch_conflict s1' path data v1) as Hconf. pose proof (PutIfMatch_no_panic s1' path data v1) as Hnp.
  destruct (PutIfMatch s1' path data v1) as [s2 [[]|e|]]; cbn [fst snd] in *;
    [by destruct (Hok eq_refl)| |done].
  destruct (Hrel _ eq_refl) as [Hpc _]. rewrite Hpc. specialize (Hconf _ eq_refl Hpc).
  match goal with |- context [enqueueLoop _ 1 items ?p ?w ?c] =>
    destruct (repeating_attempt 0 p w c (spec_append items a) eq_refl) as (s3 & s3' & v3 & calls' & Hput' & Ha3 & _ & ->)
  end.
  { cbn. by eapply manifest_at_same. }
  { cbn. rewrite len_app, len_sequence_from. lia. }
  cbv zeta. unfold call. cbn -[manifest_bytes spec_append]. rewrite Hput'. cbn -[manifest_bytes spec_append]. eexists _, _. split; [done|]. exact Ha3.
Qed.
End Repeating.

(** ** Accounting *)

Section Accounting.
Context {St : Type} {HO : ObjectStore St} (env : nat -> St -> St).

Lemma readManifest_calls p w :
  len (w_calls (readManifest env p w).1) = len (w_calls w) + 1.
Proof.
  unfold readManifest, call.
  destruct (Get _ _).2; [|case_test|]; cbn; len_lia.
Qed.

Lemma enqueueLoop_path fuel items : forall p w c,
  manifestPath (enqueueLoop env fuel items p w c).1.1 = manifestPath p.
Proof.
  induction fuel as [|fuel IH]; intros p w c; cbn [enqueueLoop]; [done|].
  destruct (readManifest env p w) as [w1 r].
  destruct (mv ← r; m ← appendAll mv.1 items; data ← toBytes m; Ret (data, mv.2))
    as [[data version]|e|]; [|done..].
  unfold call. destruct (PutIfMatch _ _ _ _).2 as [[]|e|]; [done| |done].
  case_test; [|done]. by rewrite IH.
Qed.

Lemma enqueueBatch_path fuel items p w :
  manifestPath (enqueueBatch env fuel items p w).1.1 = manifestPath p.
Proof. unfold enqueueBatch. case_test; [done|apply enqueueLoop_path]. Qed.

(** Every conflict costs one read and one failed conditional put, and both
    counters record exactly the attempts made. *)
Lemma enqueueLoop_counts fuel items : forall p w c p' w' c' u,
  enqueueLoop env fuel items p w c = (p', w', Some (c', Ret u)) ->
  c <= c' /\
  len (w_calls w') = len (w_calls w) + 2 * (c' - c + 1) /\
  uint64 (writeCount (counter p')) = uint64 (writeCount (counter p) + (c' - c + 1)) /\
  uint64 (conflictCount (counter p')) = uint64 (conflictCount (counter p) + (c' - c)).
Proof.
  induction fuel as [|fuel IH]; intros p w c p' w' c' u Hr; cbn [enqueueLoop] in Hr; [done|].
  pose proof (readManifest_calls p w) as Hl1.
  destruct (readManifest env p w) as [w1 r]. cbn [fst snd] in Hl1.
  destruct (mv ← r; m ← appendAll mv.1 items; data ← toBytes m; Ret (data, mv.2))
    as [[data version]|e|]; [|done..].
  unfold call in Hr. cbn [manifestPath] in Hr.
  destruct (PutIfMatch _ _ _ _) as [s3 [[]|e|]]; cbn in Hr; [| |done].
  - simplify_eq. cbn [w_calls counter recordWrite writeCount conflictCount].
    rewrite len_app, len_cons, len_nil. unfold uint64. rewrite !Zmod_mod.
    split_and!; [lia|lia|f_equal; lia|f_equal; lia].
  - case_test; [|done]. apply IH in Hr as (Hc & Hl & Hw & Hcf).
    cbn [w_calls counter recordWrite recordConflict writeCount conflictCount] in *.
    rewrite len_app, len_cons, len_nil in Hl. split_and!; [lia|lia| |].
    + rewrite Hw. unfold uint64. rewrite Zplus_mod_idemp_l. f_equal. lia.
    + rewrite Hcf. unfold uint64. rewrite Zplus_mod_idemp_l. f_equal. lia.
Qed.
End Accounting.

(** Readers see the items that were appended. *)
Lemma appended_readable {St} {HC : StoreContents St} (s : St) path items a :
  items <> [] -> manifest_at s path (spec_append items a) ->
  exists data v, contents s path = Some (data, v) /\
    DecodeManifestEntries data = Ret (ms_entries a ++ sequence_from (ms_next a) items).
Proof.
  intros Hne [(Hwf & Hlen & _) Hat]. destruct (contents s path) as [[data v]|].
  - exists data, v. split; [done|]. rewrite Hat. by apply DecodeManifestEntries_body.
  - exfalso. apply (f_equal ms_entries) in Hat. cbn in Hat.
    destruct items; [done|]. cbn in Hat. by destruct (ms_entries a).
Qed.

(** ** Properties *)

(** C6. Enqueueing is atomic with respect to every other process: whatever the
    environment does between the store calls (short of deleting or corrupting
    the manifest), a run of [enqueueBatch] never changes the contents of the
    store except by one call, the last, that takes the manifest from some
    state to that state with all items appended, in order and with consecutive
    sequence numbers. On success that call happened; when the retries are
    still going it has not; on an error it may have happened only if the store
    reported an error for a write that took effect; there is no panic. *)
Theorem enqueueBatch_all_or_nothing {St} {HO : ObjectStore St} {HC : StoreContents St}
    {HL : StoreLaws St} {HE : StoreEvolution St} (env : nat -> St -> St) path
    {Henv : EnvOk env path} items fuel p w a :
  Forall item_wf items -> items <> [] -> is_int64 (len items) ->
  manifestPath p = path -> manifest_at (w_store w) path a ->
  let '(p', w', r) := enqueueBatch env fuel items p w in
  exists log, w_calls w' = w_calls w ++ log /\
    match r with
    | Some (_, Ret _) => exists log0 s,
        log = log0 ++ [(s, w_store w')] /\ Forall unchanged log0 /\
        appends path items s (w_store w')
    | Some (_, Fail _) => Forall unchanged log \/ exists log0 s,
        log = log0 ++ [(s, w_store w')] /\ Forall unchanged log0 /\
        appends path items s (w_store w')
    | Some (_, Panic) => False
    | None => Forall unchanged log
    end.
Proof.
  intros Hi Hne Hl Hp Ha.
  pose proof (enqueueBatch_spec env path items Hi Hne Hl fuel p w a Hp Ha) as Hrun.
  destruct (enqueueBatch env fuel items p w) as [[p' w'] r]. apply Hrun.
Qed.

(** What a successful enqueue wrote is what readers see: the manifest in
    the store decodes to the entries that were there when it was replaced,
    followed by one entry per item, in order, with its location and metadata
    and consecutive sequence numbers. *)
Theorem enqueueBatch_readable {St} {HO : ObjectStore St} {HC : StoreContents St}
    {HL : StoreLaws St} {HE : StoreEvolution St} (env : nat -> St -> St) path
    {Henv : EnvOk env path} items fuel p w a p' w' c u :
  Forall item_wf items -> items <> [] -> is_int64 (len items) ->
  manifestPath p = path -> manifest_at (w_store w) path a ->
  enqueueBatch env fuel items p w = (p', w', Some (c, Ret u)) ->
  exists data v before, contents (w_store w') path = Some (data, v) /\
    DecodeManifestEntries data =
      Ret (ms_entries before ++ sequence_from (ms_next before) items).
Proof.
  intros Hi Hne Hl Hp Ha Hrun.
  pose proof (enqueueBatch_spec env path items Hi Hne Hl fuel p w a Hp Ha) as Hloop.
  rewrite Hrun in Hloop.
  destruct Hloop as [(log & _ & log0 & s & _ & _ & before & _ & Hat & _) _].
  destruct (appended_readable _ _ _ _ Hne Hat) as (data & v & ? & ?). by exists data, v, before.
Qed.

(** C19. The loop terminates: with a store that does not fail and an
    environment that leaves the store alone from the [t]-th store call on, half
    as many attempts plus one are enough, the number of conflicts is below the
    number of attempts, and the only possible error is that of the entry
    count outgrowing its 32 bits. *)
Theorem enqueueBatch_terminates {St} {HO : ObjectStore St} {HC : StoreContents St}
    {HL : StoreLaws St} {HE : StoreEvolution St} {HR : ReliableStore St}
    (env : nat -> St -> St) path {Henv : EnvOk env path} items p s a t fuel :
  Forall item_wf items -> items <> [] -> is_int64 (len items) ->
  manifestPath p = path -> manifest_at s path a ->
  (forall k s, (t <= k)%nat -> env k s = s) -> (t < 2 * fuel)%nat ->
  exists c r, (enqueueBatch env fuel items p {| w_store := s; w_calls := [] |}).2 = Some (c, r) /\
    0 <= c < Z.of_nat fuel /\ (r = Ret tt \/ exists msg, r = Fail (serializationErr msg)).
Proof.
  intros Hi Hne Hl Hp Ha Hquiet Ht. unfold enqueueBatch.
  destruct (Z.eqb_spec (len items) 0) as [H0|_]; [by apply len_zero_nil in H0|].
  destruct (enqueueLoop_terminates env path items Hi Hne Hl t Hquiet fuel p
              {| w_store := s; w_calls := [] |} 0 a Hp Ha) as (c & r & -> & Hc & Hr);
    [lia|cbn; lia|].
  exists c, r. split_and!; [done|lia|lia|done].
Qed.

(** C38. A conditional put that is sent twice makes the producer enqueue its
    items twice and report success. Whatever the store (lawful, and without
    faults of its own), the items and the manifest before, when the first
    answer to the conditional put gets lost and the client repeats the request,
    as the SDK's clients do by default, the repetition is refused because of
    the first one's own effect, [enqueueBatch] takes this for a rival's write,
    and appends the items again behind themselves: it returns nil with one
    conflict counted, and the manifest holds every item twice. *)
Theorem repeated_put_duplicates {St} {HO : ObjectStore St} {HC : StoreContents St}
    {HL : StoreLaws St} {HE : StoreEvolution St} {HR : ReliableStore St} items p st a :
  let path := manifestPath p in
  fits items -> manifest_at st path a -> len (ms_entries a) + 2 * len items <= MaxUint32 ->
  exists p' w', enqueueBatch (H := repeating_store HO) (fun _ s => s) 2 items p
                  {| w_store := Repeating st 1; w_calls := [] |} = (p', w', Some (1, Ret tt)) /\
    exists data v, contents (r_store (w_store w')) path = Some (data, v) /\
      DecodeManifestEntries data =
        Ret (ms_entries a ++ sequence_from (ms_next a) items
               ++ sequence_from (uint64 (ms_next a + len items)) items).
Proof.
  intros path Hfits Ha Hc.
  destruct (repeated_duplicates path items Hfits p st a eq_refl Ha Hc) as (p' & w' & Hrun & Hat).
  exists p', w'. split; [exact Hrun|].
  destruct (appended_readable _ _ _ _ (proj1 (proj2 Hfits)) Hat) as (data & v & Hd & Hdec).
  exists data, v. split; [exact Hd|]. rewrite Hdec. cbn [spec_append ms_entries ms_next].
  by rewrite <- app_assoc.
Qed.

(** Accounting of a successful enqueue: the conflict count it returns is
    the number of conditional puts that were refused; two store calls per
    attempt were made; and the two counters of the conflict rate moved by the
    attempts and the conflicts. Enqueueing no item does nothing. *)
Theorem enqueueBatch_counts {St} {HO : ObjectStore St} (env : nat -> St -> St)
    items fuel p w p' w' c u :
  enqueueBatch env fuel items p w = (p', w', Some (c, Ret u)) ->
  if decide (items = []) then p' = p /\ w' = w /\ c = 0
  else 0 <= c /\ len (w_calls w') = len (w_calls w) + 2 * (c + 1) /\
    uint64 (writeCount (counter p')) = uint64 (writeCount (counter p) + (c + 1)) /\
    uint64 (conflictCount (counter p')) = uint64 (conflictCount (counter p) + c).
Proof.
  unfold enqueueBatch. intros Hrun.
  destruct (Z.eqb_spec (len items) 0) as [H0|H0]; case_decide as Hd; subst.
  - naive_solver.
  - by apply len_zero_nil in H0.
  - by rewrite len_nil in H0.
  - apply enqueueLoop_counts in Hrun. by rewrite Z.sub_0_r in Hrun.
Qed.

(** *** Witnesses *)

(** Another producer that enqueues its own entry between our first read and our
    first conditional put. *)
Definition rival_entry : QueueEntry := sample_entry 0 "ingest/rival".

Definition rival (k : nat) (s : InMemory) : InMemory :=
  if (k =? 1)%nat then (InMemory_Put s "m" (serialize [rival_entry] 1 0)).1 else s.

Definition rival_state : manifest_state :=
  {| ms_entries := [rival_entry]; ms_next := 1; ms_epoch := 0 |}.

#[export] Instance rival_ok : EnvOk rival "m".
Proof.
  split; intros k s; unfold rival; destruct (k =? 1)%nat.
  - exact (Put_evolves "m" s "m" _).
  - done.
  - intros a _. exists rival_state. split; [solve_bounds|].
    unfold contents, InMemory_contents, InMemory_Put.
    destruct (objects s !! "m"); cbn; by rewrite lookup_insert_eq.
  - eauto.
Qed.

Definition sample_item : enqueueItem :=
  {| item_Location := "ingest/run/0"; item_Metadata := Metadata rival_entry |}.

Definition sample_world : world InMemory := {| w_store := NewInMemory; w_calls := [] |}.

Definition empty_state : manifest_state := {| ms_entries := []; ms_next := 0; ms_epoch := 0 |}.

Lemma empty_manifest_at : manifest_at NewInMemory "m" empty_state.
Proof. split; [solve_bounds|reflexivity]. Qed.

Lemma enqueueBatch_all_or_nothing_witness :
  let '(p', w', r) := enqueueBatch rival 2 [sample_item] (newManifestEnqueuer "m") sample_world in
  r = Some (1, Ret tt) /\
  exists log0 s, w_calls w' = log0 ++ [(s, w_store w')] /\ Forall unchanged log0 /\
    appends "m" [sample_item] s (w_store w').
Proof.
  pose proof (enqueueBatch_all_or_nothing rival "m" [sample_item] 2 (newManifestEnqueuer "m")
    sample_world empty_state ltac:(solve_bounds) ltac:(discriminate) ltac:(solve_bounds)
    eq_refl empty_manifest_at) as H.
  assert ((enqueueBatch rival 2 [sample_item] (newManifestEnqueuer "m") sample_world).2
          = Some (1, Ret tt)) as Hr by (vm_compute; reflexivity).
  destruct (enqueueBatch _ _ _ _ _) as [[p' w'] r]. cbn in Hr. subst r.
  split; [reflexivity|]. destruct H as (log & Hlog & log0 & s & Hl & Hun & Ha).
  exists log0, s. rewrite Hlog, Hl. split; [reflexivity|split; assumption].
Defined.

Lemma enqueueBatch_readable_witness :
  exists p' w', enqueueBatch rival 2 [sample_item] (newManifestEnqueuer "m") sample_world
                  = (p', w', Some (1, Ret tt)) /\
  exists data v before, contents (w_store w') "m" = Some (data, v) /\
    DecodeManifestEntries data =
      Ret (ms_entries before ++ sequence_from (ms_next before) [sample_item]).
Proof.
  do 2 eexists. split; [vm_compute; reflexivity|].
  refine (enqueueBatch_readable rival "m" [sample_item] 2 (newManifestEnqueuer "m") sample_world
    empty_state _ _ 1 tt _ _ _ eq_refl empty_manifest_at _);
    [solve_bounds|discriminate|solve_bounds|vm_compute; reflexivity].
Defined.

Lemma enqueueBatch_terminates_witness :
  exists c r, (enqueueBatch rival 2 [sample_item] (newManifestEnqueuer "m") sample_world).2
              = Some (c, r) /\
    0 <= c < 2 /\ (r = Ret tt \/ exists msg, r = Fail (serializationErr msg)).
Proof.
  apply (enqueueBatch_terminates rival "m" [sample_item] (newManifestEnqueuer "m") NewInMemory
    empty_state 2 2); [solve_bounds|discriminate|solve_bounds|reflexivity|exact empty_manifest_at| |lia].
  intros k s Hk. unfold rival. destruct (Nat.eqb_spec k 1); [lia|reflexivity].
Defined.

Lemma enqueueBatch_counts_witness :
  exists p' w', enqueueBatch rival 2 [sample_item] (newManifestEnqueuer "m") sample_world
                  = (p', w', Some (1, Ret tt)) /\
    len (w_calls w') = 4 /\ uint64 (writeCount (counter p')) = 2 /\
    uint64 (conflictCount (counter p')) = 1.
Proof.
  do 2 eexists. split; [vm_compute; reflexivity|].
  refine (proj2 (enqueueBatch_counts rival [sample_item] 2 (newManifestEnqueuer "m") sample_world
    _ _ 1 tt _)). vm_compute; reflexivity.
Defined.

Lemma repeated_put_duplicates_witness :
  exists p' w', enqueueBatch (H := repeating_store InMemory_store) (fun _ s => s) 2 [sample_item]
                  (newManifestEnqueuer "m") {| w_store := Repeating NewInMemory 1; w_calls := [] |}
                = (p', w', Some (1, Ret tt)) /\
    exists data v, contents (r_store (w_store w')) "m" = Some (data, v) /\
      DecodeManifestEntries data = Ret (sequence_from 0 [sample_item] ++ sequence_from 1 [sample_item]).
Proof.
  apply (repeated_put_duplicates [sample_item] (newManifestEnqueuer "m") NewInMemory empty_state).
  - split; [solve_bounds|split; [discriminate|solve_bounds]].
  - exact empty_manifest_at.
  - vm_compute. discriminate.
Defined.
