(* ===== verification/S3.v ===== *)
(** * The S3 object store ([src/objstore/s3.go])

    [S3] maps the interface [ObjectStore] onto the client of the AWS SDK. The
    client and the service behind it are code outside the program: the class
    [S3Client] is what the program calls of them, and the class
    [S3ClientLaws] what the program relies on. Two of these assumptions are
    stronger than what the SDK documents, and are named as assumptions for that
    reason: a client sends each request once (the SDK's clients repeat a
    request without an answer by default; what becomes of the producer then is
    [Enqueuer.repeated_put_duplicates]), and the text of an error message
    contains the words [isPreconditionMessage] and [S3_Get] look for only when
    it was made from a response of that status. *)

From S2P Require Import Prelude GoError Bytes Batch Manifest ObjStore Enqueuer.

Local Open Scope string_scope.
Local Open Scope list_scope.
Local Open Scope Z_scope.

(** [strings.Contains]. *)
Fixpoint Contains (s substr : string) : bool :=
  String.prefix substr s ||
  match s with EmptyString => false | String _ s => Contains s substr end.

Lemma prefix_app_true (a b : string) : String.prefix a (a +:+ b) = true.
Proof.
  induction a as [|c a IH]; [by destruct b|].
  change (String c a +:+ b) with (String c (a +:+ b)). cbn.
  destruct (Ascii.ascii_dec c c); [exact IH|done].
Qed.

Lemma prefix_inv (a s : string) : String.prefix a s = true -> exists b, s = a +:+ b.
Proof.
  revert s. induction a as [|c a IH]; intros s; cbn; [intros _; by exists s|].
  destruct s as [|c' s]; cbn; [done|]. destruct (Ascii.ascii_dec c c') as [->|]; [|done].
  intros Hp. destruct (IH s Hp) as [b ->]. by exists b.
Qed.

Lemma Contains_spec s substr :
  Contains s substr = true <-> exists a b, s = a +:+ substr +:+ b.
Proof.
  split.
  - induction s as [|c s IH]; cbn [Contains]; rewrite orb_true_iff; (intros [Hp|Hr]; [|try done]).
    + apply prefix_inv in Hp as [b Hb]. by exists "", b.
    + apply prefix_inv in Hp as [b Hb]. by exists "", b.
    + destruct (IH Hr) as (a & b & ->). by exists (String c a), b.
  - intros (a & b & ->). induction a as [|c a IH].
    + change ("" +:+ substr +:+ b) with (substr +:+ b).
      destruct (substr +:+ b) eqn:E; cbn [Contains]; rewrite <- E, prefix_app_true; done.
    + change (String c a +:+ substr +:+ b) with (String c (a +:+ substr +:+ b)). cbn [Contains].
      rewrite IH. by rewrite orb_true_r.
Qed.

(** ** The client *)

(** [Body] is what reading the stream to its end gives. *)
Record GetObjectOutput := { Body : bytes + string; out_ETag : option string }.

Record PutObjectInput := {
  Bucket : string;
  Key : string;
  in_Body : bytes;
  IfMatch : option string;
  IfNoneMatch : option string;
}.

Class S3Client (Svc : Type) := {
  sdkError : Type;
  errors_As_NoSuchKey : sdkError -> bool;
  Error : sdkError -> string;
  GetObject : Svc -> string -> string -> Svc * (GetObjectOutput + sdkError);
  PutObject : Svc -> PutObjectInput -> Svc * (unit + sdkError);
  DeleteObject : Svc -> string -> string -> Svc * (unit + sdkError);
}.

(** ** Operations *)

Section S3.
Context {Svc : Type} {HC : S3Client Svc}.
Context (bucket : string).  (** the field [bucket] *)

Definition sdkFail {A} (err : sdkError) : outcome A := Fail (Foreign (Error err)).

Definition S3_Get (s : Svc) (path : string) : Svc * outcome GetResult :=
  let '(s, result) := GetObject s bucket path in
  match result with
  | inr err =>
      if errors_As_NoSuchKey err then (s, Fail (Sentinel ErrNotFound))
      else if Contains (Error err) "NoSuchKey" || Contains (Error err) "StatusCode: 404"
      then (s, Fail (Sentinel ErrNotFound))
      else (s, sdkFail err)
  | inl out =>
      match Body out with
      | inr msg => (s, Fail (Foreign msg))
      | inl data =>
          let etag := match out_ETag out with Some e => e | None => "" end in
          (s, Ret {| Data := data; Ver := {| ETag := etag |} |})
      end
  end.

Definition S3_Put (s : Svc) (path : string) (data : bytes) : Svc * outcome unit :=
  let '(s, result) := PutObject s {| Bucket := bucket; Key := path; in_Body := data;
                                     IfMatch := None; IfNoneMatch := None |} in
  match result with inl _ => (s, Ret tt) | inr err => (s, sdkFail err) end.

(** The input of a conditional put. *)
Definition conditionalInput (path : string) (data : bytes) (version : option Version)
    : PutObjectInput :=
  match version with
  | None => {| Bucket := bucket; Key := path; in_Body := data;
               IfMatch := None; IfNoneMatch := Some "*" |}
  | Some v => {| Bucket := bucket; Key := path; in_Body := data;
                 IfMatch := Some (ETag v); IfNoneMatch := None |}
  end.

Definition isPreconditionMessage (msg : string) : bool :=
  Contains msg "PreconditionFailed" || Contains msg "StatusCode: 412" ||
  Contains msg "ConditionalRequestConflict" || Contains msg "At least one of the pre-conditions".

Definition S3_PutIfMatch (s : Svc) (path : string) (data : bytes) (version : option Version)
    : Svc * outcome unit :=
  let '(s, result) := PutObject s (conditionalInput path data version) in
  match result with
  | inl _ => (s, Ret tt)
  | inr err =>
      if isPreconditionMessage (Error err) then (s, Fail (Sentinel ErrPreconditionFailed))
      else (s, sdkFail err)
  end.

Definition S3_Delete (s : Svc) (path : string) : Svc * outcome unit :=
  let '(s, result) := DeleteObject s bucket path in
  match result with inl _ => (s, Ret tt) | inr err => (s, sdkFail err) end.

Definition S3_store : ObjectStore Svc := {|
  Get := S3_Get;
  Put := S3_Put;
  PutIfMatch := S3_PutIfMatch;
  Delete := S3_Delete;
|}.
End S3.

(** ** What the program relies on *)

(** The condition of a put: [If-None-Match: *] asks for the absence of the
    object, [If-Match] for an entity tag. *)
Definition put_condition (input : PutObjectInput) (obj : option (bytes * string)) : Prop :=
  (IfNoneMatch input = Some "*" -> obj = None) /\
  (forall e, IfMatch input = Some e -> exists d, obj = Some (d, e)).

Class S3ClientLaws (Svc : Type) {HC : S3Client Svc} := {
  (** the objects of the service, by bucket and key, with their entity tags *)
  object : Svc -> string -> string -> option (bytes * string);
  (** the status of the response an error was made from, if there was one *)
  status : sdkError -> option Z;

  GetObject_reads s b k b' k' : object (GetObject s b k).1 b' k' = object s b' k';
  GetObject_found s b k out data :
    (GetObject s b k).2 = inl out -> Body out = inl data ->
    exists etag, out_ETag out = Some etag /\ object s b k = Some (data, etag);
  GetObject_404 s b k err :
    (GetObject s b k).2 = inr err -> status err = Some 404 -> object s b k = None;

  (** a put writes its object or leaves everything as it is *)
  PutObject_frame s input b k :
    (b, k) <> (Bucket input, Key input) -> object (PutObject s input).1 b k = object s b k;
  PutObject_done s input u :
    (PutObject s input).2 = inl u ->
    put_condition input (object s (Bucket input) (Key input)) /\
    exists etag, object (PutObject s input).1 (Bucket input) (Key input) = Some (in_Body input, etag);
  PutObject_refused s input err :
    (PutObject s input).2 = inr err -> status err = Some 412 \/ status err = Some 409 ->
    object (PutObject s input).1 (Bucket input) (Key input) = object s (Bucket input) (Key input);
  PutObject_failed s input err :
    (PutObject s input).2 = inr err ->
    object (PutObject s input).1 (Bucket input) (Key input) = object s (Bucket input) (Key input) \/
    put_condition input (object s (Bucket input) (Key input)) /\
    exists etag, object (PutObject s input).1 (Bucket input) (Key input) = Some (in_Body input, etag);

  (** messages report the response *)
  NoSuchKey_status err : errors_As_NoSuchKey err = true -> status err = Some 404;
  code_404 err : Contains (Error err) "NoSuchKey" = true -> status err = Some 404;
  message_404 err : Contains (Error err) "StatusCode: 404" = true -> status err = Some 404;
  code_412 err : Contains (Error err) "PreconditionFailed" = true -> status err = Some 412;
  message_412 err : Contains (Error err) "StatusCode: 412" = true -> status err = Some 412;
  code_409 err : Contains (Error err) "ConditionalRequestConflict" = true -> status err = Some 409;
  text_412 err :
    Contains (Error err) "At least one of the pre-conditions" = true -> status err = Some 412;
}.

(** An entity tag is a digest of the object. *)
Class ETagDigest (Svc : Type) {HC : S3Client Svc} {HL : S3ClientLaws Svc} :=
  etag_digest : forall s s' b k d d' e,
    object s b k = Some (d, e) -> object s' b k = Some (d', e) -> d = d'.

Section Laws.
Context {Svc : Type} {HC : S3Client Svc} {HL : S3ClientLaws Svc} (bucket : string).

(** The store a bucket is. *)
Definition S3_contents : StoreContents Svc := fun s path =>
  (fun o : bytes * string => (o.1, {| ETag := o.2 |})) <$> object s bucket path.

Lemma S3_contents_None s path : S3_contents s path = None <-> object s bucket path = None.
Proof. unfold S3_contents. by destruct (object s bucket path). Qed.

Lemma S3_contents_Some s path d e :
  S3_contents s path = Some (d, {| ETag := e |}) <-> object s bucket path = Some (d, e).
Proof.
  unfold S3_contents. destruct (object s bucket path) as [[d' e']|]; cbn; [|done].
  split; by intros [= -> ->].
Qed.

Existing Instance S3_contents.

Lemma put_writes s input path data etag :
  Bucket input = bucket -> Key input = path -> in_Body input = data ->
  object (PutObject s input).1 (Bucket input) (Key input) = Some (in_Body input, etag) ->
  writes s (PutObject s input).1 path data.
Proof.
  intros Hb <- <- Ho. rewrite Hb in Ho. split.
  - exists {| ETag := etag |}. by apply S3_contents_Some.
  - intros q Hq. unfold contents, S3_contents. rewrite PutObject_frame; [done|congruence].
Qed.

Lemma put_same s input :
  Bucket input = bucket ->
  object (PutObject s input).1 (Bucket input) (Key input) = object s (Bucket input) (Key input) ->
  same_contents s (PutObject s input).1.
Proof.
  intros Hb Ho q. unfold contents, S3_contents. destruct (decide (q = Key input)) as [->|Hq].
  - by rewrite <- Hb, Ho.
  - rewrite PutObject_frame; [done|congruence].
Qed.

Lemma conditionalInput_fields path data version :
  Bucket (conditionalInput bucket path data version) = bucket /\
  Key (conditionalInput bucket path data version) = path /\
  in_Body (conditionalInput bucket path data version) = data.
Proof. by destruct version. Qed.

(** The condition sent is the condition meant. *)
Lemma conditionalInput_condition s path data version :
  put_condition (conditionalInput bucket path data version) (object s bucket path) <->
  version_matches (contents s path) version.
Proof.
  unfold put_condition, version_matches, contents, S3_contents.
  destruct version as [[e]|]; cbn; destruct (object s bucket path) as [[d e']|]; cbn; split.
  - intros [_ H]. destruct (H e eq_refl) as [d' [= -> ->]]. done.
  - intros [= ->]. split; [done|]. intros e0 [= <-]. by exists d.
  - intros [_ H]. by destruct (H e eq_refl).
  - done.
  - intros [H _]. by specialize (H eq_refl).
  - done.
  - done.
  - done.
Qed.

(** A conditional put that wrote its object. *)
Lemma conditional_writes s path data version :
  let input := conditionalInput bucket path data version in
  put_condition input (object s (Bucket input) (Key input)) /\
  (exists etag, object (PutObject s input).1 (Bucket input) (Key input) = Some (in_Body input, etag)) ->
  version_matches (contents s path) version /\ writes s (PutObject s input).1 path data.
Proof.
  cbn zeta. destruct (conditionalInput_fields path data version) as (Hb & Hk & Hd).
  intros [Hc [etag Ho]]. split; [|by eapply put_writes].
  apply (conditionalInput_condition s path data version). by rewrite Hb, Hk in Hc.
Qed.

Lemma precondition_status err :
  isPreconditionMessage (Error err) = true -> status err = Some 412 \/ status err = Some 409.
Proof.
  unfold isPreconditionMessage. rewrite !orb_true_iff.
  intros [[[H|H]|H]|H]; [left; by apply code_412|left; by apply message_412|right; by apply code_409
    |left; by apply text_412].
Qed.

Lemma not_found_status err :
  (errors_As_NoSuchKey err || (Contains (Error err) "NoSuchKey" || Contains (Error err) "StatusCode: 404"))
    = true -> status err = Some 404.
Proof.
  rewrite !orb_true_iff. intros [H|[H|H]]; [by apply NoSuchKey_status|by apply code_404|by apply message_404].
Qed.

(** The contract of the interface. *)
Lemma S3_laws : StoreLaws Svc (H := S3_store bucket).
Proof.
  split; cbn; unfold S3_Get, S3_Put, S3_PutIfMatch.
  - intros s p q. unfold contents, S3_contents. pose proof (GetObject_reads s bucket p bucket q) as Hr.
    destruct (GetObject s bucket p) as [s' [out|err]]; cbn in *;
      [by destruct (Body out); cbn; rewrite Hr|]. repeat case_test; cbn; by rewrite Hr.
  - intros s p r. pose proof (GetObject_found s bucket p) as Hf.
    destruct (GetObject s bucket p) as [s' [out|err]]; cbn in *; [|by repeat case_test].
    destruct (Body out) as [data|msg] eqn:Hb; cbn; [|done]. intros [= <-]. cbn.
    destruct (Hf out data eq_refl Hb) as (etag & -> & Ho). by apply S3_contents_Some.
  - intros s p e. pose proof (GetObject_404 s bucket p) as Hn.
    destruct (GetObject s bucket p) as [s' [out|err]]; cbn in *; [by destruct (Body out); intros [= <-]|].
    pose proof (not_found_status err) as Hst. intros He Hi. apply S3_contents_None, (Hn err); [done|].
    destruct (errors_As_NoSuchKey err); [by apply Hst|].
    destruct (Contains _ _ || Contains _ _); [by apply Hst|]. by injection He as <-.
  - intros s p. destruct (GetObject s bucket p) as [s' [out|err]]; [by destruct (Body out)|].
    by repeat case_test.
  - intros s p d. set (input := {| Bucket := bucket |}). pose proof (PutObject_done s input) as Hd.
    pose proof (put_writes s input p d) as Hw.
    destruct (PutObject s input) as [s' [u|err]]; cbn in *; [|done]. intros _.
    destruct (Hd u eq_refl) as [_ [etag Ho]]. by eapply Hw.
  - intros s p d e. set (input := {| Bucket := bucket |}). pose proof (PutObject_failed s input) as Hf.
    pose proof (put_writes s input p d) as Hw. pose proof (put_same s input) as Hs.
    destruct (PutObject s input) as [s' [u|err]]; cbn in *; [done|]. intros _.
    destruct (Hf err eq_refl) as [Ho|[_ [etag Ho]]]; [left; by apply Hs|right; by eapply Hw].
  - intros s p d. by destruct (PutObject s _) as [s' [u|err]].
  - intros s p d v. pose proof (conditional_writes s p d v) as Hw. cbv zeta in Hw.
    pose proof (PutObject_done s (conditionalInput bucket p d v)) as Hdone.
    destruct (PutObject s _) as [s' [u|err]]; cbn in *; [|by destruct (isPreconditionMessage _)].
    intros _. by apply Hw, (Hdone u).
  - intros s p d v e. destruct (conditionalInput_fields p d v) as (Hb & Hk & Hd).
    set (input := conditionalInput bucket p d v) in *. pose proof (PutObject_refused s input) as Hr.
    pose proof (put_same s input Hb) as Hs.
    destruct (PutObject s input) as [s' [u|err]]; cbn in *; [done|].
    pose proof (precondition_status err) as Hst.
    destruct (isPreconditionMessage _); [|by intros [= <-]]. intros _ _.
    apply Hs. by apply (Hr err eq_refl), Hst.
  - intros s p d v e _. destruct (conditionalInput_fields p d v) as (Hb & Hk & Hd).
    pose proof (conditional_writes s p d v) as Hw. cbv zeta in Hw.
    pose proof (put_same s (conditionalInput bucket p d v) Hb) as Hs.
    pose proof (PutObject_failed s (conditionalInput bucket p d v)) as Hf.
    pose proof (PutObject_done s (conditionalInput bucket p d v)) as Hdone.
    destruct (PutObject s _) as [s' [u|err]]; cbn in *; [right; by apply Hw, (Hdone u)|].
    replace ((if _ : bool then _ else _).1) with s' by by destruct (isPreconditionMessage _).
    destruct (Hf err eq_refl) as [Ho|Ho]; [left; by apply Hs|right; by apply Hw].
  - intros s p d v. destruct (PutObject s _) as [s' [u|err]]; [done|].
    by destruct (isPreconditionMessage _).
Qed.

(** Optimistic concurrency: a digest stands for one content, whatever happened
    in between, so every later state will do. *)
Lemma S3_evolution : ETagDigest Svc -> StoreEvolution Svc (H := S3_store bucket).
Proof.
  intros HD. refine {| evolves := fun _ _ _ => True |}; try done.
  intros p s s' d d' [e] _ H1 H2. apply S3_contents_Some in H1, H2. by eapply HD.
Defined.
End Laws.

(** ** A simulated service

    Objects under their keys, tagged by their contents; a put may lose its
    request on the way or its response on the way back. *)

Inductive fault := Delivered | LostRequest | LostResponse.

Record sim := {
  sim_objects : gmap (string * string) bytes;
  sim_faults : list fault;   (** of the puts to come *)
}.

Inductive simError := lostError | notFoundError | refusedError.

Definition sim_status (e : simError) : option Z :=
  match e with lostError => None | notFoundError => Some 404 | refusedError => Some 412 end.

Definition sim_message (e : simError) : string :=
  "operation error S3: " +:+
  match e with
  | lostError => "PutObject, https response error StatusCode: 0, request send failed, EOF"
  | notFoundError => "GetObject, https response error StatusCode: 404, NoSuchKey: "
  | refusedError =>
      "PutObject, https response error StatusCode: 412, api error PreconditionFailed: "
      +:+ "At least one of the pre-conditions you specified did not hold"
  end.

Definition sim_object (s : sim) (b k : string) : option (bytes * string) :=
  (fun d => (d, bytes_string d)) <$> sim_objects s !! (b, k).

Definition put_conditionb (input : PutObjectInput) (obj : option (bytes * string)) : bool :=
  match IfNoneMatch input with
  | None => true
  | Some e => if bool_decide (e = "*") then match obj with None => true | Some _ => false end else true
  end &&
  match IfMatch input, obj with
  | None, _ => true
  | Some e, Some (_, e') => bool_decide (e = e')
  | Some _, None => false
  end.

(** One request that reaches the service. *)
Definition sim_serve (s : sim) (input : PutObjectInput) : sim * (unit + simError) :=
  if put_conditionb input (sim_object s (Bucket input) (Key input))
  then ({| sim_objects := <[(Bucket input, Key input) := in_Body input]> (sim_objects s);
           sim_faults := sim_faults s |}, inl tt)
  else (s, inr refusedError).

Definition sim_put (s : sim) (input : PutObjectInput) : sim * (unit + simError) :=
  let s' := {| sim_objects := sim_objects s; sim_faults := tail (sim_faults s) |} in
  match default Delivered (head (sim_faults s)) with
  | Delivered => sim_serve s' input
  | LostRequest => (s', inr lostError)
  | LostResponse => ((sim_serve s' input).1, inr lostError)
  end.

#[export] Instance simClient : S3Client sim := {|
  sdkError := simError;
  errors_As_NoSuchKey e := false;
  Error := sim_message;
  GetObject s b k :=
    (s, match sim_object s b k with
        | Some (d, e) => inl {| Body := inl d; out_ETag := Some e |}
        | None => inr notFoundError
        end);
  PutObject := sim_put;
  DeleteObject s b k :=
    ({| sim_objects := delete (b, k) (sim_objects s); sim_faults := sim_faults s |}, inl tt);
|}.

Lemma put_conditionb_spec input obj : put_conditionb input obj = true -> put_condition input obj.
Proof.
  unfold put_conditionb, put_condition. rewrite andb_true_iff. intros [Hn Hm]. split.
  - intros He. rewrite He in Hn. cbn in Hn. by destruct obj.
  - intros e He. rewrite He in Hm. destruct obj as [[d e']|]; [|done].
    apply bool_decide_eq_true in Hm as ->. by exists d.
Qed.

Lemma sim_serve_spec s input :
  match sim_serve s input with
  | (s', inl _) => put_condition input (sim_object s (Bucket input) (Key input)) /\
      s' = {| sim_objects := <[(Bucket input, Key input) := in_Body input]> (sim_objects s);
              sim_faults := sim_faults s |}
  | (s', inr err) => s' = s
  end.
Proof.
  unfold sim_serve. destruct (put_conditionb _ _) eqn:E; [|done]. split; [|done].
  by apply put_conditionb_spec.
Qed.

#[export] Instance simLaws : S3ClientLaws sim.
Proof.
  refine {| object := sim_object; status := (sim_status : sdkError -> option Z) |}; cbn.
  - done.
  - intros s b k out data. destruct (sim_object s b k) as [[d e]|]; [|done].
    intros [= <-] [= <-]. by exists e.
  - intros s b k err. by destruct (sim_object s b k) as [[d e]|].
  - intros s input b k Hne. unfold sim_put. set (s1 := {| sim_objects := sim_objects s |}).
    pose proof (sim_serve_spec s1 input) as Hs. destruct (sim_serve s1 input) as [s' [u|err]];
      destruct (default Delivered _); cbn; try done; [destruct Hs as [_ ->]..|by subst|by subst];
      unfold sim_object; cbn; by rewrite lookup_insert_ne.
  - intros s input u. unfold sim_put. set (s1 := {| sim_objects := sim_objects s |}).
    pose proof (sim_serve_spec s1 input) as Hs. destruct (sim_serve s1 input) as [s' [u'|err]];
      destruct (default Delivered _); cbn; try done. intros _. destruct Hs as [Hc ->]. split; [exact Hc|].
    eexists. unfold sim_object. cbn. by rewrite lookup_insert_eq.
  - intros s input err. unfold sim_put. set (s1 := {| sim_objects := sim_objects s |}).
    pose proof (sim_serve_spec s1 input) as Hs. destruct (sim_serve s1 input) as [s' [u'|err']];
      destruct (default Delivered _); cbn; try done; try (intros [= <-] [?|?]; done). by intros; subst.
  - intros s input err. unfold sim_put. set (s1 := {| sim_objects := sim_objects s |}).
    pose proof (sim_serve_spec s1 input) as Hs. destruct (sim_serve s1 input) as [s' [u'|err']];
      destruct (default Delivered _); cbn; try done; try (intros _; left; by subst).
    intros _. destruct Hs as [Hc ->]. right. split; [exact Hc|].
    eexists. unfold sim_object. cbn. by rewrite lookup_insert_eq.
  - done.
  - by intros [].
  - by intros [].
  - by intros [].
  - by intros [].
  - by intros [].
  - by intros [].
Defined.

#[export] Instance simDigest : ETagDigest sim.
Proof.
  intros s s' b k d d' e. cbn. unfold sim_object.
  destruct (sim_objects s !! (b, k)) as [x|]; [|done]. intros [= <- <-].
  destruct (sim_objects s' !! (b, k)) as [y|]; [|done]. intros [= <- Heq].
  apply (f_equal String.list_byte_of_string) in Heq.
  by rewrite !String.list_byte_of_string_of_list_byte in Heq.
Qed.

(** ** Properties *)

(** Over a client that sends each request once and whose messages report the
    response they were made from, the S3 store meets the laws the producer
    relies on: [ErrNotFound] is reported only for an absent object, a
    conditional put writes only if the condition the caller meant holds
    (absence, or the tag read before), and [ErrPreconditionFailed] means that
    nothing was written; any other error leaves open whether the write took
    effect; nothing panics. *)
Theorem S3_meets_contract {Svc} {HC : S3Client Svc} {HL : S3ClientLaws Svc} bucket :
  StoreLaws Svc (H := S3_store bucket) (H0 := S3_contents bucket).
Proof. apply S3_laws. Qed.

(** Appending to a manifest in S3: with entity tags that are digests, a
    successful [enqueueBatch] leaves a manifest that decodes to the entries
    that were there when it was replaced followed by the new ones, whatever
    other clients of the bucket did in between, as long as they keep it a
    manifest. *)
Theorem S3_enqueueBatch {Svc} {HC : S3Client Svc} {HL : S3ClientLaws Svc} {HD : ETagDigest Svc}
    bucket (env : nat -> Svc -> Svc) path items fuel p w a p' w' c u :
  let HO := S3_store (Svc := Svc) bucket in let HS := S3_contents (Svc := Svc) bucket in
  (forall k s a, manifest_at s path a -> exists a', manifest_at (env k s) path a') ->
  Forall item_wf items -> items <> [] -> is_int64 (len items) ->
  manifestPath p = path -> manifest_at (w_store w) path a ->
  enqueueBatch env fuel items p w = (p', w', Some (c, Ret u)) ->
  exists d etag before, object (w_store w') bucket path = Some (d, etag) /\
    DecodeManifestEntries d = Ret (ms_entries before ++ sequence_from (ms_next before) items).
Proof.
  intros HO HS Henv Hi Hne Hl Hp Ha Hrun. pose (L := S3_laws bucket). pose (V := S3_evolution bucket HD).
  assert (EnvOk env path) as HE by (split; [done|exact Henv]).
  pose proof (enqueueBatch_spec env path items Hi Hne Hl fuel p w a Hp Ha) as Hloop.
  rewrite Hrun in Hloop.
  destruct Hloop as [(log & _ & log0 & s & _ & _ & before & _ & Hat & _) _].
  destruct (appended_readable _ _ _ _ Hne Hat) as (d & [e] & Hc & Hd).
  apply S3_contents_Some in Hc. by exists d, e, before.
Qed.

(** *** Witnesses *)

Definition empty_bucket : sim := {| sim_objects := ∅; sim_faults := [] |}.

(** The simulated service is such a service: its put in create mode writes, and
    the second one is refused. *)
Lemma S3_meets_contract_witness :
  let s := (S3_PutIfMatch "bucket" empty_bucket "k" (string_bytes "a") None).1 in
  version_matches (S3_contents "bucket" empty_bucket "k") None /\
  same_contents (H := S3_contents "bucket") s
    (S3_PutIfMatch "bucket" s "k" (string_bytes "b") None).1.
Proof.
  cbv zeta. pose proof (S3_meets_contract (Svc := sim) "bucket") as L. split.
  - exact (proj1 (PutIfMatch_ok (StoreLaws := L) empty_bucket "k" (string_bytes "a") None eq_refl)).
  - refine (PutIfMatch_conflict (StoreLaws := L) _ "k" (string_bytes "b") None
      (Sentinel ErrPreconditionFailed) _ eq_refl). vm_compute; reflexivity.
Defined.

Lemma S3_enqueueBatch_witness :
  exists w' : world sim, exists d etag before,
    object (w_store w') "bucket" "m" = Some (d, etag) /\
    DecodeManifestEntries d = Ret (ms_entries before ++ sequence_from (ms_next before) [sample_item]).
Proof.
  eexists. refine (S3_enqueueBatch (Svc := sim) "bucket" (fun _ s => s) "m" [sample_item] 1
    (newManifestEnqueuer "m") {| w_store := empty_bucket; w_calls := [] |} empty_state _ _ 0 tt
    _ _ _ _ eq_refl _ _).
  - intros k s a Ha. by exists a.
  - solve_bounds.
  - discriminate.
  - solve_bounds.
  - split; [solve_bounds|reflexivity].
  - vm_compute; reflexivity.
Defined.
