(* ===== verification/Config.v ===== *)
(** * Observer events and configuration ([src/buffer/observer.go],
    [src/buffer/config.go], the defaults of [NewProducer] in
    [src/buffer/producer.go])

    Durations are integers of nanoseconds ([time.Duration]). An observer is
    code of the embedding program: its callbacks are recorded as events, in
    the order of the calls. The wall-clock durations some callbacks carry are
    measurements and not part of the events. *)

From S2P Require Import Prelude GoError Bytes Batch.

(** ** Observer *)

Inductive FlushReason :=
  | FlushReasonSize | FlushReasonTime | FlushReasonManual | FlushReasonShutdown.

Record FlushStats := {
  Inputs : Z;
  Entries : Z;
  UncompressedBytes : Z;
  Age : Z;
}.

Inductive PipelineStage :=
  | StageAppend | StageRotate | StageEncode | StageUpload | StageCommit | StageResolve.

Inductive BatchOutcome :=
  | OutcomeCommitted
  | OutcomeEncodeFailed
  | OutcomeUploadFailed
  | OutcomeManifestFailed
  | OutcomeAbandoned.

#[export] Instance BatchOutcome_eq_dec : EqDecision BatchOutcome.
Proof. solve_decision. Defined.

(** One constructor per method of the interface [Observer]; the durations,
    differences of clock readings, are left out. *)
Inductive event :=
  | OnAccepted
  | OnFlush (reason : FlushReason) (stats : FlushStats) (err : option error)
  | OnStorePut (sizeBytes : Z) (err : option error)
  | OnManifestEnqueue (entries : Z) (conflicts : Z) (err : option error)
  | OnAppendChBlock
  | OnWorkersBusy (stage : PipelineStage) (busy : Z)
  | OnEncodeDuration (err : option error)
  | OnUploadDuration (sizeBytes : Z) (err : option error)
  | OnManifestAppendBatchSize (size : Z)
  | OnManifestAppendDuration (conflicts : Z) (err : option error)
  | OnHeadOfLineBlock
  | OnBatchOutcome (outcome : BatchOutcome)
  | OnHalted (halted : bool)
  | OnInflightBytes (bytes : Z)
  | OnInflightBatches (batches : Z)
  | OnQueueDepth (stage : PipelineStage) (depth : Z).

(** ** Configuration *)

Definition Millisecond : Z := 1000000.
Definition Second : Z := 1000 * Millisecond.

Definition DefaultDataPathPrefix : string := "ingest".
Definition DefaultManifestPath : string := "ingest/manifest".
Definition DefaultFlushInterval : Z := 100 * Millisecond.
Definition DefaultFlushSizeBytes : Z := 64 * 1024 * 1024.
Definition DefaultMaxBufferedInputs : Z := 1000.
Definition DefaultEncodeConcurrency : Z := 1.
Definition DefaultUploadConcurrency : Z := 1.
Definition DefaultMaxInFlightBatches : Z := 64.
Definition DefaultMaxInFlightBytes : Z := 256 * 1024 * 1024.
Definition DefaultManifestAppendBatchSize : Z := 1.
Definition DefaultUploadMaxAttempts : Z := 6.
Definition DefaultUploadInitialBackoff : Z := 100 * Millisecond.
Definition DefaultManifestMaxAttempts : Z := 6.
Definition DefaultManifestInitialBackoff : Z := 100 * Millisecond.

Record ProducerConfig := {
  DataPathPrefix : string;
  ManifestPath : string;
  FlushInterval : Z;
  FlushSizeBytes : Z;
  MaxBufferedInputs : Z;
  BatchCompression : Z;
  Observer : bool;   (** an observer is attached: [config.Observer != nil] *)
  EncodeConcurrency : Z;
  UploadConcurrency : Z;
  MaxInFlightBatches : Z;
  MaxInFlightBytes : Z;
  ManifestAppendBatchSize : Z;
  UploadMaxAttempts : Z;
  UploadInitialBackoff : Z;
  ManifestMaxAttempts : Z;
  ManifestInitialBackoff : Z;
}.

Definition DefaultProducerConfig : ProducerConfig := {|
  DataPathPrefix := DefaultDataPathPrefix;
  ManifestPath := DefaultManifestPath;
  FlushInterval := DefaultFlushInterval;
  FlushSizeBytes := DefaultFlushSizeBytes;
  MaxBufferedInputs := DefaultMaxBufferedInputs;
  BatchCompression := CompressionNone;
  Observer := false;
  EncodeConcurrency := DefaultEncodeConcurrency;
  UploadConcurrency := DefaultUploadConcurrency;
  MaxInFlightBatches := DefaultMaxInFlightBatches;
  MaxInFlightBytes := DefaultMaxInFlightBytes;
  ManifestAppendBatchSize := DefaultManifestAppendBatchSize;
  UploadMaxAttempts := DefaultUploadMaxAttempts;
  UploadInitialBackoff := DefaultUploadInitialBackoff;
  ManifestMaxAttempts := DefaultManifestMaxAttempts;
  ManifestInitialBackoff := DefaultManifestInitialBackoff;
|}.

(** The defaulting at the head of [NewProducer]. *)
Definition withDefaults (config : ProducerConfig) : ProducerConfig := {|
  DataPathPrefix := DataPathPrefix config;
  ManifestPath := ManifestPath config;
  FlushInterval := FlushInterval config;
  FlushSizeBytes := FlushSizeBytes config;
  MaxBufferedInputs := MaxBufferedInputs config;
  BatchCompression := BatchCompression config;
  Observer := Observer config;
  EncodeConcurrency := EncodeConcurrency config;
  UploadConcurrency := UploadConcurrency config;
  MaxInFlightBatches :=
    if MaxInFlightBatches config <? 1 then DefaultMaxInFlightBatches
    else MaxInFlightBatches config;
  MaxInFlightBytes :=
    if MaxInFlightBytes config <? 1 then DefaultMaxInFlightBytes else MaxInFlightBytes config;
  ManifestAppendBatchSize := ManifestAppendBatchSize config;
  UploadMaxAttempts :=
    if UploadMaxAttempts config <? 1 then DefaultUploadMaxAttempts else UploadMaxAttempts config;
  UploadInitialBackoff :=
    if UploadInitialBackoff config <=? 0 then DefaultUploadInitialBackoff
    else UploadInitialBackoff config;
  ManifestMaxAttempts :=
    if ManifestMaxAttempts config <? 1 then DefaultManifestMaxAttempts
    else ManifestMaxAttempts config;
  ManifestInitialBackoff :=
    if ManifestInitialBackoff config <=? 0 then DefaultManifestInitialBackoff
    else ManifestInitialBackoff config;
|}.

(** The number of workers of a pool: [if n < 1 { n = 1 }]. *)
Definition atLeastOne (n : Z) : Z := if n <? 1 then 1 else n.

Lemma atLeastOne_pos n : 1 <= atLeastOne n.
Proof. unfold atLeastOne. case_test; lia. Qed.

(** The calls an attached observer sees. *)
Definition observe (config : ProducerConfig) (es : list event) : list event :=
  if Observer config then es else [].

(** What the pipeline needs of its limits. *)
Definition limits_ok (c : ProducerConfig) : Prop :=
  1 <= MaxInFlightBatches c /\ 1 <= MaxInFlightBytes c /\
  1 <= UploadMaxAttempts c /\ 0 < UploadInitialBackoff c /\
  1 <= ManifestMaxAttempts c /\ 0 < ManifestInitialBackoff c.

Lemma withDefaults_limits c : limits_ok (withDefaults c).
Proof.
  unfold limits_ok, withDefaults; cbn.
  split_and!; case_test; unfold DefaultMaxInFlightBatches, DefaultMaxInFlightBytes,
    DefaultUploadMaxAttempts, DefaultUploadInitialBackoff, DefaultManifestMaxAttempts,
    DefaultManifestInitialBackoff, Millisecond; lia.
Qed.

Lemma withDefaults_id c : limits_ok c -> withDefaults c = c.
Proof.
  intros (? & ? & ? & ? & ? & ?). destruct c; unfold withDefaults; cbn in *.
  f_equal; case_test; lia.
Qed.

(** The configuration a producer runs with: whatever literal the caller
    built, every cap and retry budget is usable, an explicit usable setting is
    kept as it is (so defaulting twice changes nothing, and the defaults are
    kept), and the fields defaulting does not concern are the caller's. *)
Theorem withDefaults_usable c :
  limits_ok (withDefaults c) /\
  (limits_ok c -> withDefaults c = c) /\
  withDefaults (withDefaults c) = withDefaults c /\
  withDefaults DefaultProducerConfig = DefaultProducerConfig /\
  (DataPathPrefix (withDefaults c), ManifestPath (withDefaults c),
   FlushSizeBytes (withDefaults c), FlushInterval (withDefaults c),
   BatchCompression (withDefaults c))
  = (DataPathPrefix c, ManifestPath c, FlushSizeBytes c, FlushInterval c, BatchCompression c).
Proof.
  split_and!; [apply withDefaults_limits|apply withDefaults_id| |reflexivity|reflexivity].
  apply withDefaults_id, withDefaults_limits.
Qed.
