(* ===== verification/Budget.v ===== *)
(** * The in-flight budget ([src/buffer/budget.go])

    [producerBudget] bounds the bytes and the batches in flight. Callers that
    find no capacity wait on a channel that the next release closes. Every
    operation of the source takes the mutex for its whole critical section, so
    each critical section is one function here; the waiting, the wake-ups, the
    cancellations and their interleaving are a step relation over any number
    of callers.

    Channels are numbered; [make] takes a fresh number and [close] panics, as
    Go's does, on a channel that is closed already. *)

From S2P Require Import Prelude GoError Bytes.

Abbreviation chan := nat.

Record producerBudget := {
  bytesUsed : Z;
  batchesUsed : Z;
  maxBytes : Z;
  maxBatches : Z;
  waiter : option chan;
  drainCh : option chan;
  closed : gset chan;   (** the channels closed so far *)
  nextChan : chan;      (** the next channel [make] returns *)
}.

Definition newProducerBudget (maxBytes maxBatches : Z) : producerBudget := {|
  bytesUsed := 0;
  batchesUsed := 0;
  maxBytes := if maxBytes <? 1 then 1 else maxBytes;
  maxBatches := if maxBatches <? 1 then 1 else maxBatches;
  waiter := None;
  drainCh := None;
  closed := ∅;
  nextChan := O;
|}.

(** ** Field updates *)

Definition set_bytes (v : Z) (b : producerBudget) : producerBudget := {|
  bytesUsed := v; batchesUsed := batchesUsed b; maxBytes := maxBytes b;
  maxBatches := maxBatches b; waiter := waiter b; drainCh := drainCh b;
  closed := closed b; nextChan := nextChan b |}.

Definition set_batches (v : Z) (b : producerBudget) : producerBudget := {|
  bytesUsed := bytesUsed b; batchesUsed := v; maxBytes := maxBytes b;
  maxBatches := maxBatches b; waiter := waiter b; drainCh := drainCh b;
  closed := closed b; nextChan := nextChan b |}.

Definition set_waiter (v : option chan) (b : producerBudget) : producerBudget := {|
  bytesUsed := bytesUsed b; batchesUsed := batchesUsed b; maxBytes := maxBytes b;
  maxBatches := maxBatches b; waiter := v; drainCh := drainCh b;
  closed := closed b; nextChan := nextChan b |}.

Definition set_drainCh (v : option chan) (b : producerBudget) : producerBudget := {|
  bytesUsed := bytesUsed b; batchesUsed := batchesUsed b; maxBytes := maxBytes b;
  maxBatches := maxBatches b; waiter := waiter b; drainCh := v;
  closed := closed b; nextChan := nextChan b |}.

(** [make(chan struct{})]. *)
Definition make_chan (b : producerBudget) : producerBudget * chan :=
  ({| bytesUsed := bytesUsed b; batchesUsed := batchesUsed b; maxBytes := maxBytes b;
      maxBatches := maxBatches b; waiter := waiter b; drainCh := drainCh b;
      closed := closed b; nextChan := S (nextChan b) |}, nextChan b).

(** [close(ch)]. *)
Definition close_chan (ch : chan) (b : producerBudget) : outcome producerBudget :=
  if bool_decide (ch ∈ closed b) then Panic
  else Ret {| bytesUsed := bytesUsed b; batchesUsed := batchesUsed b; maxBytes := maxBytes b;
              maxBatches := maxBatches b; waiter := waiter b; drainCh := drainCh b;
              closed := {[ch]} ∪ closed b; nextChan := nextChan b |}.

(** ** Critical sections *)

Definition ensureWaiterLocked (b : producerBudget) : producerBudget * chan :=
  match waiter b with
  | Some ch => (b, ch)
  | None => let '(b, ch) := make_chan b in (set_waiter (Some ch) b, ch)
  end.

(** A critical section either completes or gives the channel to wait on. *)
Inductive locked_result := Acquired | WaitOn (ch : chan).

Definition reserveBytes_locked (n : Z) (b : producerBudget) : producerBudget * locked_result :=
  if (bytesUsed b =? 0) || (bytesUsed b + n <=? maxBytes b)
  then (set_bytes (bytesUsed b + n) b, Acquired)
  else let '(b, ch) := ensureWaiterLocked b in (b, WaitOn ch).

Definition acquireBatchSlot_locked (b : producerBudget) : producerBudget * locked_result :=
  if batchesUsed b <? maxBatches b
  then (set_batches (batchesUsed b + 1) b, Acquired)
  else let '(b, ch) := ensureWaiterLocked b in (b, WaitOn ch).

Definition waitDrained_locked (b : producerBudget) : producerBudget * locked_result :=
  if batchesUsed b =? 0 then (b, Acquired)
  else
    match drainCh b with
    | Some ch => (b, WaitOn ch)
    | None => let '(b, ch) := make_chan b in (set_drainCh (Some ch) b, WaitOn ch)
    end.

(** [if ch := b.waiter; ch != nil { close(ch); b.waiter = nil }]. *)
Definition wakeWaiters (b : producerBudget) : outcome producerBudget :=
  match waiter b with
  | Some ch => b ← close_chan ch b; Ret (set_waiter None b)
  | None => Ret b
  end.

Definition release (bytes batches : Z) (b : producerBudget) : outcome producerBudget :=
  let b := set_bytes (bytesUsed b - bytes) b in
  let b := if bytesUsed b <? 0 then set_bytes 0 b else b in
  let b := set_batches (batchesUsed b - batches) b in
  let b := if batchesUsed b <? 0 then set_batches 0 b else b in
  b ← wakeWaiters b;
  match drainCh b with
  | Some ch =>
      if batchesUsed b =? 0
      then b ← close_chan ch b; Ret (set_drainCh None b)
      else Ret b
  | None => Ret b
  end.

Definition snapshot (b : producerBudget) : Z * Z := (bytesUsed b, batchesUsed b).

Definition addReservation (extra : Z) (b : producerBudget) : outcome producerBudget :=
  let b := set_bytes (bytesUsed b + extra) b in
  let b := if bytesUsed b <? 0 then set_bytes 0 b else b in
  wakeWaiters b.

Definition appendByteCost (entries : list bytes) (metadata : bytes) : Z :=
  let total := foldl (fun total e => total + len e) 0 entries in
  total + len metadata.

(** ** Concurrent callers *)

(** The three blocking operations. *)
Inductive op := OpReserve (n : Z) | OpAcquire | OpDrain.

Definition locked (o : op) : producerBudget -> producerBudget * locked_result :=
  match o with
  | OpReserve n => reserveBytes_locked n
  | OpAcquire => acquireBatchSlot_locked
  | OpDrain => waitDrained_locked
  end.

(** The rotator's [acquireBatchSlot] takes no context. *)
Definition cancellable (o : op) : bool :=
  match o with OpReserve _ | OpDrain => true | OpAcquire => false end.

(** Where a caller is in the loop of its operation. *)
Inductive caller :=
  | Trying (o : op)
  | Waiting (o : op) (ch : chan)
  | Returned (o : op) (err : option error).

Record system := {
  budget : producerBudget;
  callers : gmap nat caller;
  contexts : gmap nat error;  (** the contexts that are done, with their error *)
  shutdown : bool;            (** the shutdown channel is closed *)
}.

Definition with_budget (b : producerBudget) (s : system) : system :=
  {| budget := b; callers := callers s; contexts := contexts s; shutdown := shutdown s |}.
Definition with_caller (t : nat) (c : caller) (s : system) : system :=
  {| budget := budget s; callers := <[t := c]> (callers s); contexts := contexts s;
     shutdown := shutdown s |}.

(** What the caller does with the result of its critical section. *)
Definition after_locked (o : op) (r : locked_result) : caller :=
  match r with Acquired => Returned o None | WaitOn ch => Waiting o ch end.

(** A reservation is the byte cost of a message ([appendByteCost]). *)
Definition op_ok (o : op) : Prop :=
  match o with OpReserve n => 0 <= n | OpAcquire | OpDrain => True end.

Inductive step : system -> system -> Prop :=
  | step_call s t o :
      op_ok o -> callers s !! t = None -> step s (with_caller t (Trying o) s)
  | step_locked s t o :
      callers s !! t = Some (Trying o) ->
      step s (with_caller t (after_locked o (locked o (budget s)).2)
                (with_budget (locked o (budget s)).1 s))
  | step_wake s t o ch :
      callers s !! t = Some (Waiting o ch) -> ch ∈ closed (budget s) ->
      step s (with_caller t (Trying o) s)
  | step_ctx s t o ch e :
      callers s !! t = Some (Waiting o ch) -> cancellable o = true ->
      contexts s !! t = Some e ->
      step s (with_caller t (Returned o (Some e)) s)
  | step_shutdown s t o ch :
      callers s !! t = Some (Waiting o ch) -> shutdown s = true ->
      step s (with_caller t (Returned o (Some (Sentinel ErrShutdown))) s)
  | step_cancel s t e :
      step s {| budget := budget s; callers := callers s; contexts := <[t := e]> (contexts s);
                shutdown := shutdown s |}
  | step_close_shutdown s :
      step s {| budget := budget s; callers := callers s; contexts := contexts s;
                shutdown := true |}
  | step_release s bytes batches b' :
      0 <= bytes -> 0 <= batches -> release bytes batches (budget s) = Ret b' ->
      step s (with_budget b' s)
  | step_addReservation s extra b' :
      addReservation extra (budget s) = Ret b' ->
      step s (with_budget b' s).

Definition initial (maxBytes maxBatches : Z) : system :=
  {| budget := newProducerBudget maxBytes maxBatches; callers := ∅; contexts := ∅;
     shutdown := false |}.

Definition reachable (maxBytes maxBatches : Z) (s : system) : Prop :=
  rtc step (initial maxBytes maxBatches) s.

(** ** The invariant *)

(** Capacity: the counters are in range and the caps positive. *)
Record capacity_ok (b : producerBudget) : Prop := {
  ok_bytes : 0 <= bytesUsed b;
  ok_batches : 0 <= batchesUsed b <= maxBatches b;
  ok_maxBytes : 1 <= maxBytes b;
  ok_maxBatches : 1 <= maxBatches b;
}.

(** Channels: the two published channels are distinct, were made and are
    still open; somebody waits for the drain only while batches are in
    flight. *)
Record channels_ok (b : producerBudget) : Prop := {
  ok_waiter : forall ch, waiter b = Some ch -> (ch < nextChan b)%nat /\ (ch ∉ closed b);
  ok_drain : forall ch, drainCh b = Some ch ->
    (ch < nextChan b)%nat /\ (ch ∉ closed b) /\ 0 < batchesUsed b;
  ok_distinct : forall ch, waiter b = Some ch -> drainCh b <> Some ch;
  ok_closed : forall ch, ch ∈ closed b -> (ch < nextChan b)%nat;
}.

(** The channel on which the budget will announce what [o] waits for. *)
Definition published (o : op) (b : producerBudget) : option chan :=
  match o with OpDrain => drainCh b | OpReserve _ | OpAcquire => waiter b end.

(** The operation cannot complete now. *)
Definition blocked (o : op) (b : producerBudget) : Prop :=
  match o with
  | OpReserve n => bytesUsed b <> 0 /\ maxBytes b < bytesUsed b + n
  | OpAcquire => maxBatches b <= batchesUsed b
  | OpDrain => batchesUsed b <> 0
  end.

(** No wake-up is lost: the channel a caller waits on is closed, or it is the
    one the next release (the next drain) closes and the caller could not
    complete now. *)
Definition caller_ok (b : producerBudget) (c : caller) : Prop :=
  match c with
  | Trying o => op_ok o
  | Waiting o ch => op_ok o /\ (ch ∈ closed b \/ published o b = Some ch /\ blocked o b)
  | Returned _ _ => True
  end.

Record system_ok (s : system) : Prop := {
  ok_capacity : capacity_ok (budget s);
  ok_channels : channels_ok (budget s);
  ok_callers : map_Forall (fun _ => caller_ok (budget s)) (callers s);
}.

(** What every critical section leaves to the callers that wait: a channel
    that was published is closed, or it is published still and whoever was
    blocked still is. *)
Definition keeps_waiters (b b' : producerBudget) : Prop :=
  closed b ⊆ closed b' /\
  forall o ch, op_ok o -> published o b = Some ch ->
    ch ∈ closed b' \/ published o b' = Some ch /\ (blocked o b -> blocked o b').

#[export] Instance keeps_waiters_preorder : PreOrder keeps_waiters.
Proof.
  split.
  - intros b. split; [done|]. auto.
  - intros b1 b2 b3 [Hs1 H1] [Hs2 H2]. split; [by etrans|].
    intros o ch Ho Hp. destruct (H1 o ch Ho Hp) as [Hc|[Hp' Hb]]; [left; set_solver|].
    destruct (H2 o ch Ho Hp') as [?|[? ?]]; auto.
Qed.

Lemma caller_ok_keeps b b' c : keeps_waiters b b' -> caller_ok b c -> caller_ok b' c.
Proof.
  intros [Hs Hp]. destruct c as [o|o ch|o e]; cbn; [done| |done].
  intros [Ho [Hc|[Hc Hb]]]; (split; [done|]); [left; set_solver|].
  destruct (Hp o ch Ho Hc) as [?|[? ?]]; auto.
Qed.

(** The shape shared by the lemmas on critical sections. *)
Definition section_ok (b b' : producerBudget) : Prop :=
  capacity_ok b' /\ channels_ok b' /\ keeps_waiters b b'.

(** Splits the invariants into their fields and closes what arithmetic and
    the fields decide. *)
Ltac budget_auto :=
  repeat match goal with
  | H : capacity_ok _ |- _ => destruct H
  | H : channels_ok _ |- _ => destruct H
  end;
  repeat split; cbn in *; intros; simplify_eq/=;
  repeat match goal with o : op |- _ => destruct o; cbn in *; simplify_eq/= end;
  repeat match goal with
  | H : _ ∈ {[_]} ∪ _ |- _ => apply elem_of_union in H; rewrite elem_of_singleton in H
  | |- context [_ ∈ {[_]} ∪ _] => rewrite elem_of_union, elem_of_singleton
  | |- _ ∉ _ => intros ?
  | |- _ <> _ => intros ?; simplify_eq/=
  | H : forall ch, ?x = Some ch -> _, H' : ?x = Some _ |- _ =>
      pose proof (H _ H'); clear H
  | H : forall ch, ch ∈ ?x -> _, H' : _ ∈ ?x |- _ => pose proof (H _ H'); clear H
  end;
  try lia; try tauto; try (by repeat (apply union_subseteq_r' || reflexivity));
  try (intuition (subst; eauto; (lia || congruence)); fail).

Lemma section_ok_refl b : capacity_ok b -> channels_ok b -> section_ok b b.
Proof. intros. split; [done|split; [done|reflexivity]]. Qed.

Lemma ensureWaiterLocked_ok b :
  capacity_ok b -> channels_ok b ->
  section_ok b (ensureWaiterLocked b).1 /\
  waiter (ensureWaiterLocked b).1 = Some (ensureWaiterLocked b).2.
Proof.
  intros. unfold ensureWaiterLocked. destruct (waiter b) as [ch|] eqn:E; cbn.
  - split; [by apply section_ok_refl|done].
  - split; [|done]. split; [|split]; budget_auto.
Qed.

Lemma ensureWaiterLocked_blocked o b :
  blocked o b -> blocked o (ensureWaiterLocked b).1.
Proof. unfold ensureWaiterLocked. by destruct (waiter b), o. Qed.

(** A critical section keeps the invariant, and when it makes its caller wait
    the caller is blocked and waits on the channel published for it. *)
Lemma locked_ok o b :
  op_ok o -> capacity_ok b -> channels_ok b ->
  section_ok b (locked o b).1 /\
  forall ch, (locked o b).2 = WaitOn ch ->
    published o (locked o b).1 = Some ch /\ blocked o (locked o b).1.
Proof.
  intros Ho Hcap Hch. destruct (ensureWaiterLocked_ok b Hcap Hch) as [Hs Hw].
  pose proof (ensureWaiterLocked_blocked o b) as Hbl.
  destruct o as [n| |]; cbn in *.
  - unfold reserveBytes_locked. case_test; [|case_test]; cbn.
    1,2: split; [split; [|split]; budget_auto|done].
    destruct (ensureWaiterLocked b); cbn in *. split; [done|].
    intros; simplify_eq. eauto with lia.
  - unfold acquireBatchSlot_locked. case_test; cbn.
    1: split; [split; [|split]; budget_auto|done].
    destruct (ensureWaiterLocked b); cbn in *. split; [done|].
    intros; simplify_eq. eauto with lia.
  - unfold waitDrained_locked. case_test; cbn; [split; [by apply section_ok_refl|done]|].
    destruct (drainCh b) as [ch|] eqn:E; cbn.
    + split; [by apply section_ok_refl|]. intros; by simplify_eq.
    + split; [split; [|split]; budget_auto|]. intros; by simplify_eq.
Qed.

(** The counters after [release], clamped at zero as the source clamps them. *)
Definition released (bytes batches : Z) (b : producerBudget) : producerBudget :=
  set_batches (Z.max 0 (batchesUsed b - batches)) (set_bytes (Z.max 0 (bytesUsed b - bytes)) b).

Lemma release_unfold bytes batches b :
  release bytes batches b =
    (b ← wakeWaiters (released bytes batches b);
     match drainCh b with
     | Some ch =>
         if batchesUsed b =? 0
         then b ← close_chan ch b; Ret (set_drainCh None b)
         else Ret b
     | None => Ret b
     end).
Proof.
  unfold release. cbv zeta.
  match goal with |- (wakeWaiters ?x ≫= _) = _ =>
    replace x with (released bytes batches b); [done|] end.
  destruct b as [by_ ba mby mba w d cl nx]. unfold released, set_batches, set_bytes. cbn.
  destruct (Z.ltb_spec (by_ - bytes) 0); cbn; destruct (Z.ltb_spec (ba - batches) 0); cbn;
    f_equal; lia.
Qed.

(** Everything [release] does when the invariant holds: it does not panic, the
    counters fall by what is released, the waiters are woken, and the drain
    channel is closed exactly when no batch is left. *)
Lemma release_ok bytes batches b :
  0 <= bytes -> 0 <= batches -> capacity_ok b -> channels_ok b ->
  exists b', release bytes batches b = Ret b' /\ capacity_ok b' /\ channels_ok b' /\
    keeps_waiters b b' /\ waiter b' = None /\
    bytesUsed b' = Z.max 0 (bytesUsed b - bytes) /\
    batchesUsed b' = Z.max 0 (batchesUsed b - batches) /\
    maxBytes b' = maxBytes b /\ maxBatches b' = maxBatches b /\
    (batchesUsed b' = 0 -> drainCh b' = None).
Proof.
  intros Hb Hn Hcap Hch. rewrite release_unfold. unfold wakeWaiters, released. cbn.
  destruct (drainCh b) as [d|] eqn:Ed; [destruct (ok_drain b Hch d Ed) as (_ & Hd & _)|];
    (destruct (waiter b) as [w|] eqn:Ew;
      [destruct (ok_waiter b Hch w Ew) as [_ Hw]; pose proof (ok_distinct b Hch w Ew)|]);
    unfold close_chan; cbn; try rewrite (bool_decide_eq_false_2 (w ∈ _)) by done; cbn;
    rewrite ?Ed; cbn; repeat case_test; cbn;
    try (exfalso; set_solver);
    (eexists; split; [reflexivity|]);
    repeat match goal with |- _ /\ _ => split end; cbn; try done; try congruence; try lia;
    budget_auto.
  rewrite elem_of_union, elem_of_singleton in H0.
  destruct H0 as [->|[->|?%ok_closed0]]; tauto.
Qed.

Lemma addReservation_ok extra b :
  capacity_ok b -> channels_ok b ->
  exists b', addReservation extra b = Ret b' /\ section_ok b b' /\ waiter b' = None /\
    bytesUsed b' = Z.max 0 (bytesUsed b + extra) /\ batchesUsed b' = batchesUsed b.
Proof.
  intros Hcap Hch. unfold addReservation.
  set (b1 := if bytesUsed (set_bytes (bytesUsed b + extra) b) <? 0 then _ else _).
  assert (b1 = set_bytes (Z.max 0 (bytesUsed b + extra)) b) as ->.
  { subst b1. cbn. case_test; cbn; unfold set_bytes; cbn; f_equal; lia. }
  unfold wakeWaiters, close_chan. cbn. destruct (waiter b) as [w|] eqn:Ew.
  - destruct (ok_waiter b Hch w Ew) as [_ Hw]. rewrite bool_decide_eq_false_2 by done. cbn.
    eexists. split; [done|]. split; [|done]. split; [|split]; budget_auto.
  - eexists. split; [done|]. split; [|done]. split; [|split]; budget_auto.
Qed.

Lemma callers_ok_keeps b b' (cs : gmap nat caller) :
  keeps_waiters b b' -> map_Forall (fun _ => caller_ok b) cs ->
  map_Forall (fun _ => caller_ok b') cs.
Proof. intros Hk H t c Ht. eapply caller_ok_keeps; [done|]. by apply (H t). Qed.

(** A critical section run by the budget's owner keeps the system invariant. *)
Lemma with_budget_ok s b' :
  system_ok s -> section_ok (budget s) b' -> system_ok (with_budget b' s).
Proof.
  intros [H1 H2 H3] (Hc & Hh & Hk). split; cbn; [done|done|].
  by eapply callers_ok_keeps.
Qed.

Lemma with_caller_ok s t c :
  system_ok s -> caller_ok (budget s) c -> system_ok (with_caller t c s).
Proof. intros [H1 H2 H3] Hc. split; cbn; [done|done|]. by apply map_Forall_insert_2. Qed.

Lemma step_ok s s' : system_ok s -> step s s' -> system_ok s'.
Proof.
  intros Hok Hstep. pose proof Hok as [Hcap Hch Hcs].
  destruct Hstep as [s t o Ho Ht|s t o Ht|s t o ch Ht Hcl|s t o ch e Ht Hcan Hctx
                    |s t o ch Ht Hsd|s t e|s|s by_ ba b' Hby Hba Hrel|s extra b' Hadd].
  - by apply with_caller_ok.
  - assert (op_ok o) as Ho by exact (Hcs t _ Ht).
    destruct (locked_ok o (budget s) Ho Hcap Hch) as [Hs Hw].
    apply with_caller_ok; [by apply with_budget_ok|].
    cbn. destruct (locked o (budget s)) as [b1 [|ch]]; cbn in *; [done|]. auto.
  - apply with_caller_ok; [done|]. exact (proj1 (Hcs t _ Ht)).
  - by apply with_caller_ok.
  - by apply with_caller_ok.
  - by split.
  - by split.
  - destruct (release_ok by_ ba (budget s) Hby Hba Hcap Hch)
      as (b'' & Heq & Hc' & Hh' & Hk & _). rewrite Heq in Hrel. simplify_eq.
    by apply with_budget_ok.
  - destruct (addReservation_ok extra (budget s) Hcap Hch) as (b'' & Heq & Hs & _).
    rewrite Heq in Hadd. simplify_eq. by apply with_budget_ok.
Qed.

Lemma initial_ok mby mba : system_ok (initial mby mba).
Proof.
  split; cbn.
  - split; cbn; repeat case_test; lia.
  - split; cbn; [done|done|done|set_solver].
  - apply map_Forall_empty.
Qed.

Lemma reachable_ok mby mba s : reachable mby mba s -> system_ok s.
Proof.
  apply rtc_invariant; [apply initial_ok|]. intros; by eapply step_ok.
Qed.

(** The caps never change. *)
Lemma step_caps s s' :
  system_ok s -> step s s' ->
  maxBytes (budget s') = maxBytes (budget s) /\ maxBatches (budget s') = maxBatches (budget s).
Proof.
  intros Hok Hstep. pose proof Hok as [Hcap Hch Hcs].
  destruct Hstep as [s t o Ho Ht|s t o Ht|s t o ch Ht Hcl|s t o ch e Ht Hcan Hctx
                    |s t o ch Ht Hsd|s t e|s|s by_ ba b' Hby Hba Hrel|s extra b' Hadd];
    cbn; try done.
  - destruct o; cbn; unfold reserveBytes_locked, acquireBatchSlot_locked, waitDrained_locked,
      ensureWaiterLocked; destruct (waiter (budget s)), (drainCh (budget s));
      repeat case_test; done.
  - destruct (release_ok by_ ba (budget s) Hby Hba Hcap Hch)
      as (b'' & Heq & _ & _ & _ & _ & _ & _ & ? & ? & _). rewrite Heq in Hrel. by simplify_eq.
  - unfold addReservation, wakeWaiters, close_chan in Hadd.
    repeat (case_match; simplify_eq/=; try done).
Qed.

Lemma reachable_caps mby mba s :
  reachable mby mba s ->
  maxBytes (budget s) = Z.max 1 mby /\ maxBatches (budget s) = Z.max 1 mba.
Proof.
  intros H. apply (rtc_invariant step (fun s => system_ok s /\
    maxBytes (budget s) = Z.max 1 mby /\ maxBatches (budget s) = Z.max 1 mba) (initial mby mba));
    [| |exact H].
  - split; [apply initial_ok|]. cbn. split; case_test; lia.
  - intros s1 s2 (Hok & H1 & H2) Hst. split; [by eapply step_ok|].
    destruct (step_caps _ _ Hok Hst) as [-> ->]. done.
Qed.

(** ** A run of two callers *)

Definition call_of (t : nat) (o : op) (s : system) : system := with_caller t (Trying o) s.
Definition try_of (t : nat) (o : op) (s : system) : system :=
  with_caller t (after_locked o (locked o (budget s)).2)
    (with_budget (locked o (budget s)).1 s).

(** A cap of ten bytes and one batch: caller 0 reserves eight bytes, caller 1
    asks for five and waits, caller 2 takes the only batch slot and caller 3
    waits for the drain. *)
Definition contended : system :=
  try_of 3 OpDrain (call_of 3 OpDrain
  (try_of 2 OpAcquire (call_of 2 OpAcquire
  (try_of 1 (OpReserve 5) (call_of 1 (OpReserve 5)
  (try_of 0 (OpReserve 8) (call_of 0 (OpReserve 8) (initial 10 1)))))))).

Lemma contended_reachable : reachable 10 1 contended.
Proof.
  unfold reachable, contended.
  repeat (eapply rtc_r; [|first [apply step_locked; vm_compute; reflexivity
                                |apply step_call; [cbn; lia|vm_compute; reflexivity]]]).
  reflexivity.
Qed.

(** ** Properties *)

(** C20. The caps are kept. In every reachable state of any number of
    concurrent callers (caps below one are raised to one): the counters are not
    negative and the batches in flight do not exceed their cap. A byte
    reservation is granted exactly when the bytes in flight with it are within
    the cap or nothing is in flight, and adds what it asks for; otherwise it
    waits and the counters stay. A batch slot is granted exactly when one is
    free. (The bytes alone may exceed the cap: by an oversize message, which is
    admitted when nothing is in flight so that it does not deadlock, and by the
    framing overhead that [addReservation] charges later.) *)
Theorem budget_caps mby mba s :
  reachable mby mba s ->
  0 <= bytesUsed (budget s) /\ 0 <= batchesUsed (budget s) <= Z.max 1 mba /\
  (forall n, 0 <= n ->
   let '(b', r) := reserveBytes_locked n (budget s) in
   batchesUsed b' = batchesUsed (budget s) /\
   match r with
   | Acquired => bytesUsed b' = bytesUsed (budget s) + n /\
       (bytesUsed b' <= Z.max 1 mby \/ bytesUsed (budget s) = 0)
   | WaitOn _ => bytesUsed b' = bytesUsed (budget s) /\
       0 < bytesUsed (budget s) /\ Z.max 1 mby < bytesUsed (budget s) + n
   end) /\
  (let '(b', r) := acquireBatchSlot_locked (budget s) in
   bytesUsed b' = bytesUsed (budget s) /\
   match r with
   | Acquired => batchesUsed b' = batchesUsed (budget s) + 1 /\ batchesUsed b' <= Z.max 1 mba
   | WaitOn _ => batchesUsed b' = batchesUsed (budget s) /\ batchesUsed (budget s) = Z.max 1 mba
   end).
Proof.
  intros Hr. destruct (reachable_ok _ _ _ Hr) as [[] _ _].
  destruct (reachable_caps _ _ _ Hr) as [Hby Hba]. split; [done|]. split; [lia|]. split.
  - intros n Hn. unfold reserveBytes_locked, ensureWaiterLocked.
    repeat case_test; cbn; try (split; [done|lia]).
    destruct (waiter (budget s)); cbn; (split; [done|lia]).
  - unfold acquireBatchSlot_locked, ensureWaiterLocked.
    repeat case_test; cbn; try (split; [done|lia]).
    destruct (waiter (budget s)); cbn; (split; [done|lia]).
Qed.

Lemma budget_caps_witness :
  (reserveBytes_locked 5 (budget contended)).2 = WaitOn 0%nat /\
  batchesUsed (budget contended) <= 1 /\ 10 < bytesUsed (budget contended) + 5.
Proof.
  destruct (budget_caps 10 1 contended contended_reachable) as (_ & H1 & H2 & _).
  specialize (H2 5 ltac:(lia)). split; [vm_compute; reflexivity|]. split; [apply H1|].
  revert H2. vm_compute. tauto.
Defined.

(** C21. No caller sleeps while it could proceed: a caller whose channel is
    still open is blocked by the budget as it is now. A reservation has bytes
    in flight and does not fit, a slot request finds every slot taken, a drain
    has batches in flight. *)
Theorem asleep_is_blocked mby mba s t o ch :
  reachable mby mba s -> callers s !! t = Some (Waiting o ch) ->
  ch ∉ closed (budget s) -> blocked o (budget s).
Proof.
  intros Hr Ht Hn. destruct (reachable_ok _ _ _ Hr) as [_ _ Hcs].
  destruct (Hcs t _ Ht) as [_ [?|[_ ?]]]; [contradiction|done].
Qed.

Lemma asleep_is_blocked_witness :
  callers contended !! 1%nat = Some (Waiting (OpReserve 5) 0%nat) /\
  blocked (OpReserve 5) (budget contended).
Proof.
  split; [vm_compute; reflexivity|].
  apply (asleep_is_blocked 10 1 contended 1%nat (OpReserve 5) 0%nat contended_reachable);
    [vm_compute; reflexivity|].
  compute_done.
Defined.

(** A caller that is not blocked completes in its next critical section. *)
Lemma locked_completes o b : ~ blocked o b -> (locked o b).2 = Acquired.
Proof.
  destruct o as [n| |]; cbn; unfold reserveBytes_locked, acquireBatchSlot_locked,
    waitDrained_locked; intros Hn; repeat case_test; cbn; try done; lia.
Qed.

(** Waiting callers are woken by a release that unblocks them. *)
Lemma woken_by_release b b' o ch :
  channels_ok b -> op_ok o -> (ch ∈ closed b \/ published o b = Some ch) ->
  keeps_waiters b b' -> waiter b' = None -> (batchesUsed b' = 0 -> drainCh b' = None) ->
  ~ blocked o b' -> ch ∈ closed b'.
Proof.
  intros Hch Ho [Hin|Hp] [Hs Hk] Hw Hd Hnb; [set_solver|].
  destruct (Hk o ch Ho Hp) as [?|[Hp' _]]; [done|]. exfalso.
  destruct o; cbn in *; [congruence|congruence|].
  rewrite Hd in Hp' by lia. discriminate.
Qed.

(** A release never panics (no channel is closed twice), takes what it
    releases off the counters, and lets a waiting caller return: whenever the
    release leaves the caller unblocked, the caller wakes, re-enters its
    critical section and returns nil, with no other caller having to move. *)
Theorem release_completes_waiter mby mba s t o ch bytes batches :
  reachable mby mba s -> callers s !! t = Some (Waiting o ch) ->
  0 <= bytes -> 0 <= batches ->
  exists b', release bytes batches (budget s) = Ret b' /\
    snapshot b' = (Z.max 0 (bytesUsed (budget s) - bytes),
                   Z.max 0 (batchesUsed (budget s) - batches)) /\
    (~ blocked o b' ->
     exists s', rtc step (with_budget b' s) s' /\
       callers s' !! t = Some (Returned o None) /\ budget s' = (locked o b').1).
Proof.
  intros Hr Ht Hby Hba. destruct (reachable_ok _ _ _ Hr) as [Hcap Hch Hcs].
  destruct (release_ok bytes batches (budget s) Hby Hba Hcap Hch)
    as (b' & Heq & Hcap' & Hch' & Hk & Hw & Hb1 & Hb2 & _ & _ & Hd).
  exists b'. split; [done|]. split; [unfold snapshot; congruence|]. intros Hnb.
  destruct (Hcs t _ Ht) as [Ho Hc].
  assert (ch ∈ closed b') as Hin.
  { apply (woken_by_release (budget s) b' o); auto. destruct Hc as [?|[? _]]; auto. }
  exists (try_of t o (call_of t o (with_budget b' s))). split.
  - eapply rtc_l; [by apply (step_wake _ t o ch)|].
    eapply rtc_l; [|reflexivity]. apply step_locked. apply lookup_insert_eq.
  - unfold try_of, call_of. cbn. rewrite lookup_insert_eq.
    by rewrite locked_completes by done.
Qed.

Lemma release_completes_waiter_witness :
  exists b' s', release 8 1 (budget contended) = Ret b' /\
    rtc step (with_budget b' contended) s' /\
    callers s' !! 1%nat = Some (Returned (OpReserve 5) None).
Proof.
  destruct (release_completes_waiter 10 1 contended 1%nat (OpReserve 5) 0%nat 8 1)
    as (b' & Hrel & Hsnap & Hgo).
  - exact contended_reachable.
  - vm_compute. reflexivity.
  - lia.
  - lia.
  - destruct Hgo as (s' & Hs' & Hc & _); [|exists b', s'; auto].
    injection Hsnap as H1 H2. cbn. rewrite H1. vm_compute. tauto.
Defined.

(** The cost of a message is the size of its entries plus its metadata. *)
Lemma appendByteCost_sum entries metadata :
  appendByteCost entries metadata = sumZ (len <$> entries) + len metadata.
Proof. unfold appendByteCost. rewrite foldl_sum. lia. Qed.

Lemma appendByteCost_nonneg entries metadata : 0 <= appendByteCost entries metadata.
Proof.
  rewrite appendByteCost_sum. assert (0 <= sumZ (len <$> entries)); [|len_lia].
  apply sumZ_nonneg. apply Forall_fmap, Forall_forall. intros e _. apply len_nonneg.
Qed.
