(* ===== verification/Watcher.v ===== *)
(** * Durability watchers ([src/buffer/producer.go], lines 15 to 64)

    A watcher is a shared object: the caller of [Append] holds it, and the
    pipeline resolves it. Every method runs under the watcher's mutex, so each
    is one function on the watcher's state; [AwaitDurable] waits in a select
    and is the relation of the results it may return. *)

From S2P Require Import Prelude GoError.

Record DurabilityWatcher := {
  result : option error;   (** nil is [None] *)
  done : bool;
  ch_closed : bool;        (** the channel [ch] is closed *)
}.

Definition newDurabilityWatcher : DurabilityWatcher :=
  {| result := None; done := false; ch_closed := false |}.

Definition Result (w : DurabilityWatcher) : bool * option error :=
  if negb (done w) then (false, None) else (true, result w).

(** [AwaitDurable]: the select takes any case that is ready. [ctx] is the
    error of the context once it is done. *)
Inductive AwaitDurable (w : DurabilityWatcher) (ctx : option error) : option error -> Prop :=
  | await_ch : ch_closed w = true -> AwaitDurable w ctx (result w)
  | await_ctx e : ctx = Some e -> AwaitDurable w ctx (Some e).

(** [close] of a closed channel panics. *)
Definition resolve (w : DurabilityWatcher) (err : option error) : outcome DurabilityWatcher :=
  if done w then Ret w
  else if ch_closed w then Panic
  else Ret {| result := err; done := true; ch_closed := true |}.

(** The channel is closed exactly when the result is there. *)
Definition watcher_ok (w : DurabilityWatcher) : Prop := ch_closed w = done w.

Lemma newDurabilityWatcher_ok : watcher_ok newDurabilityWatcher.
Proof. done. Qed.

(** A watcher that was resolved with [err]. *)
Definition resolved_with (err : option error) (w : DurabilityWatcher) : Prop :=
  w = {| result := err; done := true; ch_closed := true |}.

Lemma resolve_ok w err :
  watcher_ok w -> exists w', resolve w err = Ret w' /\ watcher_ok w' /\ done w' = true /\
    result w' = (if done w then result w else err).
Proof.
  destruct w as [r d c]. unfold watcher_ok, resolve. cbn. intros ->.
  destruct d; cbn; eexists; split; [reflexivity|done|reflexivity|done].
Qed.

Lemma resolve_new err : resolve newDurabilityWatcher err =
  Ret {| result := err; done := true; ch_closed := true |}.
Proof. done. Qed.

(** Resolving a watcher several times, as the code may. *)
Fixpoint resolve_all (w : DurabilityWatcher) (errs : list (option error))
    : outcome DurabilityWatcher :=
  match errs with
  | [] => Ret w
  | err :: errs => w ← resolve w err; resolve_all w errs
  end.

Lemma resolve_all_done errs w : done w = true -> resolve_all w errs = Ret w.
Proof.
  intros Hd. induction errs as [|e errs IH]; cbn; [done|].
  unfold resolve. rewrite Hd. exact IH.
Qed.

(** A watcher is decided once: however often it is resolved, the first
    outcome stays, resolving never panics by closing the channel twice,
    [Result] reports the outcome exactly from then on, and [AwaitDurable]
    under a live context returns that outcome and nothing else, while before
    it cannot return. *)
Theorem watcher_first_wins err errs :
  Result newDurabilityWatcher = (false, None) /\
  (forall r, ~ AwaitDurable newDurabilityWatcher None r) /\
  exists w, resolve_all newDurabilityWatcher (err :: errs) = Ret w /\
    Result w = (true, err) /\ (forall r, AwaitDurable w None r <-> r = err).
Proof.
  split_and!; [done|by inversion 1|].
  exists {| result := err; done := true; ch_closed := true |}. split_and!.
  - cbn. by apply resolve_all_done.
  - done.
  - intros r. split; [by inversion 1|]. intros ->. by apply await_ch.
Qed.
