(* ===== verification/Accumulator.v ===== *)
(** * The batch accumulator and the batches of the pipeline
    ([src/buffer/producer.go], lines 61 to 194 and 297 to 342)

    Watchers and flush acknowledgements are shared objects; messages and
    batches refer to them by identity ([watcher_id], [ack_id]). Times are
    integers of nanoseconds, and [now] is what the clock reads when
    [time.Now] is called. *)

From S2P Require Import Prelude GoError Bytes Manifest Config Budget.

Abbreviation watcher_id := nat.
Abbreviation ack_id := nat.

Record appendMessage := {
  msg_entries : list bytes;
  msg_metadata : bytes;
  msg_ingestionTimeMs : Z;
  msg_watcher : watcher_id;
  msg_byteCost : Z;
}.

Record batchAccumulator := {
  acc_entries : list bytes;
  acc_metadata : list QueueMetadata;
  acc_watchers : list watcher_id;
  acc_sizeBytes : Z;
  acc_byteCost : Z;
  acc_startedAt : Z;
  acc_started : bool;
}.

(** [&batchAccumulator{}]. *)
Definition newAccumulator : batchAccumulator := {|
  acc_entries := []; acc_metadata := []; acc_watchers := []; acc_sizeBytes := 0;
  acc_byteCost := 0; acc_startedAt := 0; acc_started := false |}.

(** [add] returns the accumulator and [becameStarted]. *)
Definition add (now : Z) (b : batchAccumulator) (msg : appendMessage) : batchAccumulator * bool :=
  let wasStarted := acc_started b in
  let startIndex := uint32 (len (acc_entries b)) in
  let sizeBytes := foldl (fun size e => size + len e) (acc_sizeBytes b) (msg_entries msg) in
  ({| acc_entries := acc_entries b ++ msg_entries msg;
      acc_metadata := acc_metadata b ++
        [{| StartIndex := startIndex; IngestionTimeMs := msg_ingestionTimeMs msg;
            Payload := msg_metadata msg |}];
      acc_watchers := acc_watchers b ++ [msg_watcher msg];
      acc_sizeBytes := sizeBytes + len (msg_metadata msg);
      acc_byteCost := acc_byteCost b + msg_byteCost msg;
      acc_startedAt := if negb (acc_started b) then now else acc_startedAt b;
      acc_started := true |},
   negb wasStarted).

Definition isEmpty (b : batchAccumulator) : bool := len (acc_entries b) =? 0.

Definition reset (b : batchAccumulator)
    : batchAccumulator * (list bytes * list QueueMetadata * list watcher_id * Z) :=
  ({| acc_entries := []; acc_metadata := []; acc_watchers := []; acc_sizeBytes := 0;
      acc_byteCost := 0; acc_startedAt := acc_startedAt b; acc_started := false |},
   (acc_entries b, acc_metadata b, acc_watchers b, acc_byteCost b)).

Definition stats (now : Z) (b : batchAccumulator) : FlushStats := {|
  Inputs := len (acc_metadata b);
  Entries := len (acc_entries b);
  UncompressedBytes := acc_sizeBytes b;
  Age := now - acc_startedAt b;
|}.

(** ** The units of work of the pipeline *)

Record pendingBatch := {
  pb_ordinal : Z;
  pb_entries : list bytes;
  pb_metadata : list QueueMetadata;
  pb_watchers : list watcher_id;
  pb_stats : FlushStats;
  pb_reason : FlushReason;
  pb_flushAck : option ack_id;
  pb_byteCost : Z;
}.

Record encodedBatch := {
  eb_ordinal : Z;
  eb_payload : bytes;
  eb_metadata : list QueueMetadata;
  eb_watchers : list watcher_id;
  eb_stats : FlushStats;
  eb_reason : FlushReason;
  eb_flushAck : option ack_id;
  eb_location : string;
  eb_size : Z;
  eb_byteCost : Z;
}.

Record uploadCompletion := {
  uc_eb : encodedBatch;
  uc_putError : option error;
  uc_encodeFailed : bool;
}.

Record resolverItem := {
  ri_reason : FlushReason;
  ri_stats : FlushStats;
  ri_watchers : list watcher_id;
  ri_flushAck : option ack_id;
  ri_err : option error;
  ri_outcome : BatchOutcome;
  ri_byteCost : Z;
}.

(** ** What an accumulator holds *)

(** The messages AppendContext lets through. *)
Definition msg_ok (m : appendMessage) : Prop :=
  msg_entries m <> [] /\ msg_byteCost m = appendByteCost (msg_entries m) (msg_metadata m).

(** The metadata records of a list of messages whose first entry has index
    [start]. *)
Fixpoint metadata_from (start : Z) (msgs : list appendMessage) : list QueueMetadata :=
  match msgs with
  | [] => []
  | m :: msgs =>
      {| StartIndex := uint32 start; IngestionTimeMs := msg_ingestionTimeMs m;
         Payload := msg_metadata m |} :: metadata_from (start + len (msg_entries m)) msgs
  end.

Definition all_entries (msgs : list appendMessage) : list bytes := msgs ≫= msg_entries.

(** The accumulator holds exactly [msgs], in order. *)
Record holds (b : batchAccumulator) (msgs : list appendMessage) : Prop := {
  holds_entries : acc_entries b = all_entries msgs;
  holds_metadata : acc_metadata b = metadata_from 0 msgs;
  holds_watchers : acc_watchers b = msg_watcher <$> msgs;
  holds_size : acc_sizeBytes b
    = sumZ ((fun m => sumZ (len <$> msg_entries m) + len (msg_metadata m)) <$> msgs);
  holds_cost : acc_byteCost b = sumZ (msg_byteCost <$> msgs);
  holds_started : acc_started b = bool_decide (msgs <> []);
}.

Lemma metadata_from_app start msgs1 msgs2 :
  metadata_from start (msgs1 ++ msgs2) =
  metadata_from start msgs1 ++ metadata_from (start + len (all_entries msgs1)) msgs2.
Proof.
  revert start. induction msgs1 as [|m msgs1 IH]; intros start; cbn.
  { by rewrite len_nil, Z.add_0_r. }
  rewrite IH. unfold all_entries. cbn. rewrite len_app. do 2 f_equal. f_equal. lia.
Qed.

Lemma holds_new : holds newAccumulator [].
Proof. by split. Qed.

Lemma holds_add now b msgs m : holds b msgs -> holds (add now b m).1 (msgs ++ [m]).
Proof.
  intros [He Hm Hw Hs Hc Hst]. split; cbn.
  - rewrite He. unfold all_entries. rewrite bind_app. cbn. by rewrite app_nil_r.
  - rewrite Hm, He, metadata_from_app. done.
  - rewrite Hw, fmap_app. done.
  - rewrite foldl_sum, Hs, fmap_app, sumZ_app, fmap_cons, fmap_nil, sumZ_cons, sumZ_nil. lia.
  - rewrite Hc, fmap_app, sumZ_app, fmap_cons, fmap_nil, sumZ_cons, sumZ_nil. lia.
  - symmetry. apply bool_decide_eq_true. by destruct msgs.
Qed.

Lemma holds_reset b msgs : holds b msgs -> holds (reset b).1 [].
Proof. intros _. by split. Qed.

Lemma len_all_entries_pos msgs :
  Forall msg_ok msgs -> msgs <> [] -> 0 < len (all_entries msgs).
Proof.
  intros Hok Hne. destruct msgs as [|m msgs]; [done|].
  apply Forall_cons in Hok as [[Hm _] _]. unfold all_entries. cbn. rewrite len_app.
  destruct (msg_entries m); [done|]. rewrite len_cons. len_pose. lia.
Qed.

Lemma holds_isEmpty b msgs :
  holds b msgs -> Forall msg_ok msgs -> isEmpty b = bool_decide (msgs = []).
Proof.
  intros Hb Hok. unfold isEmpty. rewrite (holds_entries _ _ Hb).
  case_bool_decide as Hm; [by subst|].
  pose proof (len_all_entries_pos _ Hok Hm). apply Z.eqb_neq. lia.
Qed.

Lemma holds_size_cost b msgs :
  holds b msgs -> Forall msg_ok msgs -> acc_sizeBytes b = acc_byteCost b.
Proof.
  intros Hb Hok. rewrite (holds_size _ _ Hb), (holds_cost _ _ Hb). clear Hb.
  induction Hok as [|m msgs [_ Hm] _ IH]; [done|].
  rewrite !fmap_cons, !sumZ_cons, Hm, appendByteCost_sum, IH. done.
Qed.

(** ** Taking a batch apart again

    A consumer of a batch finds the entries of the [i]-th message between the
    start indices of the [i]-th and the next metadata record. *)
Fixpoint split_by (entries : list bytes) (ms : list QueueMetadata) : list (list bytes) :=
  match ms with
  | [] => []
  | m :: rest =>
      let from := drop (Z.to_nat (StartIndex m)) entries in
      match rest with
      | [] => from
      | m' :: _ => take (Z.to_nat (StartIndex m' - StartIndex m)) from
      end :: split_by entries rest
  end.

Lemma split_by_metadata_from msgs : forall pre,
  len (pre ++ all_entries msgs) <= MaxUint32 ->
  split_by (pre ++ all_entries msgs) (metadata_from (len pre) msgs) = msg_entries <$> msgs.
Proof.
  induction msgs as [|m msgs IH]; intros pre Hlen; [done|]. rewrite fmap_cons.
  unfold all_entries in *. cbn [mbind list_bind] in *. rewrite !len_app in Hlen.
  assert (uint32 (len pre) = len pre) as Hu by (apply uint32_id; unfold is_uint32; len_pose; lia).
  specialize (IH (pre ++ msg_entries m)). rewrite !len_app, <- (assoc_L (++)) in IH.
  cbn [metadata_from split_by StartIndex]. f_equal; [|by apply IH; lia].
  rewrite Hu, drop_app_len.
  destruct msgs as [|m' msgs]; cbn [metadata_from StartIndex].
  - cbn. by rewrite app_nil_r.
  - rewrite uint32_id by (unfold is_uint32; len_pose; lia).
    replace (len pre + len (msg_entries m) - len pre) with (len (msg_entries m)) by lia.
    apply take_app_len.
Qed.

Definition addAll (msgs : list (Z * appendMessage)) : batchAccumulator :=
  foldl (fun b '(now, m) => (add now b m).1) newAccumulator msgs.

Lemma addAll_snoc msgs now m : addAll (msgs ++ [(now, m)]) = (add now (addAll msgs) m).1.
Proof. unfold addAll. by rewrite foldl_app. Qed.

Lemma holds_addAll msgs : holds (addAll msgs) msgs.*2.
Proof.
  induction msgs as [|[now m] msgs IH] using rev_ind; [apply holds_new|].
  rewrite addAll_snoc, fmap_app. by apply holds_add.
Qed.

(** The clock of an accumulator is the time of its first message. *)
Lemma addAll_startedAt now m msgs : acc_startedAt (addAll ((now, m) :: msgs)) = now.
Proof.
  assert (acc_startedAt (addAll ((now, m) :: msgs)) = now /\
          acc_started (addAll ((now, m) :: msgs)) = true) as [? _]; [|done].
  induction msgs as [|[now' m'] msgs [IH1 IH2]] using rev_ind; [done|].
  rewrite app_comm_cons, addAll_snoc. cbn [add fst acc_startedAt acc_started]. by rewrite IH2.
Qed.

(** Batching loses nothing: whatever messages are added, at whatever
    times, the accumulator's metadata lets a reader take the batch apart into
    the messages it was made of, each with its entries, ingestion time and
    payload, in order of arrival; the watchers are in the same order, the size
    that triggers a flush and the byte cost that is released are the sums over
    the messages and agree, and the age clock starts with the first message.
    The one limit is that of the start index: fewer than 2^32 entries. *)
Theorem accumulator_recoverable (msgs : list (Z * appendMessage)) :
  Forall msg_ok msgs.*2 -> len (acc_entries (addAll msgs)) <= MaxUint32 ->
  let b := addAll msgs in
  split_by (acc_entries b) (acc_metadata b) = msg_entries <$> msgs.*2 /\
  Payload <$> acc_metadata b = msg_metadata <$> msgs.*2 /\
  IngestionTimeMs <$> acc_metadata b = msg_ingestionTimeMs <$> msgs.*2 /\
  acc_watchers b = msg_watcher <$> msgs.*2 /\
  acc_byteCost b = sumZ (msg_byteCost <$> msgs.*2) /\
  acc_sizeBytes b = acc_byteCost b /\
  isEmpty b = negb (acc_started b) /\
  (acc_startedAt b = match msgs with [] => 0 | (now, _) :: _ => now end).
Proof.
  intros Hok Hlen b. pose proof (holds_addAll msgs) as Hb. fold b in Hb, Hlen.
  split_and!.
  - rewrite (holds_entries _ _ Hb) in Hlen |- *. rewrite (holds_metadata _ _ Hb).
    exact (split_by_metadata_from msgs.*2 [] Hlen).
  - rewrite (holds_metadata _ _ Hb). generalize 0. clear.
    induction msgs.*2 as [|m ms IH]; intros z; [done|]. cbn. f_equal. apply IH.
  - rewrite (holds_metadata _ _ Hb). generalize 0. clear.
    induction msgs.*2 as [|m ms IH]; intros z; [done|]. cbn. f_equal. apply IH.
  - apply Hb.
  - apply Hb.
  - by apply holds_size_cost with msgs.*2.
  - rewrite (holds_isEmpty _ _ Hb Hok), (holds_started _ _ Hb). by destruct msgs.*2.
  - destruct msgs as [|[now m] msgs]; [done|]. apply addAll_startedAt.
Qed.

(** Two messages of two and one entries. *)
Definition sample_messages : list (Z * appendMessage) :=
  [(7, {| msg_entries := [string_bytes "a"; string_bytes "bc"]; msg_metadata := string_bytes "m";
          msg_ingestionTimeMs := 3; msg_watcher := 0; msg_byteCost := 4 |});
   (9, {| msg_entries := [string_bytes ""]; msg_metadata := string_bytes "";
          msg_ingestionTimeMs := 4; msg_watcher := 1; msg_byteCost := 0 |})].

Lemma accumulator_recoverable_witness :
  split_by (acc_entries (addAll sample_messages)) (acc_metadata (addAll sample_messages))
    = [[string_bytes "a"; string_bytes "bc"]; [string_bytes ""]].
Proof.
  refine (proj1 (accumulator_recoverable sample_messages _ _)).
  - repeat constructor; discriminate.
  - vm_compute. discriminate.
Defined.
