(* ===== verification/Retry.v ===== *)
(** * Retries ([src/buffer/producer.go]: [backoffFor], [putWithRetry],
    [casWithRetry])

    The two retry loops of the pipeline: the upload of a data object and the
    append to the manifest. Both try a bounded number of times and sleep
    between the attempts; the select that sleeps also watches the shutdown
    signal. [shutdown k] says that the select after attempt [k] takes the
    shutdown case. The sleeps are recorded, in nanoseconds. *)

From S2P Require Import Prelude GoError Bytes Manifest ObjStore Enqueuer Config Accumulator.

(** ** Exponential backoff *)

Definition maxBackoff : Z := 10 * Second.

(** The loop: [attempt] bounds the number of rounds. *)
Fixpoint backoffLoop (attempt : nat) (d : Z) : Z :=
  match attempt with
  | O => d
  | S attempt => if d <? maxBackoff then backoffLoop attempt (int64 (d * 2)) else d
  end.

Definition backoffFor (attempt : nat) (initial : Z) : Z :=
  let d := backoffLoop attempt initial in
  if maxBackoff <? d then maxBackoff else d.

Lemma maxBackoff_val : maxBackoff = 10000000000.
Proof. reflexivity. Qed.

Lemma backoffLoop_min attempt : forall d,
  0 < d < 2 ^ 63 ->
  Z.min (backoffLoop attempt d) maxBackoff = Z.min (d * 2 ^ Z.of_nat attempt) maxBackoff.
Proof.
  induction attempt as [|n IH]; intros d Hd; cbn [backoffLoop].
  { f_equal. change (2 ^ Z.of_nat 0) with 1. lia. }
  rewrite Nat2Z.inj_succ, Z.pow_succ_r by lia.
  assert (1 <= 2 ^ Z.of_nat n) by (pose proof (Z.pow_pos_nonneg 2 (Z.of_nat n)); lia).
  pose proof maxBackoff_val. destruct (Z.ltb_spec d maxBackoff).
  - rewrite int64_id by (unfold is_int64; lia). rewrite IH by lia. f_equal. lia.
  - rewrite !Z.min_r by nia. done.
Qed.

(** The backoff is the exponential it is meant to be: the initial delay
    doubled once per attempt and capped at ten seconds, for every positive
    64-bit delay and however many attempts; the doubling never overflows. *)
Theorem backoffFor_exponential attempt initial :
  0 < initial < 2 ^ 63 ->
  backoffFor attempt initial = Z.min (initial * 2 ^ Z.of_nat attempt) maxBackoff.
Proof.
  intros Hi. rewrite <- backoffLoop_min by done. unfold backoffFor.
  destruct (Z.ltb_spec maxBackoff (backoffLoop attempt initial)); lia.
Qed.

Lemma backoffFor_exponential_witness :
  backoffFor 3 DefaultUploadInitialBackoff = 800 * Millisecond /\
  backoffFor 500 DefaultUploadInitialBackoff = maxBackoff.
Proof.
  split; (rewrite (backoffFor_exponential _ DefaultUploadInitialBackoff);
    [vm_compute; reflexivity|vm_compute; split; reflexivity]).
Defined.

(** The error of an outcome, as the observer sees it. *)
Definition outcome_err {A} (r : outcome A) : option error :=
  match r with Fail e => Some e | Ret _ | Panic => None end.

(** ** Uploading with retries *)

Section Retry.
Context {St : Type} `{ObjectStore St}.
Context (env : nat -> St -> St) (shutdown : nat -> bool).

Record put_run := {
  pr_world : world St;
  pr_events : list event;
  pr_sleeps : list Z;
  pr_result : outcome unit;
}.

(** The loop with [n] attempts left. Without any attempt the source would call
    [Error] on a nil error. *)
Fixpoint putLoop (config : ProducerConfig) (eb : encodedBatch) (backoff : Z)
    (n attempt : nat) (w : world St) : put_run :=
  match n with
  | O => {| pr_world := w; pr_events := []; pr_sleeps := []; pr_result := Panic |}
  | S n =>
      let '(w, r) := call env (fun s => Put s (eb_location eb) (eb_payload eb)) w in
      let events := observe config
        [OnStorePut (eb_size eb) (outcome_err r); OnUploadDuration (eb_size eb) (outcome_err r)] in
      match r with
      | Ret _ => {| pr_world := w; pr_events := events; pr_sleeps := []; pr_result := Ret tt |}
      | Panic => {| pr_world := w; pr_events := events; pr_sleeps := []; pr_result := Panic |}
      | Fail err =>
          match n with
          | O => {| pr_world := w; pr_events := events; pr_sleeps := [];
                    pr_result := Fail (storageErr (error_message err)) |}
          | S _ =>
              if shutdown attempt
              then {| pr_world := w; pr_events := events; pr_sleeps := [];
                      pr_result := Fail (Sentinel ErrShutdown) |}
              else
                let rest := putLoop config eb backoff n (S attempt) w in
                {| pr_world := pr_world rest; pr_events := events ++ pr_events rest;
                   pr_sleeps := backoffFor attempt backoff :: pr_sleeps rest;
                   pr_result := pr_result rest |}
          end
      end
  end.

Definition putWithRetry (config : ProducerConfig) (eb : encodedBatch) (w : world St) : put_run :=
  let maxAttempts := atLeastOne (UploadMaxAttempts config) in
  let backoff := if UploadInitialBackoff config <=? 0 then DefaultUploadInitialBackoff
                 else UploadInitialBackoff config in
  putLoop config eb backoff (Z.to_nat maxAttempts) 0 w.

(** ** Appending to the manifest with retries *)

Record cas_run := {
  cr_enqueuer : manifestEnqueuer;
  cr_world : world St;
  cr_sleeps : list Z;
  cr_result : enqueueResult;  (** [None] when an append has not come to an end *)
}.

(** The loop with [n] attempts left; with none left, as when it starts with
    none, it returns the last error, which is nil at the start. *)
Fixpoint casLoop (fuel : nat) (items : list enqueueItem) (backoff : Z)
    (n attempt : nat) (totalConflicts : Z) (p : manifestEnqueuer) (w : world St) : cas_run :=
  match n with
  | O => {| cr_enqueuer := p; cr_world := w; cr_sleeps := [];
            cr_result := Some (totalConflicts, Ret tt) |}
  | S n =>
      let '(p, w, r) := enqueueBatch env fuel items p w in
      match r with
      | None => {| cr_enqueuer := p; cr_world := w; cr_sleeps := []; cr_result := None |}
      | Some (c, r) =>
          let totalConflicts := totalConflicts + c in
          match r with
          | Ret _ | Panic => {| cr_enqueuer := p; cr_world := w; cr_sleeps := [];
                                cr_result := Some (totalConflicts, r) |}
          | Fail err =>
              match n with
              | O => {| cr_enqueuer := p; cr_world := w; cr_sleeps := [];
                        cr_result := Some (totalConflicts, Fail err) |}
              | S _ =>
                  if shutdown attempt
                  then {| cr_enqueuer := p; cr_world := w; cr_sleeps := [];
                          cr_result := Some (totalConflicts, Fail (Sentinel ErrShutdown)) |}
                  else
                    let rest := casLoop fuel items backoff n (S attempt) totalConflicts p w in
                    {| cr_enqueuer := cr_enqueuer rest; cr_world := cr_world rest;
                       cr_sleeps := backoffFor attempt backoff :: cr_sleeps rest;
                       cr_result := cr_result rest |}
              end
          end
      end
  end.

Definition casWithRetry (config : ProducerConfig) (fuel : nat) (items : list enqueueItem)
    (p : manifestEnqueuer) (w : world St) : cas_run :=
  let manifestMaxAttempts := atLeastOne (ManifestMaxAttempts config) in
  let manifestBackoff := if ManifestInitialBackoff config <=? 0 then DefaultManifestInitialBackoff
                         else ManifestInitialBackoff config in
  casLoop fuel items manifestBackoff (Z.to_nat manifestMaxAttempts) 0 0 p w.
End Retry.
Arguments put_run : clear implicits.
Arguments cas_run : clear implicits.

(** ** What the upload loop does *)

Section PutSpec.
Context {St : Type} {HO : ObjectStore St} {HC : StoreContents St} {HL : StoreLaws St}.
Context (env : nat -> St -> St) (shutdown : nat -> bool).
Context (config : ProducerConfig) (eb : encodedBatch) (backoff : Z).

(** What one attempt may do to the store: write the object, or nothing. *)
Definition put_attempt (c : St * St) : Prop :=
  same_contents c.1 c.2 \/ writes c.1 c.2 (eb_location eb) (eb_payload eb).

(** A run of the loop from attempt [k] with [n] attempts left. *)
Definition put_spec (n k : nat) (w : world St) (r : put_run St) : Prop :=
  exists log, w_calls (pr_world r) = w_calls w ++ log /\
    (1 <= length log <= n)%nat /\ Forall put_attempt log /\
    pr_sleeps r = (fun i => backoffFor i backoff) <$> seq k (length log - 1) /\
    len (pr_events r) = (if Observer config then 2 * len log else 0) /\
    match pr_result r with
    | Ret _ => exists log0 s, log = log0 ++ [(s, w_store (pr_world r))] /\
        writes s (w_store (pr_world r)) (eb_location eb) (eb_payload eb)
    | Fail e =>
        (exists msg, e = storageErr msg) /\ length log = n \/
        e = Sentinel ErrShutdown /\ (length log < n)%nat /\
        shutdown (k + length log - 1)%nat = true
    | Panic => False
    end.

Lemma observe_two a b : len (observe config [a; b]) = if Observer config then 2 else 0.
Proof. unfold observe. by destruct (Observer config). Qed.

Lemma putLoop_spec n : forall k w,
  (1 <= n)%nat -> put_spec n k w (putLoop env shutdown config eb backoff n k w).
Proof.
  induction n as [|n IH]; intros k w Hn; [lia|]. cbn [putLoop]. unfold call.
  set (s := env (length (w_calls w)) (w_store w)).
  pose proof (Put_ok s (eb_location eb) (eb_payload eb)) as Hok.
  pose proof (Put_error s (eb_location eb) (eb_payload eb)) as Herr.
  pose proof (Put_no_panic s (eb_location eb) (eb_payload eb)) as Hnp.
  destruct (Put s (eb_location eb) (eb_payload eb)) as [s' [[]|e|]]; cbn in *; [| |done].
  - exists [(s, s')]. cbn [pr_world pr_events pr_sleeps pr_result w_calls w_store length].
    rewrite observe_two. split_and!; try done; try lia.
    + apply Forall_singleton. by right; apply Hok.
    + exists [], s. split; [done|]. by apply Hok.
  - assert (put_attempt (s, s')) as Ha by (destruct (Herr _ eq_refl); [by left|by right]).
    destruct n as [|n].
    + exists [(s, s')]. cbn. rewrite observe_two. split_and!; try done; [by apply Forall_singleton|].
      left. eauto.
    + destruct (shutdown k) eqn:Esd.
      * exists [(s, s')]. cbn. rewrite observe_two.
        split_and!; try done; try lia; [by apply Forall_singleton|].
        right. split_and!; [done|lia|]. by replace (k + 1 - 1)%nat with k by lia.
      * destruct (IH (S k) {| w_store := s'; w_calls := w_calls w ++ [(s, s')] |}) as
          (log & Hcalls & Hlen & Hall & Hsl & Hev & Hres); [lia|].
        set (r := putLoop _ _ _ _ _ _ _ _) in *.
        exists ((s, s') :: log). cbn [pr_world pr_events pr_sleeps pr_result length w_calls] in *.
        split_and!; [by rewrite Hcalls, <- (assoc_L (++))|lia|lia|by apply Forall_cons| | |].
        { rewrite Hsl. destruct log as [|c log]; [cbn in Hlen; lia|]. cbn.
          by rewrite Nat.sub_0_r. }
        { rewrite len_app, observe_two, Hev, len_cons. destruct (Observer config); lia. }
        destruct (pr_result r) as [u|e'|]; [| |done].
        { destruct Hres as (log0 & s0 & -> & Hw). by exists ((s, s') :: log0), s0. }
        destruct Hres as [[Hm Hl]|(-> & Hl & Hs)]; [left; split; [done|lia]|right].
        split_and!; [done|lia|]. by replace (k + S (length log) - 1)%nat
          with (S k + length log - 1)%nat by lia.
Qed.
End PutSpec.

(** An upload makes at least one and at most [UploadMaxAttempts] attempts
    (raised to one), each of which writes the batch's payload at the batch's
    location or leaves the store as it is; it succeeds exactly when its last
    attempt wrote the object, and otherwise returns a storage error after the
    last attempt or [ErrShutdown] when the shutdown signal came between two
    attempts. It sleeps the backoff delays in order between attempts, tells
    the observer twice per attempt, and never panics. *)
Theorem putWithRetry_outcome {St} {HO : ObjectStore St} {HC : StoreContents St}
    {HL : StoreLaws St} (env : nat -> St -> St) shutdown config eb w :
  0 < UploadInitialBackoff config ->
  let r := putWithRetry env shutdown config eb w in
  let n := Z.to_nat (Z.max 1 (UploadMaxAttempts config)) in
  exists log, w_calls (pr_world r) = w_calls w ++ log /\
    (1 <= length log <= n)%nat /\
    Forall (fun c => same_contents c.1 c.2 \/
                     writes c.1 c.2 (eb_location eb) (eb_payload eb)) log /\
    pr_sleeps r = (fun i => backoffFor i (UploadInitialBackoff config))
                    <$> seq 0 (length log - 1) /\
    len (pr_events r) = (if Observer config then 2 * len log else 0) /\
    match pr_result r with
    | Ret _ => exists log0 s, log = log0 ++ [(s, w_store (pr_world r))] /\
        writes s (w_store (pr_world r)) (eb_location eb) (eb_payload eb)
    | Fail e =>
        (exists msg, e = storageErr msg) /\ length log = n \/
        e = Sentinel ErrShutdown /\ (length log < n)%nat /\ shutdown (length log - 1)%nat = true
    | Panic => False
    end.
Proof.
  intros Hb r n. pose proof (atLeastOne_pos (UploadMaxAttempts config)) as Hpos.
  assert (r = putLoop env shutdown config eb (UploadInitialBackoff config) n 0 w) as ->.
  { subst r n. unfold putWithRetry. destruct (Z.leb_spec (UploadInitialBackoff config) 0); [lia|].
    unfold atLeastOne. case_test; f_equal; lia. }
  exact (putLoop_spec env shutdown config eb _ n 0 w ltac:(subst n; lia)).
Qed.

(** ** What the manifest loop does *)

Section CasSpec.
Context {St : Type} {HO : ObjectStore St} {HC : StoreContents St}
        {HL : StoreLaws St} {HE : StoreEvolution St}.
Context (env : nat -> St -> St) (path : string) {Henv : EnvOk env path}.
Context (shutdown : nat -> bool) (items : list enqueueItem) (backoff : Z).
Context (Hitems : Forall item_wf items) (Hne : items <> []) (Hlen : is_int64 (len items)).


(** One attempt: it changes nothing, or its last call appends the items. *)
Definition attempt_atomic (log : list (St * St)) : Prop :=
  Forall unchanged log \/
  exists log0 s s', log = log0 ++ [(s, s')] /\ Forall unchanged log0 /\ appends path items s s'.

Lemma all_or_nothing_atomic r s' log :
  all_or_nothing path items r s' log -> attempt_atomic log.
Proof.
  destruct r as [[c [u|e|]]|]; cbn; [intros (l & s & ?)|intros [?|(l & s & ?)]|done|];
    (by left) || (by right; exists l, s, s').
Qed.

Definition cas_spec (n : nat) (w : world St) (r : cas_run St) : Prop :=
  exists logs, w_calls (cr_world r) = w_calls w ++ concat logs /\
    (1 <= length logs <= n)%nat /\ Forall attempt_atomic logs /\
    match cr_result r with
    | Some (_, Ret _) => exists logs0 log0 s, logs = logs0 ++ [log0 ++ [(s, w_store (cr_world r))]] /\
        Forall unchanged log0 /\ appends path items s (w_store (cr_world r))
    | Some (_, Panic) => False
    | Some (_, Fail e) => length logs = n \/ e = Sentinel ErrShutdown
    | None => True
    end.

Lemma casLoop_spec fuel n : forall k c p w a,
  (1 <= n)%nat -> manifestPath p = path -> manifest_at (w_store w) path a ->
  cas_spec n w (casLoop env shutdown fuel items backoff n k c p w).
Proof.
  induction n as [|n IH]; intros k c p w a Hn Hp Ha; [lia|]. cbn [casLoop].
  pose proof (enqueueBatch_spec env path items Hitems Hne Hlen fuel p w a Hp Ha) as Hrun.
  pose proof (enqueueBatch_path env fuel items p w) as Hpath.
  destruct (enqueueBatch env fuel items p w) as [[p1 w1] r]. cbn in Hpath.
  destruct Hrun as [(log & Hcalls & Hall) [a1 Ha1]].
  pose proof (all_or_nothing_atomic _ _ _ Hall) as Hat.
  assert (forall cr, cr_world cr = w1 ->
    match cr_result cr with
    | Some (_, Ret _) => exists log0 s, log = log0 ++ [(s, w_store w1)] /\
        Forall unchanged log0 /\ appends path items s (w_store w1)
    | Some (_, Panic) => False
    | Some (_, Fail e) => n = O \/ e = Sentinel ErrShutdown
    | None => True
    end -> cas_spec (S n) w cr) as Hone.
  { intros cr Hw Hr. exists [log]. rewrite Hw, Hcalls. cbn [concat length]. rewrite app_nil_r.
    split_and!; [done|lia|lia|by apply Forall_singleton|].
    destruct (cr_result cr) as [[c' [u|e|]]|]; [| |done..].
    - destruct Hr as (log0 & s & -> & Hu & Hap). by exists [], log0, s.
    - destruct Hr as [->|?]; [by left|by right]. }
  destruct r as [[c1 [u|e|]]|]; cbn in Hall; [by apply Hone| |done|by apply Hone].
  destruct n as [|n]; [by apply Hone; [|left]|].
  destruct (shutdown k); [by apply Hone; [|right]|].
  destruct (IH (S k) (c + c1) p1 w1 a1) as (logs & Hc' & Hl & Hf & Hr); [lia|congruence|done|].
  set (cr := casLoop _ _ _ _ _ _ _ _ _ _) in *.
  exists (log :: logs). cbn [cr_world cr_result concat length].
  split_and!; [by rewrite Hc', Hcalls, (assoc_L (++))|lia|lia|by apply Forall_cons|].
  destruct (cr_result cr) as [[c' [u|e'|]]|]; [| |done..].
  - destruct Hr as (logs0 & log0 & s & -> & Hu & Hap). by exists (log :: logs0), log0, s.
  - destruct Hr as [?|?]; [left; lia|by right].
Qed.
End CasSpec.

(** A manifest append with retries makes at most [ManifestMaxAttempts]
    attempts (raised to one), each all or nothing: it leaves the contents of
    the store as they are, or its last store call appends all items in order.
    When it reports success, its very last call did so; when it reports an
    error, it used all its attempts or was shut down. An attempt that failed
    after its write took effect is repeated, so items may be appended once per
    attempt, never partly and never out of order. *)
Theorem casWithRetry_outcome {St} {HO : ObjectStore St} {HC : StoreContents St}
    {HL : StoreLaws St} {HE : StoreEvolution St} (env : nat -> St -> St) path
    {Henv : EnvOk env path} shutdown config fuel items p w a :
  Forall item_wf items -> items <> [] -> is_int64 (len items) ->
  manifestPath p = path -> manifest_at (w_store w) path a ->
  let r := casWithRetry env shutdown config fuel items p w in
  let n := Z.to_nat (Z.max 1 (ManifestMaxAttempts config)) in
  exists logs, w_calls (cr_world r) = w_calls w ++ concat logs /\
    (1 <= length logs <= n)%nat /\ Forall (attempt_atomic path items) logs /\
    match cr_result r with
    | Some (_, Ret _) => exists logs0 log0 s, logs = logs0 ++ [log0 ++ [(s, w_store (cr_world r))]] /\
        Forall unchanged log0 /\ appends path items s (w_store (cr_world r))
    | Some (_, Panic) => False
    | Some (_, Fail e) => length logs = n \/ e = Sentinel ErrShutdown
    | None => True
    end.
Proof.
  intros Hi Hne Hl Hp Ha r n.
  assert (n = Z.to_nat (atLeastOne (ManifestMaxAttempts config))) as ->.
  { subst n. unfold atLeastOne. case_test; lia. }
  pose proof (atLeastOne_pos (ManifestMaxAttempts config)).
  apply (casLoop_spec env path shutdown items _ Hi Hne Hl fuel _ 0 0 p w a); [lia|done..].
Qed.

(** *** Witnesses *)

Definition sample_stats : FlushStats :=
  {| Inputs := 1; Entries := 1; UncompressedBytes := 1; Age := 0 |}.

Definition sample_encoded : encodedBatch := {|
  eb_ordinal := 0; eb_payload := string_bytes "data"; eb_metadata := Metadata rival_entry;
  eb_watchers := [O]; eb_stats := sample_stats; eb_reason := FlushReasonSize;
  eb_flushAck := None; eb_location := "ingest/run/0"; eb_size := 4; eb_byteCost := 15 |}.

Lemma putWithRetry_outcome_witness :
  let r := putWithRetry rival (fun _ => false) DefaultProducerConfig sample_encoded sample_world in
  pr_result r = Ret tt /\
  exists log0 s, w_calls (pr_world r) = log0 ++ [(s, w_store (pr_world r))] /\
    writes s (w_store (pr_world r)) "ingest/run/0" (string_bytes "data").
Proof.
  pose proof (putWithRetry_outcome rival (fun _ => false) DefaultProducerConfig sample_encoded
    sample_world ltac:(vm_compute; reflexivity)) as H.
  cbv zeta in H |- *. set (r := putWithRetry _ _ _ _ _) in *.
  assert (pr_result r = Ret tt) as Hr by (vm_compute; reflexivity).
  split; [exact Hr|]. rewrite Hr in H.
  destruct H as (log & Hlog & _ & _ & _ & _ & log0 & s & -> & Hw).
  exists log0, s. rewrite Hlog. split; [reflexivity|exact Hw].
Defined.

Lemma casWithRetry_outcome_witness :
  let r := casWithRetry rival (fun _ => false) DefaultProducerConfig 2 [sample_item]
             (newManifestEnqueuer "m") sample_world in
  cr_result r = Some (1, Ret tt) /\
  exists s, appends "m" [sample_item] s (w_store (cr_world r)).
Proof.
  pose proof (casWithRetry_outcome rival "m" (fun _ => false) DefaultProducerConfig 2 [sample_item]
    (newManifestEnqueuer "m") sample_world empty_state ltac:(solve_bounds) ltac:(discriminate)
    ltac:(solve_bounds) eq_refl empty_manifest_at) as H.
  cbv zeta in H |- *. set (r := casWithRetry _ _ _ _ _ _ _) in *.
  assert (cr_result r = Some (1, Ret tt)) as Hr by (vm_compute; reflexivity).
  split; [exact Hr|]. rewrite Hr in H.
  destruct H as (logs & _ & _ & _ & _ & _ & s & _ & _ & Ha). exists s. exact Ha.
Defined.
