(* ===== verification/Committer.v ===== *)
(** * The manifest committer ([src/buffer/producer.go], lines 838 to 1117)

    The committer receives upload completions in any order, keeps them in a
    map indexed by ordinal, and commits the contiguous run that starts at the
    next expected ordinal, in groups of at most [ManifestAppendBatchSize], one
    conditional manifest write per group.

    What the committer calls is a parameter here: [cas] is [casWithRetry] (it
    returns the number of conflicts and the error; [None] when the call does
    not return), and [range] is the order in which Go ranges over a map, which
    the language leaves open. *)

From S2P Require Import Prelude GoError Bytes Manifest Enqueuer Config Accumulator.
From stdpp Require Import list_numbers sorting.

Local Open Scope Z_scope.

(** [pendingResolution]: a batch with the result its watchers get. *)
Record pendingResolution := {
  rs_uc : uploadCompletion;
  rs_err : option error;
  rs_outcome : BatchOutcome;
}.

(** The item that [resolve] sends to the resolver. *)
Definition resolveItem (rs : pendingResolution) : resolverItem :=
  let eb := uc_eb (rs_uc rs) in
  {| ri_reason := eb_reason eb; ri_stats := eb_stats eb; ri_watchers := eb_watchers eb;
     ri_flushAck := eb_flushAck eb; ri_err := rs_err rs; ri_outcome := rs_outcome rs;
     ri_byteCost := eb_byteCost eb |}.

Abbreviation readyMap := (gmap Z uploadCompletion).

Record committer := {
  next : Z;
  ready : readyMap;
  halted : bool;          (** [halted] and [p.halted], set together *)
  haltedNotify : bool;    (** the [sync.Once] has run *)
  holStart : bool;        (** a head-of-line block is being measured *)
}.

Definition newCommitter : committer :=
  {| next := 0; ready := ∅; halted := false; haltedNotify := false; holStart := false |}.

Definition with_ready (n : Z) (m : readyMap) (c : committer) : committer :=
  {| next := n; ready := m; halted := halted c; haltedNotify := haltedNotify c;
     holStart := holStart c |}.
Definition with_hol (b : bool) (c : committer) : committer :=
  {| next := next c; ready := ready c; halted := halted c; haltedNotify := haltedNotify c;
     holStart := b |}.

Definition uc_ordinal (uc : uploadCompletion) : Z := eb_ordinal (uc_eb uc).

Definition failedResolution (uc : uploadCompletion) (err : error) : pendingResolution :=
  {| rs_uc := uc; rs_err := Some err;
     rs_outcome := if uc_encodeFailed uc then OutcomeEncodeFailed else OutcomeUploadFailed |}.

(** The inner loop of [drain]: the loop condition
    [len(group)+len(failed) < batchSize] leaves [n] more rounds. *)
Fixpoint collect (n : nat) (next : Z) (ready : readyMap) (group : list uploadCompletion)
    (failed : list pendingResolution)
    : Z * readyMap * list uploadCompletion * list pendingResolution :=
  match n with
  | O => (next, ready, group, failed)
  | S n =>
      match ready !! next with
      | None => (next, ready, group, failed)
      | Some uc =>
          let ready := delete next ready in
          let next := uint64 (next + 1) in
          match uc_putError uc with
          | Some err => collect n next ready group (failed ++ [failedResolution uc err])
          | None => collect n next ready (group ++ [uc]) failed
          end
      end
  end.

Definition itemOf (uc : uploadCompletion) : enqueueItem :=
  {| item_Location := eb_location (uc_eb uc); item_Metadata := eb_metadata (uc_eb uc) |}.

Definition withOutcome (err : option error) (o : BatchOutcome) (uc : uploadCompletion)
    : pendingResolution :=
  {| rs_uc := uc; rs_err := err; rs_outcome := o |}.

(** What becomes of a batch once the producer is halted. *)
Definition abandoned (uc : uploadCompletion) : pendingResolution :=
  withOutcome (Some (Sentinel ErrProducerHalted)) OutcomeAbandoned uc.

Section Committer.
Context {W : Type} (cas : list enqueueItem -> W -> option (W * Z * option error)).
Context (range : readyMap -> list uploadCompletion).
Context (config : ProducerConfig).

Definition batchSize : Z := atLeastOne (ManifestAppendBatchSize config).

(** What a drain did: the groups it tried to commit with their errors, and
    the batches it handed to the resolver, in order. *)
Record drained := {
  dr_committer : committer;
  dr_world : W;
  dr_events : list event;
  dr_groups : list (list uploadCompletion * option error);
  dr_resolved : list pendingResolution;
}.

(** The conditional write of a group, with the observer's calls. *)
Definition commitGroup (group : list uploadCompletion) (w : W)
    : option (W * option error * list event) :=
  if 0 <? len group then
    let items := itemOf <$> group in
    '(w, conflicts, err) ← cas items w;
    let totalMeta := foldl (fun t it => t + len (item_Metadata it)) 0 items in
    Some (w, err, observe config
      [OnManifestEnqueue totalMeta conflicts err; OnManifestAppendBatchSize (len items);
       OnManifestAppendDuration conflicts err])
  else Some (w, None, []).

Definition enterHalted (c : committer) : committer * list event :=
  ({| next := next c; ready := ready c; halted := true; haltedNotify := true;
      holStart := holStart c |},
   if haltedNotify c then [] else observe config [OnHalted true]).

Definition group_log (group : list uploadCompletion) (err : option error)
    : list (list uploadCompletion * option error) :=
  if 0 <? len group then [(group, err)] else [].

Fixpoint drain (fuel : nat) (c : committer) (w : W) : option drained :=
  match fuel with
  | O => None
  | S fuel =>
      let '(next', ready', group, failed) :=
        collect (Z.to_nat batchSize) (next c) (ready c) [] [] in
      let c := with_ready next' ready' c in
      if (len group =? 0) && (len failed =? 0)
      then Some {| dr_committer := c; dr_world := w; dr_events := []; dr_groups := [];
                   dr_resolved := [] |}
      else
        '(w, casErr, events) ← commitGroup group w;
        let log := group_log group casErr in
        match casErr with
        | Some e =>
            if negb (errors_Is e ErrShutdown) then
              let '(c, haltEvents) := enterHalted c in
              Some {| dr_committer := with_ready (next c) ∅ c;
                      dr_world := w;
                      dr_events := events ++ haltEvents;
                      dr_groups := log;
                      dr_resolved :=
                        (withOutcome (Some (Sentinel ErrProducerHalted)) OutcomeManifestFailed
                           <$> group) ++ failed ++
                        (abandoned <$> range (ready c)) |}
            else
              rest ← drain fuel c w;
              Some {| dr_committer := dr_committer rest; dr_world := dr_world rest;
                      dr_events := events ++ dr_events rest;
                      dr_groups := log ++ dr_groups rest;
                      dr_resolved := (withOutcome casErr OutcomeManifestFailed <$> group) ++
                                     failed ++ dr_resolved rest |}
        | None =>
            rest ← drain fuel c w;
            Some {| dr_committer := dr_committer rest; dr_world := dr_world rest;
                    dr_events := events ++ dr_events rest;
                    dr_groups := log ++ dr_groups rest;
                    dr_resolved := (withOutcome casErr OutcomeCommitted <$> group) ++
                                   failed ++ dr_resolved rest |}
        end
  end.

(** Every round of [drain] but the last takes a completion out of the map. *)
Definition drainAll (c : committer) (w : W) : option drained := drain (S (size (ready c))) c w.

(** [gather] stores what the channel holds, [more]. *)
Definition gather (ready : readyMap) (more : list uploadCompletion) : readyMap :=
  foldl (fun m uc => <[uc_ordinal uc := uc]> m) ready more.

(** One round of the committer's loop: it received [uc], and [gather] found
    [more] in the channel. *)
Definition onCompletion (c : committer) (uc : uploadCompletion) (more : list uploadCompletion)
    (w : W) : option drained :=
  if halted c then
    Some {| dr_committer := c; dr_world := w; dr_events := []; dr_groups := [];
            dr_resolved := [abandoned uc] |}
  else
    let c := with_ready (next c) (gather (<[uc_ordinal uc := uc]> (ready c)) more) c in
    let hasNext := bool_decide (is_Some (ready c !! next c)) in
    let c := with_hol (holStart c || negb hasNext) c in
    d ← drainAll c w;
    if hasNext && holStart (dr_committer d) then
      Some {| dr_committer := with_hol false (dr_committer d); dr_world := dr_world d;
              dr_events := dr_events d ++ observe config [OnHeadOfLineBlock];
              dr_groups := dr_groups d; dr_resolved := dr_resolved d |}
    else Some d.

(** The channel is closed. *)
Definition onClosed (c : committer) (w : W) : option drained :=
  if halted c then
    Some {| dr_committer := c; dr_world := w; dr_events := []; dr_groups := [];
            dr_resolved := [] |}
  else drainAll c w.

(** One stretch of work after another. *)
Definition andThen (d rest : drained) : drained :=
  {| dr_committer := dr_committer rest; dr_world := dr_world rest;
     dr_events := dr_events d ++ dr_events rest;
     dr_groups := dr_groups d ++ dr_groups rest;
     dr_resolved := dr_resolved d ++ dr_resolved rest |}.

Definition atRest (c : committer) (w : W) : drained :=
  {| dr_committer := c; dr_world := w; dr_events := []; dr_groups := []; dr_resolved := [] |}.

(** Completions that the loop receives one by one: in the halted state it goes
    back to its receive before it gathers. *)
Fixpoint onEach (ucs : list uploadCompletion) (c : committer) (w : W) : option drained :=
  match ucs with
  | [] => Some (atRest c w)
  | uc :: ucs =>
      d ← onCompletion c uc [] w;
      rest ← onEach ucs (dr_committer d) (dr_world d);
      Some (andThen d rest)
  end.

(** A run: the completions each receive and the [gather] after it found, round
    by round. *)
Fixpoint committerRun (rounds : list (uploadCompletion * list uploadCompletion)) (c : committer)
    (w : W) : option drained :=
  match rounds with
  | [] => Some (atRest c w)
  | (uc, more) :: rounds =>
      d ← (if halted c then onEach (uc :: more) c w else onCompletion c uc more w);
      rest ← committerRun rounds (dr_committer d) (dr_world d);
      Some (andThen d rest)
  end.
End Committer.
Arguments drained : clear implicits.

(** ** Maps of completions *)

Definition values (m : readyMap) : list uploadCompletion := (map_to_list m).*2.

Lemma values_empty : values ∅ = [].
Proof. unfold values. by rewrite map_to_list_empty. Qed.

Lemma values_insert m k uc : m !! k = None -> values (<[k := uc]> m) ≡ₚ uc :: values m.
Proof. intros Hk. unfold values. by rewrite map_to_list_insert. Qed.

Lemma values_delete m k uc : m !! k = Some uc -> values m ≡ₚ uc :: values (delete k m).
Proof.
  intros Hk. rewrite <- values_insert by apply lookup_delete_eq.
  by rewrite insert_delete_eq, insert_id.
Qed.

Lemma elem_of_values m uc : uc ∈ values m <-> exists k, m !! k = Some uc.
Proof.
  unfold values. rewrite list_elem_of_fmap. split.
  - intros ([k uc'] & -> & Hin). exists k. by apply elem_of_map_to_list.
  - intros [k Hk]. exists (k, uc). split; [done|]. by apply elem_of_map_to_list.
Qed.

(** The map holds completions under their own ordinals, none before [nx]. *)
Definition ready_ok (nx : Z) (m : readyMap) : Prop :=
  0 <= nx <= MaxUint64 /\
  map_Forall (fun k uc => uc_ordinal uc = k /\ nx <= k < MaxUint64) m.

Lemma ready_ok_delete nx m uc :
  ready_ok nx m -> m !! nx = Some uc -> ready_ok (nx + 1) (delete nx m).
Proof.
  intros [Hn Hm] Hnx. destruct (Hm nx uc Hnx) as [_ Hlt]. split; [lia|].
  intros k uc' Hk. apply lookup_delete_Some in Hk as [Hne Hk].
  destruct (Hm k uc' Hk) as [? ?]. split; [done|lia].
Qed.

Lemma ready_ok_empty nx : 0 <= nx <= MaxUint64 -> ready_ok nx ∅.
Proof. intros ?. split; [done|apply map_Forall_empty]. Qed.

(** ** Collecting a group *)

(** The completions among [t] whose upload succeeded. *)
Definition successes (t : list uploadCompletion) : list uploadCompletion :=
  omap (fun uc => match uc_putError uc with None => Some uc | Some _ => None end) t.

(** The failed completions among [t] with the result they get. *)
Definition failures (t : list uploadCompletion) : list pendingResolution :=
  omap (fun uc => failedResolution uc <$> uc_putError uc) t.

Lemma collect_spec n : forall nx rd g f nx' rd' g' f',
  ready_ok nx rd -> collect n nx rd g f = (nx', rd', g', f') ->
  exists t, ready_ok nx' rd' /\ nx' = nx + len t /\
    uc_ordinal <$> t = seqZ nx (len t) /\ values rd ≡ₚ t ++ values rd' /\
    g' = g ++ successes t /\ f' = f ++ failures t /\
    (length t < n -> rd' !! nx' = None)%nat.
Proof.
  induction n as [|n IH]; intros nx rd g f nx' rd' g' f' Hok Hc; cbn [collect] in Hc.
  { simplify_eq. exists []. rewrite len_nil, !app_nil_r, Z.add_0_r. split_and!; try done. cbn. lia. }
  destruct (rd !! nx) as [uc|] eqn:Hnx.
  2: { simplify_eq. exists []. rewrite len_nil, !app_nil_r, Z.add_0_r. by split_and!. }
  pose proof (ready_ok_delete _ _ _ Hok Hnx) as Hok'.
  destruct Hok as [Hb Hm]. destruct (Hm nx uc Hnx) as [Hord Hlt].
  rewrite uint64_id in Hc by (unfold is_uint64; lia).
  assert (exists t, ready_ok nx' rd' /\ nx' = nx + 1 + len t /\
    uc_ordinal <$> t = seqZ (nx + 1) (len t) /\ values (delete nx rd) ≡ₚ t ++ values rd' /\
    g' = g ++ successes (uc :: t) /\ f' = f ++ failures (uc :: t) /\
    (length t < n -> rd' !! nx' = None)%nat) as (t & Hr & -> & Hs & Hv & -> & -> & Hstop).
  { unfold failures, successes. cbn [omap list_omap].
    destruct (uc_putError uc) as [err|] eqn:Herr; cbn.
    - destruct (IH _ _ _ _ _ _ _ _ Hok' Hc) as (t & ? & ? & ? & ? & ? & Hf & ?).
      exists t. split_and!; try done. by rewrite Hf, <- (assoc_L (++)).
    - destruct (IH _ _ _ _ _ _ _ _ Hok' Hc) as (t & ? & ? & ? & ? & Hg & ? & ?).
      exists t. split_and!; try done. by rewrite Hg, <- (assoc_L (++)). }
  exists (uc :: t). rewrite len_cons. split_and!; try done.
  - lia.
  - rewrite fmap_cons, Hs, Hord. rewrite (seqZ_cons nx (1 + len t)) by (len_pose; lia).
    f_equal. f_equal; lia.
  - rewrite (values_delete _ _ _ Hnx), Hv. done.
  - intros Hl. apply Hstop. cbn in Hl. lia.
Qed.

(** Every completion collected is in the group or among the failures. *)
Lemma partition_perm t : successes t ++ (rs_uc <$> failures t) ≡ₚ t.
Proof.
  induction t as [|uc t IH]; [done|]. unfold failures, successes. cbn [omap list_omap].
  destruct (uc_putError uc) as [err|]; cbn.
  - rewrite <- Permutation_middle. by constructor.
  - by constructor.
Qed.

(** ** Draining *)

Abbreviation groupLog := (list (list uploadCompletion * option error)).

(** A committed group error that halts the producer. *)
Definition halts (err : option error) : bool :=
  match err with Some e => negb (errors_Is e ErrShutdown) | None => false end.

(** The result a batch gets is the one its fate calls for. *)
Definition resolution_ok (groups : groupLog) (rs : pendingResolution) : Prop :=
  let uc := rs_uc rs in
  match rs_outcome rs with
  | OutcomeCommitted => rs_err rs = None /\ exists g, (g, None) ∈ groups /\ uc ∈ g
  | OutcomeManifestFailed => exists g e, (g, Some e) ∈ groups /\ uc ∈ g /\
      rs_err rs = Some (if errors_Is e ErrShutdown then e else Sentinel ErrProducerHalted)
  | OutcomeUploadFailed => exists e, uc_putError uc = Some e /\ rs_err rs = Some e /\
      uc_encodeFailed uc = false
  | OutcomeEncodeFailed => exists e, uc_putError uc = Some e /\ rs_err rs = Some e /\
      uc_encodeFailed uc = true
  | OutcomeAbandoned => rs_err rs = Some (Sentinel ErrProducerHalted)
  end.

Lemma resolution_ok_mono gs gs' rs : gs ⊆ gs' -> resolution_ok gs rs -> resolution_ok gs' rs.
Proof.
  intros Hsub. unfold resolution_ok. destruct (rs_outcome rs); try done.
  - intros (? & g & Hg & ?). eauto.
  - intros (g & e & Hg & ? & ?). eauto 10.
Qed.

Lemma failures_ok gs t : Forall (resolution_ok gs) (failures t).
Proof.
  induction t as [|uc t IH]; [constructor|]. unfold failures. cbn [omap list_omap].
  destruct (uc_putError uc) as [err|] eqn:E; cbn; [|done]. constructor; [|done].
  unfold resolution_ok, failedResolution. cbn. destruct (uc_encodeFailed uc) eqn:Ee; eauto.
Qed.

Lemma group_ok gs g err o :
  (g, err) ∈ gs ->
  match o with
  | OutcomeCommitted => err = None
  | OutcomeManifestFailed => err <> None
  | _ => False
  end ->
  Forall (resolution_ok gs)
    (withOutcome (match err with
                  | Some e => Some (if errors_Is e ErrShutdown then e else Sentinel ErrProducerHalted)
                  | None => None end) o <$> g).
Proof.
  intros Hin Ho. apply Forall_fmap, Forall_forall. intros uc Huc. unfold resolution_ok. cbn.
  destruct o, err as [e|]; try done; eauto 10.
Qed.

Lemma successes_ok t : Forall (fun uc => uc_putError uc = None) (successes t).
Proof.
  induction t as [|uc t IH]; [constructor|]. unfold successes. cbn [omap list_omap].
  by destruct (uc_putError uc) eqn:E; [|constructor].
Qed.

Lemma successes_sublist t : sublist (successes t) t.
Proof.
  induction t as [|uc t IH]; [constructor|]. unfold successes. cbn [omap list_omap].
  destruct (uc_putError uc); by constructor.
Qed.

Lemma seqZ_sorted m n : StronglySorted Z.lt (seqZ m n).
Proof.
  destruct (decide (0 <= n)) as [Hn|]; [|rewrite seqZ_nil by lia; constructor].
  revert m. pattern n. apply natlike_ind; [|clear n Hn; intros n Hn IH m|done].
  - intros m. rewrite seqZ_nil by lia. constructor.
  - rewrite seqZ_cons by lia. replace (Z.pred (Z.succ n)) with n by lia. constructor; [done|].
    apply Forall_seqZ. lia.
Qed.

Lemma sublist_Forall {A} (P : A -> Prop) l k : sublist l k -> Forall P k -> Forall P l.
Proof.
  induction 1 as [|x l k Hs IH|x l k Hs IH]; intros Hk; [done|..];
    apply Forall_cons in Hk as [Hx Hk]; auto.
Qed.

Lemma sublist_map {A B} (f : A -> B) l k : sublist l k -> sublist (f <$> l) (f <$> k).
Proof. induction 1; rewrite ?fmap_cons; by constructor. Qed.

Lemma sublist_sorted {A} (R : relation A) l k :
  sublist l k -> StronglySorted R k -> StronglySorted R l.
Proof.
  induction 1 as [|x l k Hs IH|x l k Hs IH]; intros Hk; [constructor|..];
    apply StronglySorted_inv in Hk as [Hk Hx]; [|by apply IH].
  constructor; [by apply IH|]. by eapply sublist_Forall.
Qed.

Lemma sorted_app (l k : list Z) m :
  StronglySorted Z.lt l -> StronglySorted Z.lt k ->
  Forall (fun x => x < m) l -> Forall (fun x => m <= x) k -> StronglySorted Z.lt (l ++ k).
Proof.
  intros Hl Hk Hlm Hkm. induction Hl as [|x l Hl IH Hx]; [done|]. cbn.
  apply Forall_cons in Hlm as [Hxm Hlm]. constructor; [by apply IH|].
  apply Forall_app; split; [done|]. eapply Forall_impl; [exact Hkm|]. cbn. lia.
Qed.

(** The group a round collects: in order, within its range of ordinals. *)
Lemma successes_group nx t :
  uc_ordinal <$> t = seqZ nx (len t) ->
  StronglySorted Z.lt (uc_ordinal <$> successes t) /\
  Forall (fun x => nx <= x < nx + len t) (uc_ordinal <$> t).
Proof.
  intros Hs. split.
  - apply (sublist_sorted _ _ (uc_ordinal <$> t)); [apply sublist_map, successes_sublist|].
    rewrite Hs. apply seqZ_sorted.
  - rewrite Hs. apply Forall_seqZ. lia.
Qed.

(** What the committer achieves from the expected ordinal [nx] when [pool] are
    the completions it has or receives. *)
Record drain_ok (nx : Z) (pool : list uploadCompletion) (nx' : Z) (rd' : readyMap) (halted' : bool)
    (groups : groupLog) (resolved : list pendingResolution) : Prop := {
  do_perm : pool ≡ₚ (rs_uc <$> resolved) ++ values rd';
  do_ready : ready_ok nx' rd';
  do_next : nx <= nx';
  do_covered : forall k, nx <= k < nx' -> k ∈ (uc_ordinal <$> (rs_uc <$> resolved));
  do_stop : if halted' then rd' = ∅ else rd' !! nx' = None;
  do_below : halted' = false -> Forall (fun rs => uc_ordinal (rs_uc rs) < nx') resolved;
  do_sorted : StronglySorted Z.lt (uc_ordinal <$> concat groups.*1);
  do_range : Forall (fun uc => nx <= uc_ordinal uc < nx' /\ uc_putError uc = None)
               (concat groups.*1);
  do_resolved : Forall (resolution_ok groups) resolved;
  do_halted : Forall (fun g => g.1 <> [] /\ (halted' = false -> halts g.2 = false)) groups;
}.

Lemma group_log_concat g err : concat (group_log g err).*1 = g.
Proof.
  unfold group_log. destruct g as [|uc g]; [done|].
  destruct (Z.ltb_spec 0 (len (uc :: g))) as [_|H]; [cbn; by rewrite app_nil_r|].
  rewrite len_cons in H. len_pose. lia.
Qed.

Lemma group_log_in g err : g <> [] -> (g, err) ∈ group_log g err.
Proof.
  unfold group_log. destruct g as [|uc g]; [done|]. intros _.
  destruct (Z.ltb_spec 0 (len (uc :: g))) as [_|H]; [by apply list_elem_of_singleton|].
  rewrite len_cons in H. len_pose. lia.
Qed.

Lemma group_log_Forall (P : list uploadCompletion * option error -> Prop) g err :
  (g <> [] -> P (g, err)) -> Forall P (group_log g err).
Proof.
  unfold group_log. destruct g as [|uc g]; [constructor|]. intros HP.
  case_test; [|constructor]. constructor; [by apply HP|constructor].
Qed.

(** The resolutions of one round: the group with its result, then the failures. *)
Lemma round_resolved t err o :
  match o with
  | OutcomeCommitted => err = None
  | OutcomeManifestFailed => err <> None
  | _ => False
  end ->
  let group' := withOutcome (match err with
      | Some e => Some (if errors_Is e ErrShutdown then e else Sentinel ErrProducerHalted)
      | None => None end) o <$> successes t in
  Forall (resolution_ok (group_log (successes t) err)) (group' ++ failures t) /\
  rs_uc <$> group' ++ failures t ≡ₚ t.
Proof.
  intros Ho group'. subst group'. split.
  - apply Forall_app; split; [|apply failures_ok].
    destruct (successes t) as [|uc g] eqn:E; [constructor|]. rewrite <- E.
    apply group_ok; [|done]. apply group_log_in. by rewrite E.
  - rewrite fmap_app, <- list_fmap_compose. rewrite <- (partition_perm t) at 3.
    apply Permutation_app; [|done]. by rewrite list_fmap_id.
Qed.

(** A round that does not halt, followed by the rest of the drain. *)
Lemma drain_ok_round nx pool t rd1 nx' rd' h' err o groups resolved :
  ready_ok (nx + len t) rd1 -> uc_ordinal <$> t = seqZ nx (len t) ->
  pool ≡ₚ t ++ values rd1 -> halts err = false ->
  match o with
  | OutcomeCommitted => err = None
  | OutcomeManifestFailed => err <> None
  | _ => False
  end ->
  drain_ok (nx + len t) (values rd1) nx' rd' h' groups resolved ->
  drain_ok nx pool nx' rd' h' (group_log (successes t) err ++ groups)
    ((withOutcome err o <$> successes t) ++ failures t ++ resolved).
Proof.
  intros Hok Hs Hv Hh Ho D. destruct (successes_group nx t Hs) as [Hsort Hrange].
  destruct (round_resolved t err o Ho) as [Hres Hperm].
  assert (match err with
      | Some e => Some (if errors_Is e ErrShutdown then e else Sentinel ErrProducerHalted)
      | None => None end = err) as Herr.
  { destruct err as [e|]; [|done]. cbn in Hh. by destruct (errors_Is e ErrShutdown). }
  rewrite Herr in Hres, Hperm. rewrite (assoc_L (++)). pose proof (do_next _ _ _ _ _ _ _ D).
  assert (Forall (fun uc => nx <= uc_ordinal uc < nx + len t) t) as Hr by by apply Forall_fmap in Hrange.
  split.
  - rewrite fmap_app, Hperm, <- (assoc_L (++)). rewrite Hv. f_equiv. apply D.
  - apply D.
  - len_pose. lia.
  - intros k Hk. rewrite fmap_app, Hperm, fmap_app, Hs, elem_of_app, elem_of_seqZ.
    destruct (decide (k < nx + len t)); [left; lia|right]. apply D. lia.
  - apply D.
  - intros Hf. apply Forall_app; split; [|by apply D].
    assert (Forall (fun uc => uc_ordinal uc < nx')
      (rs_uc <$> (withOutcome err o <$> successes t) ++ failures t)) as Hb; [|by apply Forall_fmap in Hb].
    rewrite Hperm. eapply Forall_impl; [exact Hr|]. cbn. lia.
  - rewrite fmap_app, concat_app, group_log_concat, fmap_app.
    apply (sorted_app _ _ (nx + len t)); [done|apply D| |].
    + apply Forall_fmap. eapply sublist_Forall; [apply successes_sublist|].
      eapply Forall_impl; [exact Hr|]. cbn. lia.
    + apply Forall_fmap. eapply Forall_impl; [exact (do_range _ _ _ _ _ _ _ D)|]. cbn. lia.
  - rewrite fmap_app, concat_app, group_log_concat. apply Forall_app; split.
    + apply Forall_and; split; [|apply successes_ok].
      eapply sublist_Forall; [apply successes_sublist|].
      eapply Forall_impl; [exact Hr|]. cbn. lia.
    + eapply Forall_impl; [exact (do_range _ _ _ _ _ _ _ D)|].
      cbn. len_pose. intros uc ?. split; [lia|tauto].
  - apply Forall_app; split; 
      (eapply Forall_impl; [exact Hres || exact (do_resolved _ _ _ _ _ _ _ D)|]);
      intros rs; apply resolution_ok_mono; set_solver.
  - apply Forall_app; split; [|apply D]. by apply group_log_Forall.
Qed.

(** A round that halts. *)
Lemma drain_ok_halt nx pool t rd1 e abandonedList :
  ready_ok (nx + len t) rd1 -> uc_ordinal <$> t = seqZ nx (len t) ->
  pool ≡ₚ t ++ values rd1 -> halts (Some e) = true -> abandonedList ≡ₚ values rd1 ->
  drain_ok nx pool (nx + len t) ∅ true (group_log (successes t) (Some e))
    ((withOutcome (Some (Sentinel ErrProducerHalted)) OutcomeManifestFailed <$> successes t) ++
     failures t ++ (abandoned <$> abandonedList)).
Proof.
  intros Hok Hs Hv Hh Hab. destruct (successes_group nx t Hs) as [Hsort Hrange].
  destruct (round_resolved t (Some e) OutcomeManifestFailed ltac:(done)) as [Hres Hperm].
  cbn in Hh. apply negb_true_iff in Hh. rewrite Hh in Hres, Hperm. rewrite (assoc_L (++)).
  assert (Forall (fun uc => nx <= uc_ordinal uc < nx + len t) t) as Hr by by apply Forall_fmap in Hrange.
  split.
  - rewrite fmap_app, Hperm, values_empty, app_nil_r, <- list_fmap_compose.
    rewrite Hv. f_equiv. rewrite list_fmap_id. done.
  - apply ready_ok_empty, Hok.
  - len_pose. lia.
  - intros k Hk. rewrite fmap_app, Hperm, fmap_app, Hs, elem_of_app, elem_of_seqZ. left. lia.
  - done.
  - done.
  - by rewrite group_log_concat.
  - rewrite group_log_concat. apply Forall_and; split; [|apply successes_ok].
    eapply sublist_Forall; [apply successes_sublist|done].
  - apply Forall_app; split; [done|]. apply Forall_fmap, Forall_forall. by intros uc _.
  - by apply group_log_Forall.
Qed.

Lemma length_values m : length (values m) = size m.
Proof. unfold values. by rewrite length_fmap, length_map_to_list. Qed.

Section Drain.
Context {W : Type} (cas : list enqueueItem -> W -> option (W * Z * option error)).
Context (range : readyMap -> list uploadCompletion) (Hrange : forall m, range m ≡ₚ values m).
Context (config : ProducerConfig).

Lemma batchSize_pos : (0 < Z.to_nat (batchSize config))%nat.
Proof. unfold batchSize. pose proof (atLeastOne_pos (ManifestAppendBatchSize config)). lia. Qed.

(** A round that collects nothing: there is nothing to collect. *)
Lemma collect_nothing t n :
  len (successes t) = 0 -> len (failures t) = 0 -> (0 < n)%nat -> t = [] /\ (length t < n)%nat.
Proof.
  intros Hg%len_zero_nil Hf%len_zero_nil Hn. pose proof (partition_perm t) as Hp.
  rewrite Hg, Hf in Hp. apply Permutation_nil_l in Hp. subst t. by split.
Qed.

Definition drained_ok (nx : Z) (pool : list uploadCompletion) (d : drained W) : Prop :=
  drain_ok nx pool (next (dr_committer d)) (ready (dr_committer d)) (halted (dr_committer d))
    (dr_groups d) (dr_resolved d).

Lemma drain_spec fuel : forall c w d,
  halted c = false -> ready_ok (next c) (ready c) ->
  drain cas range config fuel c w = Some d -> drained_ok (next c) (values (ready c)) d.
Proof.
  induction fuel as [|fuel IH]; intros c w d Hh Hok Hd; cbn [drain] in Hd; [done|].
  destruct (collect _ _ _ _ _) as [[[nx1 rd1] group] failed] eqn:Ec.
  destruct (collect_spec _ _ _ _ _ _ _ _ _ Hok Ec)
    as (t & Hok1 & -> & Hs & Hv & -> & -> & Hstop). cbn [app] in Hd.
  destruct ((len (successes t) =? 0) && (len (failures t) =? 0)) eqn:Ez.
  { apply andb_true_iff in Ez as [Hg%Z.eqb_eq Hf%Z.eqb_eq]. simplify_eq. unfold drained_ok. cbn.
    destruct (collect_nothing t _ Hg Hf batchSize_pos) as [-> Hl]. rewrite Hh.
    split; cbn; [done|done|len_lia|len_lia|by apply Hstop|constructor..]. }
  unfold commitGroup in Hd.
  destruct (if 0 <? len (successes t) then _ else _) as [[[w1 casErr] events]|] eqn:Ecas;
    [|done]. cbn [mbind option_bind] in Hd.
  assert (forall o rest, halts casErr = false ->
    match o with OutcomeCommitted => casErr = None | OutcomeManifestFailed => casErr <> None
               | _ => False end ->
    drain cas range config fuel (with_ready (next c + len t) rd1 c) w1 = Some rest ->
    drain_ok (next c) (values (ready c)) (next (dr_committer rest)) (ready (dr_committer rest))
      (halted (dr_committer rest)) (group_log (successes t) casErr ++ dr_groups rest)
      ((withOutcome casErr o <$> successes t) ++ failures t ++ dr_resolved rest)) as Hround.
  { intros o rest Hhalt Ho Hrest. eapply drain_ok_round; eauto. apply IH in Hrest; done. }
  destruct casErr as [e|].
  - destruct (negb (errors_Is e ErrShutdown)) eqn:Ee; cbn in Hd.
    + simplify_eq. unfold drained_ok. cbn. by eapply drain_ok_halt.
    + destruct (drain _ _ _ _ _ _) as [rest|] eqn:Er; [|done].
      injection Hd as <-. exact (Hround OutcomeManifestFailed rest Ee ltac:(done) eq_refl).
  - cbn in Hd. destruct (drain _ _ _ _ _ _) as [rest|] eqn:Er; [|done].
    injection Hd as <-. exact (Hround OutcomeCommitted rest eq_refl eq_refl eq_refl).
Qed.

(** Adding to the map what arrived. *)
Lemma gather_spec nx l : forall rd,
  ready_ok nx rd -> NoDup (uc_ordinal <$> l) ->
  Forall (fun uc => nx <= uc_ordinal uc < MaxUint64 /\ rd !! uc_ordinal uc = None) l ->
  ready_ok nx (gather rd l) /\ values (gather rd l) ≡ₚ l ++ values rd.
Proof.
  induction l as [|uc l IH]; intros rd Hok Hnd Hl; [done|]. rewrite fmap_cons in Hnd.
  apply NoDup_cons in Hnd as [Hnin Hnd]. apply Forall_cons in Hl as [[Hr Hnone] Hl].
  unfold gather in *. cbn [foldl]. destruct (IH (<[uc_ordinal uc := uc]> rd)) as [Hok' Hv]; [|done|..].
  - destruct Hok as [? Hm]. split; [done|]. by apply map_Forall_insert_2.
  - apply Forall_forall. intros uc' Hin. eapply Forall_forall in Hl as [? ?]; [|exact Hin].
    split; [done|]. rewrite lookup_insert_ne; [done|].
    intros Heq. apply Hnin. rewrite Heq. by apply list_elem_of_fmap_2.
  - split; [done|]. rewrite Hv, values_insert by done. symmetry. apply Permutation_middle.
Qed.

(** With as many rounds as the map has completions, and one to stop, a drain
    comes to its end. *)
Lemma drain_total fuel : forall c w,
  (forall items w, is_Some (cas items w)) -> ready_ok (next c) (ready c) ->
  (size (ready c) < fuel)%nat -> is_Some (drain cas range config fuel c w).
Proof.
  induction fuel as [|fuel IH]; intros c w Hcas Hok Hf; [lia|]. cbn [drain].
  destruct (collect _ _ _ _ _) as [[[nx1 rd1] group] failed] eqn:Ec.
  destruct (collect_spec _ _ _ _ _ _ _ _ _ Hok Ec)
    as (t & Hok1 & -> & Hs & Hv & -> & -> & Hstop). cbn [app].
  destruct ((len (successes t) =? 0) && (len (failures t) =? 0)) eqn:Ez; [done|].
  assert (size rd1 < fuel)%nat as Hsz.
  { apply Permutation_length in Hv. rewrite length_app, !length_values in Hv.
    destruct t as [|uc t]; [done|]. cbn in Hv. lia. }
  assert (is_Some (commitGroup cas config (successes t) w)) as [[[w1 casErr] events] ->].
  { unfold commitGroup. case_test; [|done].
    destruct (Hcas (itemOf <$> successes t) w) as [[[w1 ?] ?] ->]. done. }
  cbn [mbind option_bind].
  destruct (IH (with_ready (next c + len t) rd1 c) w1 Hcas) as [rest Hrest]; [done|done|].
  destruct casErr as [e|]; [case_test|]; cbn; rewrite ?Hrest; done.
Qed.

(** The completions of a run, in order of arrival. *)
Definition arrivals (rounds : list (uploadCompletion * list uploadCompletion))
    : list uploadCompletion := rounds ≫= fun '(uc, more) => uc :: more.

(** New completions: new ordinals, not before the expected one. *)
Definition fresh (c : committer) (l : list uploadCompletion) : Prop :=
  NoDup (uc_ordinal <$> l) /\
  Forall (fun uc => next c <= uc_ordinal uc < MaxUint64 /\ ready c !! uc_ordinal uc = None) l.

Lemma onCompletion_spec c uc more w d :
  halted c = false -> ready_ok (next c) (ready c) -> fresh c (uc :: more) ->
  onCompletion cas range config c uc more w = Some d ->
  drained_ok (next c) ((uc :: more) ++ values (ready c)) d.
Proof.
  intros Hh Hok [Hnd Hf] Hd. unfold onCompletion in Hd. rewrite Hh in Hd.
  change (gather (<[uc_ordinal uc := uc]> (ready c)) more) with (gather (ready c) (uc :: more)) in Hd.
  destruct (gather_spec (next c) (uc :: more) (ready c) Hok Hnd Hf) as [Hok' Hv].
  unfold drainAll in Hd. destruct (drain _ _ _ _ _ _) as [d'|] eqn:Ed; [|done].
  apply drain_spec in Ed; [|done|done]. cbn in Ed.
  assert (drained_ok (next c) ((uc :: more) ++ values (ready c)) d') as Hd'.
  { destruct Ed. split; try done. by rewrite <- Hv. }
  cbn [mbind option_bind] in Hd.
  match type of Hd with (if ?b then _ else _) = _ => destruct b end; by injection Hd as <-.
Qed.

(** A later batch of arrivals is still new after a round. *)
Lemma fresh_after c l1 l2 d :
  fresh c (l1 ++ l2) -> ready_ok (next c) (ready c) ->
  drained_ok (next c) (l1 ++ values (ready c)) d -> fresh (dr_committer d) l2.
Proof.
  intros [Hnd Hf] Hok D. rewrite fmap_app in Hnd. apply NoDup_app in Hnd as (_ & Hdis & Hnd2).
  apply Forall_app in Hf as [_ Hf2]. split; [done|]. apply Forall_forall. intros uc Hin.
  pose proof Hf2 as Hf2'. eapply Forall_forall in Hf2' as [Hrange' Hnone]; [|exact Hin].
  assert (uc_ordinal uc ∉ (uc_ordinal <$> l1 ++ values (ready c))) as Hnot.
  { rewrite fmap_app, elem_of_app. intros [H|H].
    - apply (Hdis _ H). by apply list_elem_of_fmap_2.
    - apply list_elem_of_fmap in H as (uc' & Heq & [k Hk]%elem_of_values).
      destruct Hok as [_ Hm]. destruct (Hm k uc' Hk) as [? _]. congruence. }
  rewrite (do_perm _ _ _ _ _ _ _ D), fmap_app, elem_of_app in Hnot.
  destruct (decide (uc_ordinal uc < next (dr_committer d))).
  { destruct Hnot. left. apply D. lia. }
  split; [lia|]. destruct (ready (dr_committer d) !! uc_ordinal uc) as [uc'|] eqn:E; [|done].
  exfalso. apply Hnot. right. destruct (do_ready _ _ _ _ _ _ _ D) as [_ Hm].
  destruct (Hm _ _ E) as [<- _]. apply list_elem_of_fmap_2, elem_of_values. eauto.
Qed.

(** Two stretches of work in a row. *)
Lemma drain_ok_app nx pool nx1 rd1 g1 r1 l nx2 rd2 h2 g2 r2 :
  drain_ok nx pool nx1 rd1 false g1 r1 ->
  drain_ok nx1 (l ++ values rd1) nx2 rd2 h2 g2 r2 ->
  drain_ok nx (pool ++ l) nx2 rd2 h2 (g1 ++ g2) (r1 ++ r2).
Proof.
  intros D1 D2. pose proof (do_next _ _ _ _ _ _ _ D1). pose proof (do_next _ _ _ _ _ _ _ D2).
  split.
  - rewrite (do_perm _ _ _ _ _ _ _ D1), fmap_app, <- !(assoc_L (++)). f_equiv.
    rewrite (comm (++) (values rd1) l). apply D2.
  - apply D2.
  - lia.
  - intros k Hk. rewrite !fmap_app, elem_of_app.
    destruct (decide (k < nx1)); [left; apply D1; lia|right; apply D2; lia].
  - apply D2.
  - intros Hh. apply Forall_app; split; [|by apply D2].
    eapply Forall_impl; [by apply (do_below _ _ _ _ _ _ _ D1)|]. cbn. lia.
  - rewrite fmap_app, concat_app, fmap_app. apply (sorted_app _ _ nx1); [apply D1|apply D2|..];
      apply Forall_fmap; (eapply Forall_impl;
        [exact (do_range _ _ _ _ _ _ _ D1) || exact (do_range _ _ _ _ _ _ _ D2)|]); cbn; lia.
  - rewrite fmap_app, concat_app. apply Forall_app; split; (eapply Forall_impl;
        [exact (do_range _ _ _ _ _ _ _ D1) || exact (do_range _ _ _ _ _ _ _ D2)|]); cbn;
      intros uc [? ?]; (split; [lia|done]).
  - apply Forall_app; split; (eapply Forall_impl;
        [exact (do_resolved _ _ _ _ _ _ _ D1) || exact (do_resolved _ _ _ _ _ _ _ D2)|]);
      intros rs; apply resolution_ok_mono; set_solver.
  - apply Forall_app; split; [|apply D2].
    eapply Forall_impl; [exact (do_halted _ _ _ _ _ _ _ D1)|]. cbn. intros g [? ?]. auto.
Qed.

(** What arrives in the halted state is abandoned. *)
Lemma drain_ok_abandon nx pool nx1 g r l :
  drain_ok nx pool nx1 ∅ true g r ->
  drain_ok nx (pool ++ l) nx1 ∅ true g (r ++ (abandoned <$> l)).
Proof.
  intros D. split; try apply D.
  - rewrite (do_perm _ _ _ _ _ _ _ D), values_empty, !app_nil_r, fmap_app, <- list_fmap_compose.
    by rewrite list_fmap_id.
  - intros k Hk. rewrite !fmap_app, elem_of_app. left. by apply D.
  - done.
  - apply Forall_app; split; [apply D|]. apply Forall_fmap, Forall_forall. by intros uc _.
Qed.

Lemma drain_ok_pool nx pool pool' nx1 rd1 h g r :
  pool ≡ₚ pool' -> drain_ok nx pool nx1 rd1 h g r -> drain_ok nx pool' nx1 rd1 h g r.
Proof. intros Hp D. split; try apply D. rewrite <- Hp. apply D. Qed.

Lemma onEach_halted ucs c w :
  halted c = true ->
  onEach cas range config ucs c w =
    Some {| dr_committer := c; dr_world := w; dr_events := []; dr_groups := [];
            dr_resolved := abandoned <$> ucs |}.
Proof.
  intros Hh. induction ucs as [|uc ucs IH]; cbn [onEach]; [done|].
  unfold onCompletion. rewrite Hh. cbn [mbind option_bind dr_committer dr_world]. by rewrite IH.
Qed.

Lemma committerRun_halted rounds c w :
  halted c = true ->
  committerRun cas range config rounds c w =
    Some {| dr_committer := c; dr_world := w; dr_events := []; dr_groups := [];
            dr_resolved := abandoned <$> arrivals rounds |}.
Proof.
  intros Hh. induction rounds as [|[uc more] rounds IH]; cbn [committerRun]; [done|].
  rewrite Hh, onEach_halted by done. cbn [mbind option_bind dr_committer dr_world]. rewrite IH. cbn.
  unfold arrivals, andThen. cbn. by rewrite fmap_app.
Qed.

Lemma committerRun_app rounds1 rounds2 : forall c w d1 d2,
  committerRun cas range config rounds1 c w = Some d1 ->
  committerRun cas range config rounds2 (dr_committer d1) (dr_world d1) = Some d2 ->
  committerRun cas range config (rounds1 ++ rounds2) c w = Some (andThen d1 d2).
Proof.
  induction rounds1 as [|[uc more] rounds1 IH]; intros c w d1 d2 H1 H2; cbn [committerRun app] in *.
  { injection H1 as <-. cbn in H2. rewrite H2. by destruct d2. }
  destruct (if halted c then _ else _) as [d|]; [|done]. cbn [mbind option_bind] in *.
  destruct (committerRun _ _ _ rounds1 _ _) as [d0|] eqn:E; [|done]. cbn [mbind option_bind] in H1.
  injection H1 as <-. rewrite (IH _ _ _ _ E H2). cbn. unfold andThen. cbn. by rewrite <- !(assoc_L (++)).
Qed.

(** *** What halts the producer *)

Definition halt_cause (groups : groupLog) : Prop :=
  exists g e, (g, Some e) ∈ groups /\ errors_Is e ErrShutdown = false.

Lemma halt_cause_app g1 g2 : halt_cause g1 \/ halt_cause g2 -> halt_cause (g1 ++ g2).
Proof.
  intros [(g & e & Hin & He)|(g & e & Hin & He)]; exists g, e; (split; [apply elem_of_app; tauto|done]).
Qed.

Lemma drain_cause fuel : forall c w d,
  halted c = false -> drain cas range config fuel c w = Some d ->
  halted (dr_committer d) = true -> halt_cause (dr_groups d).
Proof.
  induction fuel as [|fuel IH]; intros c w d Hh; cbn [drain]; [done|].
  destruct (collect _ _ _ _ _) as [[[nx rd] group] failed]. case_match; [intros [= <-]; cbn; congruence|].
  destruct (commitGroup cas config group w) as [[[w1 err] es]|] eqn:E; cbn [mbind option_bind]; [|done].
  assert (forall rest log, drain cas range config fuel (with_ready nx rd c) w1 = Some rest ->
    halted (dr_committer rest) = true -> halt_cause (log ++ dr_groups rest)) as Hrest.
  { intros rest log Hr Ht. apply halt_cause_app. right. by eapply IH in Hr. }
  destruct err as [e|]; [destruct (errors_Is e ErrShutdown) eqn:Ee; cbn [negb]|].
  - destruct (drain _ _ _ fuel _ _) as [rest|] eqn:Er; cbn; [|done]. intros [= <-]. cbn. by apply Hrest.
  - unfold enterHalted. intros [= <-] _. exists group, e. split; [|done]. apply group_log_in.
    intros ->. discriminate E.
  - destruct (drain _ _ _ fuel _ _) as [rest|] eqn:Er; cbn; [|done]. intros [= <-]. cbn. by apply Hrest.
Qed.

Lemma onCompletion_cause c uc more w d :
  halted c = false -> onCompletion cas range config c uc more w = Some d ->
  halted (dr_committer d) = true -> halt_cause (dr_groups d).
Proof.
  intros Hh Hd Ht. unfold onCompletion in Hd. rewrite Hh in Hd. unfold drainAll in Hd.
  destruct (drain _ _ _ _ _ _) as [d'|] eqn:Ed; [|done]. apply drain_cause in Ed; [|done| ].
  - cbn [mbind option_bind] in Hd. by match type of Hd with (if ?b then _ else _) = _ => destruct b end; injection Hd as <-.
  - cbn [mbind option_bind] in Hd. by match type of Hd with (if ?b then _ else _) = _ => destruct b end; injection Hd as <-.
Qed.

Lemma committerRun_cause rounds : forall c w d,
  halted c = false -> committerRun cas range config rounds c w = Some d ->
  halted (dr_committer d) = true -> halt_cause (dr_groups d).
Proof.
  induction rounds as [|[uc more] rounds IH]; intros c w d Hh Hd Ht; cbn [committerRun] in Hd.
  { injection Hd as <-. cbn in Ht. congruence. }
  rewrite Hh in Hd. destruct (onCompletion _ _ _ _ _ _ _) as [d1|] eqn:E1; [|done]. cbn [mbind option_bind] in Hd.
  destruct (committerRun _ _ _ rounds _ _) as [d2|] eqn:E2; [|done]. injection Hd as <-. cbn in *.
  apply halt_cause_app. destruct (halted (dr_committer d1)) eqn:Eh.
  - left. by eapply onCompletion_cause.
  - right. by eapply IH.
Qed.

Lemma committerRun_spec rounds : forall c w d,
  halted c = false -> ready_ok (next c) (ready c) -> ready c !! next c = None ->
  fresh c (arrivals rounds) -> committerRun cas range config rounds c w = Some d ->
  drained_ok (next c) (values (ready c) ++ arrivals rounds) d.
Proof.
  induction rounds as [|[uc more] rounds IH]; intros c w d Hh Hok Hnx Hf Hd; cbn [committerRun] in Hd.
  { injection Hd as <-. unfold drained_ok. cbn. rewrite Hh, app_nil_r.
    split; try done; try constructor. lia. }
  rewrite Hh in Hd. destruct (onCompletion _ _ _ _ _ _ _) as [d1|] eqn:E1; [|done].
  cbn [mbind option_bind] in Hd.
  change (arrivals ((uc, more) :: rounds)) with ((uc :: more) ++ arrivals rounds) in *.
  assert (fresh c (uc :: more)) as Hf1.
  { destruct Hf as [Hnd Hf]. rewrite fmap_app in Hnd. apply NoDup_app in Hnd as (? & _ & _).
    apply Forall_app in Hf as [? _]. done. }
  pose proof (onCompletion_spec c uc more w d1 Hh Hok Hf1 E1) as D1.
  pose proof (fresh_after c _ _ d1 Hf Hok D1) as Hf2.
  apply (drain_ok_pool _ (((uc :: more) ++ values (ready c)) ++ arrivals rounds));
    [by rewrite (comm (++) (uc :: more)), <- (assoc_L (++))|].
  unfold drained_ok in D1. pose proof (do_stop _ _ _ _ _ _ _ D1) as Hstop.
  destruct (halted (dr_committer d1)) eqn:Eh1.
  - rewrite committerRun_halted in Hd by done. cbn in Hd. injection Hd as <-.
    unfold drained_ok. cbn [andThen dr_committer dr_groups dr_resolved].
    rewrite Eh1, Hstop, app_nil_r in *. exact (drain_ok_abandon _ _ _ _ _ _ D1).
  - destruct (committerRun _ _ _ _ _ _) as [d2|] eqn:E2; [|done]. cbn in Hd. injection Hd as <-.
    unfold drained_ok. cbn [andThen dr_committer dr_groups dr_resolved].
    eapply drain_ok_app; [exact D1|].
    apply (drain_ok_pool _ (values (ready (dr_committer d1)) ++ arrivals rounds));
      [by rewrite (comm (++))|].
    exact (IH _ _ _ Eh1 (do_ready _ _ _ _ _ _ _ D1) Hstop Hf2 E2).
Qed.

(** The committer's loop never gets stuck on its own. *)
Lemma committerRun_total rounds : forall c w,
  (forall items w, is_Some (cas items w)) ->
  halted c = false -> ready_ok (next c) (ready c) -> fresh c (arrivals rounds) ->
  is_Some (committerRun cas range config rounds c w).
Proof.
  induction rounds as [|[uc more] rounds IH]; intros c w Hcas Hh Hok Hf; cbn [committerRun]; [done|].
  rewrite Hh. change (arrivals ((uc, more) :: rounds)) with ((uc :: more) ++ arrivals rounds) in Hf.
  assert (fresh c (uc :: more)) as Hf1.
  { destruct Hf as [Hnd Hf]. rewrite fmap_app in Hnd. apply NoDup_app in Hnd as (? & _ & _).
    apply Forall_app in Hf as [? _]. done. }
  assert (is_Some (onCompletion cas range config c uc more w)) as [d1 E1].
  { unfold onCompletion. rewrite Hh. destruct Hf1 as [Hnd Hfr].
    change (gather (<[uc_ordinal uc := uc]> (ready c)) more) with (gather (ready c) (uc :: more)).
    destruct (gather_spec (next c) (uc :: more) (ready c) Hok Hnd Hfr) as [Hok' _].
    unfold drainAll. match goal with |- context [drain _ _ _ ?f ?c ?w] =>
      destruct (drain_total f c w Hcas) as [d Hd]; [exact Hok'|cbn; lia|] end.
    rewrite Hd. cbn [mbind option_bind]. by match goal with |- context [if ?b then _ else _] => destruct b end. }
  pose proof (onCompletion_spec c uc more w d1 Hh Hok Hf1 E1) as D1.
  rewrite E1. cbn [mbind option_bind]. destruct (halted (dr_committer d1)) eqn:Eh1.
  - by rewrite committerRun_halted.
  - destruct (IH (dr_committer d1) (dr_world d1) Hcas Eh1) as [d2 ->]; [apply D1| |done].
    by apply (fresh_after c (uc :: more) _ d1).
Qed.
End Drain.

(** ** Properties *)

(** The completions of a run: distinct ordinals in range. *)
Definition arrivals_ok (rounds : list (uploadCompletion * list uploadCompletion)) : Prop :=
  NoDup (uc_ordinal <$> arrivals rounds) /\
  Forall (fun uc => 0 <= uc_ordinal uc < MaxUint64) (arrivals rounds).

Lemma arrivals_fresh rounds : arrivals_ok rounds -> fresh newCommitter (arrivals rounds).
Proof.
  intros [Hnd Hr]. split; [done|]. eapply Forall_impl; [exact Hr|]. cbn. intros uc ?.
  by rewrite lookup_empty.
Qed.

Lemma newCommitter_ok : ready_ok (next newCommitter) (ready newCommitter).
Proof. apply ready_ok_empty. cbn. unfold MaxUint64. lia. Qed.

(** Nothing stays in the map when no ordinal is missing. *)
Lemma no_hole {W} (d : drained W) l n :
  drained_ok 0 l d -> uc_ordinal <$> l ≡ₚ seqZ 0 n -> 0 <= n ->
  ready (dr_committer d) = ∅ /\
  (halted (dr_committer d) = false -> next (dr_committer d) = n).
Proof.
  intros D Hp Hn. unfold drained_ok in D. pose proof (do_stop _ _ _ _ _ _ _ D) as Hstop.
  pose proof (do_perm _ _ _ _ _ _ _ D) as Hperm.
  destruct (halted (dr_committer d)); [done|].
  pose proof (do_below _ _ _ _ _ _ _ D eq_refl) as Hbelow.
  assert (forall k, 0 <= k < n -> k < next (dr_committer d) \/
            exists uc, uc_ordinal uc = k /\ ready (dr_committer d) !! k = Some uc) as Hcase.
  { intros k Hk. assert (k ∈ (uc_ordinal <$> l)) as Hin by (rewrite Hp, elem_of_seqZ; lia).
    rewrite Hperm, fmap_app, elem_of_app in Hin. destruct Hin as [Hin|Hin];
      apply list_elem_of_fmap in Hin as (uc & -> & Hin).
    - left. apply list_elem_of_fmap in Hin as (rs & -> & Hin).
      by eapply Forall_forall in Hbelow.
    - right. exists uc. split; [done|]. apply elem_of_values in Hin as [k' Hk'].
      destruct (do_ready _ _ _ _ _ _ _ D) as [_ Hm]. by destruct (Hm _ _ Hk') as [-> _]. }
  assert (n <= next (dr_committer d)) as Hge.
  { destruct (decide (n <= next (dr_committer d))) as [|Hlt]; [done|].
    pose proof (do_next _ _ _ _ _ _ _ D).
    destruct (Hcase (next (dr_committer d))) as [?|(uc & _ & Huc)]; [lia|lia|congruence]. }
  assert (forall k, k ∈ (uc_ordinal <$> l) -> 0 <= k < n) as Hl.
  { intros k Hk. rewrite Hp, elem_of_seqZ in Hk. lia. }
  split.
  - apply map_empty. intros k. destruct (ready (dr_committer d) !! k) as [uc|] eqn:E; [|done].
    exfalso. destruct (do_ready _ _ _ _ _ _ _ D) as [_ Hm]. destruct (Hm _ _ E) as [Hk ?].
    assert (0 <= k < n); [|lia]. apply Hl. rewrite Hperm, fmap_app, elem_of_app. right.
    rewrite <- Hk. apply list_elem_of_fmap_2, elem_of_values. eauto.
  - intros _. destruct (decide (next (dr_committer d) <= n)); [lia|].
    assert (0 <= n < n); [|lia]. apply Hl. rewrite Hperm, fmap_app, elem_of_app. left.
    apply D. lia.
Qed.

Section Claims.
Context {W : Type} (cas : list enqueueItem -> W -> option (W * Z * option error)).
Context (range : readyMap -> list uploadCompletion) (config : ProducerConfig).

(** C5. Every completion is handed to the resolver exactly once or is still
    waiting for a missing earlier ordinal, whatever order the uploads finish
    in, however receives and gathers split them, however the manifest writes
    end and in whatever order Go ranges over maps; each gets the result its
    fate calls for (success only when the write of its group succeeded); and
    the groups written to the manifest are in strictly increasing ordinal
    order, without any batch whose upload failed. *)
Theorem committer_exactly_once rounds w d :
  (forall m, range m ≡ₚ values m) -> arrivals_ok rounds ->
  committerRun cas range config rounds newCommitter w = Some d ->
  arrivals rounds ≡ₚ (rs_uc <$> dr_resolved d) ++ values (ready (dr_committer d)) /\
  Forall (resolution_ok (dr_groups d)) (dr_resolved d) /\
  StronglySorted Z.lt (uc_ordinal <$> concat (dr_groups d).*1) /\
  Forall (fun uc => uc_putError uc = None) (concat (dr_groups d).*1) /\
  (if halted (dr_committer d) then ready (dr_committer d) = ∅
   else ready (dr_committer d) !! next (dr_committer d) = None).
Proof.
  intros Hr Ha Hrun.
  pose proof (committerRun_spec cas range Hr config rounds newCommitter w d eq_refl
    newCommitter_ok (lookup_empty _) (arrivals_fresh _ Ha) Hrun) as D.
  split_and!; [apply D..| |apply D].
  eapply Forall_impl; [exact (do_range _ _ _ _ _ _ _ D)|]. by intros uc [_ ?].
Qed.

(** C17. Without a missing ordinal nothing is left behind: when the completions
    of a run are those of ordinals [0] to [n-1], in any order, the run comes to
    its end (the manifest writes return), every completion has been handed to
    the resolver exactly once, and, unless the producer halted, the next
    expected ordinal is [n]. Completions of failed encodes and uploads count:
    they do not block the later ordinals. *)
Theorem committer_complete rounds w n :
  (forall m, range m ≡ₚ values m) -> (forall items w, is_Some (cas items w)) ->
  0 <= n < MaxUint64 -> uc_ordinal <$> arrivals rounds ≡ₚ seqZ 0 n ->
  exists d, committerRun cas range config rounds newCommitter w = Some d /\
    rs_uc <$> dr_resolved d ≡ₚ arrivals rounds /\
    (halted (dr_committer d) = false -> next (dr_committer d) = n).
Proof.
  intros Hr Hcas Hn Hp.
  assert (arrivals_ok rounds) as Ha.
  { split; [rewrite Hp; apply NoDup_seqZ|]. apply Forall_forall. intros uc Huc.
    apply (list_elem_of_fmap_2 uc_ordinal) in Huc. rewrite Hp, elem_of_seqZ in Huc. lia. }
  destruct (committerRun_total cas range Hr config rounds newCommitter w Hcas eq_refl
    newCommitter_ok (arrivals_fresh _ Ha)) as [d Hrun].
  pose proof (committerRun_spec cas range Hr config rounds newCommitter w d eq_refl
    newCommitter_ok (lookup_empty _) (arrivals_fresh _ Ha) Hrun) as D.
  destruct (no_hole d (arrivals rounds) n D Hp ltac:(lia)) as [Hempty Hnext].
  exists d. split_and!; [done| |done].
  pose proof (do_perm _ _ _ _ _ _ _ D) as Hperm.
  rewrite Hempty, values_empty, app_nil_r in Hperm. by rewrite <- Hperm.
Qed.

(** C18. The producer halts exactly when a manifest write failed for another
    reason than shutdown, and a halted producer leaves the manifest alone: from
    then on, whatever arrives and however the receives split it, every
    completion is resolved, in the order of arrival, as abandoned and with
    [ErrProducerHalted], and there is no manifest write and no change to the
    store. *)
Theorem committer_halted rounds1 rounds2 w d1 :
  (forall m, range m ≡ₚ values m) -> arrivals_ok rounds1 ->
  committerRun cas range config rounds1 newCommitter w = Some d1 ->
  (halted (dr_committer d1) = true <->
   exists g e, (g, Some e) ∈ dr_groups d1 /\ errors_Is e ErrShutdown = false) /\
  (halted (dr_committer d1) = true ->
   exists d later, committerRun cas range config (rounds1 ++ rounds2) newCommitter w = Some d /\
     dr_world d = dr_world d1 /\ dr_groups d = dr_groups d1 /\
     dr_resolved d = dr_resolved d1 ++ later /\ rs_uc <$> later = arrivals rounds2 /\
     Forall (fun rs => rs_err rs = Some (Sentinel ErrProducerHalted) /\
                       rs_outcome rs = OutcomeAbandoned) later).
Proof.
  intros Hr Ha H1. split.
  - split; [intros Hh; by eapply committerRun_cause in H1|]. intros (g & e & Hin & He).
    pose proof (committerRun_spec cas range Hr config rounds1 newCommitter w d1 eq_refl
      newCommitter_ok (lookup_empty _) (arrivals_fresh _ Ha) H1) as D.
    pose proof (do_halted _ _ _ _ _ _ _ D) as Hf. eapply Forall_forall in Hf as [_ Hf]; [|exact Hin].
    destruct (halted (dr_committer d1)); [done|]. specialize (Hf eq_refl). cbn in Hf. by rewrite He in Hf.
  - intros Hh. eexists _, (abandoned <$> arrivals rounds2).
    split; [by eapply committerRun_app; [exact H1|apply committerRun_halted]|]. cbn.
    rewrite app_nil_r, <- list_fmap_compose. split_and!; try done; [apply list_fmap_id|].
    apply Forall_fmap, Forall_forall. by intros uc _.
Qed.
End Claims.

(** *** Witnesses *)

(** Three completions arrive as 1, 0 and 2; the upload of 0 failed. The
    manifest is a list of items, and the write always succeeds. *)
Definition sample_completion (ordinal : Z) (err : option error) : uploadCompletion := {|
  uc_eb := {| eb_ordinal := ordinal; eb_payload := []; eb_metadata := []; eb_watchers := [O];
              eb_stats := {| Inputs := 1; Entries := 1; UncompressedBytes := 1; Age := 0 |};
              eb_reason := FlushReasonSize; eb_flushAck := None;
              eb_location := "ingest/run/" +:+ pretty ordinal; eb_size := 1; eb_byteCost := 12 |};
  uc_putError := err; uc_encodeFailed := false |}.

Definition sample_rounds : list (uploadCompletion * list uploadCompletion) :=
  [(sample_completion 1 None, []);
   (sample_completion 0 (Some (storageErr "timeout")), [sample_completion 2 None])].

Definition append_items (items : list enqueueItem) (w : list enqueueItem)
    : option (list enqueueItem * Z * option error) := Some (w ++ items, 0, None).

Lemma sample_arrivals_ok : arrivals_ok sample_rounds.
Proof.
  split.
  - apply (bool_decide_unpack _). vm_compute. exact I.
  - apply (bool_decide_unpack _). vm_compute. exact I.
Qed.

Lemma committer_exactly_once_witness :
  exists d, committerRun append_items values DefaultProducerConfig sample_rounds newCommitter []
              = Some d /\
    uc_ordinal <$> concat (dr_groups d).*1 = [1; 2] /\
    arrivals sample_rounds ≡ₚ (rs_uc <$> dr_resolved d) ++ values (ready (dr_committer d)).
Proof.
  eexists. split; [vm_compute; reflexivity|]. split; [vm_compute; reflexivity|].
  refine (proj1 (committer_exactly_once append_items values DefaultProducerConfig sample_rounds []
    _ _ sample_arrivals_ok _)); [reflexivity|vm_compute; reflexivity].
Defined.

Lemma committer_complete_witness :
  exists d, committerRun append_items values DefaultProducerConfig sample_rounds newCommitter []
              = Some d /\
    rs_uc <$> dr_resolved d ≡ₚ arrivals sample_rounds /\
    (halted (dr_committer d) = false -> next (dr_committer d) = 3).
Proof.
  apply (committer_complete append_items values DefaultProducerConfig sample_rounds [] 3).
  - reflexivity.
  - intros items w. unfold append_items. eexists. reflexivity.
  - vm_compute. split; [discriminate|reflexivity].
  - apply (bool_decide_unpack _). vm_compute. exact I.
Defined.

(** The first manifest write fails for good; a fourth completion arrives. *)
Definition failing_write (items : list enqueueItem) (w : list enqueueItem)
    : option (list enqueueItem * Z * option error) := Some (w, 0, Some (storageErr "denied")).

Lemma committer_halted_witness :
  exists d d' later, committerRun failing_write values DefaultProducerConfig sample_rounds newCommitter [] = Some d /\
    committerRun failing_write values DefaultProducerConfig
      (sample_rounds ++ [(sample_completion 3 None, [])]) newCommitter [] = Some d' /\
    dr_world d' = [] /\ dr_resolved d' = dr_resolved d ++ later /\ rs_uc <$> later = [sample_completion 3 None] /\
    Forall (fun rs => rs_err rs = Some (Sentinel ErrProducerHalted) /\ rs_outcome rs = OutcomeAbandoned) later.
Proof.
  eexists. destruct (proj2 (committer_halted failing_write values DefaultProducerConfig sample_rounds
    [(sample_completion 3 None, [])] [] _ (fun _ => Permutation_refl _) sample_arrivals_ok
    ltac:(vm_compute; reflexivity)) ltac:(vm_compute; reflexivity))
    as (d' & later & H1 & H2 & _ & H3 & H4 & H5).
  exists d', later. split_and!; [vm_compute; reflexivity|exact H1|exact H2|exact H3|exact H4|exact H5].
Defined.
