(* ===== verification/Stages.v ===== *)
(** * The stages of the pipeline ([src/buffer/producer.go]: [rotator],
    [drainAppendChInto], [encoder], [uploaderWorker], [watcherResolver])

    What each stage does with one piece of work, as functions; the goroutines,
    the channels between them and their interleaving are in [Pipeline]. *)

From S2P Require Import Prelude GoError Bytes Batch Manifest Config Budget Accumulator.
From Stdlib Require Import Ascii.
From stdpp Require Import strings.

Local Open Scope Z_scope.

(** ** Locations of data objects *)

Definition hexDigit (d : Z) : Ascii.ascii :=
  default "0"%char (String.get (Z.to_nat d) "0123456789abcdef").

(** The [n] low hexadecimal digits of [z], the high digit first. *)
Fixpoint hexDigits (n : nat) (z : Z) : string :=
  match n with
  | O => ""
  | S n => String (hexDigit ((z / 16 ^ Z.of_nat n) `mod` 16)) (hexDigits n z)
  end.

(** [fmt.Sprintf("%s/%s/%016x", prefix, runID, ordinal)] for a [uint64]. *)
Definition batchLocation (prefix runID : string) (ordinal : Z) : string :=
  prefix +:+ "/" +:+ runID +:+ "/" +:+ hexDigits 16 ordinal.

(** ** Rotator *)

Record rotator := {
  rot_batch : batchAccumulator;
  rot_ordinal : Z;
  rot_oldestUnflushedNs : Z;
}.

Definition newRotator : rotator :=
  {| rot_batch := newAccumulator; rot_ordinal := 0; rot_oldestUnflushedNs := 0 |}.

(** A message arrives: it is added, and the gauge starts with the first one. *)
Definition rotatorAdd (now : Z) (r : rotator) (msg : appendMessage) : rotator :=
  let '(batch, becameStarted) := add now (rot_batch r) msg in
  {| rot_batch := batch; rot_ordinal := rot_ordinal r;
     rot_oldestUnflushedNs :=
       if becameStarted : bool then acc_startedAt batch else rot_oldestUnflushedNs r |}.

(** The size trigger. *)
Definition sizeReached (config : ProducerConfig) (r : rotator) : bool :=
  FlushSizeBytes config <=? acc_sizeBytes (rot_batch r).

(** [drainAppendChInto]: [msgs] is what the channel holds. The clock is read at
    most once, by the [add] that starts the accumulator. *)
Definition drainAppendChInto (now : Z) (batch : batchAccumulator) (msgs : list appendMessage)
    : batchAccumulator :=
  foldl (fun b msg => (add now b msg).1) batch msgs.

(** A flush request: everything in the channel joins the accumulator. *)
Definition rotatorFlush (now : Z) (r : rotator) (msgs : list appendMessage) : rotator :=
  let batch := drainAppendChInto now (rot_batch r) msgs in
  {| rot_batch := batch; rot_ordinal := rot_ordinal r;
     rot_oldestUnflushedNs :=
       if acc_started batch && (rot_oldestUnflushedNs r =? 0) then acc_startedAt batch
       else rot_oldestUnflushedNs r |}.

Definition framingExtra (entries : list bytes) : Z :=
  batchEntryLenSize * len entries + batchFooterSize.

(** [emit] once it holds a batch slot: the batch sent to the encoders and the
    bytes added to the reservation. *)
Definition emitBatch (now : Z) (r : rotator) (reason : FlushReason) (flushAck : option ack_id)
    : rotator * pendingBatch * Z :=
  let st := stats now (rot_batch r) in
  let '(batch, (entries, metadata, watchers, byteCost)) := reset (rot_batch r) in
  let extra := framingExtra entries in
  let pb := {| pb_ordinal := rot_ordinal r; pb_entries := entries; pb_metadata := metadata;
               pb_watchers := watchers; pb_stats := st; pb_reason := reason;
               pb_flushAck := flushAck; pb_byteCost := byteCost + extra |} in
  ({| rot_batch := batch; rot_ordinal := uint64 (rot_ordinal r + 1);
      rot_oldestUnflushedNs := 0 |}, pb, extra).

(** [emit] when the shutdown signal came first: the accumulator is dropped; the
    bytes to release and the watchers to resolve with [ErrShutdown]. *)
Definition emitDropped (r : rotator) : rotator * Z * list watcher_id :=
  let '(batch, (_, _, watchers, byteCost)) := reset (rot_batch r) in
  ({| rot_batch := batch; rot_ordinal := rot_ordinal r; rot_oldestUnflushedNs := 0 |},
   byteCost, watchers).

(** [resetTimer]: the delay of the flush timer, if one is armed. *)
Definition timerDelay (config : ProducerConfig) (now : Z) (r : rotator) : option Z :=
  if acc_started (rot_batch r) then
    let remaining := acc_startedAt (rot_batch r) + FlushInterval config - now in
    Some (if remaining <=? 0 then 0 else remaining)
  else None.

Definition OldestUnflushedBatchAge (now : Z) (r : rotator) : Z :=
  let ns := rot_oldestUnflushedNs r in
  if ns =? 0 then 0
  else
    let age := now - ns in
    if age <? 0 then 0 else age.

(** ** Encoder *)

Section Encoder.
Context (encodeFn : list bytes -> Z -> outcome bytes).  (** [EncodeBatch] in production *)
Context (config : ProducerConfig) (runID : string).

(** The body of the encoder loop: an encoded batch for the uploaders, or a
    synthetic completion for the committer. *)
Definition encodeOne (pb : pendingBatch) : outcome (encodedBatch + uploadCompletion) :=
  match encodeFn (pb_entries pb) (BatchCompression config) with
  | Panic => Panic
  | Fail err =>
      Ret (inr {| uc_eb := {| eb_ordinal := pb_ordinal pb; eb_payload := [];
                              eb_metadata := pb_metadata pb; eb_watchers := pb_watchers pb;
                              eb_stats := pb_stats pb; eb_reason := pb_reason pb;
                              eb_flushAck := pb_flushAck pb; eb_location := ""; eb_size := 0;
                              eb_byteCost := pb_byteCost pb |};
                  uc_putError := Some err; uc_encodeFailed := true |})
  | Ret payload =>
      Ret (inl {| eb_ordinal := pb_ordinal pb; eb_payload := payload;
                  eb_metadata := pb_metadata pb; eb_watchers := pb_watchers pb;
                  eb_stats := pb_stats pb; eb_reason := pb_reason pb;
                  eb_flushAck := pb_flushAck pb;
                  eb_location := batchLocation (DataPathPrefix config) runID (pb_ordinal pb);
                  eb_size := len payload; eb_byteCost := pb_byteCost pb |})
  end.
End Encoder.

(** ** Uploader *)

(** The completion of an upload: the payload is dropped. *)
Definition uploadDone (eb : encodedBatch) (err : option error) : uploadCompletion :=
  {| uc_eb := {| eb_ordinal := eb_ordinal eb; eb_payload := []; eb_metadata := eb_metadata eb;
                 eb_watchers := eb_watchers eb; eb_stats := eb_stats eb; eb_reason := eb_reason eb;
                 eb_flushAck := eb_flushAck eb; eb_location := eb_location eb;
                 eb_size := eb_size eb; eb_byteCost := eb_byteCost eb |};
     uc_putError := err; uc_encodeFailed := false |}.

(** ** Locations are unique *)

Lemma hexDigit_inj a b : 0 <= a < 16 -> 0 <= b < 16 -> hexDigit a = hexDigit b -> a = b.
Proof.
  intros Ha Hb. assert (forall x y, (x < 16)%nat -> (y < 16)%nat ->
    default "0"%char (String.get x "0123456789abcdef") =
    default "0"%char (String.get y "0123456789abcdef") -> x = y) as Hnat.
  { intros x y Hx Hy. do 16 (destruct x as [|x]; [do 16 (destruct y as [|y]; [by cbn|]); lia|]). lia. }
  intros Heq. apply Hnat in Heq; lia.
Qed.

Lemma hexDigits_inj n : forall a b,
  hexDigits n a = hexDigits n b -> a `mod` 16 ^ Z.of_nat n = b `mod` 16 ^ Z.of_nat n.
Proof.
  induction n as [|n IH]; intros a b; cbn [hexDigits]; [intros _; by rewrite !Z.mod_1_r|].
  intros [= Hd Hrest]. apply IH in Hrest.
  apply hexDigit_inj in Hd; [|apply Z.mod_pos_bound; lia..].
  rewrite Nat2Z.inj_succ, Z.pow_succ_r, (Z.mul_comm 16) by lia.
  assert (0 < 16 ^ Z.of_nat n) by (apply Z.pow_pos_nonneg; lia).
  by rewrite !Z.rem_mul_r, Hd, Hrest by lia.
Qed.

Lemma batchLocation_inj prefix runID a b :
  is_uint64 a -> is_uint64 b ->
  batchLocation prefix runID a = batchLocation prefix runID b -> a = b.
Proof.
  unfold batchLocation, is_uint64, MaxUint64. intros Ha Hb Heq.
  do 4 apply (inj _) in Heq. apply hexDigits_inj in Heq.
  change (16 ^ Z.of_nat 16) with (2 ^ 64) in Heq. rewrite !Z.mod_small in Heq by lia. done.
Qed.

(** ** The rotator's invariant *)

(** The rotator holds [msgs] in its accumulator, and the gauge shows the time
    of the first of them. *)
Record rotator_ok (r : rotator) (msgs : list appendMessage) : Prop := {
  ro_holds : holds (rot_batch r) msgs;
  ro_msgs : Forall msg_ok msgs;
  ro_oldest : rot_oldestUnflushedNs r =
                if acc_started (rot_batch r) then acc_startedAt (rot_batch r) else 0;
  ro_clock : acc_started (rot_batch r) = true -> acc_startedAt (rot_batch r) <> 0;
  ro_ordinal : is_uint64 (rot_ordinal r);
}.

Lemma newRotator_ok : rotator_ok newRotator [].
Proof. by split. Qed.

Lemma rotatorAdd_ok now r msgs m :
  now <> 0 -> msg_ok m -> rotator_ok r msgs -> rotator_ok (rotatorAdd now r m) (msgs ++ [m]).
Proof.
  intros Hnow Hm [Hh Hms Ho Hc Hord]. unfold rotatorAdd.
  pose proof (holds_add now _ _ m Hh) as Hadd. destruct (add now (rot_batch r) m) as [b st] eqn:E.
  unfold add in E. injection E as Eb Est. split; cbn; try done.
  - by apply Forall_app_2; [|constructor].
  - rewrite <- Est, <- Eb, Ho. cbn. by destruct (acc_started (rot_batch r)).
  - intros _. rewrite <- Eb. cbn. destruct (acc_started (rot_batch r)); cbn; auto.
Qed.

Lemma drainAppendChInto_holds now ms : forall b msgs,
  holds b msgs -> holds (drainAppendChInto now b ms) (msgs ++ ms).
Proof.
  induction ms as [|m ms IH]; intros b msgs Hb; cbn; [by rewrite app_nil_r|].
  change (m :: ms) with ([m] ++ ms). rewrite (app_assoc msgs [m] ms).
  apply IH. by apply holds_add.
Qed.

Lemma drainAppendChInto_startedAt now ms : forall b,
  acc_startedAt (drainAppendChInto now b ms) =
    (if acc_started b then acc_startedAt b
     else match ms with [] => acc_startedAt b | _ => now end) /\
  acc_started (drainAppendChInto now b ms) =
    (acc_started b || bool_decide (ms <> [])).
Proof.
  induction ms as [|m ms IH]; intros b.
  { cbn. rewrite orb_false_r. by destruct (acc_started b). }
  change (drainAppendChInto now b (m :: ms)) with (drainAppendChInto now (add now b m).1 ms).
  rewrite (bool_decide_eq_true_2 (m :: ms <> [])) by done. rewrite orb_true_r.
  destruct (IH (add now b m).1) as [-> ->]. cbn. by destruct (acc_started b).
Qed.

Lemma rotatorFlush_ok now r msgs ms :
  now <> 0 -> Forall msg_ok ms -> rotator_ok r msgs ->
  rotator_ok (rotatorFlush now r ms) (msgs ++ ms).
Proof.
  intros Hnow Hm [Hh Hms Ho Hc Hord].
  destruct (drainAppendChInto_startedAt now ms (rot_batch r)) as [H1 H2].
  split; cbn; try done.
  - by apply drainAppendChInto_holds.
  - by apply Forall_app_2.
  - rewrite H1, H2, Ho. destruct (acc_started (rot_batch r)) eqn:Es; cbn.
    + destruct (Z.eqb_spec (acc_startedAt (rot_batch r)) 0); [by destruct (Hc eq_refl)|done].
    + by destruct ms.
  - rewrite H1, H2. destruct (acc_started (rot_batch r)) eqn:Es; cbn; [auto|].
    by destruct ms.
Qed.

Lemma emitBatch_ok now r msgs reason ack :
  rotator_ok r msgs -> rotator_ok (emitBatch now r reason ack).1.1 [].
Proof.
  intros [Hh Hms Ho Hc Hord]. split; try done. apply uint64_range.
Qed.

Lemma emitDropped_ok r msgs : rotator_ok r msgs -> rotator_ok (emitDropped r).1.1 [].
Proof. intros [Hh Hms Ho Hc Hord]. by split. Qed.

(** What is emitted is what was accumulated. *)
Record batch_of (msgs : list appendMessage) (pb : pendingBatch) : Prop := {
  bo_entries : pb_entries pb = all_entries msgs;
  bo_metadata : pb_metadata pb = metadata_from 0 msgs;
  bo_watchers : pb_watchers pb = msg_watcher <$> msgs;
  bo_cost : pb_byteCost pb = sumZ (msg_byteCost <$> msgs) + framingExtra (pb_entries pb);
}.

Lemma emitBatch_batch_of now r msgs reason ack :
  rotator_ok r msgs ->
  let '(_, pb, extra) := emitBatch now r reason ack in
  batch_of msgs pb /\ pb_ordinal pb = rot_ordinal r /\ pb_flushAck pb = ack /\
  pb_byteCost pb = acc_byteCost (rot_batch r) + extra.
Proof.
  intros [[] _ _ _ _]. split_and!; try done. split; cbn; congruence.
Qed.

Lemma messages_cost msgs start :
  Forall msg_ok msgs ->
  sumZ (msg_byteCost <$> msgs) =
    sumZ (len <$> all_entries msgs)
    + sumZ ((fun m => len (Payload m)) <$> metadata_from start msgs).
Proof.
  intros Hok. revert start. induction Hok as [|m msgs [_ Hm] _ IH]; intros start; [done|].
  unfold all_entries in *. cbn [mbind list_bind metadata_from].
  rewrite fmap_app, !fmap_cons, !sumZ_app, !sumZ_cons, Hm, appendByteCost_sum.
  cbn [Payload]. rewrite (IH (start + len (msg_entries m))). lia.
Qed.

Lemma records_framing (entries : list bytes) :
  sumZ ((fun e => batchEntryLenSize + len e) <$> entries) =
    batchEntryLenSize * len entries + sumZ (len <$> entries).
Proof.
  induction entries as [|e entries IH]; [done|].
  rewrite !fmap_cons, !sumZ_cons, IH, len_cons. lia.
Qed.

Definition sample_message : appendMessage :=
  {| msg_entries := [string_bytes "ab"]; msg_metadata := string_bytes "meta__";
     msg_ingestionTimeMs := 3; msg_watcher := 0; msg_byteCost := 8 |}.

(** ** Properties *)

(** The in-flight bytes of a batch are charged exactly: the cost the
    rotator puts on an emitted batch, and adds to the reservations its
    messages made, is to the byte the size of the encoded (uncompressed)
    payload plus the metadata payloads the batch carries. *)
Theorem emitted_cost_exact z now r msgs reason ack payload :
  rotator_ok r msgs ->
  EncodeBatch z (pb_entries (emitBatch now r reason ack).1.2) CompressionNone = Ret payload ->
  pb_byteCost (emitBatch now r reason ack).1.2 =
    len payload + sumZ ((fun m => len (Payload m)) <$> pb_metadata (emitBatch now r reason ack).1.2).
Proof.
  intros Hr He. pose proof (emitBatch_batch_of now r msgs reason ack Hr) as Hb.
  destruct (emitBatch now r reason ack) as [[r' pb] extra]. cbn in *.
  destruct Hb as ([Hent Hmeta _ Hcost] & _).
  apply EncodeBatch_Ret_inv in He as (_ & _ & ->). unfold encodedBlock. cbn.
  rewrite len_app, len_records, len_batchFooter, Hcost, Hmeta. unfold framingExtra, recordsSize.
  rewrite Hent, (messages_cost msgs 0 (ro_msgs _ _ Hr)), records_framing.
  change batchFooterSize with 7. lia.
Qed.

Lemma emitted_cost_exact_witness :
  let r := rotatorAdd 7 newRotator sample_message in
  let pb := (emitBatch 9 r FlushReasonSize None).1.2 in
  pb_byteCost pb = 19 /\
  exists payload, EncodeBatch stored (pb_entries pb) CompressionNone = Ret payload /\
    pb_byteCost pb = len payload + sumZ ((fun m => len (Payload m)) <$> pb_metadata pb).
Proof.
  split; [vm_compute; reflexivity|]. eexists. split; [vm_compute; reflexivity|].
  refine (emitted_cost_exact stored 9 _ [sample_message] FlushReasonSize None _ _ _);
    [|vm_compute; reflexivity].
  apply (rotatorAdd_ok 7 newRotator [] sample_message);
    [lia|repeat constructor; discriminate|apply newRotator_ok].
Defined.

(** The operations of the rotator on its own state. *)
Inductive rotator_op :=
  | RotAdd (now : Z) (msg : appendMessage)
  | RotFlush (now : Z) (msgs : list appendMessage)
  | RotEmit (now : Z) (reason : FlushReason) (ack : option ack_id)
  | RotDrop.

Definition rotatorApply (r : rotator) (o : rotator_op) : rotator :=
  match o with
  | RotAdd now msg => rotatorAdd now r msg
  | RotFlush now msgs => rotatorFlush now r msgs
  | RotEmit now reason ack => (emitBatch now r reason ack).1.1
  | RotDrop => (emitDropped r).1.1
  end.

(** The messages an operation leaves, with the time of the first. *)
Definition held_after (h : list appendMessage * Z) (o : rotator_op) : list appendMessage * Z :=
  match o with
  | RotAdd now msg => (h.1 ++ [msg], match h.1 with [] => now | _ => h.2 end)
  | RotFlush now msgs =>
      (h.1 ++ msgs, match h.1, msgs with [], _ :: _ => now | _, _ => h.2 end)
  | RotEmit _ _ _ | RotDrop => ([], 0)
  end.

(** The clock does not read the epoch, and messages passed [AppendContext]. *)
Definition rotator_op_ok (o : rotator_op) : Prop :=
  match o with
  | RotAdd now msg => now <> 0 /\ msg_ok msg
  | RotFlush now msgs => now <> 0 /\ Forall msg_ok msgs
  | RotEmit _ _ _ | RotDrop => True
  end.

Lemma rotatorApply_ok r msgs t o :
  rotator_op_ok o -> rotator_ok r msgs ->
  (msgs <> [] -> acc_startedAt (rot_batch r) = t) ->
  rotator_ok (rotatorApply r o) (held_after (msgs, t) o).1 /\
  ((held_after (msgs, t) o).1 <> [] ->
   acc_startedAt (rot_batch (rotatorApply r o)) = (held_after (msgs, t) o).2).
Proof.
  intros Ho Hr Ht. pose proof (holds_started _ _ (ro_holds _ _ Hr)) as Hs.
  destruct o as [now msg|now ms|now reason ack|]; cbn [rotatorApply held_after fst snd].
  - destruct Ho. split; [by apply rotatorAdd_ok|]. intros _. unfold rotatorAdd. cbn. rewrite Hs.
    destruct msgs as [|m msgs]; [done|]. by apply Ht.
  - destruct Ho. split; [by apply rotatorFlush_ok|].
    cbn. destruct (drainAppendChInto_startedAt now ms (rot_batch r)) as [-> _]. rewrite Hs.
    destruct msgs as [|m msgs], ms as [|m' ms]; cbn; try done; intros _; by apply Ht.
  - split; [by eapply emitBatch_ok|done].
  - split; [by eapply emitDropped_ok|done].
Qed.

(** The age gauge tells the truth: after any sequence of appends, flushes,
    emits and drops the rotator's accumulator holds exactly the messages since
    the last emit or drop, and [OldestUnflushedBatchAge] is the time since the
    first of them arrived (never negative), and zero when there is none. *)
Theorem oldest_age_correct ops now :
  Forall rotator_op_ok ops ->
  let r := foldl rotatorApply newRotator ops in
  let h := foldl held_after ([], 0) ops in
  holds (rot_batch r) h.1 /\
  OldestUnflushedBatchAge now r =
    match h.1 with [] => 0 | _ => Z.max 0 (now - h.2) end.
Proof.
  intros Hops r h.
  assert (rotator_ok r h.1 /\ (h.1 <> [] -> acc_startedAt (rot_batch r) = h.2)) as [Hr Ht].
  { subst r h. induction ops as [|o ops IH] using rev_ind; [split; [apply newRotator_ok|done]|].
    apply Forall_app in Hops as [Hops Ho]. apply Forall_cons in Ho as [Ho _].
    specialize (IH Hops).
    rewrite !foldl_app. cbn. destruct (foldl held_after ([], 0) ops) as [ms t].
    apply rotatorApply_ok; [done|apply IH..]. }
  split; [apply Hr|]. unfold OldestUnflushedBatchAge. rewrite (ro_oldest _ _ Hr).
  pose proof (ro_clock _ _ Hr) as Hc. pose proof (holds_started _ _ (ro_holds _ _ Hr)) as Hs.
  rewrite Hs in *. destruct h.1 as [|m ms]; [by rewrite bool_decide_eq_false_2 by tauto|].
  rewrite bool_decide_eq_true_2 in * by done. rewrite Ht in * by done.
  destruct (Z.eqb_spec h.2 0); [by destruct (Hc eq_refl)|]. case_test; lia.
Qed.

Lemma oldest_age_correct_witness :
  OldestUnflushedBatchAge 20
    (foldl rotatorApply newRotator [RotAdd 7 sample_message; RotEmit 8 FlushReasonSize None;
                                    RotFlush 9 [sample_message]; RotAdd 12 sample_message]) = 11.
Proof.
  refine (proj2 (oldest_age_correct [RotAdd 7 sample_message; RotEmit 8 FlushReasonSize None;
    RotFlush 9 [sample_message]; RotAdd 12 sample_message] 20 _)).
  repeat constructor; discriminate.
Defined.

(** What an encoder worker makes of a batch: it never panics; an encoded
    batch goes to the uploaders at a location of its own, and its payload
    decodes to the batch's entries; a batch that cannot be encoded becomes a
    completion marked as failed with the encoder's error, and keeps its
    ordinal, so that the committer can step over it. Watchers, flush
    acknowledgement and byte cost are carried either way. *)
Theorem encodeOne_outcome z `{!ZstdLaws z} config runID pb :
  zstd_NewReader z = None -> len (pb_entries pb) <= MaxUint32 ->
  match encodeOne (EncodeBatch z) config runID pb with
  | Ret (inl eb) =>
      eb_ordinal eb = pb_ordinal pb /\
      eb_location eb = batchLocation (DataPathPrefix config) runID (pb_ordinal pb) /\
      DecodeBatch z (eb_payload eb) = Ret (pb_entries pb) /\ eb_size eb = len (eb_payload eb) /\
      eb_metadata eb = pb_metadata pb /\ eb_watchers eb = pb_watchers pb /\
      eb_flushAck eb = pb_flushAck pb /\ eb_byteCost eb = pb_byteCost pb
  | Ret (inr uc) =>
      (exists e, EncodeBatch z (pb_entries pb) (BatchCompression config) = Fail e /\
                 uc_putError uc = Some e) /\
      uc_encodeFailed uc = true /\ eb_ordinal (uc_eb uc) = pb_ordinal pb /\
      eb_watchers (uc_eb uc) = pb_watchers pb /\ eb_flushAck (uc_eb uc) = pb_flushAck pb /\
      eb_byteCost (uc_eb uc) = pb_byteCost pb
  | Fail _ | Panic => False
  end.
Proof.
  intros Hr Hl. unfold encodeOne.
  pose proof (EncodeBatch_not_Panic z (pb_entries pb) (BatchCompression config)) as Hnp.
  destruct (EncodeBatch _ _ _) as [payload|e|] eqn:E; [|by eauto 10|done].
  split_and!; try done. cbn. rewrite (DecodeBatch_encoded z _ _ _ E Hr), uint32_id.
  - unfold len. rewrite Nat2Z.id. by rewrite firstn_all.
  - unfold is_uint32. len_pose. lia.
Qed.

Lemma encodeOne_outcome_witness :
  exists eb, encodeOne (EncodeBatch stored) DefaultProducerConfig "run"
      (emitBatch 9 (rotatorAdd 7 newRotator sample_message) FlushReasonSize None).1.2 = Ret (inl eb) /\
    eb_location eb = "ingest/run/0000000000000000" /\
    DecodeBatch stored (eb_payload eb) = Ret [string_bytes "ab"].
Proof.
  eexists. split; [vm_compute; reflexivity|]. split; [vm_compute; reflexivity|].
  exact (proj1 (proj2 (proj2 (encodeOne_outcome stored DefaultProducerConfig "run"
    (emitBatch 9 (rotatorAdd 7 newRotator sample_message) FlushReasonSize None).1.2
    eq_refl ltac:(vm_compute; discriminate))))).
Defined.
