(* ===== verification/Pipeline.v ===== *)
(** * The producer pipeline ([src/buffer/producer.go])

    The goroutines of a producer and the channels between them as one step
    relation: callers of [AppendContext], the rotator, the encoder and the
    uploader pool, the manifest committer, the watcher resolver, [Flush] and
    [Close], over a store that other processes use as well. Each step is what
    one goroutine does between two points where another can interfere: a
    channel operation, a critical section of the budget, a store call.

    Workers of a pool are interchangeable, so a pool is the list of its busy
    workers. The committer's manifest append is one step, with the effect that
    every run of [enqueueBatch] is proved to have ([enqueueBatch_effect]), also
    for entries beyond the limits of the format. Three fields are history only:
    the messages submitted, the store as it was right after each successful
    append with the items appended, and the items of every append, successful
    or not. *)

From S2P Require Import Prelude GoError Bytes Batch Manifest ObjStore Enqueuer.
From S2P Require Import Config Budget Watcher Accumulator Retry Committer Stages.

Local Open Scope Z_scope.

(** ** Where the goroutines are *)

Inductive rotator_pc :=
  | RSelect                                                   (** at the select *)
  | REmit (reason : FlushReason) (ack : option ack_id)        (** about to ask for a slot *)
  | RWait (reason : FlushReason) (ack : option ack_id) (ch : chan)  (** waiting for a slot *)
  | RSlot (reason : FlushReason) (ack : option ack_id)        (** has the slot *)
  | RSend (pb : pendingBatch)                                 (** sending on [pendingCh] *)
  | RExited.

Inductive encoder_pc :=
  | EncWork (pb : pendingBatch)
  | EncFailed (uc : uploadCompletion)   (** sending on [uploadCompletionCh] *)
  | EncDone (eb : encodedBatch).        (** sending on [encodedCh] *)

Inductive uploader_pc :=
  | UpPut (eb : encodedBatch) (attempt : nat)
  | UpSleep (eb : encodedBatch) (attempt : nat)   (** between two attempts *)
  | UpSend (uc : uploadCompletion).               (** sending on [uploadCompletionCh] *)

(** [closed]: the completion channel was found closed. *)
Inductive committer_pc :=
  | CRecv
  | CDrain (closed : bool)
  | CCas (group : list uploadCompletion) (failed : list pendingResolution) (attempt : nat)
      (closed : bool)
  | CSleep (group : list uploadCompletion) (failed : list pendingResolution) (attempt : nat)
      (closed : bool)
  | CSend (out : list pendingResolution) (again closed : bool)  (** sending on [resolverCh] *)
  | CExited.

Inductive resolver_pc :=
  | ResRecv
  | ResResolve (rs : pendingResolution)
  | ResRelease (rs : pendingResolution).

(** ** The state *)

(** An [AppendContext] call that passed its checks. *)
Record appendCall := {
  call_entries : list bytes;
  call_metadata : bytes;
}.

(** The checks at the head of [AppendContext]. *)
Definition appendChecks (halted : bool) (entries : list bytes) (metadata : bytes) : outcome appendCall :=
  if len entries =? 0 then Fail (invalidInputErr "entries must not be empty")
  else if halted then Fail (Sentinel ErrProducerHalted)
  else Ret {| call_entries := entries; call_metadata := metadata |}.

(** The message the call sends once its bytes are reserved. *)
Definition newMessage (call : appendCall) (nowMs : Z) (watcher : watcher_id) : appendMessage :=
  {| msg_entries := call_entries call; msg_metadata := call_metadata call;
     msg_ingestionTimeMs := nowMs; msg_watcher := watcher;
     msg_byteCost := appendByteCost (call_entries call) (call_metadata call) |}.

(** [p.appendCh <- msg]: [None] while the buffer is full; a send on a closed
    channel panics. *)
Definition chan_send (size : Z) (closed : bool) (ch : list appendMessage) (m : appendMessage)
    : option (outcome (list appendMessage)) :=
  if closed then Some Panic
  else if len ch <? size then Some (Ret (ch ++ [m]))
  else None.

Record front := Front {
  f_calls : list appendCall;        (** [AppendContext] calls in [reserveBytes] *)
  f_callers : list appendMessage;   (** [AppendContext] calls at their select *)
  f_appendCh : list appendMessage;
  f_closed : bool;                  (** [appendCh] is closed *)
  f_rotator : rotator;
  f_pc : rotator_pc;
}.

Record middle := Middle {
  m_encoders : list encoder_pc;
  m_uploaders : list uploader_pc;
  m_completionCh : list uploadCompletion;
}.

Record back := Back {
  b_committer : committer;
  b_pc : committer_pc;
  b_resolver : resolver_pc;
}.

Record shared {St : Type} := Shared {
  s_budget : producerBudget;
  s_watchers : gmap watcher_id DurabilityWatcher;
  s_acks : gmap ack_id (option (option error));   (** the [Flush] calls' channels, buffers of one *)
  s_shutdown : bool;                              (** [shutdownCh] is closed *)
  s_store : St;
  s_submitted : gmap watcher_id appendMessage;    (** history *)
  s_commits : list (St * list enqueueItem);       (** history *)
  s_written : list (list enqueueItem);            (** history *)
}.
Arguments shared : clear implicits.

Record pipeline {St : Type} := Pipe {
  p_front : front;
  p_middle : middle;
  p_back : back;
  p_shared : shared St;
}.
Arguments pipeline : clear implicits.

Section Shared.
Context {St : Type}.
Implicit Types sh : shared St.

Definition on_budget (b : producerBudget) sh : shared St :=
  Shared St b (s_watchers sh) (s_acks sh) (s_shutdown sh) (s_store sh) (s_submitted sh)
    (s_commits sh) (s_written sh).
Definition on_watchers (ws : gmap watcher_id DurabilityWatcher) sh : shared St :=
  Shared St (s_budget sh) ws (s_acks sh) (s_shutdown sh) (s_store sh) (s_submitted sh)
    (s_commits sh) (s_written sh).
Definition on_store (st : St) sh : shared St :=
  Shared St (s_budget sh) (s_watchers sh) (s_acks sh) (s_shutdown sh) st (s_submitted sh)
    (s_commits sh) (s_written sh).
Definition on_shutdown sh : shared St :=
  Shared St (s_budget sh) (s_watchers sh) (s_acks sh) true (s_store sh) (s_submitted sh)
    (s_commits sh) (s_written sh).

(** [make(chan error, 1)]. *)
Definition make_ack (a : ack_id) sh : shared St :=
  Shared St (s_budget sh) (s_watchers sh) (<[a := None]> (s_acks sh)) (s_shutdown sh)
    (s_store sh) (s_submitted sh) (s_commits sh) (s_written sh).

(** [flushAck <- err], when there is one; each channel is sent to once, so the
    send does not block. *)
Definition send_ack (ack : option ack_id) (err : option error) sh : shared St :=
  match ack with
  | None => sh
  | Some a => Shared St (s_budget sh) (s_watchers sh) (<[a := Some err]> (s_acks sh)) (s_shutdown sh)
                (s_store sh) (s_submitted sh) (s_commits sh) (s_written sh)
  end.

Definition submit (m : appendMessage) sh : shared St :=
  Shared St (s_budget sh) (<[msg_watcher m := newDurabilityWatcher]> (s_watchers sh)) (s_acks sh)
    (s_shutdown sh) (s_store sh) (<[msg_watcher m := m]> (s_submitted sh)) (s_commits sh) (s_written sh).

Definition commit (st : St) (items : list enqueueItem) sh : shared St :=
  Shared St (s_budget sh) (s_watchers sh) (s_acks sh) (s_shutdown sh) st (s_submitted sh)
    (s_commits sh ++ [(st, items)]) (s_written sh ++ [items]).

(** A manifest write of [items] that ended in an error. *)
Definition tried (st : St) (items : list enqueueItem) sh : shared St :=
  Shared St (s_budget sh) (s_watchers sh) (s_acks sh) (s_shutdown sh) st (s_submitted sh)
    (s_commits sh) (s_written sh ++ [items]).
End Shared.

(** [for _, dw := range watchers { dw.resolve(err) }]. *)
Fixpoint resolveWatchers (ws : gmap watcher_id DurabilityWatcher) (ids : list watcher_id)
    (err : option error) : outcome (gmap watcher_id DurabilityWatcher) :=
  match ids with
  | [] => Ret ws
  | i :: ids =>
      match ws !! i with
      | None => Panic
      | Some w => w' ← resolve w err; resolveWatchers (<[i := w']> ws) ids err
      end
  end.

Definition afterEmit (reason : FlushReason) : rotator_pc :=
  match reason with FlushReasonShutdown => RExited | _ => RSelect end.

(** The committer after the manifest write of [group] ended with [err]. *)
Definition afterCas (range : readyMap -> list uploadCompletion) (c : committer)
    (group : list uploadCompletion) (failed : list pendingResolution) (err : option error)
    (closed : bool) : committer * committer_pc :=
  match err with
  | None => (c, CSend ((withOutcome None OutcomeCommitted <$> group) ++ failed) true closed)
  | Some e =>
      if errors_Is e ErrShutdown
      then (c, CSend ((withOutcome (Some e) OutcomeManifestFailed <$> group) ++ failed) true closed)
      else
        ({| next := next c; ready := ∅; halted := true; haltedNotify := true;
            holStart := holStart c |},
         CSend ((withOutcome (Some (Sentinel ErrProducerHalted)) OutcomeManifestFailed <$> group) ++
                failed ++ (abandoned <$> range (ready c))) false closed)
  end.

(** ** Steps *)

Section Steps.
Context {St : Type} {HO : ObjectStore St} {HC : StoreContents St}.
Context (z : zstd_lib) (config : ProducerConfig) (runID : string).
Context (range : readyMap -> list uploadCompletion).

Definition objectAt (ordinal : Z) : string := batchLocation (DataPathPrefix config) runID ordinal.

(** What other processes do: they leave our data objects alone and keep the
    manifest a manifest. *)
Definition others (st st' : St) : Prop :=
  (forall ordinal, contents st' (objectAt ordinal) = contents st (objectAt ordinal)) /\
  forall a, manifest_at st (ManifestPath config) a ->
  exists a', manifest_at st' (ManifestPath config) a'.

(** One call of [enqueueBatch] that ends in [err]. *)
Definition casEffect (items : list enqueueItem) (st st' : St) (err : option error) : Prop :=
  enqueueEffect (ManifestPath config) items st st' err.

Definition uploadAttempts : nat := Z.to_nat (atLeastOne (UploadMaxAttempts config)).
Definition manifestAttempts : nat := Z.to_nat (atLeastOne (ManifestMaxAttempts config)).

(** [emit] up to its first blocking call. *)
Definition beginEmit (r : rotator) (reason : FlushReason) (ack : option ack_id)
    (sh : shared St) : rotator_pc * shared St :=
  if isEmpty (rot_batch r) then (afterEmit reason, send_ack ack None sh)
  else (REmit reason ack, sh).

(** The rotator received a message. *)
Definition onMessage (now : Z) (r : rotator) (m : appendMessage) (sh : shared St)
    : rotator * (rotator_pc * shared St) :=
  let r := rotatorAdd now r m in
  (r, if sizeReached config r then beginEmit r FlushReasonSize None sh else (RSelect, sh)).

(** The callers of [AppendContext]. *)
Inductive append_step : pipeline St -> pipeline St -> Prop :=
  | step_checked cl cs ch cd r pc mid bk sh entries metadata call :
      appendChecks (halted (b_committer bk)) entries metadata = Ret call ->
      append_step (Pipe St (Front cl cs ch cd r pc) mid bk sh)
           (Pipe St (Front (call :: cl) cs ch cd r pc) mid bk sh)
  | step_reserve c1 call c2 cs ch cd r pc mid bk sh ms w b' :
      s_submitted sh !! w = None ->
      reserveBytes_locked (appendByteCost (call_entries call) (call_metadata call)) (s_budget sh)
        = (b', Acquired) ->
      append_step (Pipe St (Front (c1 ++ call :: c2) cs ch cd r pc) mid bk sh)
           (Pipe St (Front (c1 ++ c2) (newMessage call ms w :: cs) ch cd r pc) mid bk
              (submit (newMessage call ms w) (on_budget b' sh)))
  | step_reserve_wait c1 call c2 cs ch cd r pc mid bk sh b' chan :
      reserveBytes_locked (appendByteCost (call_entries call) (call_metadata call)) (s_budget sh)
        = (b', WaitOn chan) ->
      append_step (Pipe St (Front (c1 ++ call :: c2) cs ch cd r pc) mid bk sh)
           (Pipe St (Front (c1 ++ call :: c2) cs ch cd r pc) mid bk (on_budget b' sh))
  | step_give_up c1 call c2 cs ch cd r pc mid bk sh :
      append_step (Pipe St (Front (c1 ++ call :: c2) cs ch cd r pc) mid bk sh)
           (Pipe St (Front (c1 ++ c2) cs ch cd r pc) mid bk sh)
  | step_send cl cs1 m cs2 ch cd ch' r pc mid bk sh :
      chan_send (MaxBufferedInputs config) cd ch m = Some (Ret ch') ->
      append_step (Pipe St (Front cl (cs1 ++ m :: cs2) ch cd r pc) mid bk sh)
           (Pipe St (Front cl (cs1 ++ cs2) ch' cd r pc) mid bk sh)
  | step_handoff cl cs1 m cs2 r mid bk sh now r' pc' sh' :
      now <> 0 -> onMessage now r m sh = (r', (pc', sh')) ->
      append_step (Pipe St (Front cl (cs1 ++ m :: cs2) [] false r RSelect) mid bk sh)
           (Pipe St (Front cl (cs1 ++ cs2) [] false r' pc') mid bk sh')
  | step_cancel cl cs1 m cs2 ch cd r pc mid bk sh b' :
      (** the call returns an error; nobody holds its watcher *)
      release (msg_byteCost m) 0 (s_budget sh) = Ret b' ->
      append_step (Pipe St (Front cl (cs1 ++ m :: cs2) ch cd r pc) mid bk sh)
           (Pipe St (Front cl (cs1 ++ cs2) ch cd r pc) mid bk
              (on_watchers (delete (msg_watcher m) (s_watchers sh)) (on_budget b' sh))).

(** The rotator. *)
Inductive rotator_step : pipeline St -> pipeline St -> Prop :=
  | step_receive cl cs m ch cd r mid bk sh now r' pc' sh' :
      now <> 0 -> onMessage now r m sh = (r', (pc', sh')) ->
      rotator_step (Pipe St (Front cl cs (m :: ch) cd r RSelect) mid bk sh)
           (Pipe St (Front cl cs ch cd r' pc') mid bk sh')
  | step_flush cl cs cs' extra ch cd r mid bk sh now ack pc' sh' :
      now <> 0 -> cs ≡ₚ extra ++ cs' -> (cd = true -> extra = []) -> s_acks sh !! ack = None ->
      beginEmit (rotatorFlush now r (ch ++ extra)) FlushReasonManual (Some ack) (make_ack ack sh)
        = (pc', sh') ->
      rotator_step (Pipe St (Front cl cs ch cd r RSelect) mid bk sh)
           (Pipe St (Front cl cs' [] cd (rotatorFlush now r (ch ++ extra)) pc') mid bk sh')
  | step_timer cl cs ch cd r mid bk sh pc' sh' :
      acc_started (rot_batch r) = true -> beginEmit r FlushReasonTime None sh = (pc', sh') ->
      rotator_step (Pipe St (Front cl cs ch cd r RSelect) mid bk sh)
           (Pipe St (Front cl cs ch cd r pc') mid bk sh')
  | step_closed cl cs r mid bk sh pc' sh' :
      beginEmit r FlushReasonShutdown None sh = (pc', sh') ->
      rotator_step (Pipe St (Front cl cs [] true r RSelect) mid bk sh)
           (Pipe St (Front cl cs [] true r pc') mid bk sh')
  | step_acquire cl cs ch cd r reason ack mid bk sh b' :
      acquireBatchSlot_locked (s_budget sh) = (b', Acquired) ->
      rotator_step (Pipe St (Front cl cs ch cd r (REmit reason ack)) mid bk sh)
           (Pipe St (Front cl cs ch cd r (RSlot reason ack)) mid bk (on_budget b' sh))
  | step_acquire_wait cl cs ch cd r reason ack mid bk sh b' chan :
      acquireBatchSlot_locked (s_budget sh) = (b', WaitOn chan) ->
      rotator_step (Pipe St (Front cl cs ch cd r (REmit reason ack)) mid bk sh)
           (Pipe St (Front cl cs ch cd r (RWait reason ack chan)) mid bk (on_budget b' sh))
  | step_acquire_wake cl cs ch cd r reason ack chan mid bk sh :
      chan ∈ closed (s_budget sh) ->
      rotator_step (Pipe St (Front cl cs ch cd r (RWait reason ack chan)) mid bk sh)
           (Pipe St (Front cl cs ch cd r (REmit reason ack)) mid bk sh)
  | step_drop cl cs ch cd r reason ack chan mid bk sh r' cost ids b' ws' :
      s_shutdown sh = true -> emitDropped r = (r', cost, ids) ->
      release cost 0 (s_budget sh) = Ret b' ->
      resolveWatchers (s_watchers sh) ids (Some (Sentinel ErrShutdown)) = Ret ws' ->
      rotator_step (Pipe St (Front cl cs ch cd r (RWait reason ack chan)) mid bk sh)
           (Pipe St (Front cl cs ch cd r' (afterEmit reason)) mid bk
              (send_ack ack (Some (Sentinel ErrShutdown)) (on_watchers ws' (on_budget b' sh))))
  | step_emit cl cs ch cd r reason ack mid bk sh now r' pb extra b' :
      rot_ordinal r < MaxUint64 -> emitBatch now r reason ack = (r', pb, extra) ->
      addReservation extra (s_budget sh) = Ret b' ->
      rotator_step (Pipe St (Front cl cs ch cd r (RSlot reason ack)) mid bk sh)
           (Pipe St (Front cl cs ch cd r' (RSend pb)) mid bk (on_budget b' sh))
  | step_pending cl cs ch cd r pb es us cc bk sh :
      len es < atLeastOne (EncodeConcurrency config) ->
      rotator_step (Pipe St (Front cl cs ch cd r (RSend pb)) (Middle es us cc) bk sh)
           (Pipe St (Front cl cs ch cd r (afterEmit (pb_reason pb))) (Middle (EncWork pb :: es) us cc)
              bk sh).

(** The encoder workers. *)
Inductive encoder_step : pipeline St -> pipeline St -> Prop :=
  | step_encode f es1 pb es2 us cc bk sh res :
      encodeOne (EncodeBatch z) config runID pb = Ret res ->
      encoder_step (Pipe St f (Middle (es1 ++ EncWork pb :: es2) us cc) bk sh)
           (Pipe St f (Middle (es1 ++ match res with inl eb => EncDone eb | inr uc => EncFailed uc end
                                 :: es2) us cc) bk sh)
  | step_encode_failed f es1 uc es2 us cc bk sh :
      len cc < atLeastOne (MaxInFlightBatches config) ->
      encoder_step (Pipe St f (Middle (es1 ++ EncFailed uc :: es2) us cc) bk sh)
           (Pipe St f (Middle (es1 ++ es2) us (cc ++ [uc])) bk sh)
  | step_encoded f es1 eb es2 us cc bk sh :
      len us < atLeastOne (UploadConcurrency config) ->
      encoder_step (Pipe St f (Middle (es1 ++ EncDone eb :: es2) us cc) bk sh)
           (Pipe St f (Middle (es1 ++ es2) (UpPut eb 0 :: us) cc) bk sh).

(** The uploader workers. *)
Inductive uploader_step : pipeline St -> pipeline St -> Prop :=
  | step_put_ok f es us1 eb k us2 cc bk sh st' u :
      Put (s_store sh) (eb_location eb) (eb_payload eb) = (st', Ret u) ->
      uploader_step (Pipe St f (Middle es (us1 ++ UpPut eb k :: us2) cc) bk sh)
           (Pipe St f (Middle es (us1 ++ UpSend (uploadDone eb None) :: us2) cc) bk
              (on_store st' sh))
  | step_put_fail f es us1 eb k us2 cc bk sh st' err :
      Put (s_store sh) (eb_location eb) (eb_payload eb) = (st', Fail err) ->
      uploader_step (Pipe St f (Middle es (us1 ++ UpPut eb k :: us2) cc) bk sh)
           (Pipe St f (Middle es (us1 ++ (if (S k <? uploadAttempts)%nat then UpSleep eb (S k)
                                     else UpSend (uploadDone eb
                                            (Some (storageErr (error_message err))))) :: us2) cc) bk
              (on_store st' sh))
  | step_put_again f es us1 eb k us2 cc bk sh :
      uploader_step (Pipe St f (Middle es (us1 ++ UpSleep eb k :: us2) cc) bk sh)
           (Pipe St f (Middle es (us1 ++ UpPut eb k :: us2) cc) bk sh)
  | step_put_shutdown f es us1 eb k us2 cc bk sh :
      s_shutdown sh = true ->
      uploader_step (Pipe St f (Middle es (us1 ++ UpSleep eb k :: us2) cc) bk sh)
           (Pipe St f (Middle es (us1 ++ UpSend (uploadDone eb (Some (Sentinel ErrShutdown))) :: us2)
                      cc) bk sh)
  | step_uploaded f es us1 uc us2 cc bk sh :
      len cc < atLeastOne (MaxInFlightBatches config) ->
      uploader_step (Pipe St f (Middle es (us1 ++ UpSend uc :: us2) cc) bk sh)
           (Pipe St f (Middle es (us1 ++ us2) (cc ++ [uc])) bk sh).

(** The manifest committer. *)
Inductive committer_step : pipeline St -> pipeline St -> Prop :=
  | step_gather f es us uc more c rv sh closed :
      halted c = false -> (closed = true -> f_pc f = RExited /\ es = [] /\ us = []) ->
      committer_step (Pipe St f (Middle es us (uc :: more)) (Back c CRecv rv) sh)
           (Pipe St f (Middle es us [])
              (Back (with_ready (next c) (gather (ready c) (uc :: more)) c) (CDrain closed) rv) sh)
  | step_abandon f es us uc more c rv sh :
      halted c = true ->
      committer_step (Pipe St f (Middle es us (uc :: more)) (Back c CRecv rv) sh)
           (Pipe St f (Middle es us more) (Back c (CSend [abandoned uc] false false) rv) sh)
  | step_upstream_done cl cs ch cd r c rv sh :
      committer_step (Pipe St (Front cl cs ch cd r RExited) (Middle [] [] []) (Back c CRecv rv) sh)
           (Pipe St (Front cl cs ch cd r RExited) (Middle [] [] [])
              (Back c (if halted c then CExited else CDrain true) rv) sh)
  | step_drain f mid c rv sh closed nx' rd' group failed :
      collect (Z.to_nat (batchSize config)) (next c) (ready c) [] [] = (nx', rd', group, failed) ->
      committer_step (Pipe St f mid (Back c (CDrain closed) rv) sh)
           (Pipe St f mid (Back (with_ready nx' rd' c)
              (if (len group =? 0) && (len failed =? 0)
               then if closed then CExited else CRecv
               else if 0 <? len group then CCas group failed 0 closed
               else CSend failed true closed) rv) sh)
  | step_cas_ok f mid c rv sh group failed k closed st' c' pc' :
      casEffect (itemOf <$> group) (s_store sh) st' None ->
      afterCas range c group failed None closed = (c', pc') ->
      committer_step (Pipe St f mid (Back c (CCas group failed k closed) rv) sh)
           (Pipe St f mid (Back c' pc' rv) (commit st' (itemOf <$> group) sh))
  | step_cas_fail f mid c rv sh group failed k closed st' err c' pc' :
      casEffect (itemOf <$> group) (s_store sh) st' (Some err) ->
      (if (S k <? manifestAttempts)%nat then (c, CSleep group failed (S k) closed)
       else afterCas range c group failed (Some err) closed) = (c', pc') ->
      committer_step (Pipe St f mid (Back c (CCas group failed k closed) rv) sh)
           (Pipe St f mid (Back c' pc' rv) (tried st' (itemOf <$> group) sh))
  | step_cas_again f mid c rv sh group failed k closed :
      committer_step (Pipe St f mid (Back c (CSleep group failed k closed) rv) sh)
           (Pipe St f mid (Back c (CCas group failed k closed) rv) sh)
  | step_cas_shutdown f mid c rv sh group failed k closed c' pc' :
      s_shutdown sh = true ->
      afterCas range c group failed (Some (Sentinel ErrShutdown)) closed = (c', pc') ->
      committer_step (Pipe St f mid (Back c (CSleep group failed k closed) rv) sh)
           (Pipe St f mid (Back c' pc' rv) sh)
  | step_hand f mid c rs out again closed sh :
      committer_step (Pipe St f mid (Back c (CSend (rs :: out) again closed) ResRecv) sh)
           (Pipe St f mid (Back c (CSend out again closed) (ResResolve rs)) sh)
  | step_handed f mid c again closed rv sh :
      committer_step (Pipe St f mid (Back c (CSend [] again closed) rv) sh)
           (Pipe St f mid (Back c (if again : bool then CDrain closed
                                   else if closed : bool then CExited else CRecv) rv) sh).

(** The watcher resolver. *)
Inductive resolver_step : pipeline St -> pipeline St -> Prop :=
  | step_resolve f mid c pc rs sh ws' :
      resolveWatchers (s_watchers sh) (ri_watchers (resolveItem rs)) (ri_err (resolveItem rs))
        = Ret ws' ->
      resolver_step (Pipe St f mid (Back c pc (ResResolve rs)) sh)
           (Pipe St f mid (Back c pc (ResRelease rs))
              (send_ack (ri_flushAck (resolveItem rs)) (ri_err (resolveItem rs))
                 (on_watchers ws' sh)))
  | step_release f mid c pc rs sh b' :
      release (ri_byteCost (resolveItem rs)) 1 (s_budget sh) = Ret b' ->
      resolver_step (Pipe St f mid (Back c pc (ResRelease rs)) sh)
           (Pipe St f mid (Back c pc ResRecv) (on_budget b' sh)).

(** [Close], [Flush] in its second phase, and the rest of the world. *)
Inductive world_step : pipeline St -> pipeline St -> Prop :=
  | step_close cl cs ch cd r pc mid bk sh :
      world_step (Pipe St (Front cl cs ch cd r pc) mid bk sh) (Pipe St (Front cl cs ch true r pc) mid bk sh)
  | step_shutdown f mid bk sh :
      (** [Close] closes [shutdownCh] after [appendCh] *)
      f_closed f = true ->
      world_step (Pipe St f mid bk sh) (Pipe St f mid bk (on_shutdown sh))
  | step_drain_wait f mid bk sh b' chan :
      (** a [Flush] call finds batches in flight *)
      waitDrained_locked (s_budget sh) = (b', WaitOn chan) ->
      world_step (Pipe St f mid bk sh) (Pipe St f mid bk (on_budget b' sh))
  | step_others f mid bk sh st' :
      others (s_store sh) st' ->
      world_step (Pipe St f mid bk sh) (Pipe St f mid bk (on_store st' sh)).

(** Any of them moves. *)
Inductive step (s s' : pipeline St) : Prop :=
  | by_append : append_step s s' -> step s s'
  | by_rotator : rotator_step s s' -> step s s'
  | by_encoder : encoder_step s s' -> step s s'
  | by_uploader : uploader_step s s' -> step s s'
  | by_committer : committer_step s s' -> step s s'
  | by_resolver : resolver_step s s' -> step s s'
  | by_world : world_step s s' -> step s s'.

Definition initial (st : St) : pipeline St :=
  Pipe St (Front [] [] [] false newRotator RSelect) (Middle [] [] []) (Back newCommitter CRecv ResRecv)
    (Shared St (newProducerBudget (MaxInFlightBytes config) (MaxInFlightBatches config)) ∅ ∅ false
       st ∅ [] []).

Definition reachable (st : St) (s : pipeline St) : Prop := rtc step (initial st) s.

(** The manifest the producer found was one, and every entry it tried to write
    was within the limits of the format. *)
Definition within_format (st : St) (sh : shared St) : Prop :=
  (exists a, manifest_at st (ManifestPath config) a) /\ Forall fits (s_written sh).
End Steps.
