(* ===== verification/PipelineInv.v ===== *)
(** * Invariants of the pipeline

    What is true in every state the pipeline of [Pipeline] can reach: the
    order of ordinals, the accounting of the budget, the watchers, and what is
    in the store for a batch at each stage. *)

From S2P Require Import Prelude GoError Bytes Batch Manifest ObjStore Enqueuer Config.
From S2P Require Import Budget Watcher Accumulator Retry Committer Stages Pipeline.
From stdpp Require Import list_tactics list_numbers.

Local Open Scope Z_scope.

(** ** Ordinals *)

Definition rot_ords (pc : rotator_pc) : list Z :=
  match pc with RSend pb => [pb_ordinal pb] | _ => [] end.

Definition enc_ord (e : encoder_pc) : Z :=
  match e with
  | EncWork pb => pb_ordinal pb
  | EncFailed uc => uc_ordinal uc
  | EncDone eb => eb_ordinal eb
  end.

Definition up_ord (u : uploader_pc) : Z :=
  match u with UpPut eb _ | UpSleep eb _ => eb_ordinal eb | UpSend uc => uc_ordinal uc end.

Definition cas_group (pc : committer_pc) : list uploadCompletion :=
  match pc with CCas g _ _ _ | CSleep g _ _ _ => g | _ => [] end.

(** The batches that have not reached the committer's groups, by ordinal. *)
Definition upstream (pc : rotator_pc) (mid : middle) (rd : readyMap) : list Z :=
  rot_ords pc ++ (enc_ord <$> m_encoders mid) ++ (up_ord <$> m_uploaders mid) ++
  (uc_ordinal <$> m_completionCh mid) ++ (uc_ordinal <$> values rd).

(** Each ordinal is in one place only; those before [next] are committed or
    given up, those from [rot_ordinal] on are not taken yet. *)
Record ords_ok (r : rotator) (pc : rotator_pc) (mid : middle) (c : committer)
    (cpc : committer_pc) : Prop := {
  oo_nodup : NoDup (upstream pc mid (ready c));
  oo_range : Forall (fun o => next c <= o < rot_ordinal r) (upstream pc mid (ready c));
  oo_next : 0 <= next c <= rot_ordinal r;
  oo_max : rot_ordinal r <= MaxUint64;
  oo_keys : map_Forall (fun k uc => uc_ordinal uc = k) (ready c);
  oo_group : Forall (fun uc => 0 <= uc_ordinal uc < next c /\ uc_putError uc = None)
               (cas_group cpc);
}.

Definition ordinals_ok {St} (s : pipeline St) : Prop :=
  ords_ok (f_rotator (p_front s)) (f_pc (p_front s)) (p_middle s) (b_committer (p_back s))
    (b_pc (p_back s)).

(** Moving batches around upstream. *)
Lemma ords_ok_move r r' pc pc' mid mid' c cpc cpc' :
  rot_ordinal r' = rot_ordinal r ->
  upstream pc mid (ready c) ≡ₚ upstream pc' mid' (ready c) ->
  cas_group cpc' = cas_group cpc \/ cas_group cpc' = [] ->
  ords_ok r pc mid c cpc -> ords_ok r' pc' mid' c cpc'.
Proof.
  intros Hr Hp Hg O. split.
  - rewrite <- Hp. apply O.
  - rewrite <- Hp, Hr. apply O.
  - rewrite Hr. apply O.
  - rewrite Hr. apply O.
  - apply O.
  - destruct Hg as [->| ->]; [apply O|constructor].
Qed.

(** Moves of the rotator. *)
Lemma ords_ok_rotator r r' pc pc' mid c cpc :
  ords_ok r pc mid c cpc -> rot_ordinal r' = rot_ordinal r -> rot_ords pc' = rot_ords pc ->
  ords_ok r' pc' mid c cpc.
Proof.
  intros O Hr Hpc. apply (ords_ok_move r r' pc pc' mid mid c cpc cpc); [done| |by left|done].
  unfold upstream. by rewrite Hpc.
Qed.

(** Moves of the committer within a group, or out of one. *)
Lemma ords_ok_cpc r pc mid c cpc cpc' :
  ords_ok r pc mid c cpc -> cas_group cpc' = cas_group cpc \/ cas_group cpc' = [] ->
  ords_ok r pc mid c cpc'.
Proof. intros O Hg. by apply (ords_ok_move r r pc pc mid mid c cpc cpc'). Qed.

(** The invariant in the form the committer's lemmas use. *)
Lemma ords_ready_ok r pc mid c cpc : ords_ok r pc mid c cpc -> ready_ok (next c) (ready c).
Proof.
  intros O. pose proof (oo_next _ _ _ _ _ O). pose proof (oo_max _ _ _ _ _ O).
  split; [lia|]. intros k uc Hk. pose proof (oo_keys _ _ _ _ _ O _ _ Hk) as Hord. cbn in Hord.
  split; [done|]. pose proof (oo_range _ _ _ _ _ O) as Hr. unfold upstream in Hr.
  rewrite !Forall_app in Hr. destruct Hr as (_ & _ & _ & _ & Hr).
  rewrite Forall_fmap, Forall_forall in Hr. specialize (Hr uc ltac:(apply elem_of_values; eauto)). cbn in Hr. lia.
Qed.

(** Completions in the channel are new to the map. *)
Lemma ords_gather r pc es us cc c cpc :
  ords_ok r pc (Middle es us cc) c cpc ->
  ready_ok (next c) (gather (ready c) cc) /\
  values (gather (ready c) cc) ≡ₚ cc ++ values (ready c).
Proof.
  intros O. pose proof (ords_ready_ok _ _ _ _ _ O) as Hok.
  pose proof (oo_max _ _ _ _ _ O). pose proof (oo_nodup _ _ _ _ _ O) as Hnd.
  pose proof (oo_range _ _ _ _ _ O) as Hr. unfold upstream in Hnd, Hr. cbn in Hnd, Hr.
  rewrite !Forall_app in Hr. destruct Hr as (_ & _ & _ & Hr & _).
  apply NoDup_app in Hnd as (_ & _ & Hnd). apply NoDup_app in Hnd as (_ & _ & Hnd).
  apply NoDup_app in Hnd as (_ & _ & Hnd). apply NoDup_app in Hnd as (Hcc & Hdis & _).
  apply gather_spec; [done|done|]. apply Forall_forall. intros uc Huc.
  rewrite Forall_fmap, Forall_forall in Hr. specialize (Hr uc Huc). cbn in Hr. split; [lia|].
  destruct (ready c !! uc_ordinal uc) as [uc'|] eqn:E; [|done]. exfalso.
  apply (Hdis (uc_ordinal uc)); [by apply list_elem_of_fmap_2|].
  pose proof (oo_keys _ _ _ _ _ O _ _ E) as <-. apply list_elem_of_fmap_2, elem_of_values. eauto.
Qed.

(** Collecting a run keeps what is left upstream ahead of the cursor. *)
Lemma ords_collect r pc mid c closed nx' rd' t :
  ords_ok r pc mid c (CDrain closed) ->
  ready_ok nx' rd' -> nx' = next c + len t -> uc_ordinal <$> t = seqZ (next c) (len t) ->
  values (ready c) ≡ₚ t ++ values rd' ->
  forall cpc', Forall (fun uc => 0 <= uc_ordinal uc < nx' /\ uc_putError uc = None)
    (cas_group cpc') ->
  ords_ok r pc mid (with_ready nx' rd' c) cpc'.
Proof.
  intros O Hok -> Hs Hv cpc' Hg.
  assert (upstream pc mid (ready c) ≡ₚ (uc_ordinal <$> t) ++ upstream pc mid rd') as Hup.
  { unfold upstream. rewrite Hv, fmap_app. solve_Permutation. }
  pose proof (oo_nodup _ _ _ _ _ O) as Hnd. pose proof (oo_range _ _ _ _ _ O) as Hr.
  rewrite Hup in Hnd, Hr. apply Forall_app in Hr as [Hrt Hr].
  apply NoDup_app in Hnd as (_ & Hdis & Hnd). pose proof (oo_next _ _ _ _ _ O).
  split; cbn; [done| | |by apply O| |done].
  - apply Forall_forall. intros o Ho. rewrite Forall_forall in Hr. specialize (Hr o Ho).
    split; [|lia]. destruct (decide (next c + len t <= o)) as [|Hlt]; [done|]. exfalso.
    apply (Hdis o); [|done]. rewrite Hs. apply elem_of_seqZ. lia.
  - len_pose. split; [lia|]. destruct (decide (len t = 0)) as [|Hne]; [lia|].
    rewrite Hs, Forall_forall in Hrt.
    specialize (Hrt (next c + len t - 1) ltac:(apply elem_of_seqZ; lia)). lia.
  - intros k uc Hk. by apply Hok.
Qed.

(** Reduces the projections of a pipeline state, and nothing else. *)
Ltac unpipe :=
  cbn [p_front p_middle p_back p_shared f_calls f_callers f_appendCh f_closed f_rotator f_pc
       m_encoders m_uploaders m_completionCh b_committer b_pc b_resolver
       s_budget s_watchers s_acks s_shutdown s_store s_submitted s_commits
       s_written on_budget on_watchers on_store on_shutdown submit commit tried make_ack] in *.

Lemma chan_send_Ret size closed ch m ch' :
  chan_send size closed ch m = Some (Ret ch') -> closed = false /\ len ch < size /\ ch' = ch ++ [m].
Proof.
  unfold chan_send. destruct closed; [done|].
  destruct (Z.ltb_spec (len ch) size); intros; by simplify_eq.
Qed.

(** ** Steps of the rotator, summed up *)

(** Only the acknowledgements differ. *)
Definition same_but_acks {St} (sh sh' : shared St) : Prop :=
  s_budget sh' = s_budget sh /\ s_watchers sh' = s_watchers sh /\
  s_shutdown sh' = s_shutdown sh /\ s_store sh' = s_store sh /\
  s_submitted sh' = s_submitted sh /\ s_commits sh' = s_commits sh.

Lemma send_ack_same {St} ack err (sh : shared St) : same_but_acks sh (send_ack ack err sh).
Proof. by destruct ack. Qed.

(** The rotator is not sending and holds no slot. *)
Definition rot_idle (pc : rotator_pc) : bool :=
  match pc with RSlot _ _ | RSend _ => false | _ => true end.

Lemma afterEmit_idle reason : rot_idle (afterEmit reason) = true.
Proof. by destruct reason. Qed.

Lemma beginEmit_spec {St} r reason ack (sh sh' : shared St) pc' :
  beginEmit r reason ack sh = (pc', sh') -> rot_idle pc' = true /\ same_but_acks sh sh'.
Proof.
  unfold beginEmit. destruct (isEmpty _); intros [= <- <-]; [|done].
  split; [apply afterEmit_idle|apply send_ack_same].
Qed.

Lemma onMessage_spec {St} config now r m (sh sh' : shared St) r' pc' :
  onMessage config now r m sh = (r', (pc', sh')) ->
  r' = rotatorAdd now r m /\ rot_idle pc' = true /\ same_but_acks sh sh'.
Proof.
  unfold onMessage. intros [= <- Hb]. destruct (sizeReached _ _); [by apply beginEmit_spec in Hb|].
  injection Hb as <- <-. done.
Qed.

Lemma send_ack_written {St} ack err (sh : shared St) : s_written (send_ack ack err sh) = s_written sh.
Proof. by destruct ack. Qed.

Lemma beginEmit_written {St} r reason ack (sh sh' : shared St) pc' :
  beginEmit r reason ack sh = (pc', sh') -> s_written sh' = s_written sh.
Proof.
  unfold beginEmit. destruct (isEmpty _); intros [= <- <-]; [apply send_ack_written|done].
Qed.

Lemma onMessage_written {St} config now r m (sh sh' : shared St) r' pc' :
  onMessage config now r m sh = (r', (pc', sh')) -> s_written sh' = s_written sh.
Proof.
  unfold onMessage. intros [= <- Hb]. destruct (sizeReached _ _); [by apply beginEmit_written in Hb|].
  by injection Hb as <- <-.
Qed.

Lemma rot_idle_ords pc : rot_idle pc = true -> rot_ords pc = [].
Proof. by destruct pc. Qed.

Lemma afterCas_group range c group failed err closed c' pc' :
  afterCas range c group failed err closed = (c', pc') -> cas_group pc' = [].
Proof. unfold afterCas. destruct err; [case_test|]; by intros [= <- <-]. Qed.

(** ** The ordinals invariant is kept *)

Section Ordinals.
Context {St : Type} {HO : ObjectStore St} {HC : StoreContents St}.
Context (z : zstd_lib) (config : ProducerConfig) (runID : string).
Context (range : readyMap -> list uploadCompletion).

(** Moves of the ordinals upstream, by permutation. *)
Ltac ords_move O :=
  eapply ords_ok_move; [| | |exact O]; [reflexivity| |by left];
  unfold upstream; cbn; rewrite ?fmap_app, ?fmap_cons, ?fmap_nil; cbn; solve_Permutation.

(** What a step of the rotator that emits nothing does to the ordinals. *)
Ltac rot_step :=
  try match goal with
  | H : onMessage _ _ _ _ _ = _ |- _ => apply onMessage_spec in H as (-> & Hi & _)
  | H : beginEmit _ _ _ _ = _ |- _ => apply beginEmit_spec in H as (Hi & _)
  | H : emitDropped _ = _ |- context [afterEmit ?reason] =>
      pose proof (afterEmit_idle reason) as Hi; unfold emitDropped in H; injection H as <- <- <-
  end; try match goal with H : rot_idle _ = true |- _ => apply rot_idle_ords in H end.

Lemma afterCas_ords r pc mid c group failed k closed err c' pc' :
  ords_ok r pc mid c (CCas group failed k closed) ->
  afterCas range c group failed err closed = (c', pc') -> ords_ok r pc mid c' pc'.
Proof.
  intros O Ha. pose proof (afterCas_group _ _ _ _ _ _ _ _ Ha) as Hg. unfold afterCas in Ha.
  assert (c' = c -> ords_ok r pc mid c' pc') as Hsame.
  { intros ->. eapply ords_ok_move; [reflexivity|reflexivity|by right|exact O]. }
  destruct err as [e|]; [|injection Ha as <- <-; by apply Hsame].
  destruct (errors_Is e ErrShutdown); injection Ha as <- <-; [by apply Hsame|].
  pose proof (oo_nodup _ _ _ _ _ O) as Hnd. pose proof (oo_range _ _ _ _ _ O) as Hr.
  assert (upstream pc mid (ready c) ≡ₚ (uc_ordinal <$> values (ready c)) ++ upstream pc mid ∅) as Hup.
  { unfold upstream. rewrite values_empty. cbn. solve_Permutation. }
  rewrite Hup in Hnd, Hr. apply NoDup_app in Hnd as (_ & _ & Hnd). apply Forall_app in Hr as [_ Hr].
  split; cbn; [done|done|apply O|apply O|apply map_Forall_empty|constructor].
Qed.

Lemma append_ordinals (s s' : pipeline St) :
  append_step config s s' -> ordinals_ok s -> ordinals_ok s'.
Proof.
  intros Hst O. destruct Hst; unfold ordinals_ok in *; unpipe; try exact O.
  rot_step; by apply (ords_ok_rotator _ _ _ _ _ _ _ O).
Qed.

(** A new batch takes the next ordinal. *)
Lemma emit_ords r mid c cpc reason ack now :
  rot_ordinal r < MaxUint64 -> ords_ok r (RSlot reason ack) mid c cpc ->
  ords_ok (emitBatch now r reason ack).1.1 (RSend (emitBatch now r reason ack).1.2) mid c cpc.
Proof.
  intros Hmax O. pose proof (oo_next _ _ _ _ _ O). pose proof (oo_range _ _ _ _ _ O) as Hr.
  unfold upstream in Hr. cbn in Hr.
  assert (uint64 (rot_ordinal r + 1) = rot_ordinal r + 1) as Hu
    by (apply uint64_id; unfold is_uint64; lia).
  split; unfold upstream; cbn; rewrite ?Hu; [| |lia|lia|apply O|apply O].
  - apply NoDup_cons. split; [|apply O]. intros Hin.
    rewrite Forall_forall in Hr. specialize (Hr _ Hin). lia.
  - constructor; [lia|]. eapply Forall_impl; [exact Hr|]. cbn. lia.
Qed.

Lemma rotator_ordinals (s s' : pipeline St) :
  rotator_step config s s' -> ordinals_ok s -> ordinals_ok s'.
Proof.
  intros Hst O. destruct Hst; unfold ordinals_ok in *; unpipe; try exact O;
    try (rot_step; by apply (ords_ok_rotator _ _ _ _ _ _ _ O)).
  - match goal with H : emitBatch ?now ?r ?reason ?ack = _ |- _ =>
      pose proof (emit_ords r mid _ _ reason ack now ltac:(done) O) as O'; by rewrite H in O' end.
  - pose proof (rot_idle_ords _ (afterEmit_idle (pb_reason pb))) as Hi.
    eapply ords_ok_move; [reflexivity| |by left|exact O]. unfold upstream. by rewrite Hi.
Qed.

Lemma encoder_ordinals (s s' : pipeline St) :
  encoder_step z config runID s s' -> ordinals_ok s -> ordinals_ok s'.
Proof.
  intros Hst O. destruct Hst; unfold ordinals_ok in *; unpipe; [|ords_move O..].
  assert (enc_ord match res with inl eb => EncDone eb | inr uc => EncFailed uc end = pb_ordinal pb)
    as Hord.
  { unfold encodeOne in *. destruct (EncodeBatch _ _ _); simplify_eq/=; done. }
  eapply ords_ok_move; [reflexivity| |by left|exact O]. unfold upstream. cbn.
  rewrite !fmap_app, !fmap_cons, Hord. done.
Qed.

Lemma uploader_ordinals (s s' : pipeline St) :
  uploader_step config s s' -> ordinals_ok s -> ordinals_ok s'.
Proof.
  intros Hst O. destruct Hst; unfold ordinals_ok in *; unpipe;
    try destruct (S k <? uploadAttempts config)%nat; ords_move O.
Qed.

(** The committer takes in what the channel holds. *)
Lemma gather_ords r pc es us cc c cpc closed :
  ords_ok r pc (Middle es us cc) c cpc ->
  ords_ok r pc (Middle es us []) (with_ready (next c) (gather (ready c) cc) c) (CDrain closed).
Proof.
  intros O. destruct (ords_gather _ _ _ _ _ _ _ O) as [Hok Hv].
  assert (upstream pc (Middle es us cc) (ready c) ≡ₚ
          upstream pc (Middle es us []) (gather (ready c) cc)) as Hup.
  { unfold upstream. cbn -[gather]. rewrite Hv, fmap_app. cbn. solve_Permutation. }
  split; cbn; [| |apply O|apply O|intros k uc' Hk; by apply Hok|constructor].
  - rewrite <- Hup. apply O.
  - rewrite <- Hup. apply O.
Qed.

(** In the halted state it takes one. *)
Lemma abandon_ords r pc es us uc more c cpc cpc' :
  ords_ok r pc (Middle es us (uc :: more)) c cpc -> cas_group cpc' = [] ->
  ords_ok r pc (Middle es us more) c cpc'.
Proof.
  intros O Hg. pose proof (oo_nodup _ _ _ _ _ O) as Hnd. pose proof (oo_range _ _ _ _ _ O) as Hr.
  assert (upstream pc (Middle es us (uc :: more)) (ready c) ≡ₚ
          uc_ordinal uc :: upstream pc (Middle es us more) (ready c)) as Hup.
  { unfold upstream. cbn. solve_Permutation. }
  rewrite Hup in Hnd, Hr. apply NoDup_cons in Hnd as [_ Hnd]. apply Forall_cons in Hr as [_ Hr].
  split; [done|done|apply O..|]. rewrite Hg. constructor.
Qed.

(** One round of collecting. *)
Lemma drain_ords r pc mid c closed n nx' rd' group failed cpc' :
  ords_ok r pc mid c (CDrain closed) ->
  collect n (next c) (ready c) [] [] = (nx', rd', group, failed) ->
  cas_group cpc' = group \/ cas_group cpc' = [] ->
  ords_ok r pc mid (with_ready nx' rd' c) cpc'.
Proof.
  intros O Hc Hg. pose proof (ords_ready_ok _ _ _ _ _ O) as Hok.
  destruct (collect_spec _ _ _ _ _ _ _ _ _ Hok Hc) as (t & Hok1 & Hnx & Hs & Hv & Hgr & _).
  cbn [app] in Hgr. subst group. eapply ords_collect; [done..|].
  destruct (successes_group (next c) t Hs) as [_ Hr].
  destruct Hg as [->| ->]; [|constructor].
  pose proof (oo_next _ _ _ _ _ O). apply Forall_and. split; [|apply successes_ok].
  eapply sublist_Forall; [apply successes_sublist|]. apply Forall_fmap in Hr.
  eapply Forall_impl; [exact Hr|]. cbn. lia.
Qed.

Lemma committer_ordinals (s s' : pipeline St) :
  committer_step config range s s' -> ordinals_ok s -> ordinals_ok s'.
Proof.
  intros Hst O. destruct Hst; unfold ordinals_ok in *; unpipe.
  - by eapply gather_ords.
  - by eapply abandon_ords.
  - apply (ords_ok_cpc _ _ _ _ _ _ O). right. by destruct (halted c).
  - eapply drain_ords; [done|done|]. repeat case_test; cbn; auto.
  - by eapply afterCas_ords.
  - destruct (S k <? manifestAttempts config)%nat; [|by eapply afterCas_ords]. simplify_eq.
    by apply (ords_ok_cpc _ _ _ _ _ _ O); left.
  - by apply (ords_ok_cpc _ _ _ _ _ _ O); left.
  - eapply (afterCas_ords _ _ _ _ _ _ k); [|done]. by apply (ords_ok_cpc _ _ _ _ _ _ O); left.
  - by apply (ords_ok_cpc _ _ _ _ _ _ O); left.
  - apply (ords_ok_cpc _ _ _ _ _ _ O). right. by destruct again, closed.
Qed.

Lemma step_ordinals s s' :
  step z config runID range s s' -> ordinals_ok s -> ordinals_ok s'.
Proof.
  intros [H|H|H|H|H|H|H]; [by apply append_ordinals|by apply rotator_ordinals|
    by apply encoder_ordinals|by apply uploader_ordinals|by apply committer_ordinals|..];
    by destruct H.
Qed.

Lemma initial_ordinals (st : St) : ordinals_ok (initial config st).
Proof.
  split; cbn; [constructor|constructor|lia|unfold MaxUint64; lia|apply map_Forall_empty|constructor].
Qed.
End Ordinals.

(** ** The budget *)

Definition uc_cost (uc : uploadCompletion) : Z := eb_byteCost (uc_eb uc).
Definition rs_cost (rs : pendingResolution) : Z := uc_cost (rs_uc rs).

Definition rot_costs (pc : rotator_pc) : list Z :=
  match pc with RSend pb => [pb_byteCost pb] | _ => [] end.

Definition enc_cost (e : encoder_pc) : Z :=
  match e with
  | EncWork pb => pb_byteCost pb
  | EncFailed uc => uc_cost uc
  | EncDone eb => eb_byteCost eb
  end.

Definition up_cost (u : uploader_pc) : Z :=
  match u with UpPut eb _ | UpSleep eb _ => eb_byteCost eb | UpSend uc => uc_cost uc end.

Definition com_costs (pc : committer_pc) : list Z :=
  match pc with
  | CCas g f _ _ | CSleep g f _ _ => (uc_cost <$> g) ++ (rs_cost <$> f)
  | CSend out _ _ => rs_cost <$> out
  | CRecv | CDrain _ | CExited => []
  end.

Definition res_costs (rv : resolver_pc) : list Z :=
  match rv with ResRecv => [] | ResResolve rs | ResRelease rs => [rs_cost rs] end.

(** The cost of every batch that holds a slot, from emission to release. *)
Definition flight_costs (pc : rotator_pc) (mid : middle) (bk : back) : list Z :=
  rot_costs pc ++ (enc_cost <$> m_encoders mid) ++ (up_cost <$> m_uploaders mid) ++
  (uc_cost <$> m_completionCh mid) ++ (uc_cost <$> values (ready (b_committer bk))) ++
  com_costs (b_pc bk) ++ res_costs (b_resolver bk).

Definition slot_held (pc : rotator_pc) : Z := match pc with RSlot _ _ => 1 | _ => 0 end.

(** What the front of the pipeline holds are messages [AppendContext] let
    through. *)
Record front_ok (f : front) : Prop := {
  fo_calls : Forall (fun c => call_entries c <> []) (f_calls f);
  fo_callers : Forall msg_ok (f_callers f);
  fo_appendCh : Forall msg_ok (f_appendCh f);
  fo_rotator : exists msgs, rotator_ok (f_rotator f) msgs;
}.

(** The budget is exactly what is in flight: reserved by a caller, waiting in
    the channel or in the accumulator, or in a batch. *)
Record accounts_ok (f : front) (mid : middle) (bk : back) (b : producerBudget) : Prop := {
  ac_capacity : capacity_ok b;
  ac_channels : channels_ok b;
  ac_front : front_ok f;
  ac_costs : Forall (fun x => 0 <= x) (flight_costs (f_pc f) mid bk);
  ac_bytes : bytesUsed b =
    sumZ (msg_byteCost <$> f_callers f) + sumZ (msg_byteCost <$> f_appendCh f) +
    acc_byteCost (rot_batch (f_rotator f)) + sumZ (flight_costs (f_pc f) mid bk);
  ac_batches : batchesUsed b = len (flight_costs (f_pc f) mid bk) + slot_held (f_pc f);
}.

Definition budget_ok {St} (s : pipeline St) : Prop :=
  accounts_ok (p_front s) (p_middle s) (p_back s) (s_budget (p_shared s)).

Lemma msg_ok_cost m : msg_ok m -> 0 <= msg_byteCost m.
Proof. intros [_ ->]. apply appendByteCost_nonneg. Qed.

Lemma msgs_cost_nonneg ms : Forall msg_ok ms -> 0 <= sumZ (msg_byteCost <$> ms).
Proof.
  intros H. apply sumZ_nonneg, Forall_fmap. eapply Forall_impl; [exact H|]. apply msg_ok_cost.
Qed.

Lemma rotator_cost_nonneg r msgs : rotator_ok r msgs -> 0 <= acc_byteCost (rot_batch r).
Proof.
  intros Hr. rewrite (holds_cost _ _ (ro_holds _ _ Hr)).
  apply msgs_cost_nonneg, (ro_msgs _ _ Hr).
Qed.

(** Moving batches around changes no account. *)
Lemma accounts_move f f' mid mid' bk bk' b :
  accounts_ok f mid bk b -> front_ok f' ->
  sumZ (msg_byteCost <$> f_callers f') + sumZ (msg_byteCost <$> f_appendCh f') +
    acc_byteCost (rot_batch (f_rotator f')) =
  sumZ (msg_byteCost <$> f_callers f) + sumZ (msg_byteCost <$> f_appendCh f) +
    acc_byteCost (rot_batch (f_rotator f)) ->
  slot_held (f_pc f') = slot_held (f_pc f) ->
  flight_costs (f_pc f) mid bk ≡ₚ flight_costs (f_pc f') mid' bk' ->
  accounts_ok f' mid' bk' b.
Proof.
  intros A Hf Hsum Hslot Hp. split; [apply A|apply A|done|rewrite <- Hp; apply A|..].
  - rewrite Hsum, <- Hp. apply A.
  - rewrite Hslot. unfold len. rewrite <- Hp. apply A.
Qed.

Lemma onMessage_slot {St} config now r m (sh sh' : shared St) r' pc' :
  onMessage config now r m sh = (r', (pc', sh')) -> slot_held pc' = 0 /\ rot_costs pc' = [].
Proof. intros (_ & Hi & _)%onMessage_spec. by destruct pc'. Qed.

Lemma beginEmit_slot {St} r reason ack (sh sh' : shared St) pc' :
  beginEmit r reason ack sh = (pc', sh') -> slot_held pc' = 0 /\ rot_costs pc' = [].
Proof. intros (Hi & _)%beginEmit_spec. by destruct pc'. Qed.

Lemma afterEmit_slot reason : slot_held (afterEmit reason) = 0 /\ rot_costs (afterEmit reason) = [].
Proof. by destruct reason. Qed.

Lemma rotatorAdd_cost now r m :
  acc_byteCost (rot_batch (rotatorAdd now r m)) = acc_byteCost (rot_batch r) + msg_byteCost m.
Proof. done. Qed.

Lemma rotatorFlush_cost now r ms :
  acc_byteCost (rot_batch (rotatorFlush now r ms)) =
    acc_byteCost (rot_batch r) + sumZ (msg_byteCost <$> ms).
Proof.
  unfold rotatorFlush. cbn [rot_batch]. generalize (rot_batch r). clear r.
  induction ms as [|m ms IH]; intros b; [cbn; rewrite sumZ_nil; lia|].
  rewrite fmap_cons, sumZ_cons. unfold drainAppendChInto in *. cbn [foldl]. rewrite IH. cbn. lia.
Qed.

(** The committer's groups: what is collected, and what is handed on. *)
Lemma collect_costs c closed rv nx' rd' t :
  values (ready c) ≡ₚ t ++ values rd' ->
  forall pc', com_costs pc' = (uc_cost <$> successes t) ++ (rs_cost <$> failures t) ->
  forall rpc mid, flight_costs rpc mid (Back c (CDrain closed) rv) ≡ₚ
    flight_costs rpc mid (Back (with_ready nx' rd' c) pc' rv).
Proof.
  intros Hv pc' Hpc rpc mid. unfold flight_costs. cbn. rewrite Hv, Hpc, fmap_app.
  rewrite <- (partition_perm t) at 1. rewrite fmap_app, <- list_fmap_compose.
  change (uc_cost ∘ rs_uc) with rs_cost. solve_Permutation.
Qed.

Lemma withOutcome_costs err o (g : list uploadCompletion) :
  rs_cost <$> (withOutcome err o <$> g) = uc_cost <$> g.
Proof. by rewrite <- list_fmap_compose. Qed.

Lemma abandoned_costs (g : list uploadCompletion) : rs_cost <$> (abandoned <$> g) = uc_cost <$> g.
Proof. by rewrite <- list_fmap_compose. Qed.

Lemma afterCas_costs range c group failed k err closed c' pc' :
  (forall m, range m ≡ₚ values m) ->
  afterCas range c group failed err closed = (c', pc') ->
  forall rpc mid rv,
  flight_costs rpc mid (Back c (CCas group failed k closed) rv) ≡ₚ
  flight_costs rpc mid (Back c' pc' rv).
Proof.
  intros Hrange Ha rpc mid rv. unfold afterCas in Ha. unfold flight_costs. cbn.
  destruct err as [e|]; [destruct (errors_Is e ErrShutdown)|]; injection Ha as <- <-; cbn;
    rewrite ?fmap_app, ?withOutcome_costs, ?abandoned_costs, ?values_empty, ?fmap_nil;
    [solve_Permutation| |solve_Permutation].
  rewrite Hrange. solve_Permutation.
Qed.

(** A critical section that leaves its caller waiting changes no counter; one
    that succeeds changes the one it is for. *)
Lemma locked_wait_same o b b' ch :
  locked o b = (b', WaitOn ch) -> bytesUsed b' = bytesUsed b /\ batchesUsed b' = batchesUsed b.
Proof.
  destruct o as [n| |]; cbn; unfold reserveBytes_locked, acquireBatchSlot_locked,
    waitDrained_locked, ensureWaiterLocked.
  - destruct (_ || _); [done|]. by destruct (waiter b); intros [= <- _].
  - destruct (_ <? _); [done|]. by destruct (waiter b); intros [= <- _].
  - destruct (_ =? _); [done|]. by destruct (drainCh b); intros [= <- _].
Qed.

Lemma reserve_acquired n b b' :
  reserveBytes_locked n b = (b', Acquired) -> b' = set_bytes (bytesUsed b + n) b.
Proof.
  unfold reserveBytes_locked. destruct (_ || _); [by intros [= <-]|].
  by destruct (ensureWaiterLocked b).
Qed.

Lemma acquire_acquired b b' :
  acquireBatchSlot_locked b = (b', Acquired) -> b' = set_batches (batchesUsed b + 1) b.
Proof.
  unfold acquireBatchSlot_locked. destruct (_ <? _); [by intros [= <-]|].
  by destruct (ensureWaiterLocked b).
Qed.

Lemma locked_section o b b' r :
  op_ok o -> capacity_ok b -> channels_ok b -> locked o b = (b', r) ->
  capacity_ok b' /\ channels_ok b'.
Proof.
  intros Ho Hc Hh Hl. destruct (locked_ok o b Ho Hc Hh) as [(? & ? & _) _].
  by rewrite Hl in *.
Qed.

(** Replacing the budget by one with the counters of the new state. *)
Lemma accounts_intro f mid bk b :
  capacity_ok b -> channels_ok b -> front_ok f ->
  Forall (fun x => 0 <= x) (flight_costs (f_pc f) mid bk) ->
  bytesUsed b =
    sumZ (msg_byteCost <$> f_callers f) + sumZ (msg_byteCost <$> f_appendCh f) +
    acc_byteCost (rot_batch (f_rotator f)) + sumZ (flight_costs (f_pc f) mid bk) ->
  batchesUsed b = len (flight_costs (f_pc f) mid bk) + slot_held (f_pc f) ->
  accounts_ok f mid bk b.
Proof. by split. Qed.

(** Every part of the account is non-negative. *)
Lemma accounts_nonneg f mid bk b :
  accounts_ok f mid bk b ->
  0 <= sumZ (msg_byteCost <$> f_callers f) /\ 0 <= sumZ (msg_byteCost <$> f_appendCh f) /\
  0 <= acc_byteCost (rot_batch (f_rotator f)) /\ 0 <= sumZ (flight_costs (f_pc f) mid bk).
Proof.
  intros [_ _ [_ Hcs Hch [ms Hr]] Hc _ _].
  split_and!; [by apply msgs_cost_nonneg..|by eapply rotator_cost_nonneg|by apply sumZ_nonneg].
Qed.

Lemma framingExtra_nonneg entries : 0 <= framingExtra entries.
Proof. unfold framingExtra, batchEntryLenSize. change batchFooterSize with 7. len_lia. Qed.

Section BudgetSteps.
Context {St : Type} {HO : ObjectStore St} {HC : StoreContents St}.
Context (z : zstd_lib) (config : ProducerConfig) (runID : string).
Context (range : readyMap -> list uploadCompletion) (Hrange : forall m, range m ≡ₚ values m).

Lemma encodeOne_cost pb res :
  encodeOne (EncodeBatch z) config runID pb = Ret res ->
  enc_cost match res with inl eb => EncDone eb | inr uc => EncFailed uc end = pb_byteCost pb.
Proof. unfold encodeOne. destruct (EncodeBatch _ _ _); intros; simplify_eq/=; done. Qed.

(** Lists of costs that are the same up to order. *)
Ltac costs_perm :=
  unfold flight_costs; cbn [m_encoders m_uploaders m_completionCh b_committer b_pc b_resolver];
  rewrite ?fmap_app, ?fmap_cons, ?fmap_nil; cbn; solve_Permutation.

(** [budget_ok] of a step, with the facts every case uses. *)
Ltac open_accounts A :=
  unfold budget_ok in *; unpipe;
  pose proof (accounts_nonneg _ _ _ _ A) as (N1 & N2 & N3 & N4);
  pose proof A as [Hcap Hch [Fc Fs Fa [held Fr]] Hcost Hby Hba]; unpipe.

(** Front parts whose messages are those of another, rearranged. *)
Lemma appendChecks_nonempty h entries metadata call :
  appendChecks h entries metadata = Ret call -> call_entries call <> [].
Proof.
  unfold appendChecks. destruct entries as [|e entries]; [done|].
  destruct (Z.eqb_spec (len (e :: entries)) 0) as [H|_]; [rewrite len_cons in H; len_pose; lia|].
  destruct h; intros; by simplify_eq/=.
Qed.

Lemma newMessage_ok call now w : call_entries call <> [] -> msg_ok (newMessage call now w).
Proof. by split. Qed.

(** Sums over a list with one element more or less. *)
Ltac sums :=
  repeat match goal with
  | H : context [sumZ] |- _ => progress (rewrite ?fmap_app, ?fmap_cons, ?fmap_nil, ?sumZ_app,
                                           ?sumZ_cons, ?sumZ_nil in H)
  end;
  rewrite ?fmap_app, ?fmap_cons, ?fmap_nil, ?sumZ_app, ?sumZ_cons, ?sumZ_nil.

Lemma append_budget (s s' : pipeline St) :
  append_step config s s' -> budget_ok s -> budget_ok s'.
Proof.
  intros Hst A. destruct Hst; open_accounts A.
  - eapply accounts_move; [exact A| |done..]. split; unpipe; try done; [|by exists held].
    constructor; [by eapply appendChecks_nonempty|done].
  - apply Forall_app in Fc as [Fc1 [Fc0 Fc2]%Forall_cons].
    destruct (locked_section (OpReserve _) _ _ _ (appendByteCost_nonneg _ _) Hcap Hch H0).
    apply reserve_acquired in H0. apply accounts_intro; unpipe; try done.
    + split; unpipe; try done; [by apply Forall_app_2|constructor; [by apply newMessage_ok|done]|].
      by exists held.
    + subst b'. cbn [set_bytes bytesUsed]. sums. cbn [newMessage msg_byteCost]. lia.
    + subst b'. cbn [set_bytes batchesUsed]. done.
  - destruct (locked_section (OpReserve _) _ _ _ (appendByteCost_nonneg _ _) Hcap Hch H).
    destruct (locked_wait_same (OpReserve _) _ _ _ H). apply accounts_intro; unpipe; try done;
      [by split; [..|exists held]|lia|lia].
  - eapply accounts_move; [exact A| |done..]. apply Forall_app in Fc as [Fc1 [Fc0 Fc2]%Forall_cons].
    split; unpipe; try done; [by apply Forall_app_2|by exists held].
  - apply chan_send_Ret in H as (-> & _ & ->). apply Forall_app in Fs as [Fs1 [Fs0 Fs2]%Forall_cons].
    eapply accounts_move; [exact A| | |done..]; unpipe; [|sums; lia].
    split; unpipe; try done; [by apply Forall_app_2|by apply Forall_app_2; [|constructor]|by exists held].
  - apply Forall_app in Fs as [Fs1 [Fs0 Fs2]%Forall_cons].
    destruct (onMessage_slot _ _ _ _ _ _ _ _ H0) as [Hs Hc].
    apply onMessage_spec in H0 as (-> & _ & Hb & _). rewrite Hb.
    eapply accounts_move; [exact A| | | |]; unpipe; [|sums; rewrite rotatorAdd_cost; lia|done|].
    + split; unpipe; try done; [by apply Forall_app_2|]. eexists. by eapply rotatorAdd_ok.
    + unfold flight_costs. by rewrite Hc.
  - apply Forall_app in Fs as [Fs1 [Fs0 Fs2]%Forall_cons]. pose proof (msg_ok_cost _ Fs0).
    pose proof (msgs_cost_nonneg _ Fs1). pose proof (msgs_cost_nonneg _ Fs2).
    destruct (release_ok (msg_byteCost m) 0 (s_budget sh)) as (b1 & Hrel & ? & ? & _ & _ & ? & ? & _);
      [done..|]. rewrite Hrel in H. simplify_eq.
    apply accounts_intro; unpipe; try done;
      [split; unpipe; try done; [by apply Forall_app_2|by exists held]|sums; lia|].
    destruct Hcap. lia.
Qed.

(** A rotator that begins to emit, or returns to its select. *)
Lemma accounts_rotator f f' mid bk b :
  accounts_ok f mid bk b -> front_ok f' ->
  sumZ (msg_byteCost <$> f_callers f') + sumZ (msg_byteCost <$> f_appendCh f') +
    acc_byteCost (rot_batch (f_rotator f')) =
  sumZ (msg_byteCost <$> f_callers f) + sumZ (msg_byteCost <$> f_appendCh f) +
    acc_byteCost (rot_batch (f_rotator f)) ->
  rot_costs (f_pc f) = rot_costs (f_pc f') -> slot_held (f_pc f') = slot_held (f_pc f) ->
  accounts_ok f' mid bk b.
Proof.
  intros A Hf Hs Hc Hslot. eapply accounts_move; [exact A|done|done|done|].
  unfold flight_costs. by rewrite Hc.
Qed.

(** Emission: the batch holds the slot and the framed cost. *)
Lemma emit_budget cl cs ch cd r reason ack mid bk b now b' :
  accounts_ok (Front cl cs ch cd r (RSlot reason ack)) mid bk b ->
  addReservation (emitBatch now r reason ack).2 b = Ret b' ->
  accounts_ok (Front cl cs ch cd (emitBatch now r reason ack).1.1
                 (RSend (emitBatch now r reason ack).1.2)) mid bk b'.
Proof.
  intros A Hadd. pose proof (accounts_nonneg _ _ _ _ A) as (N1 & N2 & N3 & N4).
  pose proof A as [Hcap Hch [Fc Fs Fa [held Fr]] Hcost Hby Hba]. unpipe.
  destruct (addReservation_ok (emitBatch now r reason ack).2 b Hcap Hch)
    as (b1 & Heq & (? & ? & _) & _ & Hb1 & Hb2). rewrite Heq in Hadd. simplify_eq.
  pose proof (framingExtra_nonneg (acc_entries (rot_batch r))) as Hfe.
  unfold flight_costs in *. cbn [emitBatch reset fst snd rot_costs app] in *.
  apply accounts_intro; unpipe; try done.
  - split; unpipe; try done. eexists. by eapply (emitBatch_ok now r held reason ack).
  - unfold flight_costs. cbn. constructor; [|done]. cbn. lia.
  - rewrite Hb1. unfold flight_costs. cbn [rot_costs app]. rewrite sumZ_cons. cbn. lia.
  - rewrite Hb2, Hba. unfold flight_costs. cbn [rot_costs app]. rewrite len_cons. cbn. lia.
Qed.

Lemma rotator_budget (s s' : pipeline St) :
  rotator_step config s s' -> budget_ok s -> budget_ok s'.
Proof.
  intros Hst A. destruct Hst; open_accounts A.
  - apply Forall_cons in Fa as [Fa0 Fa]. destruct (onMessage_slot _ _ _ _ _ _ _ _ H0) as [Hs Hc].
    apply onMessage_spec in H0 as (-> & _ & Hb & _). rewrite Hb.
    eapply accounts_rotator; [exact A| | |done|done]; unpipe; [|sums; rewrite rotatorAdd_cost; lia].
    split; unpipe; try done. eexists. by eapply rotatorAdd_ok.
  - destruct (beginEmit_slot _ _ _ _ _ _ H3) as [Hs Hc]. rewrite H0 in Fs.
    apply Forall_app in Fs as [Fs1 Fs2]. apply beginEmit_spec in H3 as (_ & Hb & _). rewrite Hb.
    eapply accounts_rotator; [exact A| | |done|done]; unpipe.
    + split; unpipe; try done. eexists. eapply rotatorFlush_ok; [done| |done]. by apply Forall_app_2.
    + rewrite rotatorFlush_cost, H0. sums. lia.
  - destruct (beginEmit_slot _ _ _ _ _ _ H0) as [Hs Hc].
    apply beginEmit_spec in H0 as (_ & Hb & _). rewrite Hb.
    eapply accounts_rotator; [exact A| |done..]. by split; [..|exists held].
  - destruct (beginEmit_slot _ _ _ _ _ _ H) as [Hs Hc].
    apply beginEmit_spec in H as (_ & Hb & _). rewrite Hb.
    eapply accounts_rotator; [exact A| |done..]. by split; [..|exists held].
  - destruct (locked_section OpAcquire _ _ _ I Hcap Hch H). apply acquire_acquired in H. subst b'.
    apply accounts_intro; unpipe; try done; [by split; [..|exists held]|].
    cbn [set_batches batchesUsed slot_held] in *. unfold flight_costs in *. cbn [rot_costs] in *. lia.
  - destruct (locked_section OpAcquire _ _ _ I Hcap Hch H).
    destruct (locked_wait_same OpAcquire _ _ _ H).
    apply accounts_intro; unpipe; try done; [by split; [..|exists held]| |].
    + unfold flight_costs in *. cbn in *. lia.
    + unfold flight_costs in *. cbn in *. lia.
  - eapply accounts_rotator; [exact A| |done..]. by split; [..|exists held].
  - unfold emitDropped in H0. cbn in H0. injection H0 as <- <- <-.
    destruct (release_ok (acc_byteCost (rot_batch r)) 0 (s_budget sh))
      as (b1 & Hrel & ? & ? & _ & _ & ? & ? & _); [done..|]. rewrite Hrel in H1. simplify_eq.
    destruct (send_ack_same ack (Some (Sentinel ErrShutdown))
      (on_watchers ws' (on_budget b' sh))) as (-> & _). unpipe.
    destruct (afterEmit_slot reason) as [Hs Hc].
    unfold flight_costs in *. cbn [rot_costs app] in *.
    apply accounts_intro; unpipe; try done; unfold flight_costs; rewrite ?Hc, ?Hs; cbn [app]; try done.
    + split; unpipe; try done. eexists. by eapply (emitDropped_ok r held).
    + cbn [rot_batch acc_byteCost]. lia.
    + cbn in Hba. destruct Hcap. lia.
  - match goal with H : emitBatch ?now ?r ?reason ?ack = _ |- _ =>
      pose proof (emit_budget _ _ _ _ r reason ack mid bk (s_budget sh) now b' A) as A';
      rewrite H in A'; by apply A' end.
  - destruct (afterEmit_slot (pb_reason pb)) as [Hs Hc].
    eapply accounts_move; [exact A|by split; [..|exists held]|done|done|].
    unfold flight_costs. unpipe. rewrite Hc. cbn. solve_Permutation.
Qed.

Lemma worker_budget (s s' : pipeline St) :
  encoder_step z config runID s s' \/ uploader_step config s s' -> budget_ok s -> budget_ok s'.
Proof.
  intros Hst A. assert (front_ok (p_front s)) as Hf by apply A.
  destruct Hst as [Hst|Hst]; destruct Hst; unfold budget_ok in *; unpipe;
    try (eapply accounts_move; [exact A|done|done|done|costs_perm]).
  - apply encodeOne_cost in H. eapply accounts_move; [exact A|done|done|done|].
    unfold flight_costs. unpipe. rewrite !fmap_app, !fmap_cons, H. done.
  - eapply accounts_move; [exact A|done|done|done|].
    destruct (S k <? uploadAttempts config)%nat; costs_perm.
Qed.

Lemma drain_costs c closed rv n nx' rd' group failed pc' rpc mid :
  ready_ok (next c) (ready c) ->
  collect n (next c) (ready c) [] [] = (nx', rd', group, failed) ->
  com_costs pc' = (uc_cost <$> group) ++ (rs_cost <$> failed) ->
  flight_costs rpc mid (Back c (CDrain closed) rv) ≡ₚ
  flight_costs rpc mid (Back (with_ready nx' rd' c) pc' rv).
Proof.
  intros Hok Hc Hpc. destruct (collect_spec _ _ _ _ _ _ _ _ _ Hok Hc)
    as (t & _ & _ & _ & Hv & Hg & Hf & _). cbn [app] in Hg, Hf. subst group failed.
  by eapply collect_costs.
Qed.

Lemma drain_pc_costs group failed closed :
  com_costs (if (len group =? 0) && (len failed =? 0)
             then if closed : bool then CExited else CRecv
             else if 0 <? len group then CCas group failed 0 closed
             else CSend failed true closed) = (uc_cost <$> group) ++ (rs_cost <$> failed).
Proof.
  destruct group as [|uc group].
  - rewrite len_nil. cbn. destruct failed as [|rs failed]; [by destruct closed|].
    destruct (Z.eqb_spec (len (rs :: failed)) 0) as [H|_]; [|done]. rewrite len_cons in H.
    len_pose. lia.
  - destruct (Z.eqb_spec (len (uc :: group)) 0) as [H|_]; [rewrite len_cons in H; len_pose; lia|].
    destruct (Z.ltb_spec 0 (len (uc :: group))) as [_|H]; [done|]. rewrite len_cons in H. len_pose. lia.
Qed.

Lemma committer_budget (s s' : pipeline St) :
  committer_step config range s s' -> ordinals_ok s -> budget_ok s -> budget_ok s'.
Proof.
  intros Hst O A. assert (front_ok (p_front s)) as Hf by apply A.
  destruct Hst; unfold budget_ok, ordinals_ok in *; unpipe;
    (eapply accounts_move; [exact A|done|done|done|]).
  - destruct (ords_gather _ _ _ _ _ _ _ O) as [_ Hv]. unfold flight_costs. unpipe.
    cbn [with_ready ready com_costs]. rewrite Hv, fmap_app. cbn. solve_Permutation.
  - costs_perm.
  - unfold flight_costs. unpipe. by destruct (halted c).
  - eapply drain_costs; [by eapply ords_ready_ok|done|apply drain_pc_costs].
  - by eapply afterCas_costs.
  - destruct (S k <? manifestAttempts config)%nat; [|by eapply afterCas_costs].
    simplify_eq. costs_perm.
  - costs_perm.
  - eapply (afterCas_costs range c group failed 0) in H0; [|done]. rewrite <- H0. costs_perm.
  - costs_perm.
  - unfold flight_costs. unpipe. destruct again, closed; costs_perm.
Qed.

Lemma resolver_budget (s s' : pipeline St) :
  resolver_step s s' -> budget_ok s -> budget_ok s'.
Proof.
  intros Hst A. destruct Hst; unfold budget_ok in *; unpipe.
  - destruct (send_ack_same (ri_flushAck (resolveItem rs)) (ri_err (resolveItem rs))
      (on_watchers ws' sh)) as (-> & _). unpipe.
    eapply accounts_move; [exact A|apply A|done|done|costs_perm].
  - assert (flight_costs (f_pc f) mid (Back c pc (ResRelease rs)) ≡ₚ
            rs_cost rs :: flight_costs (f_pc f) mid (Back c pc ResRecv)) as Hp by costs_perm.
    pose proof A as [Hcap Hch Hf Hcost Hby Hba]. unfold len in Hba.
    rewrite Hp in Hcost, Hby, Hba. apply Forall_cons in Hcost as [Hc Hcost].
    rewrite sumZ_cons in Hby. cbn [length] in Hba.
    destruct (release_ok (rs_cost rs) 1 (s_budget sh)) as (b1 & Hrel & ? & ? & _ & _ & Hb1 & Hb2 & _);
      [lia|lia|done..|].
    change (ri_byteCost (resolveItem rs)) with (rs_cost rs) in H. rewrite Hrel in H. simplify_eq.
    pose proof (accounts_nonneg _ _ _ _ A) as (N1 & N2 & N3 & N4). rewrite Hp, sumZ_cons in N4.
    pose proof (sumZ_nonneg _ Hcost).
    apply accounts_intro; try done; [lia|]. unfold len. destruct (f_pc f); cbn in *; lia.
Qed.

Lemma step_budget s s' :
  step z config runID range s s' -> ordinals_ok s -> budget_ok s -> budget_ok s'.
Proof.
  intros [H|H|H|H|H|H|H] O A; [by eapply append_budget|by eapply rotator_budget|
    by eapply worker_budget; [left|]|by eapply worker_budget; [right|]|by eapply committer_budget|
    by eapply resolver_budget|].
  destruct H; unfold budget_ok in *; unpipe; try done.
  - eapply accounts_move; [exact A| |done..]. destruct A as [_ _ [] _ _ _]. by split.
  - destruct A as [Hcap Hch Hf Hcost Hby Hba].
    destruct (locked_section OpDrain _ _ _ I Hcap Hch H).
    destruct (locked_wait_same OpDrain _ _ _ H). apply accounts_intro; try done; congruence.
Qed.

Lemma initial_budget (st : St) : budget_ok (initial config st).
Proof.
  destruct (initial_ok (MaxInFlightBytes config) (MaxInFlightBatches config)) as [Hc Hh _].
  apply accounts_intro; [exact Hc|exact Hh| |constructor|done|done].
  split; [constructor..|]. exists []. apply newRotator_ok.
Qed.
End BudgetSteps.
