(* ===== verification/Durability.v ===== *)
(** * Durability

    The end-to-end guarantee of the producer: what a resolved watcher says
    about the store. Each message in flight is in one place of the pipeline,
    with an unresolved watcher; each batch carries what its stage owes it: an
    encoder's payload is the encoding of its messages, an uploaded batch is in
    the store, and a batch resolved without an error was covered by a manifest
    append. As long as the entries are within the limits of the manifest's
    format, what such an append leaves is a manifest that refers to the batch. *)

From S2P Require Import Prelude GoError Bytes Batch Manifest ObjStore Enqueuer Config.
From S2P Require Import Budget Watcher Accumulator Retry Committer Stages Pipeline PipelineInv.
From stdpp Require Import list_tactics list_numbers.

Local Open Scope Z_scope.

(** ** What is in flight *)

(** A batch at its stage. *)
Inductive cargo :=
  | Pending (pb : pendingBatch)
  | Encoded (eb : encodedBatch)
  | Completed (uc : uploadCompletion)
  | Resolving (rs : pendingResolution)
  | Releasing (rs : pendingResolution).

Definition rs_watchers (rs : pendingResolution) : list watcher_id := eb_watchers (uc_eb (rs_uc rs)).

Definition cargo_watchers (c : cargo) : list watcher_id :=
  match c with
  | Pending pb => pb_watchers pb
  | Encoded eb => eb_watchers eb
  | Completed uc => eb_watchers (uc_eb uc)
  | Resolving rs => rs_watchers rs
  | Releasing _ => []
  end.

Definition rot_cargo (pc : rotator_pc) : list cargo :=
  match pc with RSend pb => [Pending pb] | _ => [] end.

Definition enc_cargo (e : encoder_pc) : cargo :=
  match e with EncWork pb => Pending pb | EncFailed uc => Completed uc | EncDone eb => Encoded eb end.

Definition up_cargo (u : uploader_pc) : cargo :=
  match u with UpPut eb _ | UpSleep eb _ => Encoded eb | UpSend uc => Completed uc end.

Definition com_cargo (pc : committer_pc) : list cargo :=
  match pc with
  | CCas g f _ _ | CSleep g f _ _ => (Completed <$> g) ++ (Resolving <$> f)
  | CSend out _ _ => Resolving <$> out
  | CRecv | CDrain _ | CExited => []
  end.

Definition res_cargo (rv : resolver_pc) : list cargo :=
  match rv with ResRecv => [] | ResResolve rs => [Resolving rs] | ResRelease rs => [Releasing rs] end.

Definition cargos (pc : rotator_pc) (mid : middle) (bk : back) : list cargo :=
  rot_cargo pc ++ (enc_cargo <$> m_encoders mid) ++ (up_cargo <$> m_uploaders mid) ++
  (Completed <$> m_completionCh mid) ++ (Completed <$> values (ready (b_committer bk))) ++
  com_cargo (b_pc bk) ++ res_cargo (b_resolver bk).

(** Two ways of listing what is in flight. *)
Ltac cargo_perm :=
  unfold cargos; cbn [m_encoders m_uploaders m_completionCh b_committer b_pc b_resolver];
  cbn [rot_cargo com_cargo res_cargo];
  rewrite ?fmap_app, ?fmap_cons, ?fmap_nil; cbn; solve_Permutation.

(** ** What a batch carries *)

Section Content.
Context {St : Type} {HC : StoreContents St}.
Context (z : zstd_lib) (config : ProducerConfig) (runID : string).

Section Registered.
Context (sub : gmap watcher_id appendMessage).

(** The messages of a batch, identified by their watchers. *)
Definition registered (msgs : list appendMessage) (ids : list watcher_id) : Prop :=
  ids = msg_watcher <$> msgs /\ Forall (fun m => sub !! msg_watcher m = Some m) msgs.

(** A commit, the store after it and its items, covers the messages: an item
    with their metadata refers to a data object that is their encoding. *)
Definition covers (cm : St * list enqueueItem) (msgs : list appendMessage) : Prop :=
  exists item payload v, item ∈ cm.2 /\ item_Metadata item = metadata_from 0 msgs /\
    contents cm.1 (item_Location item) = Some (payload, v) /\
    EncodeBatch z (all_entries msgs) (BatchCompression config) = Ret payload.

Definition pending_ok (pb : pendingBatch) : Prop :=
  exists msgs, registered msgs (pb_watchers pb) /\ batch_of msgs pb.

Definition encoded_ok (eb : encodedBatch) : Prop :=
  exists msgs, registered msgs (eb_watchers eb) /\ eb_metadata eb = metadata_from 0 msgs /\
    eb_location eb = objectAt config runID (eb_ordinal eb) /\
    EncodeBatch z (all_entries msgs) (BatchCompression config) = Ret (eb_payload eb).

Definition completed_ok (st : St) (uc : uploadCompletion) : Prop :=
  exists msgs, registered msgs (eb_watchers (uc_eb uc)) /\
    (uc_putError uc = None ->
     eb_metadata (uc_eb uc) = metadata_from 0 msgs /\
     eb_location (uc_eb uc) = objectAt config runID (uc_ordinal uc) /\
     exists payload v, contents st (eb_location (uc_eb uc)) = Some (payload, v) /\
       EncodeBatch z (all_entries msgs) (BatchCompression config) = Ret payload).

Definition resolving_ok (commits : list (St * list enqueueItem)) (rs : pendingResolution) : Prop :=
  exists msgs, registered msgs (rs_watchers rs) /\
    (rs_err rs = None -> exists cm, cm ∈ commits /\ covers cm msgs).

Definition cargo_ok (st : St) (commits : list (St * list enqueueItem)) (c : cargo) : Prop :=
  match c with
  | Pending pb => pending_ok pb
  | Encoded eb => encoded_ok eb
  | Completed uc => completed_ok st uc
  | Resolving rs => resolving_ok commits rs
  | Releasing _ => True
  end.
End Registered.

(** ** The invariant *)

(** [msgs] are the messages not yet in a batch, [cs] the batches. The
    unresolved watchers are exactly those of what is in flight, each there
    once; the message of a watcher resolved without an error is covered by a
    commit. *)
Record flight_ok (msgs : list appendMessage) (cs : list cargo)
    (ws : gmap watcher_id DurabilityWatcher) (sub : gmap watcher_id appendMessage) (st : St)
    (commits : list (St * list enqueueItem)) : Prop := {
  fl_nodup : NoDup ((msg_watcher <$> msgs) ++ (cs ≫= cargo_watchers));
  fl_open : forall w, ws !! w = Some newDurabilityWatcher <->
                      w ∈ ((msg_watcher <$> msgs) ++ (cs ≫= cargo_watchers));
  fl_known : forall w dw, ws !! w = Some dw ->
    is_Some (sub !! w) /\ (dw = newDurabilityWatcher \/ exists err, resolved_with err dw);
  fl_msgs : Forall (fun m => sub !! msg_watcher m = Some m) msgs;
  fl_cargo : Forall (cargo_ok sub st commits) cs;
  fl_durable : forall w m dw, ws !! w = Some dw -> resolved_with None dw -> sub !! w = Some m ->
    exists cm msgs, cm ∈ commits /\ m ∈ msgs /\ covers cm msgs;
}.

(** Messages are known by their watchers. *)
Definition keys_ok (sub : gmap watcher_id appendMessage) : Prop :=
  map_Forall (fun w m => msg_watcher m = w) sub.

Definition delivery_ok (s : pipeline St) : Prop :=
  keys_ok (s_submitted (p_shared s)) /\
  exists held, rotator_ok (f_rotator (p_front s)) held /\
    flight_ok (f_callers (p_front s) ++ f_appendCh (p_front s) ++ held)
      (cargos (f_pc (p_front s)) (p_middle s) (p_back s))
      (s_watchers (p_shared s)) (s_submitted (p_shared s)) (s_store (p_shared s))
      (s_commits (p_shared s)).

Lemma registered_mono sub sub' msgs ids :
  sub ⊆ sub' -> registered sub msgs ids -> registered sub' msgs ids.
Proof.
  intros Hsub [-> Hf]. split; [done|]. eapply Forall_impl; [exact Hf|]. cbn.
  intros m Hm. by eapply lookup_weaken.
Qed.

(** Batches keep what they carry when messages are submitted, when data is
    committed, and when the store keeps their objects. *)
Lemma cargo_ok_mono sub sub' st st' commits commits' c :
  sub ⊆ sub' -> commits ⊆ commits' ->
  match c with
  | Completed uc => uc_putError uc = None ->
      contents st' (objectAt config runID (uc_ordinal uc)) =
      contents st (objectAt config runID (uc_ordinal uc))
  | _ => True
  end ->
  cargo_ok sub st commits c -> cargo_ok sub' st' commits' c.
Proof.
  intros Hsub Hcm Hst. destruct c as [pb|eb|uc|rs|rs]; cbn.
  - intros (msgs & Hr & ?). exists msgs. split; [by eapply registered_mono|done].
  - intros (msgs & Hr & ?). exists msgs. split; [by eapply registered_mono|done].
  - intros (msgs & Hr & Hput). exists msgs. split; [by eapply registered_mono|].
    intros Hn. destruct (Hput Hn) as (? & Hloc & payload & v & Hc & ?).
    split_and!; [done|done|]. exists payload, v. split; [|done]. by rewrite Hloc, Hst, <- Hloc.
  - intros (msgs & Hr & Hd). exists msgs. split; [by eapply registered_mono|].
    intros Hn. destruct (Hd Hn) as (cm & Hin & ?). exists cm. split; [by apply Hcm|done].
  - done.
Qed.

(** Messages move forward, batches change stage. *)
Lemma flight_move msgs msgs' cs cs' xs ys rest ws sub st commits :
  flight_ok msgs cs ws sub st commits -> msgs ≡ₚ msgs' ->
  cs ≡ₚ xs ++ rest -> cs' ≡ₚ ys ++ rest ->
  (xs ≫= cargo_watchers) ≡ₚ (ys ≫= cargo_watchers) ->
  (Forall (cargo_ok sub st commits) xs -> Forall (cargo_ok sub st commits) ys) ->
  flight_ok msgs' cs' ws sub st commits.
Proof.
  intros F Hm Hc Hc' Hw Hok.
  assert ((msg_watcher <$> msgs) ++ (cs ≫= cargo_watchers) ≡ₚ
          (msg_watcher <$> msgs') ++ (cs' ≫= cargo_watchers)) as Hp.
  { by rewrite Hm, Hc, Hc', !bind_app, Hw. }
  split.
  - rewrite <- Hp. apply F.
  - intros w. rewrite <- Hp. apply F.
  - apply F.
  - rewrite <- Hm. apply F.
  - pose proof (fl_cargo _ _ _ _ _ _ F) as Hf. rewrite Hc in Hf. apply Forall_app in Hf as [? ?].
    rewrite Hc'. apply Forall_app; auto.
  - apply F.
Qed.

(** The store changes but keeps the objects of completed uploads. *)
Lemma flight_store msgs cs ws sub st st' commits commits' :
  flight_ok msgs cs ws sub st commits -> commits ⊆ commits' ->
  (forall uc, Completed uc ∈ cs -> uc_putError uc = None ->
    contents st' (objectAt config runID (uc_ordinal uc)) =
    contents st (objectAt config runID (uc_ordinal uc))) ->
  flight_ok msgs cs ws sub st' commits'.
Proof.
  intros F Hcm Hst. split; [apply F|apply F|apply F|apply F| |].
  - pose proof (fl_cargo _ _ _ _ _ _ F) as Hf. apply Forall_forall. intros c Hin.
    rewrite Forall_forall in Hf. specialize (Hf c Hin). revert Hf.
    apply cargo_ok_mono; [done|done|]. destruct c; try done. by apply Hst.
  - intros w m dw Hw Hr Hm. destruct (fl_durable _ _ _ _ _ _ F w m dw Hw Hr Hm)
      as (cm & ms & Hin & ?). exists cm, ms. split; [by apply Hcm|done].
Qed.

(** Resolving open watchers never panics, and resolves exactly these. *)
Lemma resolveWatchers_open ids err : forall ws,
  NoDup ids -> Forall (fun w => ws !! w = Some newDurabilityWatcher) ids ->
  exists ws', resolveWatchers ws ids err = Ret ws' /\
    forall w, ws' !! w = if decide (w ∈ ids)
                         then Some {| result := err; done := true; ch_closed := true |}
                         else ws !! w.
Proof.
  induction ids as [|i ids IH]; intros ws Hnd Hopen; cbn [resolveWatchers].
  { exists ws. split; [done|]. intros w. by rewrite decide_False by apply not_elem_of_nil. }
  apply NoDup_cons in Hnd as [Hi Hnd]. apply Forall_cons in Hopen as [Ho Hopen].
  rewrite Ho. cbn [resolve newDurabilityWatcher done ch_closed mbind outcome_bind].
  destruct (IH (<[i := {| result := err; done := true; ch_closed := true |}]> ws) Hnd)
    as (ws' & -> & Hws').
  { apply Forall_forall. intros w Hw. rewrite lookup_insert_ne by (intros ->; done).
    by rewrite Forall_forall in Hopen; apply Hopen. }
  exists ws'. split; [done|]. intros w. rewrite Hws'.
  destruct (decide (w ∈ ids)) as [Hin|Hnin]; destruct (decide (w ∈ i :: ids)) as [Hin'|Hnin'];
    try done.
  - by destruct Hnin'; right.
  - apply elem_of_cons in Hin' as [->|]; [|done]. by rewrite lookup_insert_eq.
  - rewrite lookup_insert_ne; [done|]. intros ->. apply Hnin'. by left.
Qed.

(** Some of what is in flight is resolved with [err]. *)
Lemma flight_resolve ms0 msgs msgs' xs ys rest cs cs' ws ws' sub st commits err :
  flight_ok msgs cs ws sub st commits ->
  msgs ≡ₚ ms0 ++ msgs' -> cs ≡ₚ xs ++ rest -> cs' ≡ₚ ys ++ rest ->
  (ys ≫= cargo_watchers) = [] -> Forall (cargo_ok sub st commits) ys ->
  resolveWatchers ws ((msg_watcher <$> ms0) ++ (xs ≫= cargo_watchers)) err = Ret ws' ->
  (err = None -> forall m, msg_watcher m ∈ ((msg_watcher <$> ms0) ++ (xs ≫= cargo_watchers)) ->
     sub !! msg_watcher m = Some m ->
     exists cm msgs, cm ∈ commits /\ m ∈ msgs /\ covers cm msgs) ->
  keys_ok sub ->
  flight_ok msgs' cs' ws' sub st commits.
Proof.
  intros F Hm Hc Hc' Hys Hyok Hres Hdur Hkeys. set (ids := (msg_watcher <$> ms0) ++ _) in *.
  assert ((msg_watcher <$> msgs) ++ (cs ≫= cargo_watchers) ≡ₚ
          ids ++ ((msg_watcher <$> msgs') ++ (cs' ≫= cargo_watchers))) as Hp.
  { unfold ids. rewrite Hm, Hc, Hc', !bind_app, Hys, fmap_app. cbn. solve_Permutation. }
  pose proof (fl_nodup _ _ _ _ _ _ F) as Hnd. rewrite Hp in Hnd.
  apply NoDup_app in Hnd as (Hnd1 & Hdis & Hnd2).
  destruct (resolveWatchers_open ids err ws Hnd1) as (ws1 & Heq & Hws).
  { apply Forall_forall. intros w Hw. apply F. rewrite Hp. apply elem_of_app. by left. }
  rewrite Heq in Hres. injection Hres as <-. split.
  - done.
  - intros w. rewrite Hws. destruct (decide (w ∈ ids)) as [Hin|Hnin].
    + split; [done|]. intros Hin'. by destruct (Hdis w).
    + rewrite (fl_open _ _ _ _ _ _ F w), Hp, elem_of_app. tauto.
  - intros w dw. rewrite Hws. destruct (decide (w ∈ ids)) as [Hin|Hnin]; [|apply F].
    intros [= <-]. split; [|right; by exists err].
    eapply (fl_known _ _ _ _ _ _ F). apply F. rewrite Hp. apply elem_of_app. by left.
  - pose proof (fl_msgs _ _ _ _ _ _ F) as Hf. rewrite Hm in Hf. by apply Forall_app in Hf as [_ ?].
  - pose proof (fl_cargo _ _ _ _ _ _ F) as Hf. rewrite Hc in Hf. apply Forall_app in Hf as [_ ?].
    rewrite Hc'. by apply Forall_app.
  - intros w m dw. rewrite Hws. destruct (decide (w ∈ ids)) as [Hin|Hnin]; [|apply F].
    intros [= <-] [= ->] Hm'. pose proof (Hkeys _ _ Hm') as Hk. cbn in Hk. subst w. by apply Hdur.
Qed.

(** A message is submitted. *)
Lemma flight_submit msgs cs ws sub st commits m :
  flight_ok msgs cs ws sub st commits -> sub !! msg_watcher m = None ->
  flight_ok (m :: msgs) cs (<[msg_watcher m := newDurabilityWatcher]> ws)
    (<[msg_watcher m := m]> sub) st commits.
Proof.
  intros F Hnew.
  assert (sub ⊆ <[msg_watcher m := m]> sub) as Hsub by by apply insert_subseteq.
  assert (ws !! msg_watcher m = None) as Hw.
  { destruct (ws !! msg_watcher m) as [dw|] eqn:E; [|done].
    destruct (fl_known _ _ _ _ _ _ F _ _ E) as [[? ?] _]. congruence. }
  split.
  - rewrite fmap_cons. cbn. apply NoDup_cons. split; [|apply F].
    rewrite <- (fl_open _ _ _ _ _ _ F). congruence.
  - intros w. rewrite fmap_cons. cbn. rewrite elem_of_cons, <- (fl_open _ _ _ _ _ _ F).
    destruct (decide (w = msg_watcher m)) as [->|Hne].
    + rewrite lookup_insert_eq. tauto.
    + rewrite lookup_insert_ne by done. tauto.
  - intros w dw. destruct (decide (w = msg_watcher m)) as [->|Hne].
    + rewrite !lookup_insert_eq. intros [= <-]. split; [done|by left].
    + rewrite !lookup_insert_ne by done. apply F.
  - constructor; [by rewrite lookup_insert_eq|]. eapply Forall_impl; [apply F|]. cbn.
    intros m' Hm'. by eapply lookup_weaken.
  - eapply Forall_impl; [exact (fl_cargo _ _ _ _ _ _ F)|]. intros c.
    apply cargo_ok_mono; [done..|]. by destruct c.
  - intros w m' dw. destruct (decide (w = msg_watcher m)) as [->|Hne].
    + rewrite lookup_insert_eq. by intros [= <-] [= ].
    + rewrite !lookup_insert_ne by done. apply F.
Qed.

(** A call gives up before its message entered the pipeline. *)
Lemma flight_cancel msgs m msgs' cs ws sub st commits :
  flight_ok msgs cs ws sub st commits -> msgs ≡ₚ m :: msgs' ->
  flight_ok msgs' cs (delete (msg_watcher m) ws) sub st commits.
Proof.
  intros F Hm. pose proof (fl_nodup _ _ _ _ _ _ F) as Hnd. rewrite Hm in Hnd.
  rewrite fmap_cons in Hnd. cbn in Hnd. apply NoDup_cons in Hnd as [Hnin Hnd]. split.
  - done.
  - intros w. destruct (decide (w = msg_watcher m)) as [->|Hne].
    + rewrite lookup_delete_eq. by split.
    + rewrite lookup_delete_ne, (fl_open _ _ _ _ _ _ F w), Hm, fmap_cons by done. cbn.
      rewrite elem_of_cons. tauto.
  - intros w dw Hw. apply lookup_delete_Some in Hw as [_ Hw]. by apply F.
  - pose proof (fl_msgs _ _ _ _ _ _ F) as Hf. rewrite Hm in Hf. by apply Forall_cons in Hf as [_ ?].
  - apply F.
  - intros w m' dw Hw. apply lookup_delete_Some in Hw as [_ Hw]. by apply F.
Qed.

(** Messages become a batch. *)
Lemma flight_emit held msgs msgs' cs cs' ws sub st commits pb :
  flight_ok msgs cs ws sub st commits -> msgs ≡ₚ held ++ msgs' -> cs' ≡ₚ Pending pb :: cs ->
  batch_of held pb -> flight_ok msgs' cs' ws sub st commits.
Proof.
  intros F Hm Hc Hb.
  assert ((msg_watcher <$> msgs) ++ (cs ≫= cargo_watchers) ≡ₚ
          (msg_watcher <$> msgs') ++ (cs' ≫= cargo_watchers)) as Hp.
  { rewrite Hm, Hc, fmap_app. cbn. rewrite (bo_watchers _ _ Hb). solve_Permutation. }
  pose proof (fl_msgs _ _ _ _ _ _ F) as Hf. rewrite Hm in Hf. apply Forall_app in Hf as [Hh Hf].
  split; [rewrite <- Hp; apply F|intros w; rewrite <- Hp; apply F|apply F|done| |apply F].
  rewrite Hc. constructor; [|apply F]. exists held. split; [|done].
  split; [by rewrite (bo_watchers _ _ Hb)|done].
Qed.
End Content.

(** ** The invariant is kept *)

Section Delivery.
Context {St : Type} {HO : ObjectStore St} {HC : StoreContents St} {HL : StoreLaws St}.
Context (z : zstd_lib) (config : ProducerConfig) (runID : string).
Context (range : readyMap -> list uploadCompletion) (Hrange : forall m, range m ≡ₚ values m).
Context (Hpath : forall k, objectAt config runID k <> ManifestPath config).

Abbreviation delivery := (delivery_ok z config runID).

(** Batches that stay where they are, messages that move. *)
Lemma flight_msgs msgs msgs' cs cs' ws sub (st : St) commits :
  flight_ok z config runID msgs cs ws sub st commits -> msgs ≡ₚ msgs' -> cs' = cs ->
  flight_ok z config runID msgs' cs' ws sub st commits.
Proof. intros F Hm ->. by apply (flight_move _ _ _ msgs msgs' cs cs [] [] cs). Qed.

(** Batches that only change places. *)
Lemma flight_perm msgs cs cs' ws sub (st : St) commits :
  flight_ok z config runID msgs cs ws sub st commits -> cs ≡ₚ cs' ->
  flight_ok z config runID msgs cs' ws sub st commits.
Proof. intros F Hc. apply (flight_move _ _ _ msgs msgs cs cs' [] [] cs); done. Qed.

Lemma rot_idle_cargo pc : rot_idle pc = true -> rot_cargo pc = [].
Proof. by destruct pc. Qed.

Lemma append_delivery (s s' : pipeline St) :
  append_step config s s' -> budget_ok s -> delivery s -> delivery s'.
Proof.
  intros Hst A (Hk & held & Hr & F). destruct Hst; unfold delivery_ok; unpipe.
  - split; [done|]. by exists held.
  - split; [by apply map_Forall_insert_2|]. exists held. split; [done|]. by apply flight_submit.
  - split; [done|]. by exists held.
  - split; [done|]. by exists held.
  - apply chan_send_Ret in H as (-> & _ & ->). split; [done|]. exists held. split; [done|].
    eapply flight_msgs; [exact F| |done]. solve_Permutation.
  - assert (msg_ok m) as Hm.
    { destruct A as [_ _ [_ Fs _ _] _ _ _]. unpipe. by apply Forall_app in Fs as [_ [? _]%Forall_cons]. }
    apply onMessage_spec in H0 as (-> & Hi & _ & Hw & _ & Hst & Hsub & Hcm).
    rewrite Hw, Hst, Hsub, Hcm. split; [done|]. exists (held ++ [m]).
    split; [by apply rotatorAdd_ok|].
    eapply flight_msgs; [exact F|solve_Permutation|]. unfold cargos. by rewrite rot_idle_cargo.
  - split; [done|]. exists held. split; [done|].
    eapply flight_cancel; [exact F|]. solve_Permutation.
Qed.

Lemma rotator_delivery (s s' : pipeline St) :
  rotator_step config s s' -> budget_ok s -> delivery s -> delivery s'.
Proof.
  intros Hst A (Hk & held & Hr & F).
  assert (front_ok (p_front s)) as [_ Fs Fa _] by apply A.
  destruct Hst; unfold delivery_ok; unpipe.
  - apply Forall_cons in Fa as [Fa0 Fa].
    apply onMessage_spec in H0 as (-> & Hi & _ & Hw & _ & Hst & Hsub & Hcm).
    rewrite Hw, Hst, Hsub, Hcm. split; [done|]. exists (held ++ [m]).
    split; [by apply rotatorAdd_ok|].
    eapply flight_msgs; [exact F|solve_Permutation|]. unfold cargos. by rewrite rot_idle_cargo.
  - apply beginEmit_spec in H3 as (Hi & _ & Hw & _ & Hst & Hsub & Hcm).
    rewrite Hw, Hst, Hsub, Hcm. rewrite H0 in Fs. apply Forall_app in Fs as [Fs1 Fs2].
    split; [done|]. exists (held ++ (ch ++ extra)).
    split; [by apply rotatorFlush_ok; [|apply Forall_app_2|]|].
    eapply flight_msgs; [exact F| |unfold cargos; by rewrite rot_idle_cargo].
    rewrite H0. solve_Permutation.
  - apply beginEmit_spec in H0 as (Hi & _ & Hw & _ & Hst & Hsub & Hcm).
    rewrite Hw, Hst, Hsub, Hcm. split; [done|]. exists held. split; [done|].
    eapply flight_msgs; [exact F|done|]. unfold cargos. by rewrite rot_idle_cargo.
  - apply beginEmit_spec in H as (Hi & _ & Hw & _ & Hst & Hsub & Hcm).
    rewrite Hw, Hst, Hsub, Hcm. split; [done|]. exists held. split; [done|].
    eapply flight_msgs; [exact F|done|]. unfold cargos. by rewrite rot_idle_cargo.
  - split; [done|]. by exists held.
  - split; [done|]. by exists held.
  - split; [done|]. by exists held.
  - destruct (send_ack_same ack (Some (Sentinel ErrShutdown))
      (on_watchers ws' (on_budget b' sh))) as (_ & -> & _ & -> & -> & ->). unpipe.
    unfold emitDropped in H0. cbn in H0. injection H0 as <- <- <-.
    split; [done|]. exists []. split; [by apply (emitDropped_ok r held)|].
    rewrite (holds_watchers _ _ (ro_holds _ _ Hr)) in H2.
    eapply (flight_resolve z config runID held _ _ [] [] (cargos RSelect mid bk)
              _ _ _ _ _ _ _ (Some (Sentinel ErrShutdown)));
      [exact F|solve_Permutation|done| |done|constructor| |done|done].
    + unfold cargos. cbn. by rewrite (rot_idle_cargo _ (afterEmit_idle reason)).
    + cbn. by rewrite app_nil_r.
  - pose proof (emitBatch_batch_of now r held reason ack Hr) as Hb.
    pose proof (emitBatch_ok now r held reason ack Hr) as Hr'. rewrite H0 in Hb, Hr'.
    destruct Hb as (Hb & _). split; [done|]. exists []. split; [done|].
    eapply (flight_emit z config runID held _ _ _ _ _ _ _ _ pb);
      [exact F|solve_Permutation|done|done].
  - split; [done|]. exists held. split; [done|].
    eapply (flight_move _ _ _ _ _ _ _ [] [] (cargos (RSend pb) (Middle es us cc) bk));
      [exact F|done|done| |done|done].
    unfold cargos. rewrite (rot_idle_cargo _ (afterEmit_idle (pb_reason pb))). cbn. solve_Permutation.
Qed.

Lemma encode_cargo sub (st : St) commits pb res :
  encodeOne (EncodeBatch z) config runID pb = Ret res -> pending_ok sub pb ->
  cargo_ok z config runID sub st commits
    (enc_cargo match res with inl eb => EncDone eb | inr uc => EncFailed uc end) /\
  cargo_watchers (enc_cargo match res with inl eb => EncDone eb | inr uc => EncFailed uc end)
    = pb_watchers pb.
Proof.
  unfold encodeOne. intros He (msgs & Hreg & Hb).
  destruct (EncodeBatch z _ _) as [payload|e|] eqn:E; simplify_eq/=; (split; [|done]).
  - exists msgs. split_and!; [done|apply Hb|done|]. by rewrite <- (bo_entries _ _ Hb).
  - exists msgs. by split.
Qed.

Lemma encoder_delivery (s s' : pipeline St) :
  encoder_step z config runID s s' -> delivery s -> delivery s'.
Proof.
  intros Hst (Hk & held & Hr & F). destruct Hst; unfold delivery_ok; unpipe;
    (split; [done|]); exists held; (split; [done|]).
  - set (e' := match res with inl eb => EncDone eb | inr uc => EncFailed uc end).
    eapply (flight_move _ _ _ _ _ _ _ [Pending pb] [enc_cargo e']
              (cargos (f_pc f) (Middle (es1 ++ es2) us cc) bk));
      [exact F|done|cargo_perm|cargo_perm|..].
    + cbn. rewrite !app_nil_r. pose proof (fl_cargo _ _ _ _ _ _ _ _ _ F) as Hf.
      assert (Pending pb ∈ cargos (f_pc f) (Middle (es1 ++ EncWork pb :: es2) us cc) bk) as Hin.
      { unfold cargos. cbn. rewrite fmap_app, fmap_cons, !elem_of_app. right; left; right. by left. }
      rewrite Forall_forall in Hf. specialize (Hf _ Hin). cbn in Hf.
      destruct (encode_cargo _ (s_store sh) (s_commits sh) _ _ H Hf) as [_ Hw].
      fold e' in Hw. by rewrite Hw.
    + intros [Hpb _]%Forall_cons. constructor; [|constructor].
      by eapply encode_cargo.
  - eapply flight_perm; [exact F|cargo_perm].
  - eapply flight_perm; [exact F|cargo_perm].
Qed.

Lemma com_cargo_completed cpc uc : Completed uc ∈ com_cargo cpc -> uc ∈ cas_group cpc.
Proof.
  assert (forall g f, Completed uc ∈ (Completed <$> g) ++ (Resolving <$> f) -> uc ∈ g) as Hg.
  { intros g f [H|H]%elem_of_app; apply list_elem_of_fmap in H as (x & ? & ?); by simplify_eq. }
  destruct cpc; cbn; try apply Hg; try (by intros ?%elem_of_nil).
  intros (x & ? & _)%list_elem_of_fmap. done.
Qed.

(** Where a completed upload may be. *)
Lemma completed_place pc es us1 u us2 cc c cpc rv uc :
  (forall uc', up_cargo u <> Completed uc') ->
  Completed uc ∈ cargos pc (Middle es (us1 ++ u :: us2) cc) (Back c cpc rv) ->
  uc_ordinal uc ∈ upstream pc (Middle es (us1 ++ us2) cc) (ready c) \/ uc ∈ cas_group cpc.
Proof.
  intros Hu. unfold cargos, upstream. cbn.
  rewrite !fmap_app, fmap_cons, !elem_of_app, elem_of_cons, !list_elem_of_fmap.
  intros [H|[H|[[H|[H|H]]|[H|[H|[H|H]]]]]].
  - by destruct pc; cbn in H; rewrite ?elem_of_nil, ?list_elem_of_singleton in H.
  - left. destruct H as (e & He & Hin). right; left. exists e. destruct e; simplify_eq/=; done.
  - left. destruct H as (e & He & Hin). do 2 right; left; left. exists e. destruct e; simplify_eq/=; done.
  - by destruct (Hu uc).
  - left. destruct H as (e & He & Hin). do 2 right; left; right. exists e. destruct e; simplify_eq/=; done.
  - left. destruct H as (e & He & Hin). simplify_eq. do 3 right; left. by exists e.
  - left. destruct H as (e & He & Hin). simplify_eq. do 4 right. by exists e.
  - right. by apply com_cargo_completed.
  - by destruct rv; cbn in H; rewrite ?elem_of_nil, ?list_elem_of_singleton in H.
Qed.

(** No completed upload shares its object with a batch being uploaded. *)
Lemma completed_elsewhere r pc es us1 u us2 cc c cpc rv uc :
  ords_ok r pc (Middle es (us1 ++ u :: us2) cc) c cpc ->
  (forall uc', up_cargo u <> Completed uc') ->
  Completed uc ∈ cargos pc (Middle es (us1 ++ u :: us2) cc) (Back c cpc rv) ->
  objectAt config runID (uc_ordinal uc) <> objectAt config runID (up_ord u).
Proof.
  intros O Hu Hin Heq.
  assert (upstream pc (Middle es (us1 ++ u :: us2) cc) (ready c) ≡ₚ
          up_ord u :: upstream pc (Middle es (us1 ++ us2) cc) (ready c)) as Hup.
  { unfold upstream. cbn. rewrite !fmap_app, fmap_cons. solve_Permutation. }
  pose proof (oo_nodup _ _ _ _ _ O) as Hnd. pose proof (oo_range _ _ _ _ _ O) as Hr.
  pose proof (oo_next _ _ _ _ _ O). pose proof (oo_max _ _ _ _ _ O).
  rewrite Hup in Hnd, Hr. apply NoDup_cons in Hnd as [Hnin _]. apply Forall_cons in Hr as [Hu' Hr].
  destruct (completed_place _ _ _ _ _ _ _ _ _ _ Hu Hin) as [Hplace|Hplace].
  - rewrite Forall_forall in Hr. specialize (Hr _ Hplace). apply Hnin.
    apply batchLocation_inj in Heq; [by rewrite <- Heq|unfold is_uint64; lia..].
  - pose proof (oo_group _ _ _ _ _ O) as Hg. rewrite Forall_forall in Hg. specialize (Hg _ Hplace).
    cbn in Hg. apply batchLocation_inj in Heq; [|unfold is_uint64; lia..]. lia.
Qed.

(** A put leaves the other objects alone. *)
Lemma put_elsewhere r pc es us1 eb k us2 cc c cpc rv (st st' : St) uc :
  ords_ok r pc (Middle es (us1 ++ UpPut eb k :: us2) cc) c cpc ->
  eb_location eb = objectAt config runID (eb_ordinal eb) ->
  same_contents st st' \/ writes st st' (eb_location eb) (eb_payload eb) ->
  Completed uc ∈ cargos pc (Middle es (us1 ++ UpPut eb k :: us2) cc) (Back c cpc rv) ->
  contents st' (objectAt config runID (uc_ordinal uc)) =
  contents st (objectAt config runID (uc_ordinal uc)).
Proof.
  intros O Hloc Heff Hin.
  pose proof (completed_elsewhere _ _ _ _ _ _ _ _ _ _ _ O ltac:(done) Hin) as Hne. cbn in Hne.
  destruct Heff as [Hs|[_ Hw]]; [apply Hs|]. apply Hw. by rewrite Hloc.
Qed.

(** What one attempt of a put leaves in flight. *)
Lemma put_delivery f es us1 eb k us2 cc bk (sh : shared St) st' u' msgs :
  ords_ok (f_rotator f) (f_pc f) (Middle es (us1 ++ UpPut eb k :: us2) cc)
    (b_committer bk) (b_pc bk) ->
  flight_ok z config runID msgs (cargos (f_pc f) (Middle es (us1 ++ UpPut eb k :: us2) cc) bk)
    (s_watchers sh) (s_submitted sh) (s_store sh) (s_commits sh) ->
  same_contents (s_store sh) st' \/ writes (s_store sh) st' (eb_location eb) (eb_payload eb) ->
  cargo_watchers (up_cargo u') = eb_watchers eb ->
  (encoded_ok z config runID (s_submitted sh) eb ->
   cargo_ok z config runID (s_submitted sh) st' (s_commits sh) (up_cargo u')) ->
  flight_ok z config runID msgs (cargos (f_pc f) (Middle es (us1 ++ u' :: us2) cc) bk)
    (s_watchers sh) (s_submitted sh) st' (s_commits sh).
Proof.
  intros O F Heff Hw Hok.
  assert (encoded_ok z config runID (s_submitted sh) eb) as Heb.
  { pose proof (fl_cargo _ _ _ _ _ _ _ _ _ F) as Hf. rewrite Forall_forall in Hf.
    apply (Hf (Encoded eb)). unfold cargos. cbn. rewrite fmap_app, fmap_cons, !elem_of_app.
    do 2 right; left; right. by left. }
  assert (eb_location eb = objectAt config runID (eb_ordinal eb)) as Hloc
    by by destruct Heb as (? & _ & _ & ? & _).
  apply (flight_store _ _ _ _ _ _ _ _ st' _ (s_commits sh)) in F; [|done|].
  2: { intros uc Hin _. destruct bk. by eapply put_elsewhere. }
  eapply (flight_move _ _ _ _ _ _ _ [Encoded eb] [up_cargo u']
            (cargos (f_pc f) (Middle es (us1 ++ us2) cc) bk));
    [exact F|done|cargo_perm|cargo_perm| |].
  - cbn. by rewrite Hw.
  - intros _. constructor; [by apply Hok|constructor].
Qed.

Lemma uploadDone_failed sub (st : St) eb e :
  encoded_ok z config runID sub eb -> completed_ok z config runID sub st (uploadDone eb (Some e)).
Proof. intros (msgs & Hreg & _). exists msgs. by split. Qed.

Lemma uploadDone_ok sub (st : St) eb v :
  encoded_ok z config runID sub eb -> contents st (eb_location eb) = Some (eb_payload eb, v) ->
  completed_ok z config runID sub st (uploadDone eb None).
Proof.
  intros (msgs & Hreg & Hm & Hloc & He) Hc. exists msgs. split; [done|]. intros _.
  split_and!; [done|done|]. by exists (eb_payload eb), v.
Qed.

Lemma uploader_delivery (s s' : pipeline St) :
  uploader_step config s s' -> ordinals_ok s -> delivery s -> delivery s'.
Proof.
  intros Hst O (Hk & held & Hr & F). destruct Hst; unfold delivery_ok, ordinals_ok in *; unpipe;
    (split; [done|]); exists held; (split; [done|]).
  - pose proof (Put_ok (s_store sh) (eb_location eb) (eb_payload eb)) as Hput. rewrite H in Hput.
    destruct u. specialize (Hput eq_refl). eapply put_delivery; [exact O|exact F|by right|done|].
    destruct Hput as [(v & Hv) _]. intros Heb. by eapply uploadDone_ok.
  - pose proof (Put_error (s_store sh) (eb_location eb) (eb_payload eb) err) as Hput. rewrite H in Hput.
    specialize (Hput eq_refl). eapply put_delivery; [exact O|exact F|done| |];
      destruct (S k <? uploadAttempts config)%nat; try done. apply uploadDone_failed.
  - eapply flight_perm; [exact F|cargo_perm].
  - eapply (flight_move _ _ _ _ _ _ _ [Encoded eb]
              [Completed (uploadDone eb (Some (Sentinel ErrShutdown)))]
              (cargos (f_pc f) (Middle es (us1 ++ us2) cc) bk));
      [exact F|done|cargo_perm|cargo_perm|done|].
    intros [He _]%Forall_cons. constructor; [|constructor]. by apply uploadDone_failed.
  - eapply flight_perm; [exact F|cargo_perm].
Qed.

(** A completed batch resolved with an error owes nothing to the store. *)
Lemma resolving_failed sub (st : St) commits rs :
  completed_ok z config runID sub st (rs_uc rs) -> rs_err rs <> None ->
  resolving_ok z config sub commits rs.
Proof. intros (msgs & Hreg & _) He. exists msgs. by split. Qed.

Lemma resolving_all sub (st : St) commits (l : list pendingResolution) :
  Forall (cargo_ok z config runID sub st commits) (Completed <$> (rs_uc <$> l)) ->
  Forall (fun rs => rs_err rs <> None) l ->
  Forall (cargo_ok z config runID sub st commits) (Resolving <$> l).
Proof.
  rewrite !Forall_fmap. intros H1 H2. rewrite Forall_forall in *. intros rs Hin.
  eapply resolving_failed; [by apply (H1 rs)|by apply H2].
Qed.

Lemma bind_watchers_completed (l : list pendingResolution) :
  (Completed <$> (rs_uc <$> l)) ≫= cargo_watchers = (Resolving <$> l) ≫= cargo_watchers.
Proof. induction l as [|rs l IH]; [done|]. rewrite !fmap_cons. cbn. by f_equal. Qed.

Lemma failures_err t : Forall (fun rs => rs_err rs <> None) (failures t).
Proof.
  induction t as [|uc t IH]; [constructor|]. unfold failures. cbn [omap list_omap].
  destruct (uc_putError uc); cbn; [by constructor|done].
Qed.

Lemma withOutcome_err e o (g : list uploadCompletion) :
  Forall (fun rs => rs_err rs <> None) (withOutcome (Some e) o <$> g).
Proof. apply Forall_fmap, Forall_forall. done. Qed.

Lemma withOutcome_ucs err o (g : list uploadCompletion) : rs_uc <$> (withOutcome err o <$> g) = g.
Proof. rewrite <- list_fmap_compose. apply list_fmap_id. Qed.

(** The batches of a group get their results. *)
Lemma afterCas_delivery rpc mid c rv group failed k closed err c' pc' msgs ws sub (st : St) commits :
  flight_ok z config runID msgs (cargos rpc mid (Back c (CCas group failed k closed) rv))
    ws sub st commits ->
  afterCas range c group failed err closed = (c', pc') ->
  (err = None -> Forall (fun uc => resolving_ok z config sub commits
                                     (withOutcome None OutcomeCommitted uc)) group) ->
  flight_ok z config runID msgs (cargos rpc mid (Back c' pc' rv)) ws sub st commits.
Proof.
  intros F Ha Hok. unfold afterCas in Ha. destruct err as [e|].
  - assert (forall l rd' c1 again, Forall (fun rs => rs_err rs <> None) l -> ready c1 = rd' ->
      group ++ values (ready c) ≡ₚ (rs_uc <$> l) ++ values rd' ->
      flight_ok z config runID msgs
        (cargos rpc mid (Back c1 (CSend (l ++ failed) again closed) rv)) ws sub st commits) as Hgo.
    { intros l rd' c1 again Hl Hrd Hp.
      eapply (flight_move _ _ _ _ _ _ _ (Completed <$> (rs_uc <$> l)) (Resolving <$> l)
        (cargos rpc mid (Back c1 (CSend failed again closed) rv))); [exact F|done| | | |].
      - assert (Completed <$> group ++ values (ready c) ≡ₚ
                (Completed <$> (rs_uc <$> l)) ++ (Completed <$> values rd')) as Hp'
          by by rewrite Hp, fmap_app.
        rewrite fmap_app in Hp'. unfold cargos. cbn. rewrite Hrd.
        trans ((Completed <$> group) ++ (Completed <$> values (ready c)) ++
               rot_cargo rpc ++ (enc_cargo <$> m_encoders mid) ++ (up_cargo <$> m_uploaders mid) ++
               (Completed <$> m_completionCh mid) ++ (Resolving <$> failed) ++ res_cargo rv);
          [solve_Permutation|]. rewrite (assoc_L (++)), Hp'. solve_Permutation.
      - unfold cargos. cbn. rewrite fmap_app. solve_Permutation.
      - by rewrite bind_watchers_completed.
      - intros Hc. by eapply resolving_all. }
    destruct (errors_Is e ErrShutdown); injection Ha as <- <-.
    + eapply Hgo; [apply withOutcome_err|done|by rewrite withOutcome_ucs].
    + eapply flight_perm; [eapply (Hgo ((withOutcome (Some (Sentinel ErrProducerHalted))
        OutcomeManifestFailed <$> group) ++ (abandoned <$> range (ready c))) ∅ {| next := next c;
        ready := ∅; halted := true; haltedNotify := true; holStart := holStart c |} false);
        [|done|]|].
      * apply Forall_app; split; [apply withOutcome_err|]. apply Forall_fmap, Forall_forall. done.
      * rewrite fmap_app, withOutcome_ucs, values_empty, app_nil_r. unfold abandoned.
        rewrite withOutcome_ucs. by rewrite Hrange.
      * cargo_perm.
  - injection Ha as <- <-. specialize (Hok eq_refl).
    eapply (flight_move _ _ _ _ _ _ _ (Completed <$> group)
      (Resolving <$> (withOutcome None OutcomeCommitted <$> group))
      (cargos rpc mid (Back c (CSend failed true closed) rv)));
      [exact F|done|cargo_perm|cargo_perm| |].
    + by rewrite <- bind_watchers_completed, withOutcome_ucs.
    + intros _. by apply Forall_fmap, Forall_fmap.
Qed.

(** The point of commitment: the object is there, and its item is written. *)
Lemma completed_covers (st' : St) items uc sub msgs :
  itemOf uc ∈ items -> uc_putError uc = None -> registered sub msgs (eb_watchers (uc_eb uc)) ->
  completed_ok z config runID sub st' uc -> covers z config (st', items) msgs.
Proof.
  intros Hin Hput [Hids Hreg] (msgs' & [Hids' Hreg'] & Hc).
  assert (msgs' = msgs) as ->.
  { rewrite Hids in Hids'. clear -Hids' Hreg Hreg'. revert msgs' Hids' Hreg'.
    induction msgs as [|m msgs IH]; intros [|m' msgs'] Heq Hreg'; simplify_eq/=; [done|].
    apply Forall_cons in Hreg as [? Hreg], Hreg' as [? Hreg']. f_equal; [congruence|]. by apply IH. }
  destruct (Hc Hput) as (Hmeta & Hloc & payload & v & Hcont & He). by exists (itemOf uc), payload, v.
Qed.

(** The manifest is not a data object. *)
Lemma cas_elsewhere (st st' : St) items err k :
  casEffect config items st st' err ->
  contents st' (objectAt config runID k) = contents st (objectAt config runID k).
Proof. intros [Ho _]. apply Ho, Hpath. Qed.

Lemma cas_delivery f mid c rv group failed k closed (sh : shared St) st' msgs :
  ords_ok (f_rotator f) (f_pc f) mid c (CCas group failed k closed) ->
  flight_ok z config runID msgs (cargos (f_pc f) mid (Back c (CCas group failed k closed) rv))
    (s_watchers sh) (s_submitted sh) (s_store sh) (s_commits sh) ->
  casEffect config (itemOf <$> group) (s_store sh) st' None ->
  Forall (fun uc => resolving_ok z config (s_submitted sh)
            (s_commits sh ++ [(st', itemOf <$> group)]) (withOutcome None OutcomeCommitted uc)) group.
Proof.
  intros O F Heff.
  apply (flight_store _ _ _ _ _ _ _ _ st' _ (s_commits sh)) in F;
    [|done|intros uc _ _; by eapply cas_elsewhere].
  pose proof (fl_cargo _ _ _ _ _ _ _ _ _ F) as Hf. pose proof (oo_group _ _ _ _ _ O) as Hg.
  rewrite Forall_forall in Hf. rewrite Forall_forall in Hg. apply Forall_forall. intros uc Hin.
  destruct (Hg uc Hin) as [_ Hput].
  assert (completed_ok z config runID (s_submitted sh) st' uc) as Hc.
  { apply (Hf (Completed uc)). unfold cargos. cbn. rewrite !elem_of_app.
    do 5 right; left; left. by apply list_elem_of_fmap_2. }
  pose proof Hc as (ms & Hreg & _). exists ms. split; [done|]. intros _.
  exists (st', itemOf <$> group). split; [apply elem_of_app; right; by left|].
  eapply completed_covers; [by apply list_elem_of_fmap_2|done|exact Hreg|done].
Qed.

Lemma drain_delivery rpc mid c rv closed n nx' rd' group failed msgs ws sub (st : St) commits :
  ready_ok (next c) (ready c) ->
  collect n (next c) (ready c) [] [] = (nx', rd', group, failed) ->
  flight_ok z config runID msgs (cargos rpc mid (Back c (CDrain closed) rv)) ws sub st commits ->
  flight_ok z config runID msgs (cargos rpc mid (Back (with_ready nx' rd' c)
    (CCas group failed 0 closed) rv)) ws sub st commits.
Proof.
  intros Hok Hc F. destruct (collect_spec _ _ _ _ _ _ _ _ _ Hok Hc)
    as (t & _ & _ & _ & Hv & Hg & Hf & _). cbn [app] in Hg, Hf. subst group failed.
  eapply (flight_move _ _ _ _ _ _ _ (Completed <$> (rs_uc <$> failures t)) (Resolving <$> failures t)
    (cargos rpc mid (Back (with_ready nx' rd' c) (CCas (successes t) [] 0 closed) rv)));
    [exact F|done| |cargo_perm| |].
  - unfold cargos. cbn. rewrite Hv, <- (partition_perm t) at 1. rewrite !fmap_app. solve_Permutation.
  - by rewrite bind_watchers_completed.
  - intros Hx. eapply resolving_all; [exact Hx|apply failures_err].
Qed.

Lemma drain_pc_cargo group failed closed :
  com_cargo (if (len group =? 0) && (len failed =? 0)
             then if closed : bool then CExited else CRecv
             else if 0 <? len group then CCas group failed 0 closed
             else CSend failed true closed) = com_cargo (CCas group failed 0 closed).
Proof.
  destruct group as [|uc group].
  - rewrite len_nil. cbn. destruct failed as [|rs failed]; [by destruct closed|].
    destruct (Z.eqb_spec (len (rs :: failed)) 0) as [H|_]; [|done]. rewrite len_cons in H.
    len_pose. lia.
  - destruct (Z.eqb_spec (len (uc :: group)) 0) as [H|_]; [rewrite len_cons in H; len_pose; lia|].
    destruct (Z.ltb_spec 0 (len (uc :: group))) as [_|H]; [done|]. rewrite len_cons in H. len_pose. lia.
Qed.

Lemma committer_delivery (s s' : pipeline St) :
  committer_step config range s s' -> ordinals_ok s -> delivery s -> delivery s'.
Proof.
  intros Hst O (Hk & held & Hr & F). destruct Hst; unfold delivery_ok, ordinals_ok in *; unpipe;
    (split; [done|]); exists held; (split; [done|]).
  - destruct (ords_gather _ _ _ _ _ _ _ O) as [_ Hv]. eapply flight_perm; [exact F|].
    unfold cargos. cbn -[gather]. rewrite Hv, fmap_app. cbn. solve_Permutation.
  - eapply (flight_move _ _ _ _ _ _ _ [Completed uc] [Resolving (abandoned uc)]
      (cargos (f_pc f) (Middle es us more) (Back c CRecv rv)));
      [exact F|done|cargo_perm|cargo_perm|done|].
    intros [Hc _]%Forall_cons. constructor; [|constructor]. by eapply resolving_failed.
  - eapply flight_perm; [exact F|]. unfold cargos. cbn. by destruct (halted c).
  - apply (drain_delivery _ _ _ _ _ _ _ _ _ _ _ _ _ _ _ (ords_ready_ok _ _ _ _ _ O) H) in F.
    eapply flight_perm; [exact F|]. unfold cargos. unpipe. by rewrite drain_pc_cargo.
  - eapply afterCas_delivery; [|done|].
    + eapply flight_store; [exact F|set_solver|]. intros uc _ _. by eapply cas_elsewhere.
    + intros _. by eapply cas_delivery.
  - apply (flight_store _ _ _ _ _ _ _ _ st' _ (s_commits sh)) in F;
      [|done|intros uc _ _; by eapply cas_elsewhere].
    destruct (S k <? manifestAttempts config)%nat.
    + injection H0 as <- <-. exact F.
    + by eapply afterCas_delivery.
  - exact F.
  - eapply (afterCas_delivery _ _ c rv group failed 0 closed); [exact F|done|done].
  - eapply flight_perm; [exact F|cargo_perm].
  - eapply flight_perm; [exact F|]. unfold cargos. cbn. by destruct again, closed.
Qed.

Lemma resolver_delivery (s s' : pipeline St) :
  resolver_step s s' -> delivery s -> delivery s'.
Proof.
  intros Hst (Hk & held & Hr & F). destruct Hst; unfold delivery_ok; unpipe.
  - destruct (send_ack_same (ri_flushAck (resolveItem rs)) (ri_err (resolveItem rs))
      (on_watchers ws' sh)) as (_ & -> & _ & -> & -> & ->). unpipe.
    split; [done|]. exists held. split; [done|].
    assert (cargos (f_pc f) mid (Back c pc (ResResolve rs)) ≡ₚ
            [Resolving rs] ++ cargos (f_pc f) mid (Back c pc ResRecv)) as Hp by cargo_perm.
    assert (resolving_ok z config (s_submitted sh) (s_commits sh) rs) as (ms & [Hids Hreg] & Hd).
    { pose proof (fl_cargo _ _ _ _ _ _ _ _ _ F) as Hf. rewrite Hp in Hf.
      by apply Forall_cons in Hf as [? _]. }
    eapply (flight_resolve z config runID [] _ _ [Resolving rs] [Releasing rs]
      (cargos (f_pc f) mid (Back c pc ResRecv)) _ _ _ _ _ _ _ (rs_err rs));
      [exact F|done|exact Hp|cargo_perm|done|by constructor| | |done].
    + cbn. by rewrite app_nil_r.
    + intros He m Hin Hm. destruct (Hd He) as (cm & Hcm & Hdb). exists cm, ms. split_and!; [done| |done].
      cbn in Hin. rewrite app_nil_r, Hids in Hin. apply list_elem_of_fmap in Hin as (m' & Heq & Hin).
      rewrite Forall_forall in Hreg. specialize (Hreg _ Hin). congruence.
  - split; [done|]. exists held. split; [done|].
    eapply (flight_move _ _ _ _ _ _ _ [Releasing rs] [] (cargos (f_pc f) mid (Back c pc ResRecv)));
      [exact F|done|cargo_perm|done|done|constructor].
Qed.

Lemma step_delivery s s' :
  step z config runID range s s' -> ordinals_ok s -> budget_ok s -> delivery s -> delivery s'.
Proof.
  intros [H|H|H|H|H|H|H] O A D; [by eapply append_delivery|by eapply rotator_delivery|
    by eapply encoder_delivery|by eapply uploader_delivery|by eapply committer_delivery|
    by eapply resolver_delivery|].
  destruct H; destruct D as (Hk & held & Hr & F); (split; [done|]); exists held; (split; [done|]);
    try exact F.
  eapply flight_store; [exact F|done|]. intros uc _ _. apply H.
Qed.

Lemma initial_delivery (st : St) : delivery (initial config st).
Proof.
  split; [apply map_Forall_empty|]. exists []. split; [apply newRotator_ok|]. split; cbn.
  - constructor.
  - intros w. rewrite lookup_empty. split; [done|]. by intros ?%elem_of_nil.
  - intros w dw. by rewrite lookup_empty.
  - constructor.
  - constructor.
  - intros w m dw. by rewrite lookup_empty.
Qed.

(** ** The manifest

    As long as what the producer writes is within the limits of the format,
    there is a manifest in the store, and each successful append left one with
    its items at the end. *)

Definition manifests_ok (sh : shared St) : Prop :=
  (exists a, manifest_at (s_store sh) (ManifestPath config) a) /\
  Forall (fun cm => exists a, manifest_at cm.1 (ManifestPath config) (spec_append cm.2 a)) (s_commits sh).

Lemma manifests_store sh st' :
  manifests_ok sh ->
  contents st' (ManifestPath config) = contents (s_store sh) (ManifestPath config) ->
  manifests_ok (on_store st' sh).
Proof. intros [(a & Hwf & Ha) Hc] Heq. split; [|done]. exists a. split; [done|]. cbn. by rewrite Heq. Qed.

Lemma manifests_put sh st' eb :
  manifests_ok sh -> encoded_ok z config runID (s_submitted sh) eb ->
  same_contents (s_store sh) st' \/ writes (s_store sh) st' (eb_location eb) (eb_payload eb) ->
  manifests_ok (on_store st' sh).
Proof.
  intros M (_ & _ & _ & Hloc & _) Heff. apply manifests_store; [done|].
  destruct Heff as [Hs|[_ Hw]]; [apply Hs|]. apply Hw. rewrite Hloc. apply not_eq_sym, Hpath.
Qed.

Lemma manifests_cas sh st' items err :
  casEffect config items (s_store sh) st' err -> fits items -> manifests_ok sh ->
  (exists a, manifest_at st' (ManifestPath config) a) /\
  (err = None -> exists a, manifest_at st' (ManifestPath config) (spec_append items a)).
Proof.
  intros [_ Heff] Hf [[a Ha] _]. specialize (Heff Hf a Ha). destruct err as [e|].
  - split; [|done]. destruct Heff as [Hs|(a' & _ & Ha' & _)]; [|by eexists].
    exists a. by eapply manifest_at_same.
  - destruct Heff as (a' & _ & Ha' & _). split; [|intros _]; by eexists.
Qed.

Lemma step_written s s' :
  step z config runID range s s' -> s_written (p_shared s) `prefix_of` s_written (p_shared s').
Proof.
  intros [H|H|H|H|H|H|H]; destruct H; unpipe; rewrite ?send_ack_written; try done;
    try match goal with
    | H : onMessage _ _ _ _ _ = _ |- _ => by rewrite (onMessage_written _ _ _ _ _ _ _ _ H)
    | H : beginEmit _ _ _ _ = _ |- _ => by rewrite (beginEmit_written _ _ _ _ _ _ H)
    end; by apply prefix_app_r.
Qed.

Lemma same_acks_manifests sh sh' : same_but_acks sh sh' -> manifests_ok sh -> manifests_ok sh'.
Proof. intros (_ & _ & _ & E1 & _ & E2). unfold manifests_ok. by rewrite E1, E2. Qed.

Lemma uploader_manifests s s' :
  uploader_step config s s' -> delivery s -> manifests_ok (p_shared s) -> manifests_ok (p_shared s').
Proof.
  intros Hst (_ & held & _ & F) M. pose proof (fl_cargo _ _ _ _ _ _ _ _ _ F) as Hf.
  destruct Hst; unpipe; try done;
    (assert (encoded_ok z config runID (s_submitted sh) eb) as Heb;
     [rewrite Forall_forall in Hf; apply (Hf (Encoded eb)); unfold cargos; cbn;
      rewrite fmap_app, fmap_cons, !elem_of_app; do 2 right; left; right; by left|]).
  - pose proof (Put_ok (s_store sh) (eb_location eb) (eb_payload eb)) as Hput. rewrite H in Hput.
    destruct u. apply (manifests_put sh st' eb); [done..|]. right. by apply Hput.
  - pose proof (Put_error (s_store sh) (eb_location eb) (eb_payload eb) err) as Hput. rewrite H in Hput.
    apply (manifests_put sh st' eb); [done..|]. by apply Hput.
Qed.

Lemma step_manifests s s' :
  step z config runID range s s' -> delivery s -> Forall fits (s_written (p_shared s')) ->
  manifests_ok (p_shared s) -> manifests_ok (p_shared s').
Proof.
  intros [H|H|H|H|H|H|H] D Hw M; [| | |by eapply uploader_manifests| | |]; destruct H; unpipe; try done;
    try match goal with
    | H : onMessage _ _ _ _ _ = _ |- _ => apply onMessage_spec in H as (_ & _ & H); by eapply same_acks_manifests
    | H : beginEmit _ _ _ _ = _ |- _ => apply beginEmit_spec in H as (_ & H); by eapply same_acks_manifests
    | |- context [send_ack ?a ?e ?sh] => by eapply same_acks_manifests; [apply send_ack_same|]
    end.
  - apply Forall_app in Hw as [_ [Hf _]%Forall_cons].
    destruct (manifests_cas _ _ _ _ H Hf M) as [H1 H2]. split; [done|].
    apply Forall_app; split; [apply M|]. apply Forall_singleton. by apply H2.
  - apply Forall_app in Hw as [_ [Hf _]%Forall_cons].
    destruct (manifests_cas _ _ _ _ H Hf M) as [H1 _]. split; [done|apply M].
  - destruct M as [[a Ha] Hc]. split; [by eapply H|done].
Qed.

(** Everything at once. *)
Record pipeline_ok (s : pipeline St) : Prop := {
  po_ordinals : ordinals_ok s;
  po_budget : budget_ok s;
  po_delivery : delivery s;
}.

Lemma reachable_pipeline st s : reachable z config runID range st s -> pipeline_ok s.
Proof.
  apply rtc_invariant.
  - split; [apply initial_ordinals|apply initial_budget|apply initial_delivery].
  - intros s1 s2 [O A D] Hst.
    split; [by eapply step_ordinals|by eapply step_budget|by eapply step_delivery].
Qed.

Lemma reachable_manifests st s :
  reachable z config runID range st s -> within_format config st (p_shared s) ->
  manifests_ok (p_shared s).
Proof.
  intros Hr [Ha Hw]. revert Hw.
  apply (rtc_invariant _ (fun s => pipeline_ok s /\
    (Forall fits (s_written (p_shared s)) -> manifests_ok (p_shared s))) _ _) in Hr; [by apply Hr| |].
  - split; [split; [apply initial_ordinals|apply initial_budget|apply initial_delivery]|]. by split.
  - intros s1 s2 [[O A D] M] Hst.
    split; [split; [by eapply step_ordinals|by eapply step_budget|by eapply step_delivery]|].
    intros Hw. eapply step_manifests; [done..|]. apply M.
    destruct (step_written _ _ Hst) as [l Hl]. rewrite Hl in Hw. by apply Forall_app in Hw as [? _].
Qed.
End Delivery.
