(* ===== verification/Progress.v ===== *)
(** * Progress of the pipeline

    Nothing gets lost between the stages, and nothing gets stuck. While the
    producer is not halted every ordinal from the committer's cursor to the
    rotator's counter is somewhere upstream, so the committer never waits for
    an ordinal that does not come; a batch in flight always has a goroutine
    that can move it; and when the pipeline has shut down nothing is left in
    it. *)

From S2P Require Import Prelude GoError Bytes Batch Manifest ObjStore Enqueuer Config Budget.
From S2P Require Import Watcher Accumulator Retry Committer Stages Pipeline PipelineInv Durability.
From stdpp Require Import list_tactics list_numbers.

Local Open Scope Z_scope.

(** ** The end of the rotator *)

Definition emit_reason (pc : rotator_pc) : option FlushReason :=
  match pc with
  | REmit reason _ | RWait reason _ _ | RSlot reason _ => Some reason
  | RSend pb => Some (pb_reason pb)
  | RSelect | RExited => None
  end.

(** The rotator has seen the closed channel. *)
Definition ending (pc : rotator_pc) : bool :=
  match pc, emit_reason pc with
  | RExited, _ | _, Some FlushReasonShutdown => true
  | _, _ => false
  end.

Definition emitted (pc : rotator_pc) : bool :=
  match pc with RSend _ | RExited => true | _ => false end.

Record front_done (f : front) : Prop := {
  fd_ending : ending (f_pc f) = true -> f_closed f = true /\ f_appendCh f = [];
  fd_emitted : emitted (f_pc f) = true -> isEmpty (rot_batch (f_rotator f)) = true;
}.

(** ** The end of the committer *)

(** The committer has found the completion channel closed. *)
Definition closing (cpc : committer_pc) : bool :=
  match cpc with
  | CDrain closed | CCas _ _ _ closed | CSleep _ _ _ closed | CSend _ _ closed => closed
  | CExited => true
  | CRecv => false
  end.

(** It drains only while it is not halted, and a halt ends the draining. *)
Definition mode_ok (c : committer) (cpc : committer_pc) : Prop :=
  match cpc with
  | CDrain _ | CCas _ _ _ _ | CSleep _ _ _ _ => halted c = false
  | CSend _ again _ => halted c = negb again
  | CRecv | CExited => True
  end.

Record flow_ok (f : front) (mid : middle) (c : committer) (cpc : committer_pc) : Prop := {
  fw_mode : mode_ok c cpc;
  fw_halted : halted c = true -> ready c = ∅;
  fw_count : halted c = false ->
    len (upstream (f_pc f) mid (ready c)) = rot_ordinal (f_rotator f) - next c;
  fw_recv : cpc = CRecv -> halted c = false -> ready c !! next c = None;
  fw_closing : closing cpc = true -> f_pc f = RExited /\ mid = Middle [] [] [];
  fw_exited : cpc = CExited -> ready c = ∅;
}.

Definition progress_ok {St} (s : pipeline St) : Prop :=
  front_done (p_front s) /\
  flow_ok (p_front s) (p_middle s) (b_committer (p_back s)) (b_pc (p_back s)).

(** ** A full interval *)

(** As many different integers as an interval has are all of them. *)
Lemma full_interval (l : list Z) a b :
  NoDup l -> Forall (fun o => a <= o < b) l -> len l = b - a -> l ≡ₚ seqZ a (b - a).
Proof.
  intros Hnd Hr Hl. apply submseteq_length_Permutation.
  - apply NoDup_submseteq; [done|]. intros o Ho. rewrite Forall_forall in Hr.
    apply elem_of_seqZ. specialize (Hr o Ho). lia.
  - rewrite length_seqZ. unfold len in Hl. lia.
Qed.

(** When all that is upstream has reached the committer, the next ordinal is
    among it, or there is nothing. *)
Lemma flow_all_ready f c cpc :
  ords_ok (f_rotator f) (f_pc f) (Middle [] [] []) c cpc ->
  flow_ok f (Middle [] [] []) c cpc -> rot_ords (f_pc f) = [] -> halted c = false ->
  ready c !! next c = None -> ready c = ∅.
Proof.
  intros O F Hpc Hh Hnone. pose proof (oo_nodup _ _ _ _ _ O) as Hnd.
  pose proof (oo_range _ _ _ _ _ O) as Hr. pose proof (fw_count _ _ _ _ F Hh) as Hc.
  pose proof (full_interval _ _ _ Hnd Hr Hc) as Hp. unfold upstream in *. rewrite Hpc in *.
  cbn in Hp. destruct (decide (ready c = ∅)) as [|Hne]; [done|]. exfalso.
  apply map_choose in Hne as (k & uc & Hk). pose proof (oo_next _ _ _ _ _ O).
  assert (next c ∈ (uc_ordinal <$> values (ready c))) as Hin.
  { rewrite Hp. apply elem_of_seqZ. cbn in Hr. rewrite Forall_forall in Hr.
    specialize (Hr (uc_ordinal uc)). cbn in Hr.
    specialize (Hr ltac:(apply list_elem_of_fmap_2, elem_of_values; eauto)). lia. }
  apply list_elem_of_fmap in Hin as (uc' & Hord & Hin). apply elem_of_values in Hin as [k' Hk'].
  pose proof (oo_keys _ _ _ _ _ O _ _ Hk') as Hkey. cbn in Hkey. congruence.
Qed.

(** ** Moves *)

Lemma flow_move f f' mid mid' c cpc :
  flow_ok f mid c cpc -> rot_ordinal (f_rotator f') = rot_ordinal (f_rotator f) ->
  upstream (f_pc f) mid (ready c) ≡ₚ upstream (f_pc f') mid' (ready c) ->
  (closing cpc = true -> f_pc f' = RExited /\ mid' = Middle [] [] []) ->
  flow_ok f' mid' c cpc.
Proof.
  intros F Hr Hp Hc. split; try apply F; [|done].
  intros Hh. rewrite Hr, <- (fw_count _ _ _ _ F Hh). unfold len. by rewrite Hp.
Qed.

(** The front moves without emitting a batch. *)
Lemma flow_front f f' mid c cpc :
  flow_ok f mid c cpc -> rot_ordinal (f_rotator f') = rot_ordinal (f_rotator f) ->
  rot_ords (f_pc f') = rot_ords (f_pc f) ->
  (f_pc f = RExited -> f_pc f' = RExited) -> flow_ok f' mid c cpc.
Proof.
  intros F Hr Hp Hx. eapply flow_move; [exact F|done|unfold upstream; by rewrite Hp|].
  intros [Hc ?]%(fw_closing _ _ _ _ F). auto.
Qed.

(** Upstream of a busy stage the committer is not closing. *)
Lemma flow_middle f mid mid' c cpc :
  flow_ok f mid c cpc -> mid <> Middle [] [] [] ->
  upstream (f_pc f) mid (ready c) ≡ₚ upstream (f_pc f) mid' (ready c) -> flow_ok f mid' c cpc.
Proof.
  intros F Hne Hp. eapply flow_move; [exact F|done|done|].
  by intros [_ ?]%(fw_closing _ _ _ _ F).
Qed.

Lemma beginEmit_done {St} cl cs ch cd r reason ack (sh sh' : shared St) pc' :
  beginEmit r reason ack sh = (pc', sh') ->
  (reason = FlushReasonShutdown -> cd = true /\ ch = []) ->
  front_done (Front cl cs ch cd r pc').
Proof.
  unfold beginEmit. destruct (isEmpty _) eqn:He; intros [= <- <-] Hs.
  - split; [|done]. destruct reason; cbn; intros; by try apply Hs.
  - split; [|done]. destruct reason; cbn; intros; by try apply Hs.
Qed.

Lemma onMessage_done {St} config cl cs ch cd now r m (sh sh' : shared St) r' pc' :
  onMessage config now r m sh = (r', (pc', sh')) -> front_done (Front cl cs ch cd r' pc').
Proof.
  unfold onMessage. intros [= <- Hb]. destruct (sizeReached _ _).
  - by eapply beginEmit_done.
  - by injection Hb as <- <-.
Qed.

Lemma beginEmit_not_exited {St} r reason ack (sh sh' : shared St) pc' :
  beginEmit r reason ack sh = (pc', sh') -> rot_ords pc' = [].
Proof. intros [Hi _]%beginEmit_spec. by apply rot_idle_ords. Qed.

(** ** The invariant is kept *)

Section Progress.
Context {St : Type} {HO : ObjectStore St} {HC : StoreContents St}.
Context (z : zstd_lib) (config : ProducerConfig) (runID : string).
Context (range : readyMap -> list uploadCompletion).
Implicit Types s : pipeline St.

Lemma append_done s s' : append_step config s s' -> front_done (p_front s) -> front_done (p_front s').
Proof.
  intros Hst [De Dm]. destruct Hst; unpipe; try by split.
  - apply chan_send_Ret in H as (-> & _ & ->). split; [|done]. cbn. intros [? _]%De. done.
  - by eapply onMessage_done.
Qed.

Lemma afterEmit_done cl cs ch cd r reason :
  isEmpty (rot_batch r) = true -> (reason = FlushReasonShutdown -> cd = true /\ ch = []) ->
  front_done (Front cl cs ch cd r (afterEmit reason)).
Proof. intros He Hs. split; [|done]. destruct reason; cbn; intros; by try apply Hs. Qed.

Lemma rotator_done s s' :
  rotator_step config s s' -> front_done (p_front s) -> front_done (p_front s').
Proof.
  intros Hst [De Dm]. destruct Hst; unpipe; try by split.
  - by eapply onMessage_done.
  - by eapply beginEmit_done.
  - by eapply beginEmit_done.
  - by eapply beginEmit_done.
  - match goal with H : emitDropped _ = _ |- _ => injection H as <- <- <- end.
    apply afterEmit_done; [done|]. intros ->. by apply De.
  - match goal with H : emitBatch _ _ _ _ = _ |- _ => injection H as <- <- <- end.
    split; [|done]. cbn. apply De.
  - apply afterEmit_done; [by apply Dm|]. intros Hr. apply De. cbn. by rewrite Hr.
Qed.

Ltac flow_upstream :=
  unfold upstream; cbn; rewrite ?fmap_app, ?fmap_cons, ?fmap_nil; cbn; solve_Permutation.

Lemma not_idle_middle_encoders es1 e es2 us cc : Middle (es1 ++ e :: es2) us cc <> Middle [] [] [].
Proof. by destruct es1. Qed.

Lemma not_idle_middle_uploaders es us1 u us2 cc : Middle es (us1 ++ u :: us2) cc <> Middle [] [] [].
Proof. by destruct us1. Qed.

Abbreviation flow s :=
  (flow_ok (p_front s) (p_middle s) (b_committer (p_back s)) (b_pc (p_back s))).

Lemma append_flow s s' : append_step config s s' -> flow s -> flow s'.
Proof.
  intros Hst F. destruct Hst; unpipe; try exact F; try by eapply flow_front; [exact F|..].
  match goal with H : onMessage _ _ _ _ _ = _ |- _ => apply onMessage_spec in H as (-> & Hi & _) end.
  apply rot_idle_ords in Hi. by eapply flow_front; [exact F|..].
Qed.

Lemma rotator_flow s s' : rotator_step config s s' -> ordinals_ok s -> flow s -> flow s'.
Proof.
  intros Hst O F. destruct Hst; unpipe; try exact F; try by eapply flow_front; [exact F|..].
  all: try match goal with
    | H : onMessage _ _ _ _ _ = _ |- _ => apply onMessage_spec in H as (-> & Hi & _)
    | H : beginEmit _ _ _ _ = _ |- _ => apply beginEmit_spec in H as [Hi _]
    | H : emitDropped _ = _ |- context [afterEmit ?reason] =>
        pose proof (afterEmit_idle reason) as Hi; injection H as <- <- <-
    end; try (apply rot_idle_ords in Hi; by eapply flow_front; [exact F|..]).
  - match goal with H : emitBatch _ _ _ _ = _ |- _ => injection H as <- <- <- end.
    pose proof (fw_count _ _ _ _ F) as Hc. cbn in Hc.
    split; try apply F; cbn.
    + intros Hh. unfold upstream in *. cbn in *. rewrite len_cons, (Hc Hh).
      pose proof (oo_next _ _ _ _ _ O). cbn in *. rewrite uint64_id; [lia|]. unfold is_uint64. lia.
    + intros Hcl%(fw_closing _ _ _ _ F). by destruct Hcl.
  - pose proof (rot_idle_ords _ (afterEmit_idle (pb_reason pb))) as Hi.
    eapply flow_move; [exact F|done| |].
    + unfold upstream. cbn. rewrite Hi. done.
    + intros [? _]%(fw_closing _ _ _ _ F). done.
Qed.

Lemma encoder_flow s s' : encoder_step z config runID s s' -> flow s -> flow s'.
Proof.
  intros Hst F. destruct Hst; unpipe;
    (eapply flow_middle; [exact F|apply not_idle_middle_encoders|]); [|flow_upstream..].
  assert (enc_ord match res with inl eb => EncDone eb | inr uc => EncFailed uc end = pb_ordinal pb)
    as Hord by (unfold encodeOne in *; destruct (EncodeBatch _ _ _); simplify_eq/=; done).
  unfold upstream. cbn. rewrite !fmap_app, !fmap_cons, Hord. done.
Qed.

Lemma uploader_flow s s' : uploader_step config s s' -> flow s -> flow s'.
Proof.
  intros Hst F. destruct Hst; unpipe;
    (eapply flow_middle; [exact F|apply not_idle_middle_uploaders|]);
    try destruct (S k <? uploadAttempts config)%nat; flow_upstream.
Qed.

(** Draining takes the ordinals it passes out of the map. *)
Lemma drain_flow f mid c closed nx' rd' group failed :
  ords_ok (f_rotator f) (f_pc f) mid c (CDrain closed) ->
  flow_ok f mid c (CDrain closed) ->
  collect (Z.to_nat (batchSize config)) (next c) (ready c) [] [] = (nx', rd', group, failed) ->
  flow_ok f mid (with_ready nx' rd' c)
    (if (len group =? 0) && (len failed =? 0)
     then if closed then CExited else CRecv
     else if 0 <? len group then CCas group failed 0 closed
     else CSend failed true closed).
Proof.
  intros O F Hc. pose proof (fw_mode _ _ _ _ F) as Hh. cbn in Hh.
  pose proof (ords_ready_ok _ _ _ _ _ O) as Hok.
  destruct (collect_spec _ _ _ _ _ _ _ _ _ Hok Hc) as (t & Hok1 & Hnx & Hs & Hv & Hg & Hf & Hstop).
  cbn [app] in Hg, Hf.
  assert (len (upstream (f_pc f) mid rd') = rot_ordinal (f_rotator f) - nx') as Hcount.
  { pose proof (fw_count _ _ _ _ F Hh) as Hcnt. unfold upstream, len in *.
    rewrite Hv, fmap_app in Hcnt. rewrite !length_app, !length_fmap in *. lia. }
  assert (closed = true -> f_pc f = RExited /\ mid = Middle [] [] []) as Hcl by apply F.
  destruct (Z.eqb_spec (len group) 0) as [Hg0|Hg0]; cbn [andb].
  1: destruct (Z.eqb_spec (len failed) 0) as [Hf0|Hf0].
  - subst group failed.
    destruct (collect_nothing t _ Hg0 Hf0 (batchSize_pos config)) as [-> Hl].
    specialize (Hstop Hl). destruct closed.
    + destruct (Hcl eq_refl) as [Hpc ->]. split; cbn; try done; [congruence|]. intros _.
      apply (flow_all_ready f (with_ready nx' rd' c) CRecv); cbn; try done.
      * eapply drain_ords; [exact O|exact Hc|by right].
      * split; cbn; try done; congruence.
      * by rewrite Hpc.
    + split; cbn; try done; congruence.
  - destruct (Z.ltb_spec 0 (len group)); [lia|]. split; cbn; try done; congruence.
  - destruct (Z.ltb_spec 0 (len group)); [|len_pose; lia]. split; cbn; try done; congruence.
Qed.

Lemma afterCas_flow f mid c group failed k closed err c' pc' :
  flow_ok f mid c (CCas group failed k closed) ->
  afterCas range c group failed err closed = (c', pc') -> flow_ok f mid c' pc'.
Proof.
  intros F Ha. pose proof (fw_mode _ _ _ _ F) as Hh. cbn in Hh.
  assert (flow_ok f mid c (CCas group failed k closed) -> forall out, flow_ok f mid c (CSend out true closed))
    as Hgo by (intros [] out; by split).
  unfold afterCas in Ha. destruct err as [e|]; [|injection Ha as <- <-; by apply Hgo].
  destruct (errors_Is e ErrShutdown); injection Ha as <- <-; [by apply Hgo|].
  split; cbn; try done. apply F.
Qed.

Lemma committer_flow s s' : committer_step config range s s' -> ordinals_ok s -> flow s -> flow s'.
Proof.
  intros Hst O F. destruct Hst; unfold ordinals_ok in O; unpipe.
  - destruct (ords_gather _ _ _ _ _ _ _ O) as [_ Hv].
    pose proof (fw_count _ _ _ _ F H) as Hc. split; try done; cbn -[gather]; try congruence.
    + intros _. rewrite <- Hc. unfold upstream, len. cbn -[gather].
      rewrite Hv, fmap_app, fmap_cons, !length_app. cbn. rewrite !length_app. lia.
    + intros (? & -> & ->)%H0. done.
  - split; cbn; try done; try congruence. apply F.
  - destruct F as [Fm Fh Fc Fr _ _]. unpipe. destruct (halted c) eqn:Hh; split; cbn; try done; auto.
    all: congruence.
  - by apply drain_flow.
  - by eapply afterCas_flow.
  - destruct (S k <? manifestAttempts config)%nat; [|by eapply afterCas_flow].
    injection H0 as <- <-. destruct F. by split.
  - destruct F. by split.
  - eapply (afterCas_flow _ _ c group failed 0); [|done]. destruct F. by split.
  - destruct F. by split.
  - destruct F as [Fm Fh Fc Fr Fcl Fx]. cbn in Fm, Fcl.
    destruct again; [by split|]. destruct closed; split; cbn; try done; auto.
    intros _ Hf. cbn in Fm. congruence.
Qed.

Lemma step_progress s s' :
  step z config runID range s s' -> ordinals_ok s -> progress_ok s -> progress_ok s'.
Proof.
  intros [H|H|H|H|H|H|H] O [D F].
  - split; [by eapply append_done|by eapply append_flow].
  - split; [by eapply rotator_done|by eapply rotator_flow].
  - split; [by destruct H|by eapply encoder_flow].
  - split; [by destruct H|by eapply uploader_flow].
  - split; [by destruct H|by eapply committer_flow].
  - by destruct H.
  - destruct H; try done. split; unpipe; [|by eapply flow_front; [exact F|..]].
    destruct D as [De Dm]. split; [|done]. intros He. by destruct (De He).
Qed.

Lemma initial_progress (st : St) : progress_ok (initial config st).
Proof. by split; split. Qed.

Lemma reachable_progress st s : reachable z config runID range st s -> progress_ok s.
Proof.
  intros Hr. apply (rtc_invariant _ (fun s => ordinals_ok s /\ progress_ok s) _ _) in Hr;
    [by apply Hr|split; [apply initial_ordinals|apply initial_progress]|].
  intros s1 s2 [O P] Hst. split; [by eapply step_ordinals|by eapply step_progress].
Qed.
End Progress.

(** ** No wake-up is lost *)

Lemma locked_keeps o b b' r :
  op_ok o -> capacity_ok b -> channels_ok b -> locked o b = (b', r) -> keeps_waiters b b'.
Proof.
  intros Ho Hc Hh Hl. destruct (locked_ok o b Ho Hc Hh) as [(_ & _ & ?) _]. by rewrite Hl in *.
Qed.

Lemma release_keeps bytes batches b b' :
  0 <= bytes -> 0 <= batches -> capacity_ok b -> channels_ok b ->
  release bytes batches b = Ret b' -> keeps_waiters b b'.
Proof.
  intros Hb Hn Hc Hh Hr. destruct (release_ok bytes batches b Hb Hn Hc Hh)
    as (b1 & Heq & _ & _ & ? & _). rewrite Heq in Hr. by injection Hr as <-.
Qed.

Lemma addReservation_keeps extra b b' :
  capacity_ok b -> channels_ok b -> addReservation extra b = Ret b' -> keeps_waiters b b'.
Proof.
  intros Hc Hh Ha. destruct (addReservation_ok extra b Hc Hh) as (b1 & Heq & (_ & _ & ?) & _).
  rewrite Heq in Ha. by injection Ha as <-.
Qed.

Lemma afterEmit_not_waiting reason r a ch : afterEmit reason <> RWait r a ch.
Proof. by destruct reason. Qed.

Lemma beginEmit_not_waiting {St} r reason ack (sh sh' : shared St) pc' q a ch :
  beginEmit r reason ack sh = (pc', sh') -> pc' <> RWait q a ch.
Proof.
  unfold beginEmit. destruct (isEmpty _); intros [= <- <-]; [apply afterEmit_not_waiting|done].
Qed.

Lemma onMessage_not_waiting {St} config now r m (sh sh' : shared St) r' pc' q a ch :
  onMessage config now r m sh = (r', (pc', sh')) -> pc' <> RWait q a ch.
Proof.
  unfold onMessage. intros [= <- Hb]. destruct (sizeReached _ _).
  - by eapply beginEmit_not_waiting.
  - by injection Hb as <- <-.
Qed.

(** The rotator waits for a slot as a caller of the budget does. *)
Definition wait_ok {St} (s : pipeline St) : Prop :=
  match f_pc (p_front s) with
  | RWait _ _ ch => caller_ok (s_budget (p_shared s)) (Waiting OpAcquire ch)
  | _ => True
  end.

Section Waiting.
Context {St : Type} {HO : ObjectStore St} {HC : StoreContents St}.
Context (z : zstd_lib) (config : ProducerConfig) (runID : string).
Context (range : readyMap -> list uploadCompletion).
Implicit Types s : pipeline St.

(** Everybody who uses the budget keeps its waiters. *)
Lemma step_keeps s s' :
  step z config runID range s s' -> budget_ok s ->
  keeps_waiters (s_budget (p_shared s)) (s_budget (p_shared s')).
Proof.
  intros [H|H|H|H|H|H|H] A; pose proof (accounts_nonneg _ _ _ _ A) as (_ & _ & N3 & _);
    destruct A as [Hcap Hch [_ Fs _ _] Hcost _ _]; destruct H; unpipe; try reflexivity;
    repeat match goal with
    | H : onMessage _ _ _ _ _ = _ |- _ => apply onMessage_spec in H as (_ & _ & -> & _)
    | H : beginEmit _ _ _ _ = _ |- _ => apply beginEmit_spec in H as (_ & -> & _)
    | |- context [send_ack ?a ?e ?sh] => destruct (send_ack_same a e sh) as (-> & _); unpipe
    end; try reflexivity.
  - by eapply (locked_keeps (OpReserve _)); [apply appendByteCost_nonneg|..].
  - by eapply (locked_keeps (OpReserve _)); [apply appendByteCost_nonneg|..].
  - apply Forall_app in Fs as [_ [Fs _]%Forall_cons]. eapply release_keeps; [| |done..]; [by apply msg_ok_cost|lia].
  - by eapply (locked_keeps OpAcquire).
  - by eapply (locked_keeps OpAcquire).
  - match goal with H : emitDropped _ = _ |- _ => injection H as <- <- <- end.
    eapply release_keeps; [| |done..]; [exact N3|lia].
  - by eapply addReservation_keeps.
  - eapply release_keeps; [| |done..]; [|lia]. unfold flight_costs in Hcost. unpipe.
    rewrite !Forall_app in Hcost. destruct Hcost as (_ & _ & _ & _ & _ & _ & Hc).
    by apply Forall_cons in Hc as [? _].
  - by eapply (locked_keeps OpDrain).
Qed.

Lemma step_wait s s' :
  step z config runID range s s' -> budget_ok s -> wait_ok s -> wait_ok s'.
Proof.
  intros Hst A W. pose proof (step_keeps s s' Hst A) as Hk. unfold wait_ok in *.
  destruct (f_pc (p_front s')) as [|reason ack|reason ack ch|reason ack|pb|] eqn:Hpc; try done.
  cut (f_pc (p_front s) = RWait reason ack ch \/
       caller_ok (s_budget (p_shared s')) (Waiting OpAcquire ch)).
  { intros [Heq|?]; [|done]. rewrite Heq in W. by eapply caller_ok_keeps. }
  destruct A as [Hcap Hch _ _ _ _].
  destruct Hst as [H|H|H|H|H|H|H]; destruct H; unpipe; try (by left); try done;
    try (exfalso; revert Hpc; first [by eapply onMessage_not_waiting|by eapply beginEmit_not_waiting
                                    |apply afterEmit_not_waiting]).
  - right. injection Hpc as <- <- <-. destruct (locked_ok OpAcquire (s_budget sh) I Hcap Hch) as [_ Hw].
    cbn [locked] in Hw. rewrite H in Hw.
    specialize (Hw _ eq_refl). split; [done|by right].
Qed.

Lemma reachable_wait st s :
  (forall m, range m ≡ₚ values m) -> reachable z config runID range st s -> wait_ok s.
Proof.
  intros Hrange Hr.
  apply (rtc_invariant _ (fun s => ordinals_ok s /\ budget_ok s /\ wait_ok s) _ _) in Hr;
    [by apply Hr|split_and!; [apply initial_ordinals|apply initial_budget|done]|].
  intros s1 s2 (O & A & W) Hst.
  split_and!; [by eapply step_ordinals|by eapply step_budget|by eapply step_wait].
Qed.
End Waiting.
