(* ===== verification/Producer.v ===== *)
(** * The producer's guarantees

    What holds in every state that the pipeline can reach, in the terms of a
    user of the producer: a watcher that reports success, the budget, the
    drained producer, and the goroutines that never get stuck or panic. *)

From S2P Require Import Prelude GoError Bytes Batch Manifest ObjStore Enqueuer Config Budget.
From S2P Require Import Watcher Accumulator Retry Committer Stages Pipeline PipelineInv Durability Progress.
From stdpp Require Import list_tactics list_numbers sorting.

Local Open Scope Z_scope.

Lemma length_flight pc mid bk : length (flight_costs pc mid bk) = length (cargos pc mid bk).
Proof.
  unfold flight_costs, cargos. rewrite !length_app, !length_fmap.
  assert (length (rot_costs pc) = length (rot_cargo pc)) as -> by by destruct pc.
  assert (length (res_costs (b_resolver bk)) = length (res_cargo (b_resolver bk))) as ->
    by by destruct (b_resolver bk).
  assert (length (com_costs (b_pc bk)) = length (com_cargo (b_pc bk))) as ->
    by (destruct (b_pc bk); cbn; rewrite ?length_app, ?length_fmap; done).
  done.
Qed.

Section Guarantees.
Context {St : Type} {HO : ObjectStore St} {HC : StoreContents St} {HL : StoreLaws St}.
Context (z : zstd_lib) (config : ProducerConfig) (runID : string).
Context (range : readyMap -> list uploadCompletion).
Implicit Types s : pipeline St.

(** ** Durable messages can be read back *)

Lemma metadata_from_payloads msgs : forall start,
  Payload <$> metadata_from start msgs = msg_metadata <$> msgs.
Proof. induction msgs as [|m msgs IH]; intros start; [done|]. cbn. f_equal. apply IH. Qed.

(** An appended item is an entry of the manifest. *)
Lemma sequence_from_elem item items : forall n,
  item ∈ items -> exists e, e ∈ sequence_from n items /\
    Location e = item_Location item /\ Metadata e = item_Metadata item.
Proof.
  induction items as [|i items IH]; intros n Hin; [by apply elem_of_nil in Hin|]. cbn.
  apply elem_of_cons in Hin as [->|Hin].
  - eexists. split; [by left|done].
  - destruct (IH (uint64 (n + 1)) Hin) as (e & He & ?). exists e. split; [by right|done].
Qed.

Lemma covers_readable (cm : St * list enqueueItem) a msgs `{!ZstdLaws z} :
  covers z config cm msgs -> manifest_at cm.1 (ManifestPath config) (spec_append cm.2 a) ->
  zstd_NewReader z = None ->
  exists data v es e payload v', contents cm.1 (ManifestPath config) = Some (data, v) /\
    DecodeManifestEntries data = Ret es /\ e ∈ es /\
    contents cm.1 (Location e) = Some (payload, v') /\
    Payload <$> Metadata e = msg_metadata <$> msgs /\
    (len (all_entries msgs) <= MaxUint32 ->
     DecodeBatch z payload = Ret (all_entries msgs) /\
     split_by (all_entries msgs) (Metadata e) = msg_entries <$> msgs).
Proof.
  intros (item & payload & v' & Hin & Hm & Hc & He) Hat Hr.
  assert (cm.2 <> []) as Hne by (intros E; rewrite E in Hin; by apply elem_of_nil in Hin).
  destruct (appended_readable _ _ _ _ Hne Hat) as (data & v & Hd & Hdec).
  destruct (sequence_from_elem _ _ (ms_next a) Hin) as (e & Hine & Hle & Hme).
  exists data, v, (ms_entries a ++ sequence_from (ms_next a) cm.2), e, payload, v'.
  rewrite Hme, Hm, Hle. split_and!; try done.
  - apply elem_of_app. by right.
  - apply metadata_from_payloads.
  - intros Hl. split; [|by apply (split_by_metadata_from msgs [])].
    rewrite (DecodeBatch_encoded z _ _ _ He Hr), uint32_id by (unfold is_uint32; len_pose; lia).
    unfold len. by rewrite Nat2Z.id, firstn_all.
Qed.

(** ** The caps are those configured *)

Lemma budget_caps_locked o b b' r :
  locked o b = (b', r) -> maxBytes b' = maxBytes b /\ maxBatches b' = maxBatches b.
Proof.
  destruct o as [n| |]; cbn; unfold reserveBytes_locked, acquireBatchSlot_locked,
    waitDrained_locked, ensureWaiterLocked.
  - destruct (_ || _); [by intros [= <- _]|]. by destruct (waiter b); intros [= <- _].
  - destruct (_ <? _); [by intros [= <- _]|]. by destruct (waiter b); intros [= <- _].
  - destruct (_ =? _); [by intros [= <- _]|]. by destruct (drainCh b); intros [= <- _].
Qed.

Lemma wakeWaiters_caps b b' :
  wakeWaiters b = Ret b' -> maxBytes b' = maxBytes b /\ maxBatches b' = maxBatches b.
Proof.
  unfold wakeWaiters, close_chan. destruct (waiter b); [|by intros [= <-]].
  destruct (bool_decide _); [done|]. by intros [= <-].
Qed.

Lemma release_caps bytes batches b b' :
  release bytes batches b = Ret b' -> maxBytes b' = maxBytes b /\ maxBatches b' = maxBatches b.
Proof.
  rewrite release_unfold. intros (b1 & H1%wakeWaiters_caps & H)%bind_Ret_inv.
  unfold close_chan in H. destruct (drainCh b1); [|by injection H as <-].
  destruct (_ =? _); [|by injection H as <-].
  destruct (bool_decide _); [done|]. by injection H as <-.
Qed.

Lemma addReservation_caps extra b b' :
  addReservation extra b = Ret b' -> maxBytes b' = maxBytes b /\ maxBatches b' = maxBatches b.
Proof. unfold addReservation. intros H%wakeWaiters_caps. by destruct (_ <? _) in H. Qed.

Definition caps_ok s : Prop :=
  maxBytes (s_budget (p_shared s)) = Z.max 1 (MaxInFlightBytes config) /\
  maxBatches (s_budget (p_shared s)) = Z.max 1 (MaxInFlightBatches config).

Lemma pipeline_step_caps s s' : step z config runID range s s' -> caps_ok s -> caps_ok s'.
Proof.
  assert (forall b b', maxBytes b' = maxBytes b /\ maxBatches b' = maxBatches b ->
    (maxBytes b = Z.max 1 (MaxInFlightBytes config) /\
     maxBatches b = Z.max 1 (MaxInFlightBatches config)) ->
    maxBytes b' = Z.max 1 (MaxInFlightBytes config) /\
    maxBatches b' = Z.max 1 (MaxInFlightBatches config)) as Hgo by (intros b b' [-> ->]; done).
  unfold caps_ok. intros [H|H|H|H|H|H|H] C; destruct H; unpipe; try exact C;
    try (match goal with
         | H : onMessage _ _ _ _ _ = _ |- _ => apply onMessage_spec in H as (_ & _ & -> & _)
         | H : beginEmit _ _ _ _ = _ |- _ => apply beginEmit_spec in H as (_ & -> & _)
         | |- context [send_ack ?a ?e ?sh] => destruct (send_ack_same a e sh) as (-> & _); unpipe
         end; try exact C);
    (eapply Hgo; [|exact C]);
    first [by eapply (budget_caps_locked (OpReserve _)) | by eapply (budget_caps_locked OpAcquire)
          | by eapply (budget_caps_locked OpDrain) | by eapply release_caps | by eapply addReservation_caps].
Qed.

Lemma pipeline_reachable_caps st s : reachable z config runID range st s -> caps_ok s.
Proof.
  apply rtc_invariant; [|intros a b ? ?; by eapply pipeline_step_caps].
  unfold caps_ok, initial. cbn. split; case_test; lia.
Qed.

(** ** What the states tell *)

Context (Hrange : forall m, range m ≡ₚ values m).
Context (Hpath : forall k, objectAt config runID k <> ManifestPath config).

(** A pipeline without batches, with nothing on its way to the rotator. *)
Lemma quiet_watchers s :
  pipeline_ok z config runID s -> f_appendCh (p_front s) = [] ->
  isEmpty (rot_batch (f_rotator (p_front s))) = true -> batchesUsed (s_budget (p_shared s)) = 0 ->
  bytesUsed (s_budget (p_shared s)) = sumZ (msg_byteCost <$> f_callers (p_front s)) /\
  map_Forall (fun w dw => w ∈ (msg_watcher <$> f_callers (p_front s)) \/ done dw = true)
    (s_watchers (p_shared s)).
Proof.
  intros [_ A (_ & held & Hr & F)] Hch He Hb. pose proof A as [_ _ _ _ Hby Hba].
  rewrite (holds_isEmpty _ held) in He by apply Hr. apply bool_decide_eq_true in He as ->.
  rewrite Hch in *. cbn [app] in *. rewrite app_nil_r in F.
  assert (flight_costs (f_pc (p_front s)) (p_middle s) (p_back s) = []) as Hf.
  { apply len_zero_nil. assert (0 <= slot_held (f_pc (p_front s))) by by destruct (f_pc _).
    len_pose. lia. }
  assert (cargos (f_pc (p_front s)) (p_middle s) (p_back s) = []) as Hc.
  { apply length_zero_iff_nil. by rewrite <- length_flight, Hf. }
  rewrite Hf in Hby. rewrite Hc in F. split.
  - rewrite Hby, (holds_cost _ _ (ro_holds _ _ Hr)). cbn. rewrite !sumZ_nil. lia.
  - intros w dw Hw. destruct (fl_known _ _ _ _ _ _ _ _ _ F w dw Hw) as [_ [->|[err ->]]]; [|by right].
    left. apply (fl_open _ _ _ _ _ _ _ _ _ F) in Hw. cbn in Hw. by rewrite app_nil_r in Hw.
Qed.

(** ** A batch can always move *)

(** A step of one of the producer's own goroutines behind [Append]. *)
Definition internal s s' : Prop :=
  rotator_step config s s' \/ encoder_step z config runID s s' \/ uploader_step config s s' \/
  committer_step config range s s' \/ resolver_step s s'.

(** The resolver never panics. *)
Lemma resolver_resolve s rs :
  pipeline_ok z config runID s -> b_resolver (p_back s) = ResResolve rs ->
  (exists ws', resolveWatchers (s_watchers (p_shared s)) (ri_watchers (resolveItem rs))
                 (ri_err (resolveItem rs)) = Ret ws' /\
    forall w, ws' !! w = if decide (w ∈ ri_watchers (resolveItem rs))
                         then Some {| result := rs_err rs; done := true; ch_closed := true |}
                         else s_watchers (p_shared s) !! w) /\
  Forall (fun w => s_watchers (p_shared s) !! w = Some newDurabilityWatcher)
    (ri_watchers (resolveItem rs)).
Proof.
  intros [_ _ (_ & held & _ & F)] Hrv. destruct s as [f mid [c pc rv] sh]. unpipe. subst rv.
  assert (cargos (f_pc f) mid (Back c pc (ResResolve rs)) ≡ₚ
          Resolving rs :: cargos (f_pc f) mid (Back c pc ResRecv)) as Hp
    by (unfold cargos; cbn; solve_Permutation).
  pose proof (fl_nodup _ _ _ _ _ _ _ _ _ F) as Hnd. pose proof (fl_open _ _ _ _ _ _ _ _ _ F) as Ho.
  assert (Forall (fun w => s_watchers sh !! w = Some newDurabilityWatcher)
            (ri_watchers (resolveItem rs))) as Hopen.
  { apply Forall_forall. intros w Hw. apply Ho. rewrite Hp. cbn. rewrite !elem_of_app. auto. }
  split; [|done]. apply resolveWatchers_open; [|done].
  rewrite Hp in Hnd. cbn in Hnd. apply NoDup_app in Hnd as (_ & _ & Hnd).
  by apply NoDup_app in Hnd as [? _].
Qed.

Lemma resolver_release s rs :
  pipeline_ok z config runID s -> b_resolver (p_back s) = ResRelease rs ->
  exists b', release (ri_byteCost (resolveItem rs)) 1 (s_budget (p_shared s)) = Ret b' /\
    bytesUsed b' = bytesUsed (s_budget (p_shared s)) - ri_byteCost (resolveItem rs) /\
    batchesUsed b' = batchesUsed (s_budget (p_shared s)) - 1.
Proof.
  intros [_ A _] Hrv. destruct s as [f mid [c pc rv] sh]. unpipe. subst rv.
  pose proof (accounts_nonneg _ _ _ _ A) as (N1 & N2 & N3 & _).
  destruct A as [Hcap Hch _ Hcost Hby Hba]. unpipe.
  change (ri_byteCost (resolveItem rs)) with (rs_cost rs).
  assert (flight_costs (f_pc f) mid (Back c pc (ResRelease rs)) ≡ₚ
          rs_cost rs :: flight_costs (f_pc f) mid (Back c pc ResRecv)) as Hp
    by (unfold flight_costs; cbn; solve_Permutation).
  unfold len in Hba. rewrite Hp in Hcost, Hby, Hba. apply Forall_cons in Hcost as [Hc Hcost].
  pose proof (sumZ_nonneg _ Hcost). rewrite sumZ_cons in Hby. cbn [length] in Hba.
  assert (0 <= slot_held (f_pc f)) by by destruct (f_pc f).
  destruct (release_ok (rs_cost rs) 1 (s_budget sh)) as (b' & Hb & _ & _ & _ & _ & H1 & H2 & _);
    [done|lia|done|done|]. exists b'. split_and!; [done|lia|lia].
Qed.

Lemma resolver_moves s :
  pipeline_ok z config runID s -> b_resolver (p_back s) <> ResRecv -> exists s', resolver_step s s'.
Proof.
  intros P Hrv. pose proof (resolver_resolve s) as H1. pose proof (resolver_release s) as H2.
  destruct s as [f mid [c pc rv] sh]. unpipe. destruct rv as [|rs|rs]; [done| |].
  - destruct (H1 rs P eq_refl) as [(ws' & ? & _) _]. eexists. by eapply step_resolve.
  - destruct (H2 rs P eq_refl) as (b' & ? & _). eexists. by eapply step_release.
Qed.

(** The committer moves unless it waits for a completion. *)
Lemma committer_moves s :
  b_resolver (p_back s) = ResRecv -> b_pc (p_back s) <> CRecv -> b_pc (p_back s) <> CExited ->
  exists s', committer_step config range s s'.
Proof.
  destruct s as [f mid [c pc rv] sh]. unpipe. intros -> Hr Hx.
  destruct pc as [|closed|g fl k closed|g fl k closed|[|rs out] again closed|]; try done.
  - destruct (collect (Z.to_nat (batchSize config)) (next c) (ready c) [] []) as [[[nx rd] g] fl] eqn:E.
    eexists. by eapply step_drain.
  - destruct (if (S k <? manifestAttempts config)%nat then (c, CSleep g fl (S k) closed)
              else afterCas range c g fl (Some (Sentinel ErrShutdown)) closed) as [c' pc'] eqn:E.
    eexists. eapply (step_cas_fail _ _ _ _ _ _ _ _ _ _ _ (s_store sh) (Sentinel ErrShutdown));
      [by eapply unchanged_effect|exact E].
  - eexists. apply step_cas_again.
  - eexists. apply step_handed.
  - eexists. apply step_hand.
Qed.
(** Uploaders and encoders move when the channel behind them is empty. *)
Lemma uploaders_move s :
  m_uploaders (p_middle s) <> [] -> m_completionCh (p_middle s) = [] ->
  exists s', uploader_step config s s'.
Proof.
  destruct s as [f [es us cc] bk sh]. unpipe. intros Hus ->.
  destruct us as [|u us]; [done|]. destruct u as [eb k|eb k|uc].
  - destruct (Put (s_store sh) (eb_location eb) (eb_payload eb)) as [st' [[]|err|]] eqn:E.
    + eexists. by eapply (step_put_ok _ _ _ []).
    + eexists. by eapply (step_put_fail _ _ _ []).
    + destruct (Put_no_panic (s_store sh) (eb_location eb) (eb_payload eb)). by rewrite E.
  - eexists. apply (step_put_again _ _ _ []).
  - eexists. apply (step_uploaded _ _ _ []). rewrite len_nil.
    pose proof (atLeastOne_pos (MaxInFlightBatches config)). lia.
Qed.

Lemma encoders_move s :
  m_encoders (p_middle s) <> [] -> m_uploaders (p_middle s) = [] ->
  m_completionCh (p_middle s) = [] -> exists s', encoder_step z config runID s s'.
Proof.
  destruct s as [f [es us cc] bk sh]. unpipe. intros Hes -> ->.
  destruct es as [|e es]; [done|]. destruct e as [pb|uc|eb].
  - destruct (encodeOne (EncodeBatch z) config runID pb) as [res|err|] eqn:E.
    + eexists. by apply (step_encode _ _ _ _ []).
    + unfold encodeOne in E. by destruct (EncodeBatch _ _ _).
    + unfold encodeOne in E.
      pose proof (EncodeBatch_not_Panic z (pb_entries pb) (BatchCompression config)).
      by destruct (EncodeBatch _ _ _).
  - eexists. apply (step_encode_failed _ _ _ _ []). rewrite len_nil.
    pose proof (atLeastOne_pos (MaxInFlightBatches config)). lia.
  - eexists. apply (step_encoded _ _ _ _ []). rewrite len_nil.
    pose proof (atLeastOne_pos (UploadConcurrency config)). lia.
Qed.

(** The rotator moves out of an emission when the stages behind it are idle. *)
Lemma rotator_moves s :
  pipeline_ok z config runID s -> wait_ok s ->
  rot_ordinal (f_rotator (p_front s)) < MaxUint64 -> m_encoders (p_middle s) = [] ->
  emit_reason (f_pc (p_front s)) <> None -> batchesUsed (s_budget (p_shared s)) = 0 \/
    rot_idle (f_pc (p_front s)) = false ->
  exists s', rotator_step config s s'.
Proof.
  intros [_ [Hcap Hch _ _ _ _] _] W Hord Hes Hpc Hb.
  destruct s as [[cl cs ch cd r pc] [es us cc] bk sh]. unfold wait_ok in W. unpipe. subst es.
  destruct pc as [|reason ack|reason ack chn|reason ack|pb|]; try done.
  - destruct (acquireBatchSlot_locked (s_budget sh)) as [b' [|chn]] eqn:E.
    + eexists. by eapply step_acquire.
    + eexists. by eapply step_acquire_wait.
  - destruct Hb as [Hb|]; [|done]. destruct W as [_ [Hc|[_ Hbl]]].
    + eexists. by apply step_acquire_wake.
    + cbn in Hbl. destruct Hcap. lia.
  - destruct (emitBatch 0 r reason ack) as [[r' pb] extra] eqn:E.
    destruct (addReservation_ok extra (s_budget sh) Hcap Hch) as (b' & Hadd & _).
    eexists. by eapply step_emit.
  - eexists. apply step_pending. rewrite len_nil. pose proof (atLeastOne_pos (EncodeConcurrency config)).
    lia.
Qed.
(** With every worker idle the committer has nothing left to wait for. *)
Lemma idle_batches s :
  pipeline_ok z config runID s -> progress_ok s ->
  b_resolver (p_back s) = ResRecv -> b_pc (p_back s) = CRecv \/ b_pc (p_back s) = CExited ->
  p_middle s = Middle [] [] [] -> rot_idle (f_pc (p_front s)) = true ->
  batchesUsed (s_budget (p_shared s)) = 0.
Proof.
  intros [O [_ _ _ _ _ Hba] _] [_ F] Hrv Hpc Hmid Hi.
  destruct s as [f mid [c pc rv] sh]. unfold ordinals_ok in O. unpipe. subst.
  assert (ready c = ∅) as He.
  { destruct Hpc as [->| ->]; [|by apply (fw_exited _ _ _ _ F)].
    destruct (halted c) eqn:Hh; [by apply (fw_halted _ _ _ _ F)|].
    eapply flow_all_ready; [exact O|exact F|by apply rot_idle_ords|done|by apply (fw_recv _ _ _ _ F)]. }
  rewrite Hba. unfold flight_costs. cbn. rewrite He, values_empty. cbn.
  destruct Hpc as [->| ->]; destruct (f_pc f); try done; cbn; by rewrite len_nil.
Qed.

Lemma batches_move s :
  pipeline_ok z config runID s -> progress_ok s -> wait_ok s ->
  rot_ordinal (f_rotator (p_front s)) < MaxUint64 ->
  0 < batchesUsed (s_budget (p_shared s)) \/ emit_reason (f_pc (p_front s)) <> None ->
  exists s', internal s s'.
Proof.
  intros P G W Hord Hbusy. unfold internal.
  destruct (b_resolver (p_back s)) as [|rs|rs] eqn:Hrv.
  2, 3: destruct (resolver_moves s P) as [s' ?]; [congruence|eauto 10].
  assert ((b_pc (p_back s) = CRecv \/ b_pc (p_back s) = CExited) \/
          (b_pc (p_back s) <> CRecv /\ b_pc (p_back s) <> CExited)) as [Hpc|Hpc]
    by (destruct (b_pc (p_back s)); auto).
  2: { destruct (committer_moves s Hrv) as [s' ?]; [tauto..|eauto 10]. }
  destruct (m_completionCh (p_middle s)) as [|uc more] eqn:Hcc.
  2: { pose proof (fw_closing _ _ _ _ (proj2 G)) as Hcl.
       destruct s as [f [es us cc] [c pc rv] sh]. unpipe. subst.
       destruct Hpc as [->| ->]; [|by destruct (Hcl eq_refl)].
       destruct (halted c) eqn:Hh; eexists; do 3 right; left;
         [by apply step_abandon|by apply (step_gather _ _ _ _ _ _ _ _ _ _ false)]. }
  destruct (m_uploaders (p_middle s)) as [|u us] eqn:Hus.
  2: { destruct (uploaders_move s) as [s' ?]; [congruence|done|]. eauto 10. }
  destruct (m_encoders (p_middle s)) as [|e es] eqn:Hes.
  2: { destruct (encoders_move s) as [s' ?]; [congruence|done..|]. eauto 10. }
  assert (p_middle s = Middle [] [] []) as Hmid by (destruct (p_middle s); cbn in *; congruence).
  destruct (rot_idle (f_pc (p_front s))) eqn:Hi.
  - pose proof (idle_batches s P G Hrv Hpc Hmid Hi) as Hz.
    destruct (rotator_moves s P W Hord Hes) as [s' ?]; [|by left|eauto]. intros ?. destruct Hbusy; [lia|done].
  - destruct (rotator_moves s P W Hord Hes) as [s' ?]; [|by right|eauto]. by destruct (f_pc (p_front s)).
Qed.
(** ** The order of the manifest *)

Definition commit_locations (commits : list (St * list enqueueItem)) : list string :=
  item_Location <$> (commits.*2 ≫= id).

(** What was committed, and what is being committed, in the order of ordinals. *)
Definition history_ok s : Prop :=
  exists os, commit_locations (s_commits (p_shared s)) = objectAt config runID <$> os /\
    StronglySorted Z.lt (os ++ (uc_ordinal <$> cas_group (b_pc (p_back s)))) /\
    Forall (fun o => 0 <= o < next (b_committer (p_back s)))
      (os ++ (uc_ordinal <$> cas_group (b_pc (p_back s)))).

Lemma commit_locations_snoc commits st items :
  commit_locations (commits ++ [(st, items)]) =
  commit_locations commits ++ (item_Location <$> items).
Proof. unfold commit_locations. rewrite fmap_app, bind_app, fmap_app. cbn. by rewrite app_nil_r. Qed.

(** Nothing new is committed, and the group is as it was or is given up. *)
Lemma history_same s s' :
  history_ok s -> commit_locations (s_commits (p_shared s')) = commit_locations (s_commits (p_shared s)) ->
  next (b_committer (p_back s')) = next (b_committer (p_back s)) ->
  cas_group (b_pc (p_back s')) = cas_group (b_pc (p_back s)) \/ cas_group (b_pc (p_back s')) = [] ->
  history_ok s'.
Proof.
  intros (os & Hl & Hs & Hf) Hc Hn Hg. exists os. rewrite Hc, Hn. split; [done|].
  destruct Hg as [->| ->]; [done|]. rewrite app_nil_r.
  apply Forall_app in Hf as [? _]. split; [|done].
  eapply sublist_sorted; [apply sublist_inserts_r; reflexivity|exact Hs].
Qed.

Lemma history_drain f mid c rv closed nx' rd' group failed sh cpc' :
  ords_ok (f_rotator f) (f_pc f) mid c (CDrain closed) ->
  collect (Z.to_nat (batchSize config)) (next c) (ready c) [] [] = (nx', rd', group, failed) ->
  cas_group cpc' = group \/ cas_group cpc' = [] ->
  history_ok (Pipe St f mid (Back c (CDrain closed) rv) sh) ->
  history_ok (Pipe St f mid (Back (with_ready nx' rd' c) cpc' rv) sh).
Proof.
  intros O Hc Hg (os & Hl & Hs & Hf). pose proof (ords_ready_ok _ _ _ _ _ O) as Hok.
  destruct (collect_spec _ _ _ _ _ _ _ _ _ Hok Hc) as (t & _ & -> & Ht & _ & Hgr & _).
  cbn [app] in Hgr. subst group. exists os. unpipe. cbn [cas_group fmap list_fmap] in Hs, Hf.
  rewrite app_nil_r in Hs. rewrite app_nil_r in Hf. cbn [with_ready next].
  destruct (successes_group (next c) t Ht) as [Hss Hr]. pose proof (oo_next _ _ _ _ _ O) as Hnx.
  assert (Forall (fun o => 0 <= o < next c + len t) os) as Hf'.
  { eapply Forall_impl; [exact Hf|]. cbn. len_pose. lia. }
  split; [done|]. destruct Hg as [->| ->]; [|by rewrite app_nil_r].
  assert (Forall (fun o => next c <= o < next c + len t) (uc_ordinal <$> successes t)) as Hr'.
  { eapply sublist_Forall; [|exact Hr]. apply sublist_map, successes_sublist. }
  split.
  - eapply (sorted_app _ _ (next c)); [done|done| |].
    + eapply Forall_impl; [exact Hf|]. cbn. lia.
    + eapply Forall_impl; [exact Hr'|]. cbn. lia.
  - apply Forall_app; split; [done|]. eapply Forall_impl; [exact Hr'|]. cbn. lia.
Qed.

(** The group that was written is at its ordinals' locations. *)
Lemma group_locations f mid c rv group failed k closed (sh : shared St) msgs :
  ords_ok (f_rotator f) (f_pc f) mid c (CCas group failed k closed) ->
  flight_ok z config runID msgs (cargos (f_pc f) mid (Back c (CCas group failed k closed) rv))
    (s_watchers sh) (s_submitted sh) (s_store sh) (s_commits sh) ->
  item_Location <$> (itemOf <$> group) = objectAt config runID <$> (uc_ordinal <$> group).
Proof.
  intros O F. rewrite <- !list_fmap_compose. apply list_fmap_ext. intros i uc Hi. cbn.
  pose proof (fl_cargo _ _ _ _ _ _ _ _ _ F) as Hf. pose proof (oo_group _ _ _ _ _ O) as Hg.
  cbn [cas_group] in Hg. rewrite Forall_forall in Hf. rewrite Forall_forall in Hg.
  apply list_elem_of_lookup_2 in Hi. destruct (Hg uc Hi) as [_ Hput].
  destruct (Hf (Completed uc)) as (ms & _ & Hok).
  { unfold cargos. cbn. rewrite !elem_of_app. do 5 right; left; left. by apply list_elem_of_fmap_2. }
  by destruct (Hok Hput) as (_ & ? & _).
Qed.

Lemma step_history s s' :
  step z config runID range s s' -> pipeline_ok z config runID s -> history_ok s -> history_ok s'.
Proof.
  assert (forall c g f err closed c' pc', afterCas range c g f err closed = (c', pc') ->
    next c' = next c) as Hnx.
  { intros c g f err closed c' pc'. unfold afterCas. destruct err; [case_test|]; by intros [= <- <-]. }
  intros Hst [O _ (_ & held & _ & F)] H.
  destruct Hst as [Hst|Hst|Hst|Hst|Hst|Hst|Hst]; destruct Hst;
    try (by eapply history_same; [exact H|..|by left]);
    try match goal with
    | Hm : onMessage _ _ _ _ _ = _ |- _ => apply onMessage_spec in Hm as (_ & _ & Hm)
    | Hm : beginEmit _ _ _ _ = _ |- _ => apply beginEmit_spec in Hm as [_ Hm]
    | |- context [send_ack ?a ?e ?sh] => pose proof (send_ack_same a e sh) as Hm
    end;
    try match goal with
    | Hm : same_but_acks _ _ |- _ => destruct Hm as (_ & _ & _ & _ & _ & Hm);
        eapply history_same; [exact H|unpipe; by rewrite Hm|done|by left]
    end; unfold ordinals_ok in O; unpipe.
  - eapply history_same; [exact H|done|done|]. right. unpipe. by destruct (halted c).
  - eapply history_drain; [exact O|done| |exact H]. repeat case_match; auto.
  - pose proof (Hnx _ _ _ _ _ _ _ H1) as Hn. pose proof (afterCas_group _ _ _ _ _ _ _ _ H1) as Hg.
    destruct H as (os & Hl & Hs & Hf). exists (os ++ (uc_ordinal <$> group)). unpipe.
    rewrite Hg, Hn, app_nil_r, commit_locations_snoc, Hl, fmap_app.
    split; [f_equal; by eapply group_locations|done].
  - destruct (S k <? manifestAttempts config)%nat.
    + injection H1 as <- <-. by eapply history_same; [exact H|..|by left].
    + pose proof (Hnx _ _ _ _ _ _ _ H1). pose proof (afterCas_group _ _ _ _ _ _ _ _ H1).
      eapply history_same; [exact H|done|done|by right].
  - pose proof (Hnx _ _ _ _ _ _ _ H1). pose proof (afterCas_group _ _ _ _ _ _ _ _ H1).
    eapply history_same; [exact H|done|done|by right].
  - eapply history_same; [exact H|done|done|]. right. unpipe. by destruct again, closed.
Qed.

Lemma reachable_history st s : reachable z config runID range st s -> history_ok s.
Proof.
  intros Hr. apply (rtc_invariant _ (fun s => pipeline_ok z config runID s /\ history_ok s) _ _) in Hr;
    [by apply Hr| |].
  - split; [eapply (reachable_pipeline _ _ _ range Hrange Hpath st), rtc_refl|].
    exists []. split_and!; [done|constructor|constructor].
  - intros s1 s2 [P H] Hst. split; [|by eapply step_history].
    destruct P. split; [by eapply step_ordinals|by eapply step_budget|by eapply step_delivery].
Qed.

(** ** Success can be read back *)

(** After one of the manifest appends [commits], the store held the message:
    the manifest decodes and has an entry that refers to an object; the entry
    has a metadata record with the message's metadata, and that record's share
    of the object's entries is the message's. *)
Definition durably_stored (commits : list (St * list enqueueItem)) (m : appendMessage) : Prop :=
  exists st' data v es e payload v' msgs i,
    st' ∈ commits.*1 /\
    contents st' (ManifestPath config) = Some (data, v) /\
    DecodeManifestEntries data = Ret es /\ e ∈ es /\
    contents st' (Location e) = Some (payload, v') /\
    msgs !! i = Some m /\ Payload <$> Metadata e !! i = Some (msg_metadata m) /\
    (len (all_entries msgs) <= MaxUint32 ->
     DecodeBatch z payload = Ret (all_entries msgs) /\
     split_by (all_entries msgs) (Metadata e) !! i = Some (msg_entries m)).

Lemma resolved_readable `{!ZstdLaws z} st s w m dw :
  zstd_NewReader z = None -> reachable z config runID range st s ->
  within_format config st (p_shared s) ->
  s_submitted (p_shared s) !! w = Some m -> s_watchers (p_shared s) !! w = Some dw ->
  Result dw = (true, None) -> durably_stored (s_commits (p_shared s)) m.
Proof.
  intros Hz Hr Hfit Hm Hw Hdone.
  destruct (po_delivery _ _ _ _ (reachable_pipeline _ _ _ _ Hrange Hpath _ _ Hr))
    as (_ & held & _ & F).
  assert (resolved_with None dw) as Hres.
  { destruct (fl_known _ _ _ _ _ _ _ _ _ F w dw Hw) as [_ [->|[err ->]]]; [done|].
    cbn in Hdone. by injection Hdone as ->. }
  destruct (fl_durable _ _ _ _ _ _ _ _ _ F w m dw Hw Hres Hm) as (cm & msgs & Hcm & Hin & Hd).
  destruct (reachable_manifests _ _ _ _ Hrange Hpath _ _ Hr Hfit) as [_ Hman].
  rewrite Forall_forall in Hman. destruct (Hman cm Hcm) as [a Ha].
  destruct (covers_readable cm a msgs Hd Ha Hz)
    as (data & v & es & e & payload & v' & ? & ? & ? & ? & Hmeta & Hsplit).
  apply list_elem_of_lookup in Hin as [i Hi]. exists cm.1, data, v, es, e, payload, v', msgs, i.
  split_and!; try done.
  - by apply list_elem_of_fmap_2.
  - by rewrite <- list_lookup_fmap, Hmeta, list_lookup_fmap, Hi.
  - intros Hl. destruct (Hsplit Hl) as [? ->]. by rewrite list_lookup_fmap, Hi.
Qed.

(** ** Properties *)

(** C1. A watcher that reports success tells the truth. In every state the
    producer can reach, under every interleaving of its goroutines, of
    concurrent appends, of shutdown, and of other processes at the store, when
    the manifest the producer found was a manifest and the entries it has tried
    to write were within the limits of the format (a 16-bit location length, a
    32-bit entry length; nothing in the code checks the latter, and one longer
    entry makes the manifest unreadable): if the watcher of a message reports
    success, then right after one of the producer's manifest appends the store
    held a manifest that decodes, with an entry that refers to an object in the
    store; that entry has a metadata record with the message's metadata, and the
    object decodes to entries of which that record's share is exactly the
    message's (when the batch has at most [MaxUint32] entries, the most its
    footer can count). *)
Theorem success_means_durable `{!ZstdLaws z} st s w m dw :
  zstd_NewReader z = None -> reachable z config runID range st s ->
  (exists a, manifest_at st (ManifestPath config) a) ->
  Forall fits (s_written (p_shared s)) ->
  s_submitted (p_shared s) !! w = Some m -> s_watchers (p_shared s) !! w = Some dw ->
  Result dw = (true, None) ->
  exists st' data v es e payload v' msgs i,
    st' ∈ (s_commits (p_shared s)).*1 /\
    contents st' (ManifestPath config) = Some (data, v) /\
    DecodeManifestEntries data = Ret es /\ e ∈ es /\
    contents st' (Location e) = Some (payload, v') /\
    msgs !! i = Some m /\ Payload <$> Metadata e !! i = Some (msg_metadata m) /\
    (len (all_entries msgs) <= MaxUint32 ->
     DecodeBatch z payload = Ret (all_entries msgs) /\
     split_by (all_entries msgs) (Metadata e) !! i = Some (msg_entries m)).
Proof.
  intros Hz Hr Ha Hfit Hm Hw Hdone. by eapply resolved_readable.
Qed.

(** C2. The manifest is written in the order of emission: the data objects of
    the successful manifest appends, taken together, are those of a strictly
    increasing sequence of ordinals. So no batch is appended by two successful
    appends, and batches never overtake each other, however the uploads
    complete. *)
Theorem manifest_in_order st s :
  reachable z config runID range st s ->
  exists os, commit_locations (s_commits (p_shared s)) = objectAt config runID <$> os /\
    StronglySorted Z.lt os /\ Forall (fun o => 0 <= o < next (b_committer (p_back s))) os /\
    next (b_committer (p_back s)) <= rot_ordinal (f_rotator (p_front s)).
Proof.
  intros Hr. destruct (reachable_history _ _ Hr) as (os & Hl & Hs & Hf). exists os.
  pose proof (po_ordinals _ _ _ _ (reachable_pipeline _ _ _ _ Hrange Hpath _ _ Hr)) as O.
  pose proof (oo_next _ _ _ _ _ O). apply Forall_app in Hf as [Hf _]. split_and!; [done| |done|lia].
  eapply sublist_sorted; [apply sublist_inserts_r; reflexivity|exact Hs].
Qed.

(** C7. The budget is exact at all times: the bytes in use are those of the
    appends waiting to enter the pipeline, of the channel, of the accumulator
    and of every batch between the rotator and the resolver, and the slots in
    use are one for each such batch (and one the rotator may hold); and there
    are never more batches in flight than [MaxInFlightBatches] allows. *)
Theorem budget_is_exact st s :
  reachable z config runID range st s ->
  let f := p_front s in
  let flight := flight_costs (f_pc f) (p_middle s) (p_back s) in
  bytesUsed (s_budget (p_shared s)) =
    sumZ (msg_byteCost <$> f_callers f) + sumZ (msg_byteCost <$> f_appendCh f) +
    acc_byteCost (rot_batch (f_rotator f)) + sumZ flight /\
  batchesUsed (s_budget (p_shared s)) = len flight + slot_held (f_pc f) /\
  len (cargos (f_pc f) (p_middle s) (p_back s)) <= Z.max 1 (MaxInFlightBatches config).
Proof.
  intros Hr f flight.
  pose proof (po_budget _ _ _ _ (reachable_pipeline _ _ _ _ Hrange Hpath _ _ Hr)) as [Hcap _ _ _ Hby Hba].
  destruct (pipeline_reachable_caps _ _ Hr) as [_ Hmax].
  split_and!; [exact Hby|exact Hba|]. unfold len at 1. rewrite <- length_flight.
  change (len flight <= Z.max 1 (MaxInFlightBatches config)).
  assert (0 <= slot_held (f_pc f)) by by destruct (f_pc f).
  destruct Hcap. subst f flight. lia.
Qed.

(** A drained producer owes nothing: when [Flush] has seen the in-flight
    counter at zero and nothing has entered the channel or the accumulator
    since, every watcher handed out is resolved, except those of appends still
    waiting to enter, and only the bytes of these are still reserved. *)
Theorem drained_means_resolved st s :
  reachable z config runID range st s ->
  (waitDrained_locked (s_budget (p_shared s))).2 = Acquired ->
  f_appendCh (p_front s) = [] -> isEmpty (rot_batch (f_rotator (p_front s))) = true ->
  bytesUsed (s_budget (p_shared s)) = sumZ (msg_byteCost <$> f_callers (p_front s)) /\
  map_Forall (fun w dw => w ∈ (msg_watcher <$> f_callers (p_front s)) \/ done dw = true)
    (s_watchers (p_shared s)).
Proof.
  intros Hr Hd Hch He. apply quiet_watchers; [by eapply reachable_pipeline|done|done|].
  unfold waitDrained_locked in Hd. destruct (Z.eqb_spec (batchesUsed (s_budget (p_shared s))) 0); [done|].
  by destruct (drainCh _).
Qed.

(** C16. The resolver does its work on every batch: in every reachable state
    where it has one, resolving the batch's watchers and releasing its budget
    succeed (no watcher is closed twice, no channel of the budget either);
    each of the batch's watchers was open and gets the batch's result, no
    other watcher changes, and the release gives back one slot and the batch's
    bytes, neither clamped. *)
Theorem resolver_resolves st s rs :
  reachable z config runID range st s ->
  (b_resolver (p_back s) = ResResolve rs ->
   (exists ws', resolveWatchers (s_watchers (p_shared s)) (ri_watchers (resolveItem rs))
                 (ri_err (resolveItem rs)) = Ret ws' /\
     forall w, ws' !! w = if decide (w ∈ ri_watchers (resolveItem rs))
                          then Some {| result := rs_err rs; done := true; ch_closed := true |}
                          else s_watchers (p_shared s) !! w) /\
   Forall (fun w => s_watchers (p_shared s) !! w = Some newDurabilityWatcher)
     (ri_watchers (resolveItem rs))) /\
  (b_resolver (p_back s) = ResRelease rs ->
   exists b', release (ri_byteCost (resolveItem rs)) 1 (s_budget (p_shared s)) = Ret b' /\
     bytesUsed b' = bytesUsed (s_budget (p_shared s)) - ri_byteCost (resolveItem rs) /\
     batchesUsed b' = batchesUsed (s_budget (p_shared s)) - 1).
Proof.
  intros Hr. pose proof (reachable_pipeline _ _ _ _ Hrange Hpath _ _ Hr) as P.
  split; intros Hrv; [by apply resolver_resolve|by apply resolver_release].
Qed.

(** C3. The pipeline does not deadlock: in every reachable state with a batch
    in flight, or with the rotator in the middle of emitting one, some
    goroutine of the producer behind [Append] can take a step, as long as store
    calls return, with success or an error; whatever the order in which uploads
    complete, and whether or not the producer is halted or shutting down. In particular the committer
    never waits for an ordinal that will not come, and a rotator that waits for
    a slot has not missed its wake-up. *)
Theorem pipeline_never_stuck st s :
  reachable z config runID range st s -> rot_ordinal (f_rotator (p_front s)) < MaxUint64 ->
  0 < batchesUsed (s_budget (p_shared s)) \/ emit_reason (f_pc (p_front s)) <> None ->
  exists s', internal s s'.
Proof.
  intros Hr. apply batches_move;
    [by eapply reachable_pipeline|by eapply reachable_progress|by eapply reachable_wait].
Qed.

(** C4. Shutdown leaves nobody waiting: once the committer has exited and the
    resolver is idle, the rotator has exited, every stage is empty, and every
    watcher handed out is resolved, except those of appends that never
    entered the channel. *)
Theorem shutdown_resolves_everyone st s :
  reachable z config runID range st s ->
  b_pc (p_back s) = CExited -> b_resolver (p_back s) = ResRecv ->
  f_pc (p_front s) = RExited /\ p_middle s = Middle [] [] [] /\
  ready (b_committer (p_back s)) = ∅ /\ f_appendCh (p_front s) = [] /\
  batchesUsed (s_budget (p_shared s)) = 0 /\
  map_Forall (fun w dw => w ∈ (msg_watcher <$> f_callers (p_front s)) \/ done dw = true)
    (s_watchers (p_shared s)).
Proof.
  intros Hr Hpc Hrv. pose proof (reachable_pipeline _ _ _ _ Hrange Hpath _ _ Hr) as P.
  pose proof (reachable_progress _ _ _ _ _ _ Hr) as G. pose proof G as [[De Dm] F].
  destruct (fw_closing _ _ _ _ F) as [Hrot Hmid]; [by rewrite Hpc|].
  rewrite Hrot in De, Dm. destruct (De eq_refl) as [_ Hch].
  assert (batchesUsed (s_budget (p_shared s)) = 0) as Hb.
  { apply idle_batches; [done|done|done|by right|done|by rewrite Hrot]. }
  split_and!; try done; [by apply (fw_exited _ _ _ _ F)|].
  by apply quiet_watchers; [..|apply Dm|].
Qed.
End Guarantees.

(** ** A run of the producer

    One message goes through the pipeline over an in-memory store: accepted,
    emitted by the timer, encoded, uploaded, committed and resolved; then the
    producer is closed. *)

Definition sample_reachable : pipeline InMemory -> Prop :=
  reachable stored DefaultProducerConfig "run" values NewInMemory.

Lemma sample_paths k : objectAt DefaultProducerConfig "run" k <> ManifestPath DefaultProducerConfig.
Proof. unfold objectAt, batchLocation. cbn. discriminate. Qed.

(** Takes the step of a constructor from the state [H] has reached. *)
Ltac advance H by_stage tac :=
  lazymatch type of H with
  | rtc ?R ?x ?s =>
      let Hs := fresh in
      eassert (R s _) as Hs by (apply by_stage; tac);
      apply (rtc_r _ _ _ H) in Hs; clear H; rename Hs into H
  end.

Ltac computed := vm_compute; reflexivity.

Definition sample_data : bytes :=
  serialize [{| Sequence := 0; Location := "ingest/run/0000000000000000";
                Metadata := metadata_from 0 [sample_message] |}] 1 0.

(** The manifest append of the sample batch, on a store without a manifest. *)
Definition sample_item : enqueueItem :=
  {| item_Location := "ingest/run/0000000000000000"; item_Metadata := metadata_from 0 [sample_message] |}.

Lemma sample_fits : fits [sample_item].
Proof. split_and!; [solve_bounds|discriminate|solve_bounds]. Qed.

Lemma sample_append (st : InMemory) items :
  contents st (ManifestPath DefaultProducerConfig) = None -> items = [sample_item] ->
  casEffect DefaultProducerConfig items st
    (InMemory_Put st (ManifestPath DefaultProducerConfig) sample_data).1 None.
Proof.
  intros Hnone ->.
  assert (writes st (InMemory_Put st (ManifestPath DefaultProducerConfig) sample_data).1
            (ManifestPath DefaultProducerConfig) sample_data) as Hw.
  { refine (Put_ok st (ManifestPath DefaultProducerConfig) sample_data _). cbn. unfold InMemory_Put. by destruct (objects st !! _). }
  split; [intros q; by eapply writes_other|]. intros (Hwf & _) a [_ Ha]. rewrite Hnone in Ha.
  apply (writes_appends _ _ Hwf _ _ a sample_data); [|subst a; solve_bounds|done|subst a; vm_compute; reflexivity].
  subst a. split; [solve_bounds|]. by rewrite Hnone.
Qed.

(** The states when the resolver has the batch, after it has resolved the
    watchers, after it has released the budget, and after the shutdown. *)
Lemma sample_trace : exists s0 s1 s2 s3,
  (sample_reachable s0 /\ exists rs, b_resolver (p_back s0) = ResResolve rs /\
     rs_err rs = None /\ rs_watchers rs = [0%nat]) /\
  (sample_reachable s1 /\
   s_watchers (p_shared s1) !! 0%nat = Some {| result := None; done := true; ch_closed := true |} /\
   s_submitted (p_shared s1) !! 0%nat = Some sample_message /\
   batchesUsed (s_budget (p_shared s1)) = 1 /\ rot_ordinal (f_rotator (p_front s1)) = 1 /\
   commit_locations (s_commits (p_shared s1)) = ["ingest/run/0000000000000000"] /\
   s_written (p_shared s1) = [[sample_item]]) /\
  (sample_reachable s2 /\ (waitDrained_locked (s_budget (p_shared s2))).2 = Acquired /\
   f_appendCh (p_front s2) = [] /\ isEmpty (rot_batch (f_rotator (p_front s2))) = true /\
   f_callers (p_front s2) = []) /\
  sample_reachable s3 /\ b_pc (p_back s3) = CExited /\ b_resolver (p_back s3) = ResRecv /\
  f_callers (p_front s3) = [] /\
  commit_locations (s_commits (p_shared s3)) = ["ingest/run/0000000000000000"].
Proof.
  pose proof (rtc_refl (step stored DefaultProducerConfig "run" values)
    (initial DefaultProducerConfig NewInMemory)) as H.
  advance H @by_append ltac:(eapply (step_checked _ _ _ _ _ _ _ _ _ _ [string_bytes "ab"]
    (string_bytes "meta__")); computed).
  advance H @by_append ltac:(eapply (step_reserve _ [] _ [] _ _ _ _ _ _ _ _ 3 0%nat); [computed|computed]).
  eexists _, _, _, _.
  advance H @by_append ltac:(eapply (step_handoff _ _ [] _ [] _ _ _ _ 7); [discriminate|computed]).
  advance H @by_rotator ltac:(eapply step_timer; [computed|computed]).
  advance H @by_rotator ltac:(eapply step_acquire; computed).
  advance H @by_rotator ltac:(eapply (step_emit _ _ _ _ _ _ _ _ _ _ _ 9); [computed|computed|computed]).
  advance H @by_rotator ltac:(eapply step_pending; computed).
  advance H @by_encoder ltac:(eapply (step_encode _ _ _ _ []); computed).
  advance H @by_encoder ltac:(eapply (step_encoded _ _ _ _ []); computed).
  advance H @by_uploader ltac:(eapply (step_put_ok _ _ _ []); computed).
  advance H @by_uploader ltac:(eapply (step_uploaded _ _ _ []); computed).
  advance H @by_committer ltac:(eapply (step_gather _ _ _ _ _ _ _ _ _ _ false); [computed|discriminate]).
  advance H @by_committer ltac:(eapply step_drain; computed).
  advance H @by_committer ltac:(eapply step_cas_ok; [apply sample_append; computed|computed]).
  advance H @by_committer ltac:(eapply step_hand).
  split; [split; [exact H|eexists; split_and!; computed]|].
  advance H @by_resolver ltac:(eapply step_resolve; computed).
  split; [split; [exact H|split_and!; computed]|].
  advance H @by_resolver ltac:(eapply step_release; computed).
  advance H @by_committer ltac:(eapply step_handed).
  advance H @by_committer ltac:(eapply step_drain; computed).
  split; [split; [exact H|split_and!; computed]|].
  advance H @by_world ltac:(eapply step_close).
  advance H @by_rotator ltac:(eapply step_closed; computed).
  advance H @by_committer ltac:(eapply step_upstream_done).
  advance H @by_committer ltac:(eapply step_drain; computed).
  split; [exact H|split_and!; computed].
Qed.

(** A store without objects has an empty manifest. *)
Lemma sample_manifest path : manifest_at NewInMemory path empty_state.
Proof. split; [solve_bounds|reflexivity]. Qed.

Lemma values_range : forall m, values m ≡ₚ values m.
Proof. done. Qed.

Lemma success_means_durable_witness : exists s, sample_reachable s /\
  exists st' data v es e payload v' msgs i,
    st' ∈ (s_commits (p_shared s)).*1 /\
    contents st' (ManifestPath DefaultProducerConfig) = Some (data, v) /\
    DecodeManifestEntries data = Ret es /\ e ∈ es /\
    contents st' (Location e) = Some (payload, v') /\
    msgs !! i = Some sample_message /\
    Payload <$> Metadata e !! i = Some (string_bytes "meta__") /\
    (len (all_entries msgs) <= MaxUint32 ->
     DecodeBatch stored payload = Ret (all_entries msgs) /\
     split_by (all_entries msgs) (Metadata e) !! i = Some [string_bytes "ab"]).
Proof.
  destruct sample_trace as (_ & s & _ & _ & _ & (Hr & Hw & Hm & _ & _ & _ & Hwr) & _).
  exists s. split; [exact Hr|].
  refine (success_means_durable stored DefaultProducerConfig "run" values values_range sample_paths
    NewInMemory s 0%nat sample_message _ eq_refl Hr (ex_intro _ empty_state (sample_manifest "ingest/manifest")) _
    Hm Hw eq_refl).
  rewrite Hwr. constructor; [exact sample_fits|constructor].
Defined.

Lemma manifest_in_order_witness : exists s, sample_reachable s /\
  exists os, ["ingest/run/0000000000000000"] = objectAt DefaultProducerConfig "run" <$> os /\
    StronglySorted Z.lt os /\ Forall (fun o => 0 <= o < next (b_committer (p_back s))) os /\
    next (b_committer (p_back s)) <= 1.
Proof.
  destruct sample_trace as (_ & s & _ & _ & _ & (Hr & _ & _ & _ & Ho & Hl & _) & _).
  exists s. split; [exact Hr|]. rewrite <- Hl, <- Ho.
  exact (manifest_in_order stored DefaultProducerConfig "run" values values_range sample_paths
    NewInMemory s Hr).
Defined.

Lemma budget_is_exact_witness : exists s, sample_reachable s /\
  1 = len (flight_costs (f_pc (p_front s)) (p_middle s) (p_back s)) + slot_held (f_pc (p_front s)).
Proof.
  destruct sample_trace as (_ & s & _ & _ & _ & (Hr & _ & _ & Hb & _) & _).
  exists s. split; [exact Hr|]. rewrite <- Hb.
  exact (proj1 (proj2 (budget_is_exact stored DefaultProducerConfig "run" values values_range
    sample_paths NewInMemory s Hr))).
Defined.

Lemma drained_means_resolved_witness : exists s, sample_reachable s /\
  bytesUsed (s_budget (p_shared s)) = 0 /\
  map_Forall (fun w dw => w ∈ ([] : list watcher_id) \/ done dw = true) (s_watchers (p_shared s)).
Proof.
  destruct sample_trace as (_ & _ & s & _ & _ & _ & (Hr & Hd & Hch & He & Hc) & _).
  exists s. split; [exact Hr|].
  pose proof (drained_means_resolved stored DefaultProducerConfig "run" values values_range
    sample_paths NewInMemory s Hr Hd Hch He) as H. rewrite Hc in H. exact H.
Defined.

Lemma resolver_resolves_witness : exists s rs ws', sample_reachable s /\
  resolveWatchers (s_watchers (p_shared s)) [0%nat] None = Ret ws' /\
  ws' !! 0%nat = Some {| result := None; done := true; ch_closed := true |} /\
  b_resolver (p_back s) = ResResolve rs.
Proof.
  destruct sample_trace as (s & _ & _ & _ & (Hr & rs & Hrv & He & Hws) & _).
  destruct (proj1 (resolver_resolves stored DefaultProducerConfig "run" values values_range
    sample_paths NewInMemory s rs Hr) Hrv) as [(ws' & Heq & Hl) _].
  exists s, rs, ws'. specialize (Hl 0%nat).
  change (ri_watchers (resolveItem rs)) with (rs_watchers rs) in Heq, Hl.
  change (ri_err (resolveItem rs)) with (rs_err rs) in Heq.
  rewrite Hws, He in *. split_and!; [exact Hr|exact Heq|exact Hl|exact Hrv].
Defined.

Lemma pipeline_never_stuck_witness : exists s, sample_reachable s /\
  exists s', internal stored DefaultProducerConfig "run" values s s'.
Proof.
  destruct sample_trace as (_ & s & _ & _ & _ & (Hr & _ & _ & Hb & Ho & _) & _).
  exists s. split; [exact Hr|].
  apply (pipeline_never_stuck stored DefaultProducerConfig "run" values values_range sample_paths
    NewInMemory s Hr).
  - rewrite Ho. reflexivity.
  - left. rewrite Hb. reflexivity.
Defined.

Lemma shutdown_resolves_everyone_witness : exists s, sample_reachable s /\
  f_pc (p_front s) = RExited /\ batchesUsed (s_budget (p_shared s)) = 0.
Proof.
  destruct sample_trace as (_ & _ & _ & s & _ & _ & _ & Hr & Hpc & Hrv & _).
  exists s. split; [exact Hr|].
  destruct (shutdown_resolves_everyone stored DefaultProducerConfig "run" values values_range
    sample_paths NewInMemory s Hr Hpc Hrv) as (H1 & _ & _ & _ & H2 & _).
  split; [exact H1|exact H2].
Defined.

(** C40. Closing races with appending. There is a run in which [Close] goes by
    the book: its [Flush] is acknowledged without an error and finds nothing in
    flight, then it closes [appendCh]; and an [AppendContext] call, admitted
    before and with its bytes reserved, is at its select. The call's send
    panics, although the rotator is still at its select and the call's
    reservation is still held: the select's [rotatorDone] case, which is there
    to turn a closing producer into [ErrShutdown], is not ready. *)
Theorem close_races_with_append : exists s m,
  reachable stored DefaultProducerConfig "run" values NewInMemory s /\
  s_acks (p_shared s) !! 0%nat = Some (Some None) /\
  (waitDrained_locked (s_budget (p_shared s))).2 = Acquired /\
  s_shutdown (p_shared s) = false /\ f_pc (p_front s) = RSelect /\
  f_callers (p_front s) = [m] /\ bytesUsed (s_budget (p_shared s)) = msg_byteCost m /\
  chan_send (MaxBufferedInputs DefaultProducerConfig) (f_closed (p_front s))
    (f_appendCh (p_front s)) m = Some Panic.
Proof.
  pose proof (rtc_refl (step stored DefaultProducerConfig "run" values)
    (initial DefaultProducerConfig NewInMemory)) as H.
  advance H @by_append ltac:(eapply (step_checked _ _ _ _ _ _ _ _ _ _ [string_bytes "ab"]
    (string_bytes "meta__")); computed).
  advance H @by_append ltac:(eapply (step_reserve _ [] _ [] _ _ _ _ _ _ _ _ 3 0%nat); [computed|computed]).
  advance H @by_rotator ltac:(eapply (step_flush _ _ _ [_] [] _ _ _ _ _ _ 7 0%nat);
    [discriminate|exact (Permutation_refl _)|discriminate|computed|computed]).
  advance H @by_world ltac:(eapply step_close).
  eexists _, sample_message. split; [exact H|]. split_and!; computed.
Qed.
