(* ===== verification/Conform.v ===== *)
(** * The committer of the pipeline ([src/buffer/producer.go]: [manifestCommitter])

    The committer is modelled twice: in [Committer] as a function of what it
    receives, in [Pipeline] as a goroutine whose steps others come between. Here
    the second is shown to compute the first: along every run, what the goroutine
    hands to the resolver, what it writes to the manifest and the state it keeps
    are the results of the function, on the completions the goroutine received
    and the answers its manifest writes got. *)

From S2P Require Import Prelude GoError Bytes Batch Manifest ObjStore Enqueuer Config Budget.
From S2P Require Import Watcher Accumulator Retry Committer Stages Pipeline PipelineInv Durability.
From S2P Require Import Progress Producer.

Local Open Scope Z_scope.

(** ** The function, on answers known in advance *)

Abbreviation answers := (list (option error)).

(** Each manifest write takes the next answer. *)
Definition script (items : list enqueueItem) (w : answers) : option (answers * Z * option error) :=
  match w with [] => None | err :: w => Some (w, 0, err) end.

(** What was appended to the manifest. *)
Definition committed (groups : list (list uploadCompletion * option error)) : list (list enqueueItem) :=
  omap (M := list) (fun g : list uploadCompletion * option error => match g.2 with None => Some (itemOf <$> g.1) | Some _ => None end) groups.

(** What of a result matters: the state but for the measurement of head-of-line
    blocks, the answers left over, the manifest appends and the batches resolved. *)
Definition result : Type := committer * answers * list (list enqueueItem) * list pendingResolution.

Definition view (d : drained answers) : result :=
  (with_hol false (dr_committer d), dr_world d, committed (dr_groups d), dr_resolved d).

(** [v] after the appends [gs] and the batches [rs]. *)
Definition prefixed (gs : list (list enqueueItem)) (rs : list pendingResolution) (v : result) : result :=
  let '(c, w, gs', rs') := v in (c, w, gs ++ gs', rs ++ rs').

Lemma prefixed_nil v : prefixed [] [] v = v.
Proof. by destruct v as [[[c w] gs] rs]. Qed.

Lemma prefixed_prefixed gs rs gs' rs' v :
  prefixed gs rs (prefixed gs' rs' v) = prefixed (gs ++ gs') (rs ++ rs') v.
Proof. destruct v as [[[c w] gs0] rs0]. cbn. by rewrite !(assoc_L (++)). Qed.

Lemma committed_app g1 g2 : committed (g1 ++ g2) = committed g1 ++ committed g2.
Proof. apply omap_app. Qed.

Lemma with_hol_with_hol b b' c : with_hol b (with_hol b' c) = with_hol b c.
Proof. done. Qed.

Lemma hol_eq c c' : with_hol false c = with_hol false c' -> c = with_hol (holStart c) c'.
Proof. destruct c, c'. unfold with_hol. cbn. by intros [= -> -> -> ->]. Qed.

Section Function.
Context (range : readyMap -> list uploadCompletion) (config : ProducerConfig).

Abbreviation drain := (drain script range config).

(** *** Fuel *)

Lemma collect_size n : forall nx rd g f nx' rd' g' f',
  collect n nx rd g f = (nx', rd', g', f') ->
  (size rd' + length g' + length f' = size rd + length g + length f)%nat.
Proof.
  induction n as [|n IH]; intros nx rd g f nx' rd' g' f' H; cbn [collect] in H; [by simplify_eq|].
  destruct (rd !! nx) as [uc|] eqn:E; [|by simplify_eq].
  pose proof (map_size_delete_Some nx rd (mk_is_Some _ _ E)) as Hd.
  assert (size rd <> 0)%nat by (apply map_size_non_empty_iff; intros ->; done).
  destruct (uc_putError uc); apply IH in H; rewrite ?length_app in H; cbn in H; lia.
Qed.

Lemma drain_mono fuel : forall fuel' c w d,
  drain fuel c w = Some d -> (fuel <= fuel')%nat -> drain fuel' c w = Some d.
Proof.
  induction fuel as [|fuel IH]; intros [|fuel'] c w d H Hle; try done; [lia|]. cbn [Committer.drain] in *.
  destruct (collect _ _ _ _ _) as [[[nx rd] group] failed]. destruct (_ && _); [done|].
  destruct (commitGroup _ _ _ _) as [[[w1 err] ev]|]; [|done]. cbn [mbind option_bind] in *.
  destruct err as [e|]; [destruct (negb _); [done|]|];
    (destruct (drain fuel _ _) as [rest|] eqn:Er; [|done]); by rewrite (IH fuel' _ _ _ Er) by lia.
Qed.

Lemma drain_enough fuel : forall c w d, drain fuel c w = Some d -> drainAll script range config c w = Some d.
Proof.
  unfold drainAll. induction fuel as [|fuel IH]; intros c w d H; [done|]. cbn [Committer.drain] in H |- *.
  destruct (collect _ _ _ _ _) as [[[nx rd] group] failed] eqn:Ec.
  destruct ((len group =? 0) && (len failed =? 0)) eqn:Ez; [done|].
  assert (S (size rd) <= size (ready c))%nat as Hsz.
  { apply collect_size in Ec. cbn in Ec. apply andb_false_iff in Ez. rewrite !Z.eqb_neq in Ez. unfold len in Ez. lia. }
  destruct (commitGroup _ _ _ _) as [[[w1 err] ev]|]; [|done]. cbn [mbind option_bind] in H |- *.
  destruct err as [e|]; [destruct (negb _); [done|]|];
    (destruct (drain fuel _ _) as [rest|] eqn:Er; [|done]);
    by rewrite (drain_mono _ _ _ _ _ (IH _ _ _ Er)).
Qed.

(** *** The measurement of head-of-line blocks does not matter *)

Definition hol_drained (b : bool) (d : drained answers) : drained answers :=
  {| dr_committer := with_hol b (dr_committer d); dr_world := dr_world d; dr_events := dr_events d;
     dr_groups := dr_groups d; dr_resolved := dr_resolved d |}.

Lemma drain_hol b fuel : forall c w, drain fuel (with_hol b c) w = hol_drained b <$> drain fuel c w.
Proof.
  induction fuel as [|fuel IH]; intros c w; [done|]. cbn [Committer.drain]. cbn [next ready with_hol].
  destruct (collect _ _ _ _ _) as [[[nx rd] group] failed]. destruct (_ && _); [done|].
  destruct (commitGroup _ _ _ _) as [[[w1 err] ev]|]; [|done]. cbn [mbind option_bind].
  destruct err as [e|]; [destruct (negb _); [done|]|];
    change (with_ready nx rd (with_hol b c)) with (with_hol b (with_ready nx rd c)); rewrite IH;
    by destruct (drain fuel _ _).
Qed.

(** *** Draining, without fuel *)

Definition drains (c : committer) (w : answers) (v : result) : Prop :=
  exists d, drainAll script range config c w = Some d /\ view d = v.

Lemma drains_fuel fuel c w d : drain fuel c w = Some d -> drains c w (view d).
Proof. intros H. exists d. split; [by eapply drain_enough|done]. Qed.

Lemma drains_hol c c' w v : with_hol false c = with_hol false c' -> drains c w v -> drains c' w v.
Proof.
  intros He (d & Hd & <-). symmetry in He. apply hol_eq in He. rewrite He.
  unfold drainAll in Hd. exists (hol_drained (holStart c') d). split; [|done].
  unfold drainAll. cbn [ready with_hol]. by rewrite drain_hol, Hd.
Qed.

(** *** What is left of a round

    The goroutine at [pc] with the state [c] goes on to the result [v] if its
    manifest writes get the answers [w]. *)
Definition sending (out : list pendingResolution) (again : bool) (c : committer) (w : answers) (v : result) : Prop :=
  exists v', v = prefixed [] out v' /\ if again then drains c w v' else v' = (with_hol false c, w, [], []).

Definition writing (group : list uploadCompletion) (failed : list pendingResolution) (closed : bool)
    (c : committer) (w : answers) (v : result) : Prop :=
  exists err w' c' out again v', w = err :: w' /\
    afterCas range c group failed err closed = (c', CSend out again closed) /\
    sending out again c' w' v' /\
    v = prefixed (match err with None => [itemOf <$> group] | Some _ => [] end) [] v'.

Definition ahead (pc : committer_pc) (c : committer) (w : answers) (v : result) : Prop :=
  match pc with
  | CRecv | CExited => v = (with_hol false c, w, [], [])
  | CDrain _ => drains c w v
  | CSend out again _ => sending out again c w v
  | CCas group failed _ closed | CSleep group failed _ closed => writing group failed closed c w v
  end.

(** One round of draining, by what it collected. *)
Section Round.
Context (c : committer) (nx : Z) (rd : readyMap) (group : list uploadCompletion) (failed : list pendingResolution).
Context (Hc : collect (Z.to_nat (batchSize config)) (next c) (ready c) [] [] = (nx, rd, group, failed)).

Lemma drains_nothing w :
  (len group =? 0) && (len failed =? 0) = true ->
  drains c w (with_hol false (with_ready nx rd c), w, [], []).
Proof.
  intros Hz. change (drains c w (view {| dr_committer := with_ready nx rd c; dr_world := w; dr_events := [];
    dr_groups := []; dr_resolved := [] |})). apply (drains_fuel 1). cbn. by rewrite Hc, Hz.
Qed.

Lemma drains_failed w v :
  (len group =? 0) && (len failed =? 0) = false -> 0 <? len group = false ->
  drains (with_ready nx rd c) w v -> drains c w (prefixed [] failed v).
Proof.
  intros Hz Hg (d & Hd & <-). assert (group = []) as -> by (apply len_zero_nil; len_pose; lia).
  unfold drainAll in Hd. generalize dependent (S (size (ready (with_ready nx rd c)))). intros fuel Hd.
  change (drains c w (view {| dr_committer := dr_committer d; dr_world := dr_world d;
    dr_events := dr_events d; dr_groups := dr_groups d; dr_resolved := failed ++ dr_resolved d |})).
  apply (drains_fuel (S fuel)). cbn [Committer.drain]. rewrite Hc, Hz.
  change (commitGroup script config [] w) with (Some (w, @None error, @nil event)). cbn [mbind option_bind].
  by rewrite Hd.
Qed.

Lemma drains_writing closed w v :
  0 <? len group = true -> writing group failed closed (with_ready nx rd c) w v -> drains c w v.
Proof.
  intros Hg (err & w' & c' & out & again & v' & -> & Ha & (v1 & -> & Hv) & ->).
  assert ((len group =? 0) && (len failed =? 0) = false) as Hz
    by (apply andb_false_iff; left; apply Z.eqb_neq; apply Z.ltb_lt in Hg; lia).
  assert (forall fuel d, Committer.drain script range config (S fuel) c (err :: w') = Some d ->
    drains c (err :: w') (view d)) as Hdr by (intros fuel d; apply drains_fuel).
  cbn [Committer.drain] in Hdr. rewrite Hc, Hz in Hdr. unfold commitGroup, group_log in Hdr. rewrite Hg in Hdr.
  cbn [script mbind option_bind] in Hdr. unfold afterCas in Ha. destruct err as [e|].
  - destruct (errors_Is e ErrShutdown) eqn:Ee; cbn [negb] in Hdr.
    + injection Ha as <- <- <-. destruct Hv as (d & Hd & <-). specialize (Hdr (S (size rd))). unfold drainAll in Hd.
    cbn [ready with_ready] in Hd. rewrite Hd in Hdr. specialize (Hdr _ eq_refl).
      revert Hdr. unfold view. cbn. by rewrite (assoc_L (++)).
    + injection Ha as <- <- <-. subst v1. specialize (Hdr O _ eq_refl). revert Hdr. unfold view. cbn.
      by rewrite app_nil_r.
  - injection Ha as <- <- <-. destruct Hv as (d & Hd & <-). specialize (Hdr (S (size rd))). unfold drainAll in Hd.
    cbn [ready with_ready] in Hd. rewrite Hd in Hdr. specialize (Hdr _ eq_refl).
    revert Hdr. unfold view. cbn. by rewrite (assoc_L (++)).
Qed.
End Round.

(** *** Whole runs *)

(** What the goroutine received, round by round, whether it found the channel
    closed, and what it has handed to the resolver. *)
Record clog := {
  l_rounds : list (uploadCompletion * list uploadCompletion);
  l_closed : bool;
  l_handed : list pendingResolution;
}.

Definition log_round (r : uploadCompletion * list uploadCompletion) (l : clog) : clog :=
  {| l_rounds := l_rounds l ++ [r]; l_closed := l_closed l; l_handed := l_handed l |}.
Definition log_closed (l : clog) : clog :=
  {| l_rounds := l_rounds l; l_closed := true; l_handed := l_handed l |}.
Definition log_handed (rs : pendingResolution) (l : clog) : clog :=
  {| l_rounds := l_rounds l; l_closed := l_closed l; l_handed := l_handed l ++ [rs] |}.

Abbreviation chained := andThen.

(** The function on what the goroutine received. *)
Definition loopRun (l : clog) (w : answers) : option (drained answers) :=
  d ← committerRun script range config (l_rounds l) newCommitter w;
  if l_closed l then
    d' ← onClosed script range config (dr_committer d) (dr_world d);
    Some (chained d d')
  else Some d.

Definition whole (l : clog) (w : answers) (v : result) : Prop := exists d, loopRun l w = Some d /\ view d = v.

Lemma view_chained d d' : view (chained d d') = prefixed (committed (dr_groups d)) (dr_resolved d) (view d').
Proof. unfold view, andThen. cbn. by rewrite committed_app. Qed.

Lemma committerRun_snoc uc more d' rounds : forall c w d,
  committerRun script range config rounds c w = Some d ->
  (if halted (dr_committer d)
   then onEach script range config (uc :: more) (dr_committer d) (dr_world d)
   else onCompletion script range config (dr_committer d) uc more (dr_world d)) = Some d' ->
  committerRun script range config (rounds ++ [(uc, more)]) c w = Some (chained d d').
Proof.
  induction rounds as [|[uc0 more0] rounds IH]; intros c w d Hd Hd'; cbn [committerRun app] in *.
  - injection Hd as <-. cbn [atRest dr_committer dr_world] in Hd'. rewrite Hd'. cbn. unfold andThen. cbn.
    by rewrite !app_nil_r.
  - destruct (if halted c then _ else _) as [d1|]; [|done]. cbn [mbind option_bind] in *.
    destruct (committerRun _ _ _ rounds _ _) as [d2|] eqn:E2; [|done]. cbn [mbind option_bind] in Hd.
    injection Hd as <-. rewrite (IH _ _ _ E2 Hd'). cbn. unfold andThen. cbn. by rewrite <- !(assoc_L (++)).
Qed.

Lemma whole_open l w c w1 gs rs :
  l_closed l = false -> whole l w (with_hol false c, w1, gs, rs) ->
  exists d, committerRun script range config (l_rounds l) newCommitter w = Some d /\
    dr_committer d = with_hol (holStart (dr_committer d)) c /\ dr_world d = w1 /\
    committed (dr_groups d) = gs /\ dr_resolved d = rs.
Proof.
  intros Hcl (d & Hd & Hv). unfold loopRun in Hd. rewrite Hcl in Hd.
  destruct (committerRun _ _ _ _ _ _) as [d0|]; [|done]. injection Hd as ->.
  unfold view in Hv. injection Hv as Hn Hr Hh Hno Hw Hg Hrs. exists d. split_and!; try done.
  destruct (dr_committer d), c. cbn in *. by subst.
Qed.

Lemma whole_round l w c w1 gs rs uc more v :
  l_closed l = false -> whole l w (with_hol false c, w1, gs, rs) -> halted c = false ->
  drains (with_ready (next c) (gather (ready c) (uc :: more)) c) w1 v ->
  whole (log_round (uc, more) l) w (prefixed gs rs v).
Proof.
  intros Hcl Hw Hh Hdr. destruct (whole_open _ _ _ _ _ _ Hcl Hw) as (d & Hd & Hc & <- & <- & <-).
  set (c2 := dr_committer d) in *. assert (exists d', onCompletion script range config c2 uc more (dr_world d) = Some d' /\
    view d' = v) as (d' & Hd' & <-).
  { rewrite Hc. unfold onCompletion. cbn [halted with_hol]. rewrite Hh. cbn [next ready with_hol].
    change (gather (<[uc_ordinal uc := uc]> (ready c)) more) with (gather (ready c) (uc :: more)).
    match goal with |- context [drainAll _ _ _ ?c0 _] => assert (drains c0 (dr_world d) v) as (d0 & Hd0 & <-) end.
    { eapply drains_hol; [|exact Hdr]. done. }
    rewrite Hd0. cbn [mbind option_bind]. destruct (_ && _); [|by exists d0]. by eexists. }
  exists (chained d d'). split; [|apply view_chained]. unfold loopRun. cbn [l_rounds l_closed log_round].
  rewrite (committerRun_snoc uc more d' _ _ _ _ Hd), Hcl; [done|]. fold c2. rewrite Hc. cbn [halted with_hol].
  by rewrite Hh, <- Hc.
Qed.

Lemma whole_abandon l w c w1 gs rs uc :
  l_closed l = false -> whole l w (with_hol false c, w1, gs, rs) -> halted c = true ->
  whole (log_round (uc, []) l) w (with_hol false c, w1, gs, rs ++ [abandoned uc]).
Proof.
  intros Hcl Hw Hh. destruct (whole_open _ _ _ _ _ _ Hcl Hw) as (d & Hd & Hc & <- & <- & <-).
  eexists (chained d _). unfold loopRun. cbn [l_rounds l_closed log_round].
  erewrite (committerRun_snoc uc [] _ _ _ _ _ Hd), Hcl; [split; [reflexivity|]|].
  2: { rewrite Hc. cbn [halted with_hol]. rewrite Hh. by apply onEach_halted. }
  rewrite view_chained. unfold view. cbn. rewrite Hc, app_nil_r. done.
Qed.

Lemma whole_closed l w c w1 gs rs v :
  l_closed l = false -> whole l w (with_hol false c, w1, gs, rs) ->
  (if halted c then v = (with_hol false c, w1, [], []) else drains c w1 v) ->
  whole (log_closed l) w (prefixed gs rs v).
Proof.
  intros Hcl Hw Hv. destruct (whole_open _ _ _ _ _ _ Hcl Hw) as (d & Hd & Hc & <- & <- & <-).
  assert (exists d', onClosed script range config (dr_committer d) (dr_world d) = Some d' /\ view d' = v) as (d' & Hd' & <-).
  { rewrite Hc. unfold onClosed. cbn [halted with_hol]. destruct (halted c).
    - eexists. split; [reflexivity|]. subst v. done.
    - eapply drains_hol; [|exact Hv]. done. }
  exists (chained d d'). split; [|apply view_chained]. unfold loopRun. cbn [l_rounds l_closed log_closed].
  rewrite Hd. cbn [mbind option_bind]. by rewrite Hd'.
Qed.

Lemma whole_handed rs l w v : whole (log_handed rs l) w v <-> whole l w v.
Proof. done. Qed.
End Function.

(** ** The goroutine *)

Section Goroutine.
Context {St : Type} {HO : ObjectStore St} {HC : StoreContents St}.
Context (z : zstd_lib) (config : ProducerConfig) (runID : string).
Context (range : readyMap -> list uploadCompletion).
Implicit Types s : pipeline St.

(** What a step of the committer adds to the log. *)
Definition log_step s s' (l : clog) : clog :=
  match b_pc (p_back s), b_pc (p_back s') with
  | CRecv, CDrain _ =>
      match m_completionCh (p_middle s) with uc :: more => log_round (uc, more) l | [] => log_closed l end
  | CRecv, CExited => log_closed l
  | CRecv, _ => match m_completionCh (p_middle s) with uc :: _ => log_round (uc, []) l | [] => l end
  | CSend (rs :: _) _ _, CSend _ _ _ => log_handed rs l
  | _, _ => l
  end.

Definition other_step s s' : Prop :=
  append_step config s s' \/ rotator_step config s s' \/ encoder_step z config runID s s' \/
  uploader_step config s s' \/ resolver_step s s' \/ world_step config runID s s'.

Inductive logged_step : pipeline St * clog -> pipeline St * clog -> Prop :=
  | logged_committer s s' l : committer_step config range s s' -> logged_step (s, l) (s', log_step s s' l)
  | logged_other s s' l : other_step s s' -> logged_step (s, l) (s', l).

Definition logged (st : St) (sl : pipeline St * clog) : Prop :=
  rtc logged_step (initial config st, {| l_rounds := []; l_closed := false; l_handed := [] |}) sl.

(** Every run can be logged. *)
Lemma reachable_logged st s : reachable z config runID range st s -> exists l, logged st (s, l).
Proof.
  revert s. apply rtc_ind_r; [eexists; apply rtc_refl|]. intros s s' _ Hst [l Hl].
  assert (exists l', logged_step (s, l) (s', l')) as [l' Hs].
  { destruct Hst; [| | | |eexists; by apply logged_committer|..]; exists l; apply logged_other; unfold other_step; tauto. }
  exists l'. by eapply rtc_r.
Qed.

(** The goroutine and the function, at any moment: whatever answers are still to
    come, the rest of the round completes the function's run. *)
Definition conforms (s : pipeline St) (l : clog) : Prop :=
  (l_closed l = true -> closing (b_pc (p_back s)) = true) /\
  exists ws, forall w v, ahead range config (b_pc (p_back s)) (b_committer (p_back s)) w v ->
    whole range config l (ws ++ w) (prefixed (s_commits (p_shared s)).*2 (l_handed l) v).

Lemma other_conforms s s' l : other_step s s' -> conforms s l -> conforms s' l.
Proof.
  intros H. assert (b_pc (p_back s') = b_pc (p_back s) /\ b_committer (p_back s') = b_committer (p_back s) /\
    s_commits (p_shared s') = s_commits (p_shared s)) as (E1 & E2 & E3).
  { assert (forall ack err (sh : shared St), s_commits (send_ack ack err sh) = s_commits sh) as HA by (by intros []).
    destruct H as [H|[H|[H|[H|[H|H]]]]]; destruct H; unpipe; try done; split_and!; try done;
    rewrite ?HA; unpipe; try done;
    match goal with
    | H : onMessage _ _ _ _ _ = _ |- _ => apply onMessage_spec in H; apply H
    | H : beginEmit _ _ _ _ = _ |- _ => apply beginEmit_spec in H; apply H
    end. }
  unfold conforms. by rewrite E1, E2, E3.
Qed.

(** At rest, the function's run so far. *)
Lemma conforms_recv f mid c rv sh l :
  conforms (Pipe St f mid (Back c CRecv rv) sh) l -> l_closed l = false /\
  exists ws, forall w, whole range config l (ws ++ w) (with_hol false c, w, (s_commits sh).*2, l_handed l).
Proof.
  intros [Hcl [ws H]]. unpipe. split; [by destruct (l_closed l); [specialize (Hcl eq_refl)|]|].
  exists ws. intros w. specialize (H w _ eq_refl). cbn in H. by rewrite !app_nil_r in H.
Qed.

Lemma afterCas_shape c group failed err closed c' pc' :
  afterCas range c group failed err closed = (c', pc') -> exists out again, pc' = CSend out again closed.
Proof. unfold afterCas. destruct err as [e|]; [destruct (errors_Is e _)|]; intros [= <- <-]; eauto. Qed.

(** A manifest write gets its answer. *)
Lemma answered f mid c rv sh l group failed k closed pc0 err c' pc' sh' :
  pc0 = CCas group failed k closed \/ pc0 = CSleep group failed k closed ->
  afterCas range c group failed err closed = (c', pc') ->
  (s_commits sh').*2 = (s_commits sh).*2 ++ match err with None => [itemOf <$> group] | Some _ => [] end ->
  conforms (Pipe St f mid (Back c pc0 rv) sh) l -> conforms (Pipe St f mid (Back c' pc' rv) sh') l.
Proof.
  intros Hpc Ha Hcom [Hcl [ws H]]. destruct (afterCas_shape _ _ _ _ _ _ _ Ha) as (out & again & ->). unpipe. split.
  { intros Hl. specialize (Hcl Hl). by destruct Hpc as [-> | ->]. }
  exists (ws ++ [err]). intros w v Hv. unpipe. cbn [ahead] in Hv. rewrite Hcom, <- (assoc_L (++)). cbn [app].
  specialize (H (err :: w) (prefixed (match err with None => [itemOf <$> group] | Some _ => [] end) [] v)).
  rewrite prefixed_prefixed, app_nil_r in H. apply H.
  destruct Hpc as [-> | ->]; cbn [ahead]; exists err, w, c', out, again, v; by split_and!.
Qed.

(** The same log, and every way on was a way on before. *)
Lemma same_log f mid c pc rv sh l f' mid' c' pc' rv' sh' :
  (closing pc = true -> closing pc' = true) -> s_commits sh' = s_commits sh ->
  (forall w v, ahead range config pc' c' w v -> ahead range config pc c w v) ->
  conforms (Pipe St f mid (Back c pc rv) sh) l -> conforms (Pipe St f' mid' (Back c' pc' rv') sh') l.
Proof.
  intros Hpc Hcom Hah [Hcl [ws H]]. unpipe. split; [auto|]. exists ws. unpipe. rewrite Hcom. auto.
Qed.

Lemma committer_conforms_step s s' l :
  committer_step config range s s' -> conforms s l -> conforms s' (log_step s s' l).
Proof.
  intros Hst Hcf. destruct Hst as [f es us uc more c rv sh closed Hh Hcl|f es us uc more c rv sh Hh|cl cs ch cd r c rv sh
    |f mid c rv sh closed nx' rd' group failed Hc|f mid c rv sh group failed k closed st' c' pc' Hcas Ha
    |f mid c rv sh group failed k closed st' err c' pc' Hcas Ha|f mid c rv sh group failed k closed
    |f mid c rv sh group failed k closed c' pc' Hsd Ha|f mid c rs out again closed sh|f mid c again closed rv sh];
    unfold log_step; unpipe.
  - destruct (conforms_recv _ _ _ _ _ _ Hcf) as [Hl [ws H]]. split; [cbn; congruence|]. exists ws. intros w v Hv.
    by apply (whole_round _ _ l _ c w).
  - destruct (conforms_recv _ _ _ _ _ _ Hcf) as [Hl [ws H]]. split; [cbn; congruence|]. exists ws.
    intros w v (v' & -> & ->). unpipe. cbn [prefixed app l_handed log_round]. rewrite app_nil_r.
    by apply (whole_abandon _ _ l _ c w).
  - destruct (conforms_recv _ _ _ _ _ _ Hcf) as [Hl [ws H]]. split; [by destruct (halted c)|].
    exists ws. intros w v Hv. unpipe. replace (l_handed _) with (l_handed l) by (by destruct (halted c)).
    assert (whole range config (log_closed l) (ws ++ w) (prefixed (s_commits sh).*2 (l_handed l) v)) as Hw.
    { apply (whole_closed _ _ l _ c w); try done. by destruct (halted c). }
    by destruct (halted c).
  - eapply (same_log f mid _ _ rv sh); [| |intros w v Hv|exact Hcf]; [|done|].
    + cbn. repeat case_match; done.
    + cbn [ahead]. destruct ((len group =? 0) && (len failed =? 0)) eqn:Ez; [|destruct (0 <? len group) eqn:Eg].
      * assert (v = (with_hol false (with_ready nx' rd' c), w, [], [])) as -> by (by destruct closed).
        by apply (drains_nothing _ _ _ _ _ _ _ Hc).
      * by eapply (drains_writing _ _ _ _ _ _ _ Hc).
      * destruct Hv as (v' & -> & Hv). by apply (drains_failed _ _ _ _ _ _ _ Hc).
  - destruct (afterCas_shape _ _ _ _ _ _ _ Ha) as (out & again & ->).
    eapply answered; [by left|exact Ha| |exact Hcf]. cbn. by rewrite fmap_app.
  - destruct (S k <? manifestAttempts config)%nat.
    + injection Ha as <- <-. eapply (same_log f mid _ _ rv sh); [| |intros w v Hv; exact Hv|exact Hcf]; done.
    + destruct (afterCas_shape _ _ _ _ _ _ _ Ha) as (out & again & ->).
      eapply answered; [by left|exact Ha| |exact Hcf]. by rewrite app_nil_r.
  - eapply (same_log f mid _ _ rv sh); [| |intros w v Hv; exact Hv|exact Hcf]; done.
  - destruct (afterCas_shape _ _ _ _ _ _ _ Ha) as (out & again & ->).
    eapply answered; [by right|exact Ha| |exact Hcf]. by rewrite app_nil_r.
  - destruct Hcf as [Hcl [ws H]]. split; [exact Hcl|]. exists ws. intros w v (v' & -> & Hv). unpipe.
    apply whole_handed. cbn [l_handed log_handed]. specialize (H w (prefixed [] (rs :: out) v')).
    rewrite prefixed_prefixed in *. cbn [app] in H |- *. rewrite <- (assoc_L (++)). apply H. by exists v'.
  - destruct again.
    + eapply (same_log f mid _ _ rv sh); [| |intros w v Hv|exact Hcf]; [done|done|]. exists v. by rewrite prefixed_nil.
    + eapply (same_log f mid _ _ rv sh); [| |intros w v Hv|exact Hcf]; [by destruct closed|done|].
      exists v. rewrite prefixed_nil. split; [done|]. by destruct closed.
Qed.

Lemma logged_conforms st s l : logged st (s, l) -> conforms s l.
Proof.
  intros H. apply (rtc_invariant logged_step (fun sl => conforms sl.1 sl.2)) in H; [exact H| |].
  - split; [done|]. exists []. intros w v ->. unpipe. cbn. eexists. by split.
  - intros [s1 l1] [s2 l2] Hc Hst. inversion Hst; subst; cbn [fst snd] in *;
      [by apply committer_conforms_step|by eapply other_conforms].
Qed.
End Goroutine.

(** The committer of the pipeline refines its function. Along every run,
    whenever the goroutine waits for completions or has exited, its state, its
    manifest appends and the batches it has handed to the resolver, in order,
    are what [loopRun], the loop as a function, computes from the completions the
    goroutine received, in the rounds it received them in, and from the answers
    of its manifest writes, all of which are used. *)
Theorem committer_conforms {St} `{ObjectStore St, !StoreContents St} z config runID range (st : St) s l :
  logged z config runID range st (s, l) ->
  b_pc (p_back s) = CRecv \/ b_pc (p_back s) = CExited ->
  exists w d, loopRun range config l w = Some d /\ dr_world d = [] /\
    with_hol false (dr_committer d) = with_hol false (b_committer (p_back s)) /\
    committed (dr_groups d) = (s_commits (p_shared s)).*2 /\ dr_resolved d = l_handed l.
Proof.
  intros Hl Hpc. apply logged_conforms in Hl as [_ [ws Hw]].
  destruct (Hw [] (with_hol false (b_committer (p_back s)), [], [], [])) as (d & Hd & Hv);
    [by destruct Hpc as [-> | ->]|].
  exists (ws ++ []), d. unfold view in Hv. cbn [prefixed] in Hv. rewrite !app_nil_r in Hv.
  injection Hv as Hn Hr Hh Hno Hwd Hg Hrs. split_and!; try done.
  destruct (dr_committer d), (b_committer (p_back s)). unfold with_hol. cbn in *. congruence.
Qed.

Lemma committer_conforms_witness : exists s l w d,
  loopRun values DefaultProducerConfig l w = Some d /\ dr_resolved d = l_handed l /\
  committed (dr_groups d) = (s_commits (St := InMemory) (p_shared s)).*2 /\
  commit_locations (s_commits (p_shared s)) = ["ingest/run/0000000000000000"%string].
Proof.
  destruct sample_trace as (_ & _ & _ & s & _ & _ & _ & Hr & Hpc & _ & _ & Hc).
  destruct (reachable_logged _ _ _ _ _ _ Hr) as [l Hl].
  destruct (committer_conforms stored DefaultProducerConfig "run" values NewInMemory s l Hl ltac:(right; exact Hpc))
    as (w & d & Hd & _ & _ & Hg & Hrs).
  exists s, l, w, d. split; [exact Hd|]. split; [exact Hrs|]. split; [exact Hg|exact Hc].
Defined.
