(* ===== verification/Desk.v ===== *)
(** * The pipeline as a desk

    The acknowledgements of [Flush] over the pipeline ([src/buffer/producer.go]),
    seen through an abstraction. A ticket is a batch with its watchers, and with
    the acknowledgement it owes if a [Flush] caused it; a desk takes tickets in
    and answers each one once. [pipeline_desk] says that every step of the
    pipeline is a step of the desk, so that what holds of desks holds of the
    pipeline. *)

From S2P Require Import Prelude GoError Bytes Batch Manifest ObjStore Enqueuer Config Budget.
From S2P Require Import Watcher Accumulator Retry Committer Stages Pipeline PipelineInv Durability.
From S2P Require Import Progress.
From stdpp Require Import list_tactics list_numbers.

Local Open Scope Z_scope.

(** ** The desk *)

(** The acknowledgement owed, the watchers, and the number of inputs reported
    for the batch. *)
Definition ticket : Type := option ack_id * list watcher_id * Z.

(** [d_acks]: the channels of the [Flush] calls; an inner [None] is an empty
    buffer. *)
Record desk := Desk {
  d_tickets : list ticket;
  d_acks : gmap ack_id (option (option error));
  d_watchers : gmap watcher_id DurabilityWatcher;
}.

Definition answer (ack : option ack_id) (err : option error)
    (acks : gmap ack_id (option (option error))) : gmap ack_id (option (option error)) :=
  match ack with None => acks | Some a => <[a := Some err]> acks end.

(** What was decided stays. *)
Definition keeps_done (ws ws' : gmap watcher_id DurabilityWatcher) : Prop :=
  forall w dw, ws !! w = Some dw -> done dw = true -> ws' !! w = Some dw.

Inductive desk_step : desk -> desk -> Prop :=
  | desk_move T T' A W W' :
      T ≡ₚ T' -> keeps_done W W' -> desk_step (Desk T A W) (Desk T' A W')
  | desk_take T T' ids A W :
      T' ≡ₚ (None, ids, len ids) :: T -> desk_step (Desk T A W) (Desk T' A W)
  | desk_flush T T' a ids A W :
      A !! a = None -> T' ≡ₚ (Some a, ids, len ids) :: T ->
      desk_step (Desk T A W) (Desk T' (<[a := None]> A) W)
  | desk_flush_empty T T' a A W :
      A !! a = None -> T' ≡ₚ T -> desk_step (Desk T A W) (Desk T' (<[a := Some None]> A) W)
  | desk_answer T T' ack ids n err A W W' :
      T ≡ₚ (ack, ids, n) :: T' -> keeps_done W W' ->
      (forall w, w ∈ ids -> W' !! w = Some {| result := err; done := true; ch_closed := true |}) ->
      desk_step (Desk T A W) (Desk T' (answer ack err A) W').

Definition ticket_acks (T : list ticket) : list ack_id := T ≫= (fun t => option_list t.1.1).

#[export] Instance ticket_acks_Permutation : Proper ((≡ₚ) ==> (≡ₚ)) ticket_acks.
Proof. intros T T' HT. unfold ticket_acks. by rewrite HT. Qed.

(** Every open channel has one ticket, and every ticket's channel is open. *)
Record desk_ok (d : desk) : Prop := {
  dk_nodup : NoDup (ticket_acks (d_tickets d));
  dk_open : forall a, d_acks d !! a = Some None <-> a ∈ ticket_acks (d_tickets d);
  dk_inputs : Forall (fun t => t.2 = len t.1.2) (d_tickets d);
}.

Lemma desk_step_ok d d' : desk_step d d' -> desk_ok d -> desk_ok d'.
Proof.
  intros Hst [Hnd Ho Hi]. destruct Hst as [T T' A W W' HT Hk|T T' ids A W HT|T T' a ids A W Ha HT
    |T T' a A W Ha HT|T T' ack ids n err A W W' HT Hk Hr]; cbn in *.
  - split; cbn; [by rewrite <- HT| |by rewrite <- HT]. intros b. by rewrite <- HT.
  - split; cbn; [by rewrite HT| |rewrite HT; by constructor]. intros b. by rewrite HT.
  - assert (a ∉ ticket_acks T) as Hnin by (rewrite <- Ho; congruence).
    split; cbn; [rewrite HT; by apply NoDup_cons| |rewrite HT; by constructor].
    intros b. rewrite HT. cbn. rewrite elem_of_cons.
    destruct (decide (a = b)) as [->|Hne].
    + rewrite lookup_insert_eq. tauto.
    + rewrite lookup_insert_ne by done. rewrite Ho. intuition congruence.
  - assert (a ∉ ticket_acks T) as Hnin by (rewrite <- Ho; congruence).
    split; cbn; [by rewrite HT| |by rewrite HT]. intros b. rewrite HT. destruct (decide (a = b)) as [->|Hne].
    + rewrite lookup_insert_eq. split; [done|]. tauto.
    + by rewrite lookup_insert_ne.
  - rewrite HT in Hnd. setoid_rewrite HT in Ho. rewrite HT in Hi. apply Forall_cons in Hi as [_ Hi].
    destruct ack as [a|]; [|by split]. cbn in *.
    apply NoDup_cons in Hnd as [Hnin Hnd]. split; cbn; [done| |done].
    intros b. destruct (decide (a = b)) as [->|Hne].
    + rewrite lookup_insert_eq. split; [done|]. tauto.
    + rewrite lookup_insert_ne by done. rewrite Ho, elem_of_cons. intuition congruence.
Qed.

(** The watcher [w] of a ticket that owes the acknowledgement [a]: it has the
    ticket still, or it was decided as the acknowledgement says. *)
Definition covered (a : ack_id) (w : watcher_id) (d : desk) : Prop :=
  (exists ids n, (Some a, ids, n) ∈ d_tickets d /\ w ∈ ids) \/
  (exists err, d_acks d !! a = Some (Some err) /\
     d_watchers d !! w = Some {| result := err; done := true; ch_closed := true |}).

Lemma desk_step_covered a w d d' : desk_step d d' -> desk_ok d -> covered a w d -> covered a w d'.
Proof.
  intros Hst [Hnd Ho] Hc. destruct Hst as [T T' A W W' HT Hk|T T' ids A W HT|T T' b ids A W Ha HT
    |T T' b A W Ha HT|T T' ack ids n err A W W' HT Hk Hr]; unfold covered in *; cbn in *.
  - destruct Hc as [(ids & n & Hin & Hw)|(err & Ha & Hw)]; [left; exists ids, n; by rewrite <- HT|].
    right. exists err. split; [done|]. by apply Hk.
  - destruct Hc as [(ids' & n' & Hin & Hw)|?]; [|by right]. left. exists ids', n'. rewrite HT. split; [|done].
    by right.
  - destruct Hc as [(ids' & n' & Hin & Hw)|(err & Haa & Hw)].
    + left. exists ids', n'. rewrite HT. split; [by right|done].
    + right. exists err. rewrite lookup_insert_ne by congruence. done.
  - destruct Hc as [(ids' & n' & Hin & Hw)|(err & Haa & Hw)].
    + left. exists ids', n'. by rewrite HT.
    + right. exists err. rewrite lookup_insert_ne by congruence. done.
  - destruct Hc as [(ids' & n' & Hin & Hw)|(err' & Haa & Hw)].
    + rewrite HT in Hin. apply elem_of_cons in Hin as [[= <- <- <-]|Hin].
      * right. exists err. cbn. rewrite lookup_insert_eq. split; [done|]. by apply Hr.
      * left. by exists ids', n'.
    + right. exists err'. split; [|by apply Hk]. destruct ack as [b|]; [|done]. cbn.
      rewrite lookup_insert_ne; [done|]. intros ->.
      assert (a ∈ ticket_acks T) as Hin by (rewrite HT; cbn; by left).
      apply Ho in Hin. congruence.
Qed.

(** ** The pipeline as a desk *)

Definition cargo_ack (c : cargo) : option ack_id :=
  match c with
  | Pending pb => pb_flushAck pb
  | Encoded eb => eb_flushAck eb
  | Completed uc => eb_flushAck (uc_eb uc)
  | Resolving rs | Releasing rs => eb_flushAck (uc_eb (rs_uc rs))
  end.

Definition cargo_inputs (c : cargo) : Z :=
  match c with
  | Pending pb => Inputs (pb_stats pb)
  | Encoded eb => Inputs (eb_stats eb)
  | Completed uc => Inputs (eb_stats (uc_eb uc))
  | Resolving rs | Releasing rs => Inputs (eb_stats (uc_eb (rs_uc rs)))
  end.

Definition cargo_ticket (c : cargo) : list ticket :=
  match c with Releasing _ => [] | _ => [(cargo_ack c, cargo_watchers c, cargo_inputs c)] end.

(** The batch the rotator is about to emit. *)
Definition rot_ticket (pc : rotator_pc) (r : rotator) : list ticket :=
  match pc with
  | REmit _ ack | RWait _ ack _ | RSlot _ ack =>
      [(ack, acc_watchers (rot_batch r), len (acc_watchers (rot_batch r)))]
  | RSelect | RSend _ | RExited => []
  end.

Definition tickets (f : front) (mid : middle) (bk : back) : list ticket :=
  rot_ticket (f_pc f) (f_rotator f) ++ (cargos (f_pc f) mid bk ≫= cargo_ticket).

Definition desk_of {St} (s : pipeline St) : desk :=
  Desk (tickets (p_front s) (p_middle s) (p_back s)) (s_acks (p_shared s))
    (s_watchers (p_shared s)).

#[export] Instance keeps_done_reflexive : Reflexive keeps_done.
Proof. by intros ws w dw. Qed.

(** Batches that change stage keep their tickets. *)
Lemma cargo_tickets_move cs cs' xs ys rest :
  cs ≡ₚ xs ++ rest -> cs' ≡ₚ ys ++ rest -> (xs ≫= cargo_ticket) ≡ₚ (ys ≫= cargo_ticket) ->
  (cs ≫= cargo_ticket) ≡ₚ (cs' ≫= cargo_ticket).
Proof. intros -> -> Hx. by rewrite !bind_app, Hx. Qed.

Section Desk.
Context {St : Type} {HO : ObjectStore St} {HC : StoreContents St}.
Context (z : zstd_lib) (config : ProducerConfig) (runID : string).
Context (range : readyMap -> list uploadCompletion) (Hrange : forall m, range m ≡ₚ values m).
Implicit Types s : pipeline St.

Ltac list_tickets :=
  unfold tickets, cargos; unpipe; cbn [rot_ticket rot_cargo com_cargo res_cargo];
  rewrite ?fmap_app, ?fmap_cons, ?fmap_nil, ?bind_app; cbn;
  rewrite ?bind_app; cbn; solve_Permutation.

Ltac same_tickets := apply desk_move; [list_tickets|reflexivity].

Lemma afterEmit_tickets reason r : rot_ticket (afterEmit reason) r = [].
Proof. by destruct reason. Qed.

(** An accumulator has one metadata record per message. *)
Lemma holds_inputs b msgs : holds b msgs -> len (acc_metadata b) = len (acc_watchers b).
Proof.
  intros Hh. rewrite (holds_metadata _ _ Hh), (holds_watchers _ _ Hh), len_fmap. clear Hh.
  generalize 0. induction msgs as [|m msgs IH]; intros start; cbn [metadata_from]; [done|].
  by rewrite !len_cons, IH.
Qed.

(** The rotator begins to emit without a [Flush]. *)
Lemma beginEmit_desk r r' pc reason (sh sh' : shared St) pc' f f' mid bk :
  rot_cargo pc = [] -> rot_ticket pc r = [] ->
  beginEmit r' reason None sh = (pc', sh') ->
  f_pc f = pc -> f_rotator f = r -> f_pc f' = pc' -> f_rotator f' = r' ->
  desk_step (Desk (tickets f mid bk) (s_acks sh) (s_watchers sh))
    (Desk (tickets f' mid bk) (s_acks sh') (s_watchers sh')).
Proof.
  intros Hc Ht Hb <- <- <- <-. unfold beginEmit in Hb. unfold tickets, cargos. rewrite Hc, Ht.
  destruct (isEmpty _); injection Hb as <- <-.
  - rewrite afterEmit_tickets. assert (rot_cargo (afterEmit reason) = []) as -> by by destruct reason.
    by apply desk_move.
  - by eapply (desk_take _ _ (acc_watchers (rot_batch (f_rotator f')))).
Qed.

Lemma onMessage_desk now r m (sh sh' : shared St) r' pc' f f' mid bk :
  onMessage config now r m sh = (r', (pc', sh')) ->
  f_pc f = RSelect -> f_rotator f = r -> f_pc f' = pc' -> f_rotator f' = r' ->
  desk_step (Desk (tickets f mid bk) (s_acks sh) (s_watchers sh))
    (Desk (tickets f' mid bk) (s_acks sh') (s_watchers sh')).
Proof.
  unfold onMessage. intros [= <- Hb] Hpc Hr Hpc' Hr'. destruct (sizeReached _ _).
  - apply (beginEmit_desk r (rotatorAdd now r m) RSelect FlushReasonSize _ _ pc'); done.
  - injection Hb as <- <-. unfold tickets, cargos. rewrite Hpc, Hpc'. by apply desk_move.
Qed.

(** Watchers that are in flight are resolved. *)
Lemma resolve_in_flight msgs cs ws sub (st : St) commits ids rest err ws' :
  flight_ok z config runID msgs cs ws sub st commits ->
  (msg_watcher <$> msgs) ++ (cs ≫= cargo_watchers) ≡ₚ ids ++ rest ->
  resolveWatchers ws ids err = Ret ws' ->
  keeps_done ws ws' /\
  forall w, w ∈ ids -> ws' !! w = Some {| result := err; done := true; ch_closed := true |}.
Proof.
  intros F Hp Hres. pose proof (fl_nodup _ _ _ _ _ _ _ _ _ F) as Hnd. rewrite Hp in Hnd.
  apply NoDup_app in Hnd as (Hnd & _ & _).
  assert (forall w, w ∈ ids -> ws !! w = Some newDurabilityWatcher) as Hopen.
  { intros w Hw. apply F. rewrite Hp. apply elem_of_app. by left. }
  destruct (resolveWatchers_open ids err ws Hnd) as (ws1 & Heq & Hws).
  { by apply Forall_forall. }
  rewrite Heq in Hres. injection Hres as <-. split.
  - intros w dw Hw Hd. rewrite Hws. destruct (decide (w ∈ ids)) as [Hin|]; [|done].
    rewrite (Hopen w Hin) in Hw. by injection Hw as <-.
  - intros w Hin. rewrite Hws. by rewrite decide_True.
Qed.

Abbreviation delivery := (delivery_ok z config runID).

Lemma append_desk s s' : append_step config s s' -> delivery s -> desk_step (desk_of s) (desk_of s').
Proof.
  intros Hst (_ & held & _ & F). destruct Hst; unfold desk_of; unpipe; try by same_tickets.
  - apply desk_move; [done|]. intros w' dw Hw Hd.
    destruct (fl_known _ _ _ _ _ _ _ _ _ F _ _ Hw) as [[x Hx] _]. cbn in *.
    rewrite lookup_insert_ne; [done|congruence].
  - by eapply onMessage_desk.
  - apply desk_move; [done|]. intros w dw Hw Hd. rewrite lookup_delete_ne; [done|]. intros <-.
    assert (s_watchers sh !! msg_watcher m = Some newDurabilityWatcher) as Ho.
    { apply F. rewrite !fmap_app, fmap_cons, !elem_of_app. do 2 left. right. by left. }
    rewrite Ho in Hw. by injection Hw as <-.
Qed.

(** The rotator begins to emit for a [Flush]. *)
Lemma flush_desk cl cs ch cd r cs' r' a mid bk (sh sh' : shared St) pc' :
  s_acks sh !! a = None ->
  beginEmit r' FlushReasonManual (Some a) (make_ack a sh) = (pc', sh') ->
  desk_step (desk_of (Pipe St (Front cl cs ch cd r RSelect) mid bk sh))
    (desk_of (Pipe St (Front cl cs' [] cd r' pc') mid bk sh')).
Proof.
  intros Ha Hb. unfold beginEmit in Hb. unfold desk_of, tickets, cargos. unpipe.
  destruct (isEmpty _); injection Hb as <- <-; unpipe; cbn [send_ack s_acks s_watchers make_ack].
  - rewrite insert_insert_eq. by apply desk_flush_empty.
  - by eapply (desk_flush _ _ _ (acc_watchers (rot_batch r'))).
Qed.

Lemma rotator_desk s s' :
  rotator_step config s s' -> delivery s -> desk_step (desk_of s) (desk_of s').
Proof.
  intros Hst (_ & held & Hr & F). destruct Hst; try (by eapply flush_desk); unfold desk_of; unpipe.
  - by eapply onMessage_desk.
  - by eapply (beginEmit_desk r r RSelect).
  - by eapply (beginEmit_desk r r RSelect).
  - same_tickets.
  - same_tickets.
  - same_tickets.
  - injection H0 as <- <- <-. cbn [app].
    assert ((msg_watcher <$> cs ++ ch ++ held) ++ (cargos (RWait reason ack chan) mid bk ≫= cargo_watchers)
      ≡ₚ acc_watchers (rot_batch r) ++ (msg_watcher <$> cs ++ ch) ++
         (cargos (RWait reason ack chan) mid bk ≫= cargo_watchers)) as Hp.
    { rewrite (holds_watchers _ _ (ro_holds _ _ Hr)), !fmap_app. solve_Permutation. }
    destruct (resolve_in_flight _ _ _ _ _ _ _ _ _ _ F Hp H2) as [Hk Hw].
    replace (s_acks (send_ack _ _ _)) with (answer ack (Some (Sentinel ErrShutdown)) (s_acks sh))
      by by destruct ack.
    destruct (send_ack_same ack (Some (Sentinel ErrShutdown))
      (on_watchers ws' (on_budget b' sh))) as (_ & -> & _). unpipe.
    apply (desk_answer _ _ _ (acc_watchers (rot_batch r)) (len (acc_watchers (rot_batch r)))); [|done|done].
    unfold tickets, cargos. unpipe. rewrite afterEmit_tickets.
    by rewrite (rot_idle_cargo _ (afterEmit_idle reason)).
  - unfold emitBatch in H0. cbn in H0. injection H0 as <- <- <-. apply desk_move; [|reflexivity].
    unfold tickets, cargos. unpipe. cbn [rot_ticket rot_cargo app].
    by rewrite <- (holds_inputs _ _ (ro_holds _ _ Hr)).
  - apply desk_move; [|reflexivity]. unfold tickets, cargos. unpipe. rewrite afterEmit_tickets.
    rewrite (rot_idle_cargo _ (afterEmit_idle _)). cbn. rewrite !bind_app. cbn. solve_Permutation.
Qed.

Lemma encoder_desk s s' : encoder_step z config runID s s' -> desk_step (desk_of s) (desk_of s').
Proof.
  intros Hst. destruct Hst; unfold desk_of; unpipe; [|same_tickets..].
  apply desk_move; [|reflexivity]. unfold tickets. apply Permutation_app; [done|].
  eapply (cargo_tickets_move _ _ [Pending pb]
    [enc_cargo match res with inl eb => EncDone eb | inr uc => EncFailed uc end]
    (cargos (f_pc f) (Middle (es1 ++ es2) us cc) bk)).
  - unfold cargos. unpipe. rewrite !fmap_app, fmap_cons. cbn. solve_Permutation.
  - unfold cargos. unpipe. rewrite !fmap_app, fmap_cons. cbn. solve_Permutation.
  - unfold encodeOne in H. by destruct (EncodeBatch z _ _); simplify_eq/=.
Qed.

Lemma uploader_desk s s' : uploader_step config s s' -> desk_step (desk_of s) (desk_of s').
Proof.
  intros Hst. destruct Hst; unfold desk_of; unpipe; try case_match; same_tickets.
Qed.

(** Completions that get their results keep their tickets. *)
Lemma tickets_resolving (l : list pendingResolution) :
  (Completed <$> (rs_uc <$> l)) ≫= cargo_ticket = (Resolving <$> l) ≫= cargo_ticket.
Proof. induction l as [|rs l IH]; [done|]. rewrite !fmap_cons. cbn. by f_equal. Qed.

Lemma tickets_settle cs cs' l rest :
  cs ≡ₚ (Completed <$> (rs_uc <$> l)) ++ rest -> cs' ≡ₚ (Resolving <$> l) ++ rest ->
  (cs ≫= cargo_ticket) ≡ₚ (cs' ≫= cargo_ticket).
Proof. intros H1 H2. eapply cargo_tickets_move; [exact H1|exact H2|]. by rewrite tickets_resolving. Qed.

Lemma afterCas_tickets rpc mid c rv group failed k err closed c' pc' :
  afterCas range c group failed err closed = (c', pc') ->
  (cargos rpc mid (Back c (CCas group failed k closed) rv) ≫= cargo_ticket) ≡ₚ
  (cargos rpc mid (Back c' pc' rv) ≫= cargo_ticket).
Proof.
  unfold afterCas. intros Ha. destruct err as [e|]; [destruct (errors_Is e ErrShutdown)|];
    injection Ha as <- <-.
  - eapply (tickets_settle _ _ (withOutcome (Some e) OutcomeManifestFailed <$> group)
      (cargos rpc mid (Back c (CSend failed true closed) rv))); [|cargo_perm].
    rewrite withOutcome_ucs. cargo_perm.
  - eapply (tickets_settle _ _ ((withOutcome (Some (Sentinel ErrProducerHalted))
        OutcomeManifestFailed <$> group) ++ (abandoned <$> range (ready c)))
      (cargos rpc mid (Back (with_ready (next c) ∅ c) (CSend failed true closed) rv))).
    + unfold abandoned. rewrite fmap_app, !withOutcome_ucs, Hrange. unfold cargos. unpipe.
      cbn [com_cargo ready with_ready]. rewrite values_empty, !fmap_app. cbn. solve_Permutation.
    + unfold cargos. unpipe. cbn [com_cargo ready with_ready]. rewrite !fmap_app. solve_Permutation.
  - eapply (tickets_settle _ _ (withOutcome None OutcomeCommitted <$> group)
      (cargos rpc mid (Back c (CSend failed true closed) rv))); [|cargo_perm].
    rewrite withOutcome_ucs. cargo_perm.
Qed.

Lemma drain_tickets rpc mid c rv closed n nx' rd' group failed :
  ready_ok (next c) (ready c) ->
  collect n (next c) (ready c) [] [] = (nx', rd', group, failed) ->
  (cargos rpc mid (Back c (CDrain closed) rv) ≫= cargo_ticket) ≡ₚ
  (cargos rpc mid (Back (with_ready nx' rd' c) (CCas group failed 0 closed) rv) ≫= cargo_ticket).
Proof.
  intros Hok Hc. destruct (collect_spec _ _ _ _ _ _ _ _ _ Hok Hc)
    as (t & _ & _ & _ & Hv & Hg & Hf & _). cbn [app] in Hg, Hf. subst group failed.
  eapply (tickets_settle _ _ (failures t)
    (cargos rpc mid (Back (with_ready nx' rd' c) (CCas (successes t) [] 0 closed) rv))); [|cargo_perm].
  unfold cargos. cbn. rewrite Hv, <- (partition_perm t) at 1. rewrite !fmap_app. solve_Permutation.
Qed.

Lemma committer_desk s s' :
  committer_step config range s s' -> ordinals_ok s -> desk_step (desk_of s) (desk_of s').
Proof.
  intros Hst O. destruct Hst; unfold desk_of, ordinals_ok in *; unpipe; (apply desk_move; [|reflexivity]);
    unfold tickets; unpipe; (apply Permutation_app; [reflexivity|]).
  - destruct (ords_gather _ _ _ _ _ _ _ O) as [_ Hv]. unfold cargos. cbn -[gather].
    rewrite Hv, fmap_app, !bind_app. cbn. rewrite !bind_app. solve_Permutation.
  - eapply (tickets_settle _ _ [abandoned uc] (cargos (f_pc f) (Middle es us more) (Back c CRecv rv)));
      cargo_perm.
  - unfold cargos. cbn. by destruct (halted c).
  - rewrite (drain_tickets _ _ _ _ _ _ _ _ _ _ (ords_ready_ok _ _ _ _ _ O) H).
    unfold cargos. unpipe. by rewrite drain_pc_cargo.
  - by eapply afterCas_tickets.
  - destruct (S k <? manifestAttempts config)%nat; [by injection H0 as <- <-|].
    by eapply afterCas_tickets.
  - done.
  - by eapply (afterCas_tickets _ _ c rv group failed 0).
  - apply (cargo_tickets_move _ _ [] [] (cargos (f_pc f) mid (Back c (CSend out again closed) (ResResolve rs))));
      [cargo_perm|done|done].
  - unfold cargos. cbn. by destruct again, closed.
Qed.

Lemma resolver_desk s s' : resolver_step s s' -> delivery s -> desk_step (desk_of s) (desk_of s').
Proof.
  intros Hst (_ & held & Hr & F). destruct Hst; unfold desk_of; unpipe.
  - assert ((msg_watcher <$> f_callers f ++ f_appendCh f ++ held) ++
        (cargos (f_pc f) mid (Back c pc (ResResolve rs)) ≫= cargo_watchers)
      ≡ₚ rs_watchers rs ++ (msg_watcher <$> f_callers f ++ f_appendCh f ++ held) ++
         (cargos (f_pc f) mid (Back c pc ResRecv) ≫= cargo_watchers)) as Hp.
    { unfold cargos. cbn. rewrite !bind_app. cbn. solve_Permutation. }
    destruct (resolve_in_flight _ _ _ _ _ _ _ _ _ _ F Hp H) as [Hk Hw].
    replace (s_acks (send_ack _ _ _)) with (answer (eb_flushAck (uc_eb (rs_uc rs))) (rs_err rs) (s_acks sh))
      by by cbn; destruct (eb_flushAck _).
    destruct (send_ack_same (ri_flushAck (resolveItem rs)) (ri_err (resolveItem rs))
      (on_watchers ws' sh)) as (_ & -> & _). unpipe.
    apply (desk_answer _ _ _ (rs_watchers rs) (cargo_inputs (Resolving rs))); [|done|done].
    unfold tickets, cargos. unpipe. rewrite !bind_app. cbn. solve_Permutation.
  - same_tickets.
Qed.

Abbreviation ok := (pipeline_ok z config runID).

(** The pipeline is a desk. *)
Lemma pipeline_desk s s' :
  step z config runID range s s' -> ok s -> desk_step (desk_of s) (desk_of s').
Proof.
  intros [H|H|H|H|H|H|H] [O A D]; [by eapply append_desk|by eapply rotator_desk|by eapply encoder_desk|
    by eapply uploader_desk|by eapply committer_desk|by eapply resolver_desk|].
  destruct H; by apply desk_move.
Qed.
End Desk.
