(* ===== verification/Flush.v ===== *)
(** * The producer's calls ([src/buffer/producer.go]: [AppendContext], [Append],
    [Flush], [Close])

    The calls as relations on the pipeline: where each of their selects may
    return, and in which state. [AppendContext] returns the watcher of its
    message, or the error of one of its checks and waits. [Flush] hands its
    request to the rotator, waits for the acknowledgement of the batch that the
    rotator emits for it, and then for the drained budget; [Close] flushes,
    closes [appendCh] and waits for the goroutines. *)

From S2P Require Import Prelude GoError Bytes Batch Manifest ObjStore Enqueuer Config Budget.
From S2P Require Import Watcher Accumulator Retry Committer Stages Pipeline PipelineInv Durability.
From S2P Require Import Progress Producer Desk.
From stdpp Require Import list_tactics list_numbers.

Local Open Scope Z_scope.

(** ** The calls *)

Section Calls.
Context {St : Type} {HO : ObjectStore St} {HC : StoreContents St}.
Context (z : zstd_lib) (config : ProducerConfig) (runID : string).
Context (range : readyMap -> list uploadCompletion).
Implicit Types s : pipeline St.

Abbreviation steps := (rtc (step z config runID range)).

(** [p.flushCh <- fm]: the rotator takes the message of a [Flush] whose channel
    is [a]. *)
Inductive handoff (a : ack_id) : pipeline St -> pipeline St -> Prop :=
  | handoff_intro cl cs cs' extra ch cd r mid bk sh now pc' sh' :
      now <> 0 -> cs ≡ₚ extra ++ cs' -> (cd = true -> extra = []) -> s_acks sh !! a = None ->
      beginEmit (rotatorFlush now r (ch ++ extra)) FlushReasonManual (Some a) (make_ack a sh)
        = (pc', sh') ->
      handoff a (Pipe St (Front cl cs ch cd r RSelect) mid bk sh)
        (Pipe St (Front cl cs' [] cd (rotatorFlush now r (ch ++ extra)) pc') mid bk sh').

Lemma handoff_step a s s' : handoff a s s' -> step z config runID range s s'.
Proof. intros [? ? ? ? ? ? ? ? ? ? ? ? ? ? ? ? ? Hb]. by eapply by_rotator, step_flush. Qed.

Definition rotatorDone s : Prop := f_pc (p_front s) = RExited.
Definition encoderPoolDone s : Prop := rotatorDone s /\ m_encoders (p_middle s) = [].
Definition uploaderPoolDone s : Prop := encoderPoolDone s /\ m_uploaders (p_middle s) = [].
Definition committerDone s : Prop := b_pc (p_back s) = CExited.
Definition resolverDone s : Prop := committerDone s /\ b_resolver (p_back s) = ResRecv.

(** The watchers of the calls that are at their select. *)
Definition calling s : list watcher_id := msg_watcher <$> f_callers (p_front s).

(** [AppendContext] called in [s0] returns in [s], with the watcher of its
    handle. The call's own steps are among those of the pipeline
    ([append_step]); the relation says where it may return, and with what. *)
Inductive AppendContext (ctx : option error) (entries : list bytes) (metadata : bytes)
    (s0 : pipeline St) : pipeline St -> outcome watcher_id -> Prop :=
  | append_rejected s e :
      steps s0 s -> appendChecks (halted (b_committer (p_back s))) entries metadata = Fail e ->
      AppendContext ctx entries metadata s0 s (Fail e)
  | append_unreserved s1 s call ch e :
      steps s0 s1 -> appendChecks (halted (b_committer (p_back s1))) entries metadata = Ret call ->
      steps s1 s ->
      (reserveBytes_locked (appendByteCost entries metadata) (s_budget (p_shared s))).2 = WaitOn ch ->
      ctx = Some e \/ s_shutdown (p_shared s) = true /\ e = Sentinel ErrShutdown ->
      AppendContext ctx entries metadata s0 s (Fail e)
  | append_unsent s1 s2 s call ms w e :
      steps s0 s1 -> appendChecks (halted (b_committer (p_back s1))) entries metadata = Ret call ->
      steps s1 s2 -> newMessage call ms w ∈ f_callers (p_front s2) ->
      ctx = Some e \/ rotatorDone s2 /\ e = Sentinel ErrShutdown ->
      append_step config s2 s -> w ∉ calling s -> s_watchers (p_shared s) !! w = None ->
      AppendContext ctx entries metadata s0 s (Fail e)
  | append_panics s1 s call ms w :
      steps s0 s1 -> appendChecks (halted (b_committer (p_back s1))) entries metadata = Ret call ->
      steps s1 s -> newMessage call ms w ∈ f_callers (p_front s) ->
      chan_send (MaxBufferedInputs config) (f_closed (p_front s)) (f_appendCh (p_front s))
        (newMessage call ms w) = Some Panic ->
      AppendContext ctx entries metadata s0 s Panic
  | append_accepted s1 s call ms w :
      steps s0 s1 -> appendChecks (halted (b_committer (p_back s1))) entries metadata = Ret call ->
      s_submitted (p_shared s1) !! w = None -> steps s1 s ->
      s_submitted (p_shared s) !! w = Some (newMessage call ms w) ->
      is_Some (s_watchers (p_shared s) !! w) -> w ∉ calling s ->
      AppendContext ctx entries metadata s0 s (Ret w).

(** [Append]. *)
Definition Append : list bytes -> bytes -> pipeline St -> pipeline St -> outcome watcher_id -> Prop :=
  AppendContext None.

(** [Flush] called in [s0] returns in [s]. [ctx] is the error of the context
    when it is done, [None] for one that never is; the selects take any case
    that is ready. *)
Inductive Flush (ctx : option error) (s0 : pipeline St) : pipeline St -> option error -> Prop :=
  | flush_rotatorDone s :
      steps s0 s -> rotatorDone s -> Flush ctx s0 s (Some (Sentinel ErrShutdown))
  | flush_cancelled s e : steps s0 s -> ctx = Some e -> Flush ctx s0 s (Some e)
  | flush_resolverDone a s1 s2 s :
      steps s0 s1 -> handoff a s1 s2 -> steps s2 s -> resolverDone s ->
      Flush ctx s0 s (Some (Sentinel ErrShutdown))
  | flush_unacked a s1 s2 s e :
      steps s0 s1 -> handoff a s1 s2 -> steps s2 s -> ctx = Some e -> Flush ctx s0 s (Some e)
  | flush_undrained a s1 s2 s3 s r ch err :
      steps s0 s1 -> handoff a s1 s2 -> steps s2 s3 -> s_acks (p_shared s3) !! a = Some (Some r) ->
      steps s3 s -> (waitDrained_locked (s_budget (p_shared s))).2 = WaitOn ch ->
      ctx = Some err \/ s_shutdown (p_shared s) = true /\ err = Sentinel ErrShutdown ->
      Flush ctx s0 s (Some err)
  | flush_done a s1 s2 s3 s r :
      steps s0 s1 -> handoff a s1 s2 -> steps s2 s3 -> s_acks (p_shared s3) !! a = Some (Some r) ->
      steps s3 s -> (waitDrained_locked (s_budget (p_shared s))).2 = Acquired ->
      Flush ctx s0 s r.

Definition close_appendCh s : pipeline St :=
  let f := p_front s in
  Pipe St (Front (f_calls f) (f_callers f) (f_appendCh f) true (f_rotator f) (f_pc f))
    (p_middle s) (p_back s) (p_shared s).

Definition close_shutdownCh s : pipeline St :=
  Pipe St (p_front s) (p_middle s) (p_back s) (on_shutdown (p_shared s)).

(** [Close], [once] if it ran before: the second call returns nil. *)
Inductive Close (ctx : option error) (once : bool) (s0 : pipeline St)
    : pipeline St -> option error -> Prop :=
  | close_again s : once = true -> steps s0 s -> Close ctx once s0 s None
  | close_done s1 s flushErr :
      once = false -> Flush ctx s0 s1 flushErr -> steps (close_appendCh s1) s ->
      rotatorDone s -> encoderPoolDone s -> uploaderPoolDone s -> committerDone s ->
      resolverDone s -> Close ctx once s0 s flushErr
  | close_aborted s1 s2 flushErr e :
      once = false -> Flush ctx s0 s1 flushErr -> steps (close_appendCh s1) s2 ->
      ctx = Some e -> Close ctx once s0 (close_shutdownCh s2) (Some e).
End Calls.

(** ** What a run keeps *)

Section Kept.
Context {St : Type} {HO : ObjectStore St} {HC : StoreContents St}.
Context (z : zstd_lib) (config : ProducerConfig) (runID : string).
Context (range : readyMap -> list uploadCompletion).
Implicit Types s : pipeline St.

Abbreviation steps := (rtc (step z config runID range)).

(** The histories only grow. *)
Lemma step_keeps_history s s' :
  step z config runID range s s' ->
  (forall w m, s_submitted (p_shared s) !! w = Some m -> s_submitted (p_shared s') !! w = Some m) /\
  s_commits (p_shared s) `prefix_of` s_commits (p_shared s').
Proof.
  intros [H|H|H|H|H|H|H]; destruct H; unpipe; try done;
    repeat match goal with
    | H : onMessage _ _ _ _ _ = _ |- _ => apply onMessage_spec in H as (_ & _ & _ & _ & _ & _ & -> & ->)
    | H : beginEmit _ _ _ _ = _ |- _ => apply beginEmit_spec in H as (_ & _ & _ & _ & _ & -> & ->)
    | |- context [send_ack ?a ?e ?sh] => destruct (send_ack_same a e sh) as (_ & _ & _ & _ & -> & ->); unpipe
    end; try done.
  - split; [|done]. intros w' m Hw. cbn. rewrite lookup_insert_ne; [done|]. cbn. congruence.
  - split; [done|]. by apply prefix_app_r.
Qed.

Lemma steps_history s s' :
  steps s s' ->
  (forall w m, s_submitted (p_shared s) !! w = Some m -> s_submitted (p_shared s') !! w = Some m) /\
  s_commits (p_shared s) `prefix_of` s_commits (p_shared s').
Proof.
  induction 1 as [|s1 s2 s3 Hst _ [IH1 IH2]]; [done|]. destruct (step_keeps_history _ _ Hst) as [H1 H2].
  split; [naive_solver|by etrans].
Qed.

Lemma steps_submitted s s' w m :
  steps s s' -> s_submitted (p_shared s) !! w = Some m -> s_submitted (p_shared s') !! w = Some m.
Proof. intros Hr. by apply (steps_history _ _ Hr). Qed.

Lemma steps_within_format st s s' :
  steps s s' -> within_format config st (p_shared s') -> within_format config st (p_shared s).
Proof.
  intros Hr [Ha Hf]. split; [done|]. revert Hf. induction Hr as [|s1 s2 s3 Hst _ IH]; [done|].
  intros Hf. specialize (IH Hf). destruct (step_written _ _ _ _ _ _ Hst) as [l Hl].
  rewrite Hl in IH. by apply Forall_app in IH as [? _].
Qed.

Lemma steps_stored s s' m :
  steps s s' -> durably_stored z config (s_commits (p_shared s)) m ->
  durably_stored z config (s_commits (p_shared s')) m.
Proof.
  intros Hr (st' & data & v & es & e & payload & v' & msgs & i & Hin & H).
  exists st', data, v, es, e, payload, v', msgs, i. split; [|exact H].
  destruct (proj2 (steps_history _ _ Hr)) as [l ->]. rewrite fmap_app. set_solver.
Qed.

Lemma appendChecks_call h entries metadata call :
  appendChecks h entries metadata = Ret call -> call_entries call = entries /\ call_metadata call = metadata.
Proof. unfold appendChecks. repeat case_test; by intros [= <-]. Qed.

(** What a successful append leaves behind. *)
Lemma Append_accepted entries metadata s0 s w :
  Append z config runID range entries metadata s0 s (Ret w) ->
  steps s0 s /\
  (exists m, s_submitted (p_shared s) !! w = Some m /\ msg_entries m = entries /\ msg_metadata m = metadata) /\
  is_Some (s_watchers (p_shared s) !! w) /\ w ∉ calling s.
Proof.
  intros Ha. inversion Ha as [| | | |s1 s' call ms w' H01 Hc _ H1 Hm Hw Hn]; subst.
  split; [by etrans|]. split; [|done]. eexists. split; [exact Hm|]. by apply appendChecks_call in Hc as [<- <-].
Qed.
End Kept.

(** ** What they promise *)

(** Every step of the desk keeps what was decided, and its tickets until they
    are answered. *)
Lemma desk_step_keeps d d' : desk_step d d' -> keeps_done (d_watchers d) (d_watchers d').
Proof. by destruct 1. Qed.

Lemma desk_step_ticket d d' t w :
  desk_step d d' -> t ∈ d_tickets d -> w ∈ t.1.2 ->
  (exists t', t' ∈ d_tickets d' /\ w ∈ t'.1.2) \/
  exists err, d_watchers d' !! w = Some {| result := err; done := true; ch_closed := true |}.
Proof.
  intros Hst Ht Hw. destruct Hst as [T T' A W W' HT Hk|T T' ids A W HT|T T' a ids A W Ha HT
    |T T' a A W Ha HT|T T' ack ids n err A W W' HT Hk Hr]; cbn in *.
  - left. exists t. by rewrite <- HT.
  - left. exists t. rewrite HT. split; [by right|done].
  - left. exists t. rewrite HT. split; [by right|done].
  - left. exists t. by rewrite HT.
  - rewrite HT in Ht. apply elem_of_cons in Ht as [->|Ht]; [right; exists err; by apply Hr|].
    left. by exists t.
Qed.

Section Promises.
Context {St : Type} {HO : ObjectStore St} {HC : StoreContents St} {HL : StoreLaws St}.
Context (z : zstd_lib) (config : ProducerConfig) (runID : string).
Context (range : readyMap -> list uploadCompletion) (Hrange : forall m, range m ≡ₚ values m).
Context (Hpath : forall k, objectAt config runID k <> ManifestPath config).
Implicit Types s : pipeline St.

Abbreviation steps := (rtc (step z config runID range)).

(** The watchers of the messages that are not in a batch yet, those of the
    rotator and of its channel, and those of batches. *)
Definition collected s : list watcher_id :=
  (msg_watcher <$> f_appendCh (p_front s)) ++ acc_watchers (rot_batch (f_rotator (p_front s))).

Definition batched s : list watcher_id :=
  cargos (f_pc (p_front s)) (p_middle s) (p_back s) ≫= cargo_watchers.

Definition decided (err : option error) (w : watcher_id) s : Prop :=
  s_watchers (p_shared s) !! w = Some {| result := err; done := true; ch_closed := true |}.

Lemma rotatorAdd_watchers now r m :
  acc_watchers (rot_batch (rotatorAdd now r m)) = acc_watchers (rot_batch r) ++ [msg_watcher m].
Proof. done. Qed.

Lemma drainAppendChInto_watchers now ms : forall b,
  acc_watchers (drainAppendChInto now b ms) = acc_watchers b ++ (msg_watcher <$> ms).
Proof.
  induction ms as [|m ms IH]; intros b; cbn; [by rewrite app_nil_r|].
  unfold drainAppendChInto in *. cbn. rewrite IH. cbn. by rewrite <- (assoc_L (++)).
Qed.

Lemma rotatorFlush_watchers now r ms :
  acc_watchers (rot_batch (rotatorFlush now r ms)) = acc_watchers (rot_batch r) ++ (msg_watcher <$> ms).
Proof. apply drainAppendChInto_watchers. Qed.

(** The front gets its messages from new calls only. *)
Lemma front_fresh s s' w :
  step z config runID range s s' -> w ∈ calling s' ++ collected s' ->
  w ∈ calling s ++ collected s \/ s_submitted (p_shared s) !! w = None.
Proof.
  intros [H|H|H|H|H|H|H]; destruct H; unfold calling, collected; unpipe; try (by left);
    repeat match goal with
    | H : onMessage _ _ _ _ _ = _ |- _ => apply onMessage_spec in H as (-> & _)
    | H : chan_send _ _ _ _ = _ |- _ => apply chan_send_Ret in H as (_ & _ & ->)
    | H : _ ≡ₚ _ |- _ => rewrite H; clear H
    | H : emitDropped _ = _ |- _ => injection H as <- <- <-
    | H : emitBatch _ _ _ _ = _ |- _ => injection H as <- <- <-
    end; rewrite ?rotatorAdd_watchers, ?rotatorFlush_watchers; cbn [rot_batch acc_watchers reset fst];
    rewrite ?fmap_app, ?fmap_cons, ?fmap_nil, ?elem_of_app, ?elem_of_cons, ?elem_of_nil;
    intuition (subst; eauto).
Qed.

(** Where the watchers of a good state are. *)
Lemma watcher_places s w dw :
  delivery_ok z config runID s -> s_watchers (p_shared s) !! w = Some dw ->
  w ∈ calling s ++ collected s \/ w ∈ batched s \/ exists err, decided err w s.
Proof.
  intros (_ & held & Hr & F) Hw. unfold decided.
  destruct (fl_known _ _ _ _ _ _ _ _ _ F w dw Hw) as [_ [->|[err ->]]]; [|by eauto].
  apply (fl_open _ _ _ _ _ _ _ _ _ F) in Hw. unfold calling, collected, batched.
  rewrite (holds_watchers _ _ (ro_holds _ _ Hr)). rewrite !fmap_app in Hw.
  rewrite !elem_of_app in *. tauto.
Qed.

Lemma batched_fresh s w :
  delivery_ok z config runID s -> w ∈ batched s ->
  w ∉ calling s ++ collected s /\ is_Some (s_submitted (p_shared s) !! w).
Proof.
  intros (_ & held & Hr & F) Hw. unfold calling, collected, batched in *.
  rewrite (holds_watchers _ _ (ro_holds _ _ Hr)). split.
  - pose proof (fl_nodup _ _ _ _ _ _ _ _ _ F) as Hnd. rewrite !fmap_app in Hnd.
    apply NoDup_app in Hnd as (_ & Hdis & _). intros Hin. apply (Hdis w); [|done]. rewrite !elem_of_app in *. tauto.
  - eapply (fl_known _ _ _ _ _ _ _ _ _ F). apply (fl_open _ _ _ _ _ _ _ _ _ F).
    apply elem_of_app. by right.
Qed.

(** A batch on its way is on its way until its watchers are decided. *)
Lemma step_batched s s' w :
  step z config runID range s s' -> pipeline_ok z config runID s -> pipeline_ok z config runID s' ->
  w ∈ batched s -> w ∈ batched s' \/ exists err, decided err w s'.
Proof.
  intros Hst Ok Ok' Hw. pose proof (pipeline_desk _ _ _ _ Hrange _ _ Hst Ok) as Hd.
  destruct (batched_fresh s w (po_delivery _ _ _ _ Ok) Hw) as [Hf [m Hm]].
  unfold batched in Hw. apply list_elem_of_bind in Hw as (c & Hwc & Hc).
  destruct (desk_step_ticket _ _ (cargo_ack c, cargo_watchers c, cargo_inputs c) w Hd) as [(t & Ht & Hwt)|?];
    [|done| |by right].
  { cbn. apply elem_of_app. right. apply list_elem_of_bind. exists c. split; [|done].
    destruct c; try by left. by apply elem_of_nil in Hwc. }
  cbn in Ht. unfold tickets in Ht. apply elem_of_app in Ht as [Ht|Ht].
  - assert (w ∈ collected s') as Hin.
    { apply elem_of_app. right. destruct (f_pc (p_front s')); cbn in Ht;
        first [by apply elem_of_nil in Ht|by apply list_elem_of_singleton in Ht as ->]. }
    destruct (front_fresh s s' w Hst) as [?|Hn]; [apply elem_of_app; by right|done|congruence].
  - left. apply list_elem_of_bind in Ht as (c' & Ht & Hc'). apply list_elem_of_bind. exists c'.
    split; [|done]. destruct c'; cbn in Ht;
      first [by apply elem_of_nil in Ht|by apply list_elem_of_singleton in Ht as ->].
Qed.

Lemma step_pipeline s s' :
  step z config runID range s s' -> pipeline_ok z config runID s -> pipeline_ok z config runID s'.
Proof.
  intros Hst [O A D]. split; [by eapply step_ordinals|by eapply step_budget|by eapply step_delivery].
Qed.

Lemma steps_decided s s' w err :
  steps s s' -> pipeline_ok z config runID s -> decided err w s -> decided err w s'.
Proof.
  intros Hr Ok Hw. apply (rtc_invariant _ (fun s => pipeline_ok z config runID s /\ decided err w s) _ _) in Hr;
    [apply Hr|done|]. intros s1 s2 [Ok1 H1] Hst. split; [by eapply step_pipeline|].
  by apply (desk_step_keeps _ _ (pipeline_desk _ _ _ _ Hrange _ _ Hst Ok1)).
Qed.

Lemma steps_batched s s' w :
  steps s s' -> pipeline_ok z config runID s -> w ∈ batched s ->
  w ∈ batched s' \/ exists err, decided err w s'.
Proof.
  intros Hr Ok Hw. apply (rtc_invariant _ (fun s => pipeline_ok z config runID s /\
    (w ∈ batched s \/ exists err, decided err w s)) _ _) in Hr; [apply Hr|by auto|].
  intros s1 s2 [Ok1 H1] Hst. pose proof (step_pipeline _ _ Hst Ok1) as Ok2. split; [done|].
  destruct H1 as [H1|[err H1]]; [by eapply step_batched|].
  right. exists err. eapply (steps_decided s1); [by apply rtc_once|done|done].
Qed.

Lemma steps_pipeline s s' :
  steps s s' -> pipeline_ok z config runID s -> pipeline_ok z config runID s'.
Proof.
  intros Hr Ok. eapply (rtc_invariant _ _ _ _ Ok); [|exact Hr].
  intros s1 s2 H1 Hst. by eapply step_pipeline.
Qed.

Lemma steps_desk s s' :
  steps s s' -> pipeline_ok z config runID s -> desk_ok (desk_of s) ->
  desk_ok (desk_of s') /\ forall a w, covered a w (desk_of s) -> covered a w (desk_of s').
Proof.
  intros Hr Ok Hd. apply (rtc_invariant _ (fun s1 => pipeline_ok z config runID s1 /\
    desk_ok (desk_of s1) /\ forall a w, covered a w (desk_of s) -> covered a w (desk_of s1)) _ _) in Hr;
    [apply Hr|by auto|]. intros s1 s2 (Ok1 & Hd1 & Hc1) Hst.
  pose proof (pipeline_desk _ _ _ _ Hrange _ _ Hst Ok1) as Hds.
  split_and!; [by eapply step_pipeline|by eapply desk_step_ok|].
  intros a w Hc. eapply desk_step_covered; eauto.
Qed.

Lemma initial_desk (st : St) : desk_ok (desk_of (initial config st)).
Proof.
  split; cbn; [constructor| |constructor]. intros a. rewrite lookup_empty. split; [done|].
  by intros ?%elem_of_nil.
Qed.

Lemma reachable_desk st s : reachable z config runID range st s -> desk_ok (desk_of s).
Proof.
  intros Hr. apply (steps_desk _ _ Hr); [|apply initial_desk].
  eapply reachable_pipeline; [done..|]. apply rtc_refl.
Qed.

(** The messages the rotator takes with a [Flush] make one ticket. *)
Lemma handoff_covers a s s' w :
  handoff a s s' -> delivery_ok z config runID s -> budget_ok s -> w ∈ collected s ->
  covered a w (desk_of s').
Proof.
  intros Hh (_ & held & Hr & F) A Hw. destruct Hh as [cl cs cs' extra ch cd r mid bk sh now pc' sh' Hnow Hcs _ _ Hb].
  unfold collected in Hw. unpipe.
  assert (w ∈ acc_watchers (rot_batch (rotatorFlush now r (ch ++ extra)))) as Hin.
  { rewrite rotatorFlush_watchers, fmap_app. rewrite !elem_of_app in *. tauto. }
  assert (isEmpty (rot_batch (rotatorFlush now r (ch ++ extra))) = false) as He.
  { destruct A as [_ _ [_ Fs Fa _] _ _ _]. unpipe. rewrite Hcs in Fs. apply Forall_app in Fs as [Fs _].
    pose proof (rotatorFlush_ok now r held (ch ++ extra) Hnow ltac:(by apply Forall_app) Hr) as Hr'.
    rewrite (holds_isEmpty _ (held ++ ch ++ extra)) by apply Hr'. apply bool_decide_eq_false. intros Hnil.
    rewrite (holds_watchers _ _ (ro_holds _ _ Hr')), Hnil in Hin. by apply elem_of_nil in Hin. }
  unfold beginEmit in Hb. rewrite He in Hb. injection Hb as <- <-. left.
  eexists _, _. split; [|exact Hin]. unfold desk_of, tickets. unpipe. cbn. by left.
Qed.

Lemma resolveWatchers_keys ids err : forall ws ws' w,
  resolveWatchers ws ids err = Ret ws' -> is_Some (ws !! w) -> is_Some (ws' !! w).
Proof.
  induction ids as [|i ids IH]; intros ws ws' w; cbn; [by intros [= <-]|].
  destruct (ws !! i) as [dw|]; [|done]. destruct (resolve dw err) as [dw'| |]; cbn; try done.
  intros Hres Hw. eapply IH; [exact Hres|]. destruct (decide (i = w)) as [->|];
    [by rewrite lookup_insert_eq|by rewrite lookup_insert_ne].
Qed.

(** Nobody forgets a watcher that its caller has. *)
Lemma step_accepted s s' w :
  step z config runID range s s' -> pipeline_ok z config runID s ->
  is_Some (s_watchers (p_shared s) !! w) -> w ∉ calling s ->
  is_Some (s_watchers (p_shared s') !! w) /\ w ∉ calling s'.
Proof.
  intros Hst [_ _ (_ & held & _ & F)] [dw Hw] Hc.
  destruct (fl_known _ _ _ _ _ _ _ _ _ F w dw Hw) as [[m0 Hm0] _]. unfold calling in *.
  destruct Hst as [H|H|H|H|H|H|H]; destruct H; unpipe; try done;
    repeat match goal with
    | H : onMessage _ _ _ _ _ = _ |- _ => apply onMessage_spec in H as (_ & _ & _ & -> & _)
    | H : beginEmit _ _ _ _ = _ |- _ => apply beginEmit_spec in H as (_ & _ & -> & _)
    | |- context [send_ack ?a ?e ?sh] => destruct (send_ack_same a e sh) as (_ & -> & _); unpipe
    end; unpipe;
    rewrite ?fmap_app, ?fmap_cons, ?elem_of_app, ?elem_of_cons in *; try (split; [done|tauto]).
  - cbn. rewrite lookup_insert_ne by (cbn; congruence). split; [done|]. intros [->|?]; [congruence|done].
  - rewrite lookup_delete_ne by (intros <-; tauto). split; [done|tauto].
  - split; [done|]. intros Hin. apply Hc. rewrite H0, fmap_app. apply elem_of_app. by right.
  - split; [|done]. by eapply resolveWatchers_keys.
  - split; [|done]. by eapply resolveWatchers_keys.
Qed.

Lemma steps_accepted s s' w :
  steps s s' -> pipeline_ok z config runID s ->
  is_Some (s_watchers (p_shared s) !! w) -> w ∉ calling s ->
  is_Some (s_watchers (p_shared s') !! w) /\ w ∉ calling s'.
Proof.
  intros Hr Ok Hw Hc. apply (rtc_invariant _ (fun s => pipeline_ok z config runID s /\
    is_Some (s_watchers (p_shared s) !! w) /\ w ∉ calling s) _ _) in Hr; [apply Hr|by auto|].
  intros s1 s2 (Ok1 & H1 & H2) Hst. split; [by eapply step_pipeline|by eapply step_accepted].
Qed.

Lemma drained_batches s :
  budget_ok s -> (waitDrained_locked (s_budget (p_shared s))).2 = Acquired -> batched s = [].
Proof.
  intros A Hd. assert (batchesUsed (s_budget (p_shared s)) = 0) as Hb.
  { revert Hd. unfold waitDrained_locked. case_test; [done|]. by destruct (drainCh _). }
  destruct A as [_ _ _ _ _ Hba]. rewrite Hb in Hba.
  assert (flight_costs (f_pc (p_front s)) (p_middle s) (p_back s) = []) as Hf.
  { apply len_zero_nil. assert (0 <= slot_held (f_pc (p_front s))) by by destruct (f_pc _).
    len_pose. lia. }
  unfold batched. replace (cargos _ _ _) with (@nil cargo); [done|].
  symmetry. apply length_zero_iff_nil. by rewrite <- length_flight, Hf.
Qed.

(** The two phases of a [Flush] that was acknowledged with [r] and then found
    the budget drained. *)
Lemma flush_phases st s0 a s1 s2 s3 s r :
  reachable z config runID range st s0 -> steps s0 s1 -> handoff a s1 s2 -> steps s2 s3 ->
  s_acks (p_shared s3) !! a = Some (Some r) -> steps s3 s ->
  (waitDrained_locked (s_budget (p_shared s))).2 = Acquired ->
  (forall w, w ∈ collected s1 -> decided r w s) /\
  forall w, is_Some (s_watchers (p_shared s0) !! w) -> w ∉ calling s0 -> exists err, decided err w s.
Proof.
  intros Hr0 H01 Hh H23 Ha H3s Hd.
  pose proof (reachable_pipeline _ _ _ _ Hrange Hpath _ _ Hr0) as Ok0.
  pose proof (steps_pipeline _ _ H01 Ok0) as Ok1.
  pose proof (handoff_step z config runID range _ _ _ Hh) as Hst.
  pose proof (step_pipeline _ _ Hst Ok1) as Ok2. pose proof (steps_pipeline _ _ H23 Ok2) as Ok3.
  pose proof (steps_pipeline _ _ H3s Ok3) as Ok.
  assert (desk_ok (desk_of s2)) as Hdk2.
  { eapply (reachable_desk st). eapply rtc_r; [|exact Hst]. by etrans. }
  destruct (steps_desk _ _ H23 Ok2 Hdk2) as [Hdk3 Hcov].
  assert (forall w, w ∈ collected s1 -> decided r w s) as Hown.
  { intros w Hw. eapply steps_decided; [exact H3s|done|].
    destruct (Hcov a w) as [(ids & n & Hin & _)|(err & He & Hw')].
    - by eapply handoff_covers; [exact Hh|apply Ok1..|].
    - exfalso. assert (a ∈ ticket_acks (d_tickets (desk_of s3))) as Hin'.
      { apply list_elem_of_bind. exists (Some a, ids, n). split; [by left|done]. }
      apply Hdk3 in Hin'. cbn in Hin'. congruence.
    - cbn in He. rewrite Ha in He. injection He as ->. done. }
  assert (steps s1 s) as H1s by (eapply rtc_l; [exact Hst|]; by etrans).
  split; [done|]. intros w Hw Hc. destruct (steps_accepted _ _ w H01 Ok0 Hw Hc) as [[dw Hw1] Hc1].
  destruct (watcher_places s1 w dw (po_delivery _ _ _ _ Ok1) Hw1) as [Hin|[Hin|[err Hin]]].
  - exists r. apply Hown. apply elem_of_app in Hin. tauto.
  - destruct (steps_batched s1 s w H1s Ok1 Hin) as [Hb|?]; [|done].
    rewrite (drained_batches s (po_budget _ _ _ _ Ok) Hd) in Hb. by apply elem_of_nil in Hb.
  - exists err. by apply (steps_decided s1).
Qed.

(** A closed channel is one the callers cannot send on. *)
Lemma close_step s : step z config runID range s (close_appendCh s).
Proof. destruct s as [[cl cs ch cd r pc] mid bk sh]. apply by_world, step_close. Qed.

Lemma Flush_steps ctx s0 s r : Flush z config runID range ctx s0 s r -> steps s0 s.
Proof.
  destruct 1 as [s H|s e H|a s1 s2 s H01 Hh H2|a s1 s2 s e H01 Hh H2|a s1 s2 s3 s r ch err H01 Hh H2 _ H3
    |a s1 s2 s3 s r H01 Hh H2 _ H3]; try done;
    etrans; [exact H01| |exact H01| |exact H01| |exact H01|];
    eapply rtc_l; try (by eapply handoff_step); try done; by etrans.
Qed.

(** C10. [Flush] is a barrier. When it returns nil, every message that
    [AppendContext] had accepted before the call is decided, whatever the
    interleaving and whatever happened to the batches: none is still on its
    way; and the messages that were not yet in a batch when the rotator took
    the request, those in its accumulator and in its channel, are decided
    with success. *)
Theorem flush_barrier st ctx s0 s :
  reachable z config runID range st s0 -> Flush z config runID range ctx s0 s None ->
  (forall w, is_Some (s_watchers (p_shared s0) !! w) -> w ∉ calling s0 -> exists err, decided err w s) /\
  exists a s1 s2, steps s0 s1 /\ handoff a s1 s2 /\ steps s2 s /\
    forall w, w ∈ collected s1 -> decided None w s.
Proof.
  intros Hr HF. inversion HF as [| | | | |a s1 s2 s3 s' r H01 Hh H23 Ha H3s Hd]; subst.
  destruct (flush_phases st _ a _ _ _ _ _ Hr H01 Hh H23 Ha H3s Hd) as [Hown Hall].
  split; [exact Hall|]. exists a, s1, s2. split_and!; [done|done|by etrans|exact Hown].
Qed.

(** A [Flush] is acknowledged once: in every reachable state, the channel
    of a [Flush] is still empty exactly when one batch, in the rotator's hands
    or on its way, owes the acknowledgement; no two batches owe the same one.
    So the rotator and the resolver never send on a channel whose buffer is
    full, and never block there. *)
Theorem flush_acknowledged_once st s :
  reachable z config runID range st s ->
  NoDup (ticket_acks (tickets (p_front s) (p_middle s) (p_back s))) /\
  forall a, s_acks (p_shared s) !! a = Some None <->
            a ∈ ticket_acks (tickets (p_front s) (p_middle s) (p_back s)).
Proof. intros Hr. destruct (reachable_desk st s Hr) as [Hnd Ho _]. split; [exact Hnd|exact Ho]. Qed.

(** A wait that ended with success. *)
Lemma await_success `{!ZstdLaws z} st s w m dw ctx :
  zstd_NewReader z = None -> reachable z config runID range st s ->
  within_format config st (p_shared s) ->
  s_submitted (p_shared s) !! w = Some m -> s_watchers (p_shared s) !! w = Some dw ->
  AwaitDurable dw ctx None -> durably_stored z config (s_commits (p_shared s)) m.
Proof.
  intros Hz Hr Hfit Hm Hw Haw. eapply (resolved_readable z config runID range Hrange Hpath); try done.
  destruct (po_delivery _ _ _ _ (reachable_pipeline _ _ _ _ Hrange Hpath _ _ Hr)) as (_ & held & _ & F).
  destruct (fl_known _ _ _ _ _ _ _ _ _ F w dw Hw) as [_ [->|[err ->]]];
    inversion Haw as [Hcl Hres|]; subst; [done|]. cbn. by f_equal.
Qed.

(** Once the resolver is done, nothing is anywhere. *)
Lemma done_is_empty st s :
  reachable z config runID range st s -> resolverDone s ->
  batched s = [] /\ collected s = [] /\ batchesUsed (s_budget (p_shared s)) = 0.
Proof.
  intros Hr [Hpc Hrv]. pose proof (reachable_pipeline _ _ _ _ Hrange Hpath _ _ Hr) as P.
  pose proof (reachable_progress _ _ _ _ _ _ Hr) as G. pose proof G as [[De Dm] F].
  destruct (fw_closing _ _ _ _ F) as [Hrot Hmid]; [by rewrite Hpc|].
  rewrite Hrot in De, Dm. destruct (De eq_refl) as [_ Hch]. split_and!.
  - unfold batched, cargos. rewrite Hrot, Hmid, Hpc, Hrv, (fw_exited _ _ _ _ F Hpc). cbn.
    by rewrite values_empty.
  - unfold collected. rewrite Hch. destruct P as [_ _ (_ & held & Hro & _)].
    rewrite (holds_watchers _ _ (ro_holds _ _ Hro)).
    specialize (Dm eq_refl). rewrite (holds_isEmpty _ held) in Dm by apply Hro.
    by apply bool_decide_eq_true in Dm as ->.
  - by eapply idle_batches; [done..|by right|done|by rewrite Hrot].
Qed.

(** And everything is decided but for the calls at their select. *)
Lemma done_decides st s :
  reachable z config runID range st s -> resolverDone s ->
  forall w, is_Some (s_watchers (p_shared s) !! w) -> w ∉ calling s -> exists err, decided err w s.
Proof.
  intros Hr Hd w [dw Hw] Hc. destruct (done_is_empty st s Hr Hd) as (Hb & Hcol & _).
  pose proof (reachable_pipeline _ _ _ _ Hrange Hpath _ _ Hr) as Ok.
  destruct (watcher_places s w dw (po_delivery _ _ _ _ Ok) Hw) as [Hin|[Hin|?]];
    [|by rewrite Hb in Hin; apply elem_of_nil in Hin|done].
  by rewrite Hcol, app_nil_r in Hin.
Qed.

(** C13. [Close] under a context that does not end leaves nothing behind: the
    goroutines have stopped, no batch is on its way, the rotator holds
    nothing and the budget counts no batch; and every message accepted before
    or during the call is decided. Whoever is not decided is an
    [AppendContext] call at its select. *)
Theorem close_leaves_nothing st s0 s r :
  reachable z config runID range st s0 -> Close z config runID range None false s0 s r ->
  batched s = [] /\ collected s = [] /\ batchesUsed (s_budget (p_shared s)) = 0 /\
  (forall w, is_Some (s_watchers (p_shared s0) !! w) -> w ∉ calling s0 -> exists err, decided err w s) /\
  (forall w, is_Some (s_watchers (p_shared s) !! w) -> w ∉ calling s -> exists err, decided err w s).
Proof.
  intros Hr0 HC0. inversion HC0 as [|s1 s' flushErr _ HF Hs Hd1 Hd2 Hd3 Hd4 Hd5|]; subst; try done.
  pose proof (Flush_steps _ _ _ _ HF) as H01.
  assert (steps s0 s) as H0s by (etrans; [exact H01|]; by eapply rtc_l; [apply close_step|]).
  assert (reachable z config runID range st s) as Hr by (unfold reachable in *; by etrans).
  pose proof (reachable_pipeline _ _ _ _ Hrange Hpath _ _ Hr0) as Ok0.
  destruct (done_is_empty st s Hr Hd5) as (Hb & Hcol & Hba).
  pose proof (done_decides st s Hr Hd5) as Hall.
  split_and!; [done..| |done]. intros w Hw Hc.
  destruct (steps_accepted _ _ w H0s Ok0 Hw Hc) as [? ?]. by apply Hall.
Qed.
End Promises.

(** ** A run

    A message is accepted, then the producer is flushed and closed. *)

Abbreviation sample_steps := (rtc (step stored DefaultProducerConfig "run" values)).

Lemma flush_trace : exists s0 s1 s2 s3 s : pipeline InMemory,
  (sample_reachable s0 /\ is_Some (s_watchers (p_shared s0) !! 0%nat) /\ calling s0 = [] /\
   collected s0 = [0%nat]) /\
  handoff 5%nat s0 s1 /\
  (sample_steps s1 s2 /\ s_acks (p_shared s2) !! 5%nat = Some (Some None)) /\
  (sample_steps s2 s3 /\ (waitDrained_locked (s_budget (p_shared s3))).2 = Acquired) /\
  sample_steps (close_appendCh s3) s /\ rotatorDone s /\ encoderPoolDone s /\ uploaderPoolDone s /\
  committerDone s /\ resolverDone s.
Proof.
  pose proof (rtc_refl (step stored DefaultProducerConfig "run" values)
    (initial DefaultProducerConfig NewInMemory)) as H.
  advance H @by_append ltac:(eapply (step_checked _ _ _ _ _ _ _ _ _ _ [string_bytes "ab"]
    (string_bytes "meta__")); computed).
  advance H @by_append ltac:(eapply (step_reserve _ [] _ [] _ _ _ _ _ _ _ _ 3 0%nat); [computed|computed]).
  eexists _, _, _, _, _.
  advance H @by_append ltac:(eapply (step_handoff _ _ [] _ [] _ _ _ _ 7); [discriminate|computed]).
  split; [split; [exact H|split_and!; [by eexists|computed|computed]]|]. clear H.
  split; [eapply (handoff_intro _ _ _ [] [] _ _ _ _ _ _ 8);
    [discriminate|reflexivity|discriminate|computed|computed]|].
  lazymatch goal with |- (rtc ?R ?s _ /\ _) /\ _ => pose proof (rtc_refl R s) as H end.
  advance H @by_rotator ltac:(eapply step_acquire; computed).
  advance H @by_rotator ltac:(eapply (step_emit _ _ _ _ _ _ _ _ _ _ _ 9); [computed|computed|computed]).
  advance H @by_rotator ltac:(eapply step_pending; computed).
  advance H @by_encoder ltac:(eapply (step_encode _ _ _ _ []); computed).
  advance H @by_encoder ltac:(eapply (step_encoded _ _ _ _ []); computed).
  advance H @by_uploader ltac:(eapply (step_put_ok _ _ _ []); computed).
  advance H @by_uploader ltac:(eapply (step_uploaded _ _ _ []); computed).
  advance H @by_committer ltac:(eapply (step_gather _ _ _ _ _ _ _ _ _ _ false); [computed|discriminate]).
  advance H @by_committer ltac:(eapply step_drain; computed).
  advance H @by_committer ltac:(eapply step_cas_ok; [apply sample_append; computed|computed]).
  advance H @by_committer ltac:(eapply step_hand).
  advance H @by_resolver ltac:(eapply step_resolve; computed).
  split; [split; [exact H|computed]|]. clear H.
  lazymatch goal with |- (rtc ?R ?s _ /\ _) /\ _ => pose proof (rtc_refl R s) as H end.
  advance H @by_resolver ltac:(eapply step_release; computed).
  advance H @by_committer ltac:(eapply step_handed).
  advance H @by_committer ltac:(eapply step_drain; computed).
  split; [split; [exact H|computed]|]. clear H.
  lazymatch goal with |- rtc ?R ?s _ /\ _ => pose proof (rtc_refl R s) as H end.
  unfold close_appendCh in H. unpipe.
  advance H @by_rotator ltac:(eapply step_closed; computed).
  advance H @by_committer ltac:(eapply step_upstream_done).
  advance H @by_committer ltac:(eapply step_drain; computed).
  split; [exact H|]. by repeat split.
Qed.

Lemma flush_barrier_witness : exists s0 s : pipeline InMemory, sample_reachable s0 /\
  collected s0 = [0%nat] /\ exists err, decided err 0%nat s.
Proof.
  destruct flush_trace as (s0 & s1 & s2 & s3 & s & (Hr & Hw & Hc & Hcol) & Hh & (H12 & Ha) & (H23 & Hd) & _).
  exists s0, s3. split_and!; [exact Hr|exact Hcol|].
  refine (proj1 (flush_barrier stored DefaultProducerConfig "run" values values_range sample_paths
    NewInMemory None s0 s3 Hr _) 0%nat Hw _).
  - exact (flush_done _ _ _ _ None s0 5%nat s0 s1 s2 s3 None (rtc_refl _ _) Hh H12 Ha H23 Hd).
  - rewrite Hc. apply not_elem_of_nil.
Defined.

Lemma flush_acknowledged_once_witness : exists s : pipeline InMemory, sample_reachable s /\
  NoDup (ticket_acks (tickets (p_front s) (p_middle s) (p_back s))).
Proof.
  destruct flush_trace as (s0 & s1 & _ & _ & _ & (Hr & _) & Hh & _).
  assert (sample_reachable s1) as Hr1
    by exact (rtc_r _ _ _ Hr (handoff_step stored DefaultProducerConfig "run" values _ _ _ Hh)).
  exists s1. split; [exact Hr1|].
  exact (proj1 (flush_acknowledged_once stored DefaultProducerConfig "run" values values_range
    sample_paths NewInMemory s1 Hr1)).
Defined.

Lemma close_leaves_nothing_witness : exists s0 s : pipeline InMemory, sample_reachable s0 /\
  is_Some (s_watchers (p_shared s0) !! 0%nat) /\ exists err, decided err 0%nat s.
Proof.
  destruct flush_trace as (s0 & s1 & s2 & s3 & s & (Hr & Hw & Hc & _) & Hh & (H12 & Ha) & (H23 & Hd) &
    Hs & D1 & D2 & D3 & D4 & D5).
  exists s0, s. split_and!; [exact Hr|exact Hw|].
  refine (proj1 (proj2 (proj2 (proj2 (close_leaves_nothing stored DefaultProducerConfig "run" values
    values_range sample_paths NewInMemory s0 s None Hr _)))) 0%nat Hw _).
  - refine (close_done _ _ _ _ None false s0 s3 s None eq_refl _ Hs D1 D2 D3 D4 D5).
    exact (flush_done _ _ _ _ None s0 5%nat s0 s1 s2 s3 None (rtc_refl _ _) Hh H12 Ha H23 Hd).
  - rewrite Hc. apply not_elem_of_nil.
Defined.
