(* ===== verification/ExporterConfig.v ===== *)
(** * Exporter configuration ([src/exporter/opendataexporter/config.go],
    [factory.go], [metadata.go], and the helpers of [exporter.go] that read the
    configuration)

    The configuration an operator writes for the OpenTelemetry exporter, its
    validation, and the producer configuration it stands for. The sending queue
    belongs to the collector: its configuration is a type with a validation
    function, both parameters. *)

From S2P Require Import Prelude GoError Bytes Batch Config.
From Stdlib Require Import Ascii.

Local Open Scope string_scope.
Local Open Scope list_scope.
Local Open Scope Z_scope.

(** ** Formatting *)

(** [strings.ToLower] on the letters of ASCII. No other letter has a lower case
    form among the letters of the names it is compared with. *)
Definition lowerAscii (c : ascii) : ascii :=
  let n := N_of_ascii c in
  if (65 <=? n)%N && (n <=? 90)%N then ascii_of_N (n + 32) else c.

Fixpoint ToLower (s : string) : string :=
  match s with EmptyString => EmptyString | String c s => String (lowerAscii c) (ToLower s) end.

(** [%q]: double quotes, with the escapes of ASCII characters; characters
    beyond ASCII are kept, as those that can be printed are. *)
Definition quoteChar (c : ascii) : string :=
  let n := N_of_ascii c in
  let hex (d : N) := String (default "0"%char (String.get (N.to_nat d) "0123456789abcdef")) "" in
  let bs := String (ascii_of_N 92) "" in
  if (n =? 34)%N || (n =? 92)%N then bs +:+ String c ""
  else if (n =? 7)%N then bs +:+ "a"
  else if (n =? 8)%N then bs +:+ "b"
  else if (n =? 9)%N then bs +:+ "t"
  else if (n =? 10)%N then bs +:+ "n"
  else if (n =? 11)%N then bs +:+ "v"
  else if (n =? 12)%N then bs +:+ "f"
  else if (n =? 13)%N then bs +:+ "r"
  else if (n <? 32)%N || (n =? 127)%N then bs +:+ "x" +:+ hex (n / 16)%N +:+ hex (n mod 16)%N
  else String c "".

Fixpoint quoteChars (s : string) : string :=
  match s with EmptyString => EmptyString | String c s => quoteChar c +:+ quoteChars s end.

Definition quotation : string := String (ascii_of_N 34) "".

Definition Quote (s : string) : string := quotation +:+ quoteChars s +:+ quotation.

(** The fraction [v / 10^prec] with its point and without the zeros at its end,
    and the integer part: the helper [fmtFrac] of [time]. *)
Fixpoint fmtFrac (prec : nat) (v : Z) (print : bool) (acc : string) : string * Z :=
  match prec with
  | O => (if print then "." +:+ acc else acc, v)
  | S prec =>
      let digit := v `mod` 10 in
      let print := print || negb (digit =? 0) in
      fmtFrac prec (v / 10) print (if print then pretty digit +:+ acc else acc)
  end.

(** [time.Duration.String]. *)
Definition durationString (d : Z) : string :=
  let u := Z.abs d in
  let sign := if d <? 0 then "-" else "" in
  if u <? Second then
    if u =? 0 then "0s"
    else if u <? 1000 then sign +:+ pretty u +:+ "ns"
    else
      let '(prec, unit) := if u <? Millisecond then (3%nat, "µs") else (6%nat, "ms") in
      let '(frac, v) := fmtFrac prec u false "" in
      sign +:+ pretty v +:+ frac +:+ unit
  else
    let '(frac, v) := fmtFrac 9 u false "" in
    let seconds := pretty (v `mod` 60) +:+ frac +:+ "s" in
    let minutes := v / 60 in
    if minutes <=? 0 then sign +:+ seconds
    else
      let hours := minutes / 60 in
      let withMinutes := pretty (minutes `mod` 60) +:+ "m" +:+ seconds in
      if hours <=? 0 then sign +:+ withMinutes
      else sign +:+ pretty hours +:+ "h" +:+ withMinutes.

Definition errorf (msg : string) : error := Foreign msg.

(** ** Configuration *)

Definition objectStoreTypeS3 : string := "s3".
Definition compressionNone : string := "none".
Definition compressionZstd : string := "zstd".
Definition defaultFlushSizeMiB : Z := 1024 * 1024.

Record ObjectStoreConfig := {
  Type_ : string;   (** the field [Type] *)
  Bucket : string;
  Region : string;
  Endpoint : string;
}.

(** [exporterhelper.QueueBatchConfig] with its method [Validate], which gives
    the message of its error, and the default the collector has. *)
Record queue_lib := {
  QueueBatchConfig : Type;
  queueValidate : QueueBatchConfig -> option string;
  NewDefaultQueueConfig : QueueBatchConfig;
}.

Section Config.
Context (Q : queue_lib).

Record ExporterConfig := {
  x_ObjectStore : ObjectStoreConfig;
  x_DataPathPrefix : string;
  x_ManifestPath : string;
  x_FlushInterval : Z;
  x_FlushSizeBytes : Z;
  x_Compression : string;
  x_UploadConcurrency : Z;
  x_EncodeConcurrency : Z;
  x_MaxInFlightBatches : Z;
  x_MaxInFlightBytes : Z;
  x_ManifestAppendBatchSize : Z;
  x_SendingQueue : option (QueueBatchConfig Q);
  x_Timeout : Z;
}.

(** [Config.Validate]; [None] is the nil receiver. *)
Definition Validate (c : option ExporterConfig) : outcome unit :=
  match c with
  | None => Fail (errorf "config must not be nil")
  | Some c =>
      _ ← fail_if (bool_decide (Type_ (x_ObjectStore c) = ""))
            (errorf "object_store.type is required");
      _ ← fail_if (negb (bool_decide (Type_ (x_ObjectStore c) = objectStoreTypeS3)))
            (errorf ("unsupported object_store.type " +:+ Quote (Type_ (x_ObjectStore c))));
      _ ← fail_if (bool_decide (Bucket (x_ObjectStore c) = ""))
            (errorf "object_store.bucket is required");
      _ ← fail_if (bool_decide (Region (x_ObjectStore c) = ""))
            (errorf "object_store.region is required");
      _ ← fail_if (bool_decide (x_DataPathPrefix c = "")) (errorf "data_path_prefix is required");
      _ ← fail_if (bool_decide (x_ManifestPath c = "")) (errorf "manifest_path is required");
      _ ← fail_if (x_FlushInterval c <=? 0) (errorf "flush_interval must be greater than zero");
      _ ← fail_if (x_FlushSizeBytes c <=? 0) (errorf "flush_size_bytes must be greater than zero");
      _ ← fail_if (x_UploadConcurrency c <? 1)
            (errorf ("upload_concurrency must be at least 1 (got "
                     +:+ pretty (x_UploadConcurrency c) +:+ ")"));
      _ ← fail_if (x_EncodeConcurrency c <? 1)
            (errorf ("encode_concurrency must be at least 1 (got "
                     +:+ pretty (x_EncodeConcurrency c) +:+ ")"));
      _ ← fail_if (x_MaxInFlightBatches c <? 1)
            (errorf ("max_inflight_batches must be at least 1 (got "
                     +:+ pretty (x_MaxInFlightBatches c) +:+ ")"));
      _ ← fail_if (x_MaxInFlightBytes c <? 1)
            (errorf ("max_inflight_bytes must be at least 1 (got "
                     +:+ pretty (x_MaxInFlightBytes c) +:+ ")"));
      _ ← fail_if (x_ManifestAppendBatchSize c <? 1)
            (errorf ("manifest_append_batch_size must be at least 1 (got "
                     +:+ pretty (x_ManifestAppendBatchSize c) +:+ ")"));
      _ ← match x_SendingQueue c with
          | Some q =>
              match queueValidate Q q with
              | Some msg => Fail (errorf ("sending_queue: " +:+ msg))
              | None => Ret tt
              end
          | None => Ret tt
          end;
      _ ← fail_if (x_Timeout c <? 0)
            (errorf ("timeout must be >= 0 (got " +:+ durationString (x_Timeout c)
                     +:+ "); 0 inherits exporterhelper default"));
      if bool_decide (ToLower (x_Compression c) = compressionNone) ||
         bool_decide (ToLower (x_Compression c) = compressionZstd)
      then Ret tt
      else Fail (errorf ("unsupported compression " +:+ Quote (x_Compression c)))
  end.

(** ** Factory *)

Definition defaultMetricsDataPathPrefix : string := "ingest/otel/metrics/data".
Definition defaultMetricsManifestPath : string := "ingest/otel/metrics/manifest".

Definition createDefaultConfig : ExporterConfig := {|
  x_ObjectStore := {| Type_ := objectStoreTypeS3; Bucket := ""; Region := ""; Endpoint := "" |};
  x_DataPathPrefix := defaultMetricsDataPathPrefix;
  x_ManifestPath := defaultMetricsManifestPath;
  x_FlushInterval := 10 * Second;
  x_FlushSizeBytes := defaultFlushSizeMiB;
  x_Compression := compressionZstd;
  x_UploadConcurrency := DefaultUploadConcurrency;
  x_EncodeConcurrency := DefaultEncodeConcurrency;
  x_MaxInFlightBatches := DefaultMaxInFlightBatches;
  x_MaxInFlightBytes := DefaultMaxInFlightBytes;
  x_ManifestAppendBatchSize := DefaultManifestAppendBatchSize;
  x_SendingQueue := Some (NewDefaultQueueConfig Q);
  x_Timeout := 0;
|}.

(** ** What the exporter makes of it *)

Definition compressionTypeFromString (value : string) : outcome Z :=
  if bool_decide (ToLower value = compressionNone) then Ret CompressionNone
  else if bool_decide (ToLower value = compressionZstd) then Ret CompressionZstd
  else Fail (errorf ("unsupported compression " +:+ Quote value)).

(** The producer configuration that [Start] builds. *)
Definition producerConfigOf (c : ExporterConfig) (compression : Z) : ProducerConfig := {|
  DataPathPrefix := x_DataPathPrefix c;
  ManifestPath := x_ManifestPath c;
  FlushInterval := x_FlushInterval c;
  FlushSizeBytes := x_FlushSizeBytes c;
  MaxBufferedInputs := MaxBufferedInputs DefaultProducerConfig;
  BatchCompression := compression;
  Observer := true;
  EncodeConcurrency := x_EncodeConcurrency c;
  UploadConcurrency := x_UploadConcurrency c;
  MaxInFlightBatches := x_MaxInFlightBatches c;
  MaxInFlightBytes := x_MaxInFlightBytes c;
  ManifestAppendBatchSize := x_ManifestAppendBatchSize c;
  UploadMaxAttempts := UploadMaxAttempts DefaultProducerConfig;
  UploadInitialBackoff := UploadInitialBackoff DefaultProducerConfig;
  ManifestMaxAttempts := ManifestMaxAttempts DefaultProducerConfig;
  ManifestInitialBackoff := ManifestInitialBackoff DefaultProducerConfig;
|}.
End Config.

(** ** Metadata *)

Definition MetadataVersion : Z := 1.
Definition SignalTypeMetrics : Z := 1.
Definition SignalTypeLogs : Z := 2.
Definition PayloadEncodingOTLP : Z := 1.

Definition EncodeMetadata (signalType encoding : Z) : bytes :=
  byte_of_Z <$> [MetadataVersion; signalType; encoding; 0].

Definition signalLabel (signalType : Z) : string :=
  if signalType =? SignalTypeMetrics then "metrics"
  else if signalType =? SignalTypeLogs then "logs"
  else "unknown(" +:+ pretty signalType +:+ ")".

(** ** Validation against its requirements *)

Section Validation.
Context (Q : queue_lib).
Implicit Types c : ExporterConfig Q.

(** What the exporter requires of a configuration, in terms of its fields. *)
Record usable c : Prop := {
  us_type : Type_ (x_ObjectStore Q c) = objectStoreTypeS3;
  us_bucket : Bucket (x_ObjectStore Q c) <> "";
  us_region : Region (x_ObjectStore Q c) <> "";
  us_prefix : x_DataPathPrefix Q c <> "";
  us_manifest : x_ManifestPath Q c <> "";
  us_interval : 0 < x_FlushInterval Q c;
  us_size : 0 < x_FlushSizeBytes Q c;
  us_upload : 1 <= x_UploadConcurrency Q c;
  us_encode : 1 <= x_EncodeConcurrency Q c;
  us_batches : 1 <= x_MaxInFlightBatches Q c;
  us_bytes : 1 <= x_MaxInFlightBytes Q c;
  us_append : 1 <= x_ManifestAppendBatchSize Q c;
  us_queue : forall q, x_SendingQueue Q c = Some q -> queueValidate Q q = None;
  us_timeout : 0 <= x_Timeout Q c;
  us_compression : ToLower (x_Compression Q c) = compressionNone \/
                   ToLower (x_Compression Q c) = compressionZstd;
}.

(** Each check by itself: the fields it looks at are wrong, and its report. *)
Inductive violation c : error -> Prop :=
  | v_type_missing : Type_ (x_ObjectStore Q c) = "" -> violation c (errorf "object_store.type is required")
  | v_type : Type_ (x_ObjectStore Q c) <> objectStoreTypeS3 -> Type_ (x_ObjectStore Q c) <> "" ->
      violation c (errorf ("unsupported object_store.type " +:+ Quote (Type_ (x_ObjectStore Q c))))
  | v_bucket : Bucket (x_ObjectStore Q c) = "" -> violation c (errorf "object_store.bucket is required")
  | v_region : Region (x_ObjectStore Q c) = "" -> violation c (errorf "object_store.region is required")
  | v_prefix : x_DataPathPrefix Q c = "" -> violation c (errorf "data_path_prefix is required")
  | v_manifest : x_ManifestPath Q c = "" -> violation c (errorf "manifest_path is required")
  | v_interval : x_FlushInterval Q c <= 0 ->
      violation c (errorf "flush_interval must be greater than zero")
  | v_size : x_FlushSizeBytes Q c <= 0 ->
      violation c (errorf "flush_size_bytes must be greater than zero")
  | v_count name n : n < 1 ->
      (name, n) ∈ [("upload_concurrency", x_UploadConcurrency Q c);
                   ("encode_concurrency", x_EncodeConcurrency Q c);
                   ("max_inflight_batches", x_MaxInFlightBatches Q c);
                   ("max_inflight_bytes", x_MaxInFlightBytes Q c);
                   ("manifest_append_batch_size", x_ManifestAppendBatchSize Q c)] ->
      violation c (errorf (name +:+ " must be at least 1 (got " +:+ pretty n +:+ ")"))
  | v_queue q msg : x_SendingQueue Q c = Some q -> queueValidate Q q = Some msg ->
      violation c (errorf ("sending_queue: " +:+ msg))
  | v_timeout : x_Timeout Q c < 0 ->
      violation c (errorf ("timeout must be >= 0 (got " +:+ durationString (x_Timeout Q c)
                           +:+ "); 0 inherits exporterhelper default"))
  | v_compression : ToLower (x_Compression Q c) <> compressionNone ->
      ToLower (x_Compression Q c) <> compressionZstd ->
      violation c (errorf ("unsupported compression " +:+ Quote (x_Compression Q c))).

Lemma violation_unusable c e : violation c e -> ~ usable c.
Proof.
  intros Hv [Ht Hb Hr Hp Hm Hi Hs Hu He Hba Hby Ha Hq Hto Hc]. destruct Hv as [| | | | | | | |name n Hn Hin| | |];
    try congruence; try lia.
  - rewrite H in Ht. discriminate.
  - set_unfold in Hin. destruct_or!; simplify_eq; lia.
  - rewrite (Hq _ H) in H0. discriminate.
  - tauto.
Qed.

Ltac next_check :=
  match goal with
  | |- context [fail_if ?b _ ≫= _] =>
      let H := fresh "Hc" in destruct b eqn:H; cbn [fail_if mbind outcome_bind]
  end.

Lemma Validate_spec c :
  match Validate Q (Some c) with
  | Ret _ => usable c
  | Fail e => violation c e
  | Panic => False
  end.
Proof.
  unfold Validate.
  next_check; [apply v_type_missing; by apply bool_decide_eq_true in Hc|].
  next_check; [apply v_type; [by apply negb_true_iff, bool_decide_eq_false in Hc0|
                              by apply bool_decide_eq_false in Hc]|].
  next_check; [apply v_bucket; by apply bool_decide_eq_true in Hc1|].
  next_check; [apply v_region; by apply bool_decide_eq_true in Hc2|].
  next_check; [apply v_prefix; by apply bool_decide_eq_true in Hc3|].
  next_check; [apply v_manifest; by apply bool_decide_eq_true in Hc4|].
  next_check; [apply v_interval; by apply Z.leb_le in Hc5|].
  next_check; [apply v_size; by apply Z.leb_le in Hc6|].
  next_check; [apply (v_count c "upload_concurrency"); [by apply Z.ltb_lt|set_solver]|].
  next_check; [apply (v_count c "encode_concurrency"); [by apply Z.ltb_lt|set_solver]|].
  next_check; [apply (v_count c "max_inflight_batches"); [by apply Z.ltb_lt|set_solver]|].
  next_check; [apply (v_count c "max_inflight_bytes"); [by apply Z.ltb_lt|set_solver]|].
  next_check; [apply (v_count c "manifest_append_batch_size"); [by apply Z.ltb_lt|set_solver]|].
  assert (exists r, match x_SendingQueue Q c with
    | Some q => match queueValidate Q q with
                | Some msg => Fail (errorf ("sending_queue: " +:+ msg)) | None => Ret tt end
    | None => Ret tt end = r /\
    match r with
    | Ret _ => forall q, x_SendingQueue Q c = Some q -> queueValidate Q q = None
    | Fail e => violation c e | Panic => False end) as (r & -> & Hq).
  { eexists; split; [reflexivity|]. destruct (x_SendingQueue Q c) as [q|] eqn:Eq; [|done].
    destruct (queueValidate Q q) eqn:Ev; [by eapply v_queue|]. by intros q' [= <-]. }
  destruct r as [u|e|]; [|done|done]. cbn [mbind outcome_bind].
  next_check; [apply v_timeout; by apply Z.ltb_lt|].
  rewrite ?negb_false_iff, ?bool_decide_eq_false, ?bool_decide_eq_true, ?Z.leb_gt, ?Z.ltb_ge in *.
  destruct (bool_decide_reflect (ToLower (x_Compression Q c) = compressionNone)) as [Hn|Hn];
  [|destruct (bool_decide_reflect (ToLower (x_Compression Q c) = compressionZstd)) as [Hz|Hz]];
    cbn [orb]; [by split; auto|by split; auto|by apply v_compression].
Qed.

Lemma compression_usable c :
  usable c -> exists compression, compressionTypeFromString (x_Compression Q c) = Ret compression /\
    compression = (if bool_decide (ToLower (x_Compression Q c) = compressionZstd)
                   then CompressionZstd else CompressionNone).
Proof.
  intros U. unfold compressionTypeFromString. destruct (us_compression _ U) as [-> | ->]; cbn; eauto.
Qed.

Lemma producerConfigOf_limits c compression : usable c -> limits_ok (producerConfigOf Q c compression).
Proof.
  intros U. unfold limits_ok. cbn. pose proof (us_batches _ U). pose proof (us_bytes _ U).
  unfold DefaultUploadMaxAttempts, DefaultUploadInitialBackoff, DefaultManifestMaxAttempts,
    DefaultManifestInitialBackoff, Millisecond. lia.
Qed.

(** ** Properties *)

(** C23. Validation is sound and complete, and its report is accurate: it
    accepts exactly the configurations that meet every requirement; when it
    refuses one, the error names a requirement that this configuration
    violates, with the offending value; a nil configuration is refused; and it
    never panics. *)
Theorem Validate_accurate c :
  (Validate Q (Some c) = Ret tt <-> usable c) /\
  (forall e, Validate Q (Some c) = Fail e -> violation c e) /\
  Validate Q (Some c) <> Panic /\
  Validate Q None = Fail (errorf "config must not be nil").
Proof.
  pose proof (Validate_spec c) as Hs. destruct (Validate Q (Some c)) as [[]|e|] eqn:E; [| |done].
  - split_and!; try done.
  - split_and!; try done; [|by intros e' [= <-]]. split; [done|].
    intros U. by apply violation_unusable in Hs.
Qed.

(** C24. What was validated is what runs: for a configuration that passes,
    [Start] finds a compression, and the producer configuration it builds is
    usable as it is, so that [NewProducer]'s defaults and the pools' minimum
    sizes change none of the operator's settings. *)
Theorem validated_config_runs c :
  Validate Q (Some c) = Ret tt ->
  exists compression, compressionTypeFromString (x_Compression Q c) = Ret compression /\
    let p := withDefaults (producerConfigOf Q c compression) in
    p = producerConfigOf Q c compression /\ limits_ok p /\
    atLeastOne (EncodeConcurrency p) = x_EncodeConcurrency Q c /\
    atLeastOne (UploadConcurrency p) = x_UploadConcurrency Q c /\
    atLeastOne (ManifestAppendBatchSize p) = x_ManifestAppendBatchSize Q c /\
    (MaxInFlightBatches p, MaxInFlightBytes p) = (x_MaxInFlightBatches Q c, x_MaxInFlightBytes Q c) /\
    0 < FlushInterval p /\ 0 < FlushSizeBytes p.
Proof.
  intros Hv. pose proof (Validate_spec c) as U. rewrite Hv in U.
  destruct (compression_usable c U) as (comp & Hc & _). exists comp. split; [done|]. cbv zeta.
  pose proof (producerConfigOf_limits c comp U) as L. rewrite (withDefaults_id _ L).
  pose proof (us_upload _ U). pose proof (us_encode _ U). pose proof (us_append _ U).
  split_and!; try done; try apply U; unfold atLeastOne; cbn; case_test; lia.
Qed.
End Validation.

(** *** Witnesses *)

Definition sample_queue : queue_lib :=
  {| QueueBatchConfig := Z; queueValidate n := if n <? 1 then Some "queue_size must be positive" else None;
     NewDefaultQueueConfig := 1000 |}.

Definition sample_exporter_config : ExporterConfig sample_queue := {|
  x_ObjectStore := {| Type_ := "s3"; Bucket := "telemetry"; Region := "eu-west-1"; Endpoint := "" |};
  x_DataPathPrefix := "ingest"; x_ManifestPath := "ingest/manifest"; x_FlushInterval := 10 * Second;
  x_FlushSizeBytes := 1048576; x_Compression := "None"; x_UploadConcurrency := 4;
  x_EncodeConcurrency := 2; x_MaxInFlightBatches := 64; x_MaxInFlightBytes := 268435456;
  x_ManifestAppendBatchSize := 16; x_SendingQueue := (Some 1000 : option (QueueBatchConfig sample_queue)); x_Timeout := 0;
|}.

Lemma validated_config_runs_witness :
  Validate sample_queue (Some sample_exporter_config) = Ret tt /\
  exists compression, compressionTypeFromString "None" = Ret compression /\
    withDefaults (producerConfigOf sample_queue sample_exporter_config compression) =
      producerConfigOf sample_queue sample_exporter_config compression.
Proof.
  split; [vm_compute; reflexivity|].
  destruct (validated_config_runs sample_queue sample_exporter_config eq_refl) as (comp & Hc & Hp & _).
  exists comp. split; [exact Hc|exact Hp].
Defined.

(** The configuration the factory starts from lacks a bucket, and says so; a
    negative timeout is reported with its value. *)
Example default_config_incomplete :
  Validate sample_queue (Some (createDefaultConfig sample_queue)) =
    Fail (errorf "object_store.bucket is required").
Proof. vm_compute; reflexivity. Qed.

Example duration_strings :
  (durationString (-1500 * Millisecond), durationString (90 * 60 * Second), durationString 1500) =
    ("-1.5s", "1h30m0s", "1.5µs").
Proof. vm_compute; reflexivity. Qed.
