(* ===== verification/Telemetry.v ===== *)
(** * Exporter telemetry ([src/exporter/opendataexporter/telemetry.go])

    The exporter's implementation of the producer's observer: each callback
    adds to counters and records into histograms and gauges of OpenTelemetry.
    The meter and the instruments are code of the OpenTelemetry SDK; here an
    instrument is its name, and what the exporter did to the instruments is
    the sequence of measurements, in order. Seconds are kept as nanoseconds.
    Log messages are kept without their fields. *)

From S2P Require Import Prelude GoError Bytes Batch Config ExporterConfig.
From stdpp Require Import sorting.

Local Open Scope string_scope.
Local Open Scope list_scope.
Local Open Scope Z_scope.

(** ** Instruments *)

Inductive instrument :=
  | requestsTotal | requestFailuresTotal | bytesMarshaledTotal | metricsReceivedTotal
  | dataPointsReceivedTotal | logRecordsReceivedTotal | marshalDuration | enqueueWaitDuration
  | durableWaitDuration | pendingInputs | flushesTotal | flushDuration | batchInputs
  | batchEntries | batchUncompressedBytes | batchAge | storePutDuration | storePayloadBytes
  | manifestEnqueueDuration | manifestConflictsTotal | manifestConflictsPerWrite
  | appendChBlockDuration | encodeWorkersBusy | uploadWorkersBusy | encodeDuration
  | uploadDuration | manifestAppendBatchSize | manifestAppendDuration
  | manifestAppendCasRetries | headOfLineBlockDuration | batchOutcomeTotal | haltedGauge
  | inflightBytesGauge | inflightBatchesGauge | queueDepthGauge | oldestUnflushedAge.

#[export] Instance instrument_eq_dec : EqDecision instrument.
Proof. solve_decision. Defined.

Inductive instrument_kind :=
  | Int64Counter | Int64UpDownCounter | Int64Histogram | Float64Histogram | Int64Gauge
  | Float64ObservableGauge.

(** Bucket boundaries: of a histogram of seconds in milliseconds, of a
    histogram of counts as they are. *)
Definition latencySecondsBuckets : list Z := [1; 5; 10; 25; 50; 100; 250; 500; 1000; 2500; 5000; 10000].
Definition smallIntegerCountBuckets : list Z := [1; 2; 4; 8; 16; 32; 64; 128].

Record description := {
  i_kind : instrument_kind;
  i_name : string;
  i_unit : string;
  i_buckets : option (list Z);
}.

Definition plain (k : instrument_kind) (name : string) : description :=
  {| i_kind := k; i_name := name; i_unit := ""; i_buckets := None |}.
Definition seconds (name : string) : description :=
  {| i_kind := Float64Histogram; i_name := name; i_unit := "s";
     i_buckets := Some latencySecondsBuckets |}.
Definition smallCounts (name : string) : description :=
  {| i_kind := Int64Histogram; i_name := name; i_unit := "";
     i_buckets := Some smallIntegerCountBuckets |}.

(** The instruments of the exporter, in the order of their creation. *)
Definition exporterInstruments : list (instrument * description) :=
  [(requestsTotal, plain Int64Counter "opendataexporter.requests_total");
   (requestFailuresTotal, plain Int64Counter "opendataexporter.request_failures_total");
   (bytesMarshaledTotal, plain Int64Counter "opendataexporter.bytes_marshaled_total");
   (metricsReceivedTotal, plain Int64Counter "opendataexporter.metrics_received_total");
   (dataPointsReceivedTotal, plain Int64Counter "opendataexporter.data_points_received_total");
   (logRecordsReceivedTotal, plain Int64Counter "opendataexporter.log_records_received_total");
   (marshalDuration, seconds "opendataexporter.marshal_duration_seconds");
   (enqueueWaitDuration, seconds "opendataexporter.enqueue_wait_duration_seconds");
   (durableWaitDuration, seconds "opendataexporter.durable_wait_duration_seconds");
   (pendingInputs, plain Int64UpDownCounter "opendataexporter.pending_inputs");
   (flushesTotal, plain Int64Counter "opendataexporter.flushes_total");
   (flushDuration, seconds "opendataexporter.flush_duration_seconds");
   (batchInputs, plain Int64Histogram "opendataexporter.batch_inputs");
   (batchEntries, plain Int64Histogram "opendataexporter.batch_entries");
   (batchUncompressedBytes, plain Int64Histogram "opendataexporter.batch_uncompressed_bytes");
   (batchAge, seconds "opendataexporter.batch_age_seconds");
   (storePutDuration, seconds "opendataexporter.store_put_duration_seconds");
   (storePayloadBytes, plain Int64Histogram "opendataexporter.store_payload_bytes");
   (manifestEnqueueDuration, seconds "opendataexporter.manifest_enqueue_duration_seconds");
   (manifestConflictsTotal, plain Int64Counter "opendataexporter.manifest_conflicts_total");
   (manifestConflictsPerWrite, smallCounts "opendataexporter.manifest_conflicts_per_write")].

(** Those of the producer's pipeline. *)
Definition producerInstruments : list (instrument * description) :=
  [(appendChBlockDuration, seconds "buffer.producer.appendch_block_seconds");
   (encodeWorkersBusy, plain Int64Gauge "buffer.producer.encode_workers_busy");
   (uploadWorkersBusy, plain Int64Gauge "buffer.producer.upload_workers_busy");
   (encodeDuration, seconds "buffer.producer.encode_duration_seconds");
   (uploadDuration, seconds "buffer.producer.upload_duration_seconds");
   (manifestAppendBatchSize, smallCounts "buffer.producer.manifest_append_batch_size");
   (manifestAppendDuration, seconds "buffer.producer.manifest_append_duration_seconds");
   (manifestAppendCasRetries, smallCounts "buffer.producer.manifest_append_cas_retries");
   (headOfLineBlockDuration, seconds "buffer.producer.head_of_line_block_seconds");
   (batchOutcomeTotal, plain Int64Counter "buffer.producer.batch_outcome");
   (haltedGauge, plain Int64Gauge "buffer.producer.halted");
   (inflightBytesGauge, plain Int64Gauge "buffer.producer.inflight_bytes");
   (inflightBatchesGauge, plain Int64Gauge "buffer.producer.inflight_batches");
   (queueDepthGauge, plain Int64Gauge "buffer.producer.queue_depth")].

Definition observableInstrument : instrument * description :=
  (oldestUnflushedAge, {| i_kind := Float64ObservableGauge;
                          i_name := "buffer.producer.oldest_unflushed_batch_age_seconds";
                          i_unit := "s"; i_buckets := None |}).

Definition allInstruments : list (instrument * description) :=
  exporterInstruments ++ producerInstruments ++ [observableInstrument].

(** ** The telemetry object *)

Abbreviation attributes := (list (string * string)).

Record measurement := {
  m_instrument : instrument;
  m_value : Z;
  m_attrs : attributes;
}.

Inductive level := Warn | Error_ | Info.

Abbreviation producer_id := nat.

Record exporterTelemetry := {
  t_measurements : list measurement;
  t_logger : list (level * string);
  t_producer : option producer_id;      (** the atomic pointer [producer] *)
  slowRequestThreshold : Z;
  slowFlushThreshold : Z;
}.

(** [meter] is what the meter says to the creation of an instrument. *)
Fixpoint createInstruments (meter : description -> option error)
    (l : list (instrument * description)) : outcome unit :=
  match l with
  | [] => Ret tt
  | (_, d) :: l =>
      match meter d with Some err => Fail err | None => createInstruments meter l end
  end.

Definition telemetryThreshold (flushInterval : Z) : Z :=
  let threshold := int64 (2 * flushInterval) in
  if threshold <? 5 * Second then 5 * Second else threshold.

Definition newExporterTelemetry (Q : queue_lib) (meter : description -> option error)
    (cfg : ExporterConfig Q) : outcome exporterTelemetry :=
  _ ← createInstruments meter (exporterInstruments ++ producerInstruments);
  let threshold := telemetryThreshold (x_FlushInterval Q cfg) in
  _ ← createInstruments meter [observableInstrument];
  Ret {| t_measurements := []; t_logger := []; t_producer := None;
         slowRequestThreshold := threshold; slowFlushThreshold := threshold |}.

Definition setProducer (p : option producer_id) (t : exporterTelemetry) : exporterTelemetry :=
  {| t_measurements := t_measurements t; t_logger := t_logger t; t_producer := p;
     slowRequestThreshold := slowRequestThreshold t; slowFlushThreshold := slowFlushThreshold t |}.

(** [Add] and [Record] of an instrument. *)
Definition record (i : instrument) (v : Z) (attrs : attributes) (t : exporterTelemetry)
    : exporterTelemetry :=
  {| t_measurements := t_measurements t ++ [{| m_instrument := i; m_value := v; m_attrs := attrs |}];
     t_logger := t_logger t; t_producer := t_producer t;
     slowRequestThreshold := slowRequestThreshold t; slowFlushThreshold := slowFlushThreshold t |}.

Definition log (l : level) (msg : string) (t : exporterTelemetry) : exporterTelemetry :=
  {| t_measurements := t_measurements t; t_logger := t_logger t ++ [(l, msg)];
     t_producer := t_producer t;
     slowRequestThreshold := slowRequestThreshold t; slowFlushThreshold := slowFlushThreshold t |}.

Definition resultAttr (err : option error) : string * string :=
  ("result", match err with Some _ => "error" | None => "success" end).

(** The callback of the observable gauge, which the SDK calls when it collects:
    the value observed, if any. [age] is [OldestUnflushedBatchAge]. *)
Definition observeOldest (age : producer_id -> Z) (t : exporterTelemetry) : option Z :=
  age <$> t_producer t.

(** ** Requests *)

Definition recordRequestStartMetrics (metricCount dataPointCount : Z) (t : exporterTelemetry)
    : exporterTelemetry :=
  let t := record requestsTotal 1 [] t in
  let t := record metricsReceivedTotal metricCount [] t in
  record dataPointsReceivedTotal dataPointCount [] t.

Definition recordRequestStartLogs (logRecordCount : Z) (t : exporterTelemetry) : exporterTelemetry :=
  let t := record requestsTotal 1 [] t in
  record logRecordsReceivedTotal logRecordCount [] t.

Definition recordMarshal (sizeBytes duration : Z) (t : exporterTelemetry) : exporterTelemetry :=
  let t := record bytesMarshaledTotal sizeBytes [] t in
  record marshalDuration duration [] t.

Definition recordEnqueueWait (duration : Z) (t : exporterTelemetry) : exporterTelemetry :=
  record enqueueWaitDuration duration [] t.

(** [recordDurableWaitMetrics] and [recordDurableWaitLogs], which differ in the
    fields of the message only. *)
Definition recordDurableWait (duration : Z) (err : option error) (t : exporterTelemetry)
    : exporterTelemetry :=
  let t := record durableWaitDuration duration [resultAttr err] t in
  match err with
  | Some _ => t
  | None =>
      if slowRequestThreshold t <=? duration
      then log Warn "OpenData exporter request completed slowly" t else t
  end.

Definition recordFailure (stage : string) (err : error) (t : exporterTelemetry) : exporterTelemetry :=
  let t := record requestFailuresTotal 1 [("stage", stage)] t in
  log Error_ "OpenData exporter request failed" t.

(** ** The observer *)

Definition reasonString (r : FlushReason) : string :=
  match r with
  | FlushReasonSize => "size" | FlushReasonTime => "time"
  | FlushReasonManual => "manual" | FlushReasonShutdown => "shutdown"
  end.

Definition stageString (s : PipelineStage) : string :=
  match s with
  | StageAppend => "append" | StageRotate => "rotate" | StageEncode => "encode"
  | StageUpload => "upload" | StageCommit => "commit" | StageResolve => "resolve"
  end.

Definition outcomeString (o : BatchOutcome) : string :=
  match o with
  | OutcomeCommitted => "committed" | OutcomeEncodeFailed => "encode_failed"
  | OutcomeUploadFailed => "upload_failed" | OutcomeManifestFailed => "manifest_failed"
  | OutcomeAbandoned => "abandoned"
  end.

Definition tel_OnAccepted (t : exporterTelemetry) : exporterTelemetry := record pendingInputs 1 [] t.

Definition tel_OnFlush (reason : FlushReason) (stats : FlushStats) (duration : Z)
    (err : option error) (t : exporterTelemetry) : exporterTelemetry :=
  let attrs := [("reason", reasonString reason); resultAttr err] in
  let t := record pendingInputs (- Inputs stats) [] t in
  let t := record flushesTotal 1 attrs t in
  let t := record flushDuration duration attrs t in
  let t := record batchInputs (Inputs stats) attrs t in
  let t := record batchEntries (Entries stats) attrs t in
  let t := record batchUncompressedBytes (UncompressedBytes stats) attrs t in
  let t := record batchAge (Age stats) attrs t in
  match err with
  | Some _ => log Error_ "OpenData exporter flush failed" t
  | None =>
      if slowFlushThreshold t <=? duration
      then log Warn "OpenData exporter flush completed slowly" t else t
  end.

Definition tel_OnStorePut (sizeBytes duration : Z) (err : option error) (t : exporterTelemetry)
    : exporterTelemetry :=
  let attrs := [resultAttr err] in
  let t := record storePutDuration duration attrs t in
  record storePayloadBytes sizeBytes attrs t.

Definition tel_OnManifestEnqueue (duration conflicts : Z) (err : option error)
    (t : exporterTelemetry) : exporterTelemetry :=
  let attrs := [resultAttr err] in
  let t := record manifestEnqueueDuration duration attrs t in
  let t := record manifestConflictsPerWrite conflicts attrs t in
  let t := if 0 <? conflicts then record manifestConflictsTotal conflicts [] t else t in
  let t := if 3 <=? conflicts
           then log Warn "OpenData exporter manifest update encountered repeated conflicts" t
           else t in
  match err with
  | Some _ => log Error_ "OpenData exporter manifest update failed" t
  | None => t
  end.

Definition tel_OnAppendChBlock (d : Z) (t : exporterTelemetry) : exporterTelemetry :=
  record appendChBlockDuration d [] t.

Definition tel_OnWorkersBusy (stage : PipelineStage) (busy : Z) (t : exporterTelemetry)
    : exporterTelemetry :=
  match stage with
  | StageEncode => record encodeWorkersBusy busy [] t
  | StageUpload => record uploadWorkersBusy busy [] t
  | _ => t
  end.

Definition tel_OnEncodeDuration (d : Z) (err : option error) (t : exporterTelemetry)
    : exporterTelemetry :=
  record encodeDuration d [resultAttr err] t.

Definition tel_OnUploadDuration (d : Z) (err : option error) (t : exporterTelemetry)
    : exporterTelemetry :=
  record uploadDuration d [resultAttr err] t.

Definition tel_OnManifestAppendBatchSize (n : Z) (t : exporterTelemetry) : exporterTelemetry :=
  record manifestAppendBatchSize n [] t.

Definition tel_OnManifestAppendDuration (d conflicts : Z) (err : option error)
    (t : exporterTelemetry) : exporterTelemetry :=
  let attrs := [resultAttr err] in
  let t := record manifestAppendDuration d attrs t in
  record manifestAppendCasRetries conflicts attrs t.

Definition tel_OnHeadOfLineBlock (d : Z) (t : exporterTelemetry) : exporterTelemetry :=
  record headOfLineBlockDuration d [] t.

Definition tel_OnBatchOutcome (o : BatchOutcome) (t : exporterTelemetry) : exporterTelemetry :=
  record batchOutcomeTotal 1 [("outcome", outcomeString o)] t.

Definition tel_OnHalted (h : bool) (t : exporterTelemetry) : exporterTelemetry :=
  record haltedGauge (if h then 1 else 0) [] t.

Definition tel_OnInflightBytes (n : Z) (t : exporterTelemetry) : exporterTelemetry :=
  record inflightBytesGauge n [] t.

Definition tel_OnInflightBatches (n : Z) (t : exporterTelemetry) : exporterTelemetry :=
  record inflightBatchesGauge n [] t.

Definition tel_OnQueueDepth (stage : PipelineStage) (depth : Z) (t : exporterTelemetry)
    : exporterTelemetry :=
  record queueDepthGauge depth [("stage", stageString stage)] t.

(** The method called for an event; [d] is the duration it carries, if any. *)
Definition onEvent (t : exporterTelemetry) (de : Z * event) : exporterTelemetry :=
  let '(d, e) := de in
  match e with
  | OnAccepted => tel_OnAccepted t
  | OnFlush reason stats err => tel_OnFlush reason stats d err t
  | OnStorePut sizeBytes err => tel_OnStorePut sizeBytes d err t
  | OnManifestEnqueue _ conflicts err => tel_OnManifestEnqueue d conflicts err t
  | OnAppendChBlock => tel_OnAppendChBlock d t
  | OnWorkersBusy stage busy => tel_OnWorkersBusy stage busy t
  | OnEncodeDuration err => tel_OnEncodeDuration d err t
  | OnUploadDuration _ err => tel_OnUploadDuration d err t
  | OnManifestAppendBatchSize n => tel_OnManifestAppendBatchSize n t
  | OnManifestAppendDuration conflicts err => tel_OnManifestAppendDuration d conflicts err t
  | OnHeadOfLineBlock => tel_OnHeadOfLineBlock d t
  | OnBatchOutcome o => tel_OnBatchOutcome o t
  | OnHalted h => tel_OnHalted h t
  | OnInflightBytes n => tel_OnInflightBytes n t
  | OnInflightBatches n => tel_OnInflightBatches n t
  | OnQueueDepth stage depth => tel_OnQueueDepth stage depth t
  end.

(** ** What an instrument shows *)

(** The values recorded by an instrument, in order, and the value of a
    counter: their sum. *)
Definition recorded (i : instrument) (t : exporterTelemetry) : list Z :=
  m_value <$> filter (fun m => m_instrument m = i) (t_measurements t).

Definition counter_value (i : instrument) (t : exporterTelemetry) : Z := sumZ (recorded i t).

Lemma recorded_record i j v attrs t :
  recorded i (record j v attrs t) = recorded i t ++ (if decide (j = i) then [v] else []).
Proof.
  unfold recorded, record. cbn. rewrite filter_app, fmap_app. f_equal.
  rewrite filter_cons, filter_nil. cbn. by destruct (decide (j = i)).
Qed.

Lemma recorded_log i l msg t : recorded i (log l msg t) = recorded i t.
Proof. done. Qed.

(** What an event adds to an instrument. *)
Definition event_values (i : instrument) (e : event) : list Z :=
  match i, e with
  | pendingInputs, OnAccepted => [1]
  | pendingInputs, OnFlush _ stats _ => [- Inputs stats]
  | flushesTotal, OnFlush _ _ _ => [1]
  | batchInputs, OnFlush _ stats _ => [Inputs stats]
  | batchEntries, OnFlush _ stats _ => [Entries stats]
  | batchUncompressedBytes, OnFlush _ stats _ => [UncompressedBytes stats]
  | storePayloadBytes, OnStorePut sizeBytes _ => [sizeBytes]
  | manifestConflictsPerWrite, OnManifestEnqueue _ conflicts _ => [conflicts]
  | manifestConflictsTotal, OnManifestEnqueue _ conflicts _ => if 0 <? conflicts then [conflicts] else []
  | manifestAppendCasRetries, OnManifestAppendDuration conflicts _ => [conflicts]
  | manifestAppendBatchSize, OnManifestAppendBatchSize n => [n]
  | batchOutcomeTotal, OnBatchOutcome _ => [1]
  | haltedGauge, OnHalted h => [if h : bool then 1 else 0]
  | inflightBytesGauge, OnInflightBytes n => [n]
  | inflightBatchesGauge, OnInflightBatches n => [n]
  | _, _ => []
  end.

(** The instruments that hold counts rather than measured times and depths. *)
Definition counting (i : instrument) : Prop :=
  i ∈ [pendingInputs; flushesTotal; batchInputs; batchEntries; batchUncompressedBytes;
       storePayloadBytes; manifestConflictsPerWrite; manifestConflictsTotal;
       manifestAppendCasRetries; manifestAppendBatchSize; batchOutcomeTotal; haltedGauge;
       inflightBytesGauge; inflightBatchesGauge].

Lemma onEvent_recorded i t d e :
  counting i -> recorded i (onEvent t (d, e)) = recorded i t ++ event_values i e.
Proof.
  intros Hi. unfold counting in Hi. rewrite !elem_of_cons, elem_of_nil in Hi.
  destruct_or! Hi; subst i; try done; destruct e; cbn [onEvent event_values];
    unfold tel_OnAccepted, tel_OnFlush, tel_OnStorePut, tel_OnManifestEnqueue, tel_OnAppendChBlock,
      tel_OnWorkersBusy, tel_OnEncodeDuration, tel_OnUploadDuration, tel_OnManifestAppendBatchSize,
      tel_OnManifestAppendDuration, tel_OnHeadOfLineBlock, tel_OnBatchOutcome, tel_OnHalted,
      tel_OnInflightBytes, tel_OnInflightBatches, tel_OnQueueDepth; cbv zeta;
    repeat case_match; rewrite ?recorded_log, ?recorded_record; cbn; by rewrite ?app_nil_r.
Qed.

(** ** Properties *)

Lemma telemetry_recorded i des : forall t,
  counting i -> recorded i (foldl onEvent t des) = recorded i t ++ (des.*2 ≫= event_values i).
Proof.
  induction des as [|[d e] des IH]; intros t Hi; [cbn; by rewrite app_nil_r|].
  change (foldl onEvent t ((d, e) :: des)) with (foldl onEvent (onEvent t (d, e)) des).
  rewrite IH, onEvent_recorded by done. cbn. by rewrite <- (assoc_L (++)).
Qed.

Lemma NoDup_fst_unique {A B} (l : list (A * B)) a b b' :
  NoDup l.*1 -> (a, b) ∈ l -> (a, b') ∈ l -> b = b'.
Proof.
  induction l as [|[x y] l IH]; [by intros _ ?%elem_of_nil|].
  rewrite fmap_cons, NoDup_cons, !elem_of_cons. cbn. intros [Hn Hnd] [[= -> ->]|H1] [[= ->]|H2].
  - done.
  - destruct Hn. apply list_elem_of_fmap. by exists (x, b').
  - destruct Hn. apply list_elem_of_fmap. by exists (x, b); subst.
  - by apply IH.
Qed.

(** Bucket boundaries must increase strictly. *)
Definition buckets_ok (d : description) : Prop :=
  match i_buckets d with Some b => StronglySorted Z.lt b | None => True end.

Lemma instruments_wellformed :
  NoDup ((fun d => i_name d.2) <$> allInstruments) /\
  (forall i, exists! d, (i, d) ∈ allInstruments) /\
  Forall (fun d => buckets_ok d.2) allInstruments.
Proof.
  assert (NoDup ((fun d => i_name d.2) <$> allInstruments) /\ NoDup allInstruments.*1) as [Hn Hi].
  { split; apply (bool_decide_unpack _); vm_compute; exact I. }
  split_and!; [exact Hn| |].
  - intros i. assert (i ∈ allInstruments.*1) as Hin.
    { apply (bool_decide_unpack _). destruct i; vm_compute; exact I. }
    apply list_elem_of_fmap in Hin as ([i' d] & Heq & Hd). cbn in Heq. subst i'.
    exists d. split; [exact Hd|]. intros d' Hd'. by eapply NoDup_fst_unique.
  - repeat constructor.
Qed.

Lemma createInstruments_app meter l l' :
  createInstruments meter (l ++ l') = (createInstruments meter l ≫= fun _ => createInstruments meter l').
Proof. induction l as [|[i d] l IH]; [done|]. cbn. by destruct (meter d). Qed.

(** The instruments are created one by one, up to the first that is refused. *)
Lemma createInstruments_outcome meter l :
  match createInstruments meter l with
  | Ret _ => Forall (fun d => meter d.2 = None) l
  | Fail err => exists before d after, l = before ++ d :: after /\
      Forall (fun d => meter d.2 = None) before /\ meter d.2 = Some err
  | Panic => False
  end.
Proof.
  induction l as [|[i d] l IH]; cbn; [constructor|]. destruct (meter d) as [err|] eqn:E.
  - exists [], (i, d), l. split_and!; [done|constructor|done].
  - destruct (createInstruments meter l) as [[]|err|]; [by constructor| |done].
    destruct IH as (before & d' & after & -> & Hb & Hd). exists ((i, d) :: before), d', after.
    split_and!; [done|by constructor|done].
Qed.

Lemma newExporterTelemetry_creates Q meter (cfg : ExporterConfig Q) :
  match newExporterTelemetry Q meter cfg with
  | Ret t => createInstruments meter allInstruments = Ret tt /\ t_producer t = None /\
      t_measurements t = [] /\ slowRequestThreshold t = Z.max (5 * Second) (int64 (2 * x_FlushInterval Q cfg)) /\
      slowFlushThreshold t = slowRequestThreshold t
  | Fail err => createInstruments meter allInstruments = Fail err
  | Panic => createInstruments meter allInstruments = Panic
  end.
Proof.
  assert (createInstruments meter allInstruments =
    (createInstruments meter (exporterInstruments ++ producerInstruments) ≫=
       fun _ => createInstruments meter [observableInstrument])) as ->.
  { rewrite <- createInstruments_app, <- (assoc_L (++)). done. }
  unfold newExporterTelemetry.
  destruct (createInstruments meter (exporterInstruments ++ producerInstruments)) as [[]|err|];
    cbn [mbind outcome_bind]; [|done|done].
  destruct (createInstruments meter [observableInstrument]) as [[]|err|] eqn:E; cbn [mbind outcome_bind]; [|done|done].
  cbn. split_and!; try done. unfold telemetryThreshold, Second, Millisecond. case_test; lia.
Qed.

