(* ===== verification/Observed.v ===== *)
(** * What the observer sees of the pipeline

    The observer's calls about inputs along a run of the pipeline, and what the
    exporter's instruments show of them. The calls are steps of their own:
    [AppendContext] calls [OnAccepted] after its send on [appendCh], and the
    resolver calls [OnFlush] before it resolves the watchers of a batch; other
    goroutines move in between. *)

From S2P Require Import Prelude GoError Bytes Batch Manifest ObjStore Enqueuer Config Budget.
From S2P Require Import Watcher Accumulator Retry Committer Stages Pipeline PipelineInv Durability.
From S2P Require Import Progress Producer Desk Flush ExporterConfig Telemetry.
From stdpp Require Import list_tactics list_numbers sorting.

Local Open Scope Z_scope.

(** ** Events of a run *)

Section Run.
Context {St : Type} {HO : ObjectStore St} {HC : StoreContents St}.
Context (z : zstd_lib) (config : ProducerConfig) (runID : string).
Context (range : readyMap -> list uploadCompletion).
Implicit Types s : pipeline St.

(** The messages whose calls leave their select with success: they leave the
    callers and their watchers stay. *)
Definition accepted_between s s' : list appendMessage :=
  filter (fun m => msg_watcher m ∉ calling s' /\ is_Some (s_watchers (p_shared s') !! msg_watcher m))
    (f_callers (p_front s)).

(** The batch whose watchers the resolver resolves. *)
Definition flushed_between s s' : list pendingResolution :=
  match b_resolver (p_back s), b_resolver (p_back s') with
  | ResResolve rs, ResRelease _ => [rs]
  | _, _ => []
  end.

(** The pipeline with the calls that are between their send and [OnAccepted],
    and whether the resolver has reported the batch it has in hand. *)
Record observed := Obs {
  o_pipe : pipeline St;
  o_sent : list appendMessage;
  o_reported : bool;
}.

Definition flush_event (rs : pendingResolution) : event :=
  let ri := resolveItem rs in OnFlush (ri_reason ri) (ri_stats ri) (ri_err ri).

Inductive observe_step : observed -> list event -> observed -> Prop :=
  | observe_quiet s s' sent rep :
      step z config runID range s s' -> flushed_between s s' = [] ->
      observe_step (Obs s sent rep) [] (Obs s' (sent ++ accepted_between s s') rep)
  | observe_accepted s sent1 m sent2 rep :
      observe_step (Obs s (sent1 ++ m :: sent2) rep) [OnAccepted] (Obs s (sent1 ++ sent2) rep)
  | observe_flush s sent rs :
      b_resolver (p_back s) = ResResolve rs ->
      observe_step (Obs s sent false) [flush_event rs] (Obs s sent true)
  | observe_resolve s s' sent rs :
      step z config runID range s s' -> flushed_between s s' = [rs] ->
      observe_step (Obs s sent true) [] (Obs s' (sent ++ accepted_between s s') false).

(** The run from [o0], with the events in order. *)
Inductive run (o0 : observed) : list event -> observed -> Prop :=
  | run_nil : run o0 [] o0
  | run_step es es' o o' :
      run o0 es o -> observe_step o es' o' -> run o0 (es ++ es') o'.

Lemma run_steps o0 es o : run o0 es o -> rtc (step z config runID range) (o_pipe o0) (o_pipe o).
Proof.
  induction 1 as [|es es' o o' _ IH Hst]; [apply rtc_refl|]. destruct Hst; try done; by eapply rtc_r.
Qed.

Lemma run_trans o0 es o es' o' : run o0 es o -> run o es' o' -> run o0 (es ++ es') o'.
Proof.
  intros H1. induction 1 as [|es1 es2 o1 o2 _ IH Hst]; [by rewrite app_nil_r|].
  rewrite (assoc_L (++)). by eapply run_step.
Qed.

Lemma run_one o es o' : observe_step o es o' -> run o es o'.
Proof. intros Hst. rewrite <- (app_nil_l es). eapply run_step; [apply run_nil|done]. Qed.

(** Either a step leaves the resolver's batch, or it resolves it. *)
Lemma flushed_cases s s' :
  flushed_between s s' = [] \/
  exists rs, flushed_between s s' = [rs] /\ b_resolver (p_back s) = ResResolve rs.
Proof.
  unfold flushed_between. destruct (b_resolver (p_back s)) as [|rs|rs]; [by left| |by left].
  destruct (b_resolver (p_back s')); [by left..|]. right. by exists rs.
Qed.

(** Every run of the pipeline can be observed with reports of the resolver
    that are as late as they can be and reports of the calls that are
    outstanding. *)
Lemma steps_late s sent s' :
  step z config runID range s s' -> exists es, run (Obs s sent false) es (Obs s' (sent ++ accepted_between s s') false) /\
    (es = [] \/ exists rs, es = [flush_event rs] /\ b_resolver (p_back s) = ResResolve rs).
Proof.
  intros Hst. destruct (flushed_cases s s') as [Hf|(rs & Hf & Hrs)].
  - exists []. split; [|by left]. apply run_one. by constructor.
  - exists [flush_event rs]. split; [|right; by exists rs]. rewrite <- (app_nil_r [_]).
    eapply run_step; [apply run_one; by constructor|by eapply observe_resolve].
Qed.

Lemma run_announce s sent rep : run (Obs s sent rep) ((fun _ => OnAccepted) <$> sent) (Obs s [] rep).
Proof.
  induction sent as [|m sent IH]; [apply run_nil|].
  apply (run_trans _ [OnAccepted] (Obs s sent rep)); [|done]. apply run_one.
  apply (observe_accepted s [] m sent).
Qed.

(** And with reports that come at once. *)
Lemma steps_run s0 s :
  rtc (step z config runID range) s0 s -> exists es, run (Obs s0 [] false) es (Obs s [] false).
Proof.
  revert s. apply rtc_ind_r; [exists []; apply run_nil|]. intros s1 s2 _ Hst [es IH].
  destruct (steps_late s1 [] s2 Hst) as (es' & Hr & _). eexists.
  eapply run_trans; [exact IH|]. eapply run_trans; [exact Hr|]. apply run_announce.
Qed.
End Run.
Arguments observed : clear implicits.

(** The inputs accepted and those flushed. *)
Definition accepted_of (es : list event) : Z :=
  sumZ ((fun e => match e with OnAccepted => 1 | _ => 0 end) <$> es).
Definition flushed_of (es : list event) : Z :=
  sumZ ((fun e => match e with OnFlush _ stats _ => Inputs stats | _ => 0 end) <$> es).

Lemma accepted_of_app es es' : accepted_of (es ++ es') = accepted_of es + accepted_of es'.
Proof. unfold accepted_of. by rewrite fmap_app, sumZ_app. Qed.
Lemma flushed_of_app es es' : flushed_of (es ++ es') = flushed_of es + flushed_of es'.
Proof. unfold flushed_of. by rewrite fmap_app, sumZ_app. Qed.

Lemma filter_all {A} (P : A -> Prop) `{!forall x, Decision (P x)} (l : list A) :
  (forall x, x ∈ l -> P x) -> filter P l = l.
Proof.
  induction l as [|x l IH]; intros Hl; [done|]. rewrite filter_cons, decide_True by (apply Hl; by left).
  f_equal. apply IH. intros y Hy. apply Hl. by right.
Qed.

Lemma filter_none {A} (P : A -> Prop) `{!forall x, Decision (P x)} (l : list A) :
  (forall x, x ∈ l -> ~ P x) -> filter P l = [].
Proof.
  induction l as [|x l IH]; intros Hl; [done|]. rewrite filter_cons, decide_False by (apply Hl; by left).
  apply IH. intros y Hy. apply Hl. by right.
Qed.

(** ** Counting what is open *)

Section Pending.
Context {St : Type} {HO : ObjectStore St} {HC : StoreContents St} {HL : StoreLaws St}.
Context (z : zstd_lib) (config : ProducerConfig) (runID : string).
Context (range : readyMap -> list uploadCompletion) (Hrange : forall m, range m ≡ₚ values m).
Context (Hpath : forall k, objectAt config runID k <> ManifestPath config).
Implicit Types s : pipeline St.

Abbreviation ok := (pipeline_ok z config runID).

Definition open_watchers s : list watcher_id := calling s ++ collected s ++ batched s.

Lemma open_watchers_spec s : ok s ->
  NoDup (open_watchers s) /\
  forall w, w ∈ open_watchers s <-> s_watchers (p_shared s) !! w = Some newDurabilityWatcher.
Proof.
  intros [_ _ (_ & held & Hr & F)].
  assert (open_watchers s = (msg_watcher <$> f_callers (p_front s) ++ f_appendCh (p_front s) ++ held) ++
    (cargos (f_pc (p_front s)) (p_middle s) (p_back s) ≫= cargo_watchers)) as ->.
  { unfold open_watchers, calling, collected, batched.
    rewrite (holds_watchers _ _ (ro_holds _ _ Hr)), !fmap_app. by rewrite <- !(assoc_L (++)). }
  split; [apply F|]. intros w. by rewrite (fl_open _ _ _ _ _ _ _ _ _ F w).
Qed.

(** Two states whose open watchers differ by [xs] and [ys]. *)
Lemma open_moves s s' xs ys :
  ok s -> ok s' -> NoDup xs -> NoDup ys ->
  (forall w, w ∈ xs -> s_watchers (p_shared s') !! w <> Some newDurabilityWatcher) ->
  (forall w, w ∈ ys -> s_watchers (p_shared s) !! w <> Some newDurabilityWatcher) ->
  (forall w, (w ∈ xs \/ s_watchers (p_shared s') !! w = Some newDurabilityWatcher) <->
             (w ∈ ys \/ s_watchers (p_shared s) !! w = Some newDurabilityWatcher)) ->
  len xs + len (open_watchers s') = len ys + len (open_watchers s).
Proof.
  intros Ok Ok' Hx Hy Hx' Hy' Hiff. destruct (open_watchers_spec s Ok) as [Hnd Ho].
  destruct (open_watchers_spec s' Ok') as [Hnd' Ho'].
  rewrite <- !len_app. unfold len. f_equal. apply Permutation_length, NoDup_Permutation.
  - apply NoDup_app. split_and!; [done| |done]. intros w Hw Hin. apply Ho' in Hin. by apply (Hx' w).
  - apply NoDup_app. split_and!; [done| |done]. intros w Hw Hin. apply Ho in Hin. by apply (Hy' w).
  - intros w. rewrite !elem_of_app, Ho, Ho'. apply Hiff.
Qed.

(** The calls that were accepted in a step: those of [ms] that left. *)
Lemma accepted_len s s' xs ys rest :
  NoDup (calling s) -> f_callers (p_front s) ≡ₚ xs ++ ys ++ rest ->
  (forall m, m ∈ rest -> msg_watcher m ∈ calling s') ->
  (forall m, m ∈ ys -> s_watchers (p_shared s') !! msg_watcher m = None) ->
  (forall m, m ∈ xs -> msg_watcher m ∉ calling s' /\ is_Some (s_watchers (p_shared s') !! msg_watcher m)) ->
  len (accepted_between s s') = len xs.
Proof.
  intros Hnd Hp Hrest Hys Hxs. unfold accepted_between, len. f_equal.
  rewrite Hp, !filter_app, !length_app.
  rewrite (filter_all _ xs) by exact Hxs.
  rewrite (filter_none _ ys), (filter_none _ rest); cbn; [lia|..].
  - intros m Hm [Hn _]. by apply Hn, Hrest.
  - intros m Hm [_ [dw Hw]]. rewrite (Hys m Hm) in Hw. done.
Qed.

(** What the gauge of pending inputs should show: accepted and not decided. *)
Definition pending_of s : Z := len (collected s) + len (batched s).

Lemma pending_of_open s : pending_of s = len (open_watchers s) - len (calling s).
Proof. unfold pending_of, open_watchers. rewrite !len_app. lia. Qed.

(** The inputs of the batch the resolver finishes. *)
Definition flushed_inputs s s' : Z :=
  sumZ ((fun rs => cargo_inputs (Resolving rs)) <$> flushed_between s s').

(** A step that lets [drop] inputs go unreported. *)
Definition balance s s' (drop : Z) : Prop :=
  pending_of s' + drop = pending_of s + len (accepted_between s s') - flushed_inputs s s'.

Lemma calling_NoDup s : ok s -> NoDup (calling s).
Proof. intros Ok. destruct (open_watchers_spec s Ok) as [Hnd _]. by apply NoDup_app in Hnd as [? _]. Qed.

Lemma calling_open s w : ok s -> w ∈ calling s -> s_watchers (p_shared s) !! w = Some newDurabilityWatcher.
Proof.
  intros Ok Hw. destruct (open_watchers_spec s Ok) as [_ Ho]. apply Ho, elem_of_app. by left.
Qed.

(** Messages enter the rotator's hands; the watchers are as they were. *)
Lemma balance_accept s s' xs :
  ok s -> ok s' -> s_watchers (p_shared s') = s_watchers (p_shared s) ->
  f_callers (p_front s) ≡ₚ xs ++ f_callers (p_front s') -> flushed_between s s' = [] ->
  balance s s' 0.
Proof.
  intros Ok Ok' Hw Hc Hf. unfold balance, flushed_inputs.
  rewrite !pending_of_open, Hf, fmap_nil, sumZ_nil.
  assert (len (open_watchers s') = len (open_watchers s)) as Hopen.
  { pose proof (open_moves s s' [] [] Ok Ok' NoDup_nil_2 NoDup_nil_2) as Ho. rewrite len_nil in Ho.
    rewrite Hw in Ho. enough (0 + len (open_watchers s') = 0 + len (open_watchers s)) by lia.
    apply Ho; [by intros w ?%elem_of_nil|by intros w ?%elem_of_nil|tauto]. }
  pose proof (calling_NoDup s Ok) as Hnd. unfold calling in Hnd. rewrite Hc, fmap_app in Hnd.
  apply NoDup_app in Hnd as (_ & Hdis & _).
  rewrite (accepted_len s s' xs [] (f_callers (p_front s'))).
  - rewrite Hopen. unfold calling. rewrite Hc, fmap_app, len_app, !len_fmap. lia.
  - by apply calling_NoDup.
  - done.
  - intros m Hm. by apply list_elem_of_fmap_2.
  - by intros m ?%elem_of_nil.
  - intros m Hm. split; [apply Hdis; by apply list_elem_of_fmap_2|]. rewrite Hw.
    rewrite (calling_open s _ Ok); [done|]. apply list_elem_of_fmap_2. rewrite Hc. apply elem_of_app. by left.
Qed.

(** A call reserves its bytes and makes its watcher. *)
Lemma balance_submit s s' m :
  ok s -> ok s' -> s_watchers (p_shared s) !! msg_watcher m = None ->
  s_watchers (p_shared s') = <[msg_watcher m := newDurabilityWatcher]> (s_watchers (p_shared s)) ->
  f_callers (p_front s') = m :: f_callers (p_front s) -> flushed_between s s' = [] ->
  balance s s' 0.
Proof.
  intros Ok Ok' Hn Hw Hc Hf. unfold balance, flushed_inputs.
  rewrite !pending_of_open, Hf, fmap_nil, sumZ_nil.
  pose proof (open_moves s s' [] [msg_watcher m] Ok Ok' NoDup_nil_2 (NoDup_singleton _)) as Ho.
  rewrite Hw in Ho. autorewrite with len in Ho.
  assert (0 + len (open_watchers s') = (1 + 0) + len (open_watchers s)) as Hopen.
  { apply Ho; [by intros w ?%elem_of_nil|intros w ->%list_elem_of_singleton; by rewrite Hn|].
    intros w. rewrite list_elem_of_singleton, elem_of_nil. destruct (decide (w = msg_watcher m)) as [->|Hne].
    - rewrite lookup_insert_eq. tauto.
    - rewrite lookup_insert_ne by done. intuition congruence. }
  rewrite (accepted_len s s' [] [] (f_callers (p_front s))).
  - unfold calling. rewrite Hc, fmap_cons. autorewrite with len. lia.
  - by apply calling_NoDup.
  - done.
  - intros m' Hm. unfold calling. rewrite Hc. apply list_elem_of_fmap_2. by right.
  - by intros m' ?%elem_of_nil.
  - by intros m' ?%elem_of_nil.
Qed.

(** A call gives up. *)
Lemma balance_cancel s s' m :
  ok s -> ok s' -> s_watchers (p_shared s') = delete (msg_watcher m) (s_watchers (p_shared s)) ->
  f_callers (p_front s) ≡ₚ m :: f_callers (p_front s') -> flushed_between s s' = [] ->
  balance s s' 0.
Proof.
  intros Ok Ok' Hw Hc Hf. unfold balance, flushed_inputs.
  rewrite !pending_of_open, Hf, fmap_nil, sumZ_nil.
  pose proof (open_moves s s' [msg_watcher m] [] Ok Ok' (NoDup_singleton _) NoDup_nil_2) as Ho.
  rewrite Hw in Ho. autorewrite with len in Ho.
  assert (msg_watcher m ∈ calling s) as Hin.
  { unfold calling. rewrite Hc, fmap_cons. by left. }
  assert (1 + 0 + len (open_watchers s') = 0 + len (open_watchers s)) as Hopen.
  { apply Ho; [intros w ->%list_elem_of_singleton; by rewrite lookup_delete_eq|by intros w ?%elem_of_nil|].
    intros w. rewrite list_elem_of_singleton, elem_of_nil. destruct (decide (w = msg_watcher m)) as [->|Hne].
    - rewrite lookup_delete_eq, (calling_open s) by done. tauto.
    - rewrite lookup_delete_ne by done. intuition congruence. }
  rewrite (accepted_len s s' [] [m] (f_callers (p_front s'))).
  - unfold calling. rewrite Hc, fmap_cons. autorewrite with len. lia.
  - by apply calling_NoDup.
  - done.
  - intros m' Hm. by apply list_elem_of_fmap_2.
  - intros m' ->%list_elem_of_singleton. by rewrite Hw, lookup_delete_eq.
  - by intros m' ?%elem_of_nil.
Qed.

(** Watchers are resolved, by the resolver with a report, or by the rotator
    without one. *)
Lemma balance_resolve s s' ids err :
  ok s -> ok s' -> NoDup ids ->
  (forall w, w ∈ ids -> s_watchers (p_shared s) !! w = Some newDurabilityWatcher) ->
  resolveWatchers (s_watchers (p_shared s)) ids err = Ret (s_watchers (p_shared s')) ->
  f_callers (p_front s') = f_callers (p_front s) ->
  balance s s' (len ids - flushed_inputs s s').
Proof.
  intros Ok Ok' Hnd Hopen Hres Hc. unfold balance. rewrite !pending_of_open.
  destruct (resolveWatchers_open ids err (s_watchers (p_shared s)) Hnd) as (ws & Heq & Hws).
  { by apply Forall_forall. }
  rewrite Hres in Heq. injection Heq as <-.
  pose proof (open_moves s s' ids [] Ok Ok' Hnd NoDup_nil_2) as Ho. rewrite len_nil in Ho.
  assert (len ids + len (open_watchers s') = 0 + len (open_watchers s)) as Hlen.
  { apply Ho; [intros w Hw; by rewrite Hws, decide_True|by intros w ?%elem_of_nil|].
    intros w. rewrite Hws, elem_of_nil. destruct (decide (w ∈ ids)) as [Hin|Hin]; [|tauto].
    rewrite (Hopen w Hin). tauto. }
  rewrite (accepted_len s s' [] [] (f_callers (p_front s))).
  - unfold calling. rewrite Hc. autorewrite with len. lia.
  - by apply calling_NoDup.
  - done.
  - intros m' Hm. unfold calling. rewrite Hc. by apply list_elem_of_fmap_2.
  - by intros m' ?%elem_of_nil.
  - by intros m' ?%elem_of_nil.
Qed.

Definition accounted s s' : Prop :=
  exists drop, balance s s' drop /\ 0 <= drop /\ (s_shutdown (p_shared s) = false -> drop = 0).

Lemma accounted_accept s s' xs :
  ok s -> ok s' -> s_watchers (p_shared s') = s_watchers (p_shared s) ->
  f_callers (p_front s) ≡ₚ xs ++ f_callers (p_front s') -> flushed_between s s' = [] ->
  accounted s s'.
Proof. intros. exists 0. split; [by eapply balance_accept|lia]. Qed.

Lemma flushed_same s s' :
  b_resolver (p_back s') = b_resolver (p_back s) -> flushed_between s s' = [].
Proof. unfold flushed_between. intros ->. by destruct (b_resolver _). Qed.

Lemma append_accounted s s' :
  append_step config s s' -> ok s -> ok s' -> accounted s s'.
Proof.
  intros Hst Ok Ok'. pose proof (po_delivery _ _ _ _ Ok) as (_ & held & _ & F).
  destruct Hst; unpipe.
  - by apply (accounted_accept _ _ []); [..|apply flushed_same].
  - exists 0. split; [|lia]. eapply (balance_submit _ _ (newMessage call ms w)); try done;
      [|by apply flushed_same]. cbn. destruct (s_watchers sh !! w) eqn:E; [|done].
    destruct (fl_known _ _ _ _ _ _ _ _ _ F _ _ E) as [[? ?] _]. congruence.
  - by apply (accounted_accept _ _ []); [..|apply flushed_same].
  - by apply (accounted_accept _ _ []); [..|apply flushed_same].
  - apply (accounted_accept _ _ [m]); [done|done|done|unpipe; solve_Permutation|by apply flushed_same].
  - apply onMessage_spec in H0 as (_ & _ & _ & Hw & _).
    apply (accounted_accept _ _ [m]); [done|done|done|unpipe; solve_Permutation|by apply flushed_same].
  - exists 0. split; [|lia]. apply (balance_cancel _ _ m); try done; [|by apply flushed_same].
    unpipe. solve_Permutation.
Qed.

Lemma rotator_accounted s s' :
  rotator_step config s s' -> ok s -> ok s' -> accounted s s'.
Proof.
  intros Hst Ok Ok'. pose proof (po_delivery _ _ _ _ Ok) as (_ & held & Hr & F).
  destruct Hst; unpipe;
    try (by apply (accounted_accept _ _ []); [..|apply flushed_same]).
  - apply onMessage_spec in H0 as (_ & _ & _ & Hw & _).
    by apply (accounted_accept _ _ []); [..|apply flushed_same].
  - apply beginEmit_spec in H3 as (_ & _ & Hw & _).
    by apply (accounted_accept _ _ extra); [..|apply flushed_same].
  - apply beginEmit_spec in H0 as (_ & _ & Hw & _).
    by apply (accounted_accept _ _ []); [..|apply flushed_same].
  - apply beginEmit_spec in H as (_ & _ & Hw & _).
    by apply (accounted_accept _ _ []); [..|apply flushed_same].
  - match goal with |- accounted ?s ?s' => set (s1 := s) in *; set (s2 := s') in * end.
    assert (flushed_inputs s1 s2 = 0) as Hfl by (unfold flushed_inputs; by rewrite flushed_same).
    exists (len ids). injection H0 as <- <- <-. split; [|split; [apply len_nonneg|cbn; congruence]].
    replace (len _) with (len (acc_watchers (rot_batch r)) - flushed_inputs s1 s2) by lia.
    pose proof (fl_nodup _ _ _ _ _ _ _ _ _ F) as Hnd. rewrite !fmap_app in Hnd. unpipe.
    apply NoDup_app in Hnd as (Hnd & _ & _). apply NoDup_app in Hnd as (_ & _ & Hnd).
    apply NoDup_app in Hnd as (_ & _ & Hnd).
    rewrite <- (holds_watchers _ _ (ro_holds _ _ Hr)) in Hnd.
    apply (balance_resolve _ _ _ (Some (Sentinel ErrShutdown))); [done|done|done| | |done].
    + intros w Hw. apply F. rewrite (holds_watchers _ _ (ro_holds _ _ Hr)) in Hw. unpipe.
      rewrite !fmap_app, !elem_of_app. tauto.
    + unfold s1, s2. unpipe. destruct (send_ack_same ack (Some (Sentinel ErrShutdown))
        (on_watchers ws' (on_budget b' sh))) as (_ & -> & _). done.
Qed.

Lemma resolving_inputs s rs :
  desk_ok (desk_of s) -> b_resolver (p_back s) = ResResolve rs ->
  cargo_inputs (Resolving rs) = len (rs_watchers rs).
Proof.
  intros Hd Hrs. pose proof (dk_inputs _ Hd) as Hi. rewrite Forall_forall in Hi.
  apply (Hi (cargo_ack (Resolving rs), rs_watchers rs, cargo_inputs (Resolving rs))).
  unfold desk_of, tickets, cargos. cbn. rewrite Hrs, !bind_app, !elem_of_app. do 7 right. by left.
Qed.

Lemma resolver_accounted s s' :
  resolver_step s s' -> ok s -> ok s' -> desk_ok (desk_of s) -> accounted s s'.
Proof.
  intros Hst Ok Ok' Hd. pose proof (po_delivery _ _ _ _ Ok) as (_ & held & Hr & F).
  destruct Hst; [|by apply (accounted_accept _ _ [])].
  match goal with |- accounted ?s ?s' => set (s1 := s) in *; set (s2 := s') in * end.
  assert (cargo_inputs (Resolving rs) = len (rs_watchers rs)) as Hin by by apply (resolving_inputs s1).
  assert (flushed_inputs s1 s2 = len (rs_watchers rs)) as Hfl.
  { unfold flushed_inputs, flushed_between, s1, s2. cbn -[cargo_inputs].
    rewrite sumZ_cons, sumZ_nil. lia. }
  exists 0. split; [|lia].
  replace 0 with (len (rs_watchers rs) - flushed_inputs s1 s2) by lia.
  pose proof (fl_nodup _ _ _ _ _ _ _ _ _ F) as Hnd. apply NoDup_app in Hnd as (_ & _ & Hnd).
  assert (cargos (f_pc f) mid (Back c pc (ResResolve rs)) ≡ₚ
          Resolving rs :: cargos (f_pc f) mid (Back c pc ResRecv)) as Hp by cargo_perm.
  cbn in Hnd. rewrite Hp in Hnd. cbn in Hnd. apply NoDup_app in Hnd as (Hnd & _ & _).
  apply (balance_resolve _ _ _ (rs_err rs)); [done|done|done| | |done].
  - intros w Hw. apply F. cbn. rewrite Hp, !elem_of_app. right. cbn. apply elem_of_app. by left.
  - unfold s1, s2. unpipe. destruct (send_ack_same (ri_flushAck (resolveItem rs)) (ri_err (resolveItem rs))
      (on_watchers ws' sh)) as (_ & -> & _). exact H.
Qed.

Lemma step_accounted s s' :
  step z config runID range s s' -> ok s -> ok s' -> desk_ok (desk_of s) -> accounted s s'.
Proof.
  intros [H|H|H|H|H|H|H] Ok Ok' Hd; [by apply append_accounted|by apply rotator_accounted|..];
    try (by apply resolver_accounted);
    destruct H; by (apply (accounted_accept _ _ []); [..|first [done|by apply flushed_same]]).
Qed.
End Pending.

(** ** The gauge of pending inputs *)

Definition input_event (e : event) : Prop :=
  match e with OnAccepted | OnFlush _ _ _ => True | _ => False end.

#[export] Instance input_event_dec e : Decision (input_event e).
Proof. destruct e; cbn; apply _. Defined.

Lemma input_counts es :
  accepted_of (filter input_event es) = accepted_of es /\ flushed_of (filter input_event es) = flushed_of es.
Proof.
  induction es as [|e es [IH1 IH2]]; [done|]. rewrite filter_cons.
  destruct (decide (input_event e)) as [He|He]; unfold accepted_of, flushed_of in *.
  - rewrite !fmap_cons, !sumZ_cons. lia.
  - rewrite !fmap_cons, !sumZ_cons. destruct e; try (by destruct He); lia.
Qed.

Lemma pending_event t d e :
  counter_value pendingInputs (onEvent t (d, e)) =
    counter_value pendingInputs t + accepted_of [e] - flushed_of [e].
Proof.
  unfold counter_value. rewrite onEvent_recorded by (unfold counting; set_solver).
  rewrite sumZ_app. unfold accepted_of, flushed_of. destruct e; cbn; rewrite ?sumZ_cons, ?sumZ_nil; lia.
Qed.

(** Whatever events come, the up-down counter is the difference. *)
Lemma pending_counter des : forall t,
  counter_value pendingInputs (foldl onEvent t des) =
    counter_value pendingInputs t + accepted_of des.*2 - flushed_of des.*2.
Proof.
  induction des as [|[d e] des IH]; intros t; [unfold accepted_of, flushed_of; cbn; lia|].
  change (foldl onEvent t ((d, e) :: des)) with (foldl onEvent (onEvent t (d, e)) des).
  rewrite IH, pending_event, fmap_cons. change (((d, e).2) :: des.*2) with ([e] ++ des.*2).
  rewrite accepted_of_app, flushed_of_app. lia.
Qed.

Section Gauge.
Context {St : Type} {HO : ObjectStore St} {HC : StoreContents St} {HL : StoreLaws St}.
Context (z : zstd_lib) (config : ProducerConfig) (runID : string).
Context (range : readyMap -> list uploadCompletion) (Hrange : forall m, range m ≡ₚ values m).
Context (Hpath : forall k, objectAt config runID k <> ManifestPath config).
Implicit Types s : pipeline St.

Lemma step_shutdown_monotone s s' :
  step z config runID range s s' -> s_shutdown (p_shared s') = false -> s_shutdown (p_shared s) = false.
Proof.
  intros [H|H|H|H|H|H|H]; destruct H; unpipe; try done;
    repeat match goal with
    | H : onMessage _ _ _ _ _ = _ |- _ => apply onMessage_spec in H as (_ & _ & _ & _ & -> & _)
    | H : beginEmit _ _ _ _ = _ |- _ => apply beginEmit_spec in H as (_ & _ & _ & -> & _)
    | |- context [send_ack ?a ?e ?sh] => destruct (send_ack_same a e sh) as (_ & _ & -> & _); unpipe
    end; done.
Qed.

(** Only the resolver's own steps end its work on a batch. *)
Lemma step_resolving s s' rs :
  step z config runID range s s' -> b_resolver (p_back s) = ResResolve rs -> flushed_between s s' = [] ->
  b_resolver (p_back s') = ResResolve rs.
Proof.
  intros [H|H|H|H|H|H|H] Hrs; destruct H; unpipe; try done; unfold flushed_between; cbn; by rewrite ?Hrs.
Qed.

Lemma flushed_resolving s s' rs :
  flushed_between s s' = [rs] -> b_resolver (p_back s) = ResResolve rs.
Proof.
  unfold flushed_between. destruct (b_resolver (p_back s)), (b_resolver (p_back s')); by intros [= ->].
Qed.

(** The inputs that are reported as flushed and not resolved yet. *)
Definition reported_inputs (o : observed St) : Z :=
  match b_resolver (p_back (o_pipe o)) with
  | ResResolve rs => if o_reported o then cargo_inputs (Resolving rs) else 0
  | _ => 0
  end.

(** What the calls made so far can know of. *)
Definition announced (o : observed St) : Z :=
  pending_of (o_pipe o) - len (o_sent o) - reported_inputs o.

Lemma announced_still s : announced (Obs s [] false) = pending_of s.
Proof. unfold announced, reported_inputs. cbn. rewrite len_nil. destruct (b_resolver _); lia. Qed.

Definition report_ok (o : observed St) : Prop :=
  o_reported o = true -> exists rs, b_resolver (p_back (o_pipe o)) = ResResolve rs.

Lemma observe_announced o es o' :
  observe_step z config runID range o es o' -> report_ok o ->
  pipeline_ok z config runID (o_pipe o) -> desk_ok (desk_of (o_pipe o)) ->
  report_ok o' /\ exists drop, announced o' + drop = announced o + accepted_of es - flushed_of es /\
    0 <= drop /\ (s_shutdown (p_shared (o_pipe o)) = false -> drop = 0).
Proof.
  intros Hst Hrep Ok Hd. unfold announced, reported_inputs, accepted_of, flushed_of.
  destruct Hst as [s s' sent rep Hst Hf|s sent1 m sent2 rep|s sent rs Hrs|s s' sent rs Hst Hf]; cbn in *.
  - pose proof (step_pipeline z config runID range Hrange Hpath _ _ Hst Ok) as Ok'.
    destruct (step_accounted z config runID range _ _ Hst Ok Ok' Hd) as (drop & Hb & Hpos & Hz).
    unfold balance, flushed_inputs in Hb. rewrite Hf, fmap_nil, sumZ_nil in Hb. split.
    + intros Hr. destruct (Hrep Hr) as [rs Hrs]. exists rs. by eapply step_resolving.
    + exists drop. split; [|done]. rewrite len_app. destruct rep.
      * destruct (Hrep eq_refl) as [rs Hrs]. cbn in Hrs. rewrite (step_resolving _ _ _ Hst Hrs Hf), Hrs. lia.
      * destruct (b_resolver (p_back s)), (b_resolver (p_back s')); lia.
  - split; [exact Hrep|]. exists 0. rewrite !len_app, len_cons, !sumZ_cons, sumZ_nil. split; [|lia].
    destruct (b_resolver (p_back s)); lia.
  - split; [by exists rs|]. exists 0. rewrite Hrs, !sumZ_cons, sumZ_nil. split; [|lia]. cbn. lia.
  - pose proof (step_pipeline z config runID range Hrange Hpath _ _ Hst Ok) as Ok'.
    destruct (step_accounted z config runID range _ _ Hst Ok Ok' Hd) as (drop & Hb & Hpos & Hz).
    unfold balance, flushed_inputs in Hb. rewrite Hf, fmap_cons, fmap_nil, sumZ_cons, sumZ_nil in Hb.
    split; [done|]. exists drop. split; [|done]. rewrite len_app, (flushed_resolving _ _ _ Hf).
    rewrite !sumZ_nil. cbn [cargo_inputs] in Hb. destruct (b_resolver (p_back s')); lia.
Qed.

(** From a good state on, no input is counted as flushed that was not, and
    none goes unreported before the shutdown signal. *)
Lemma run_announced o0 es o :
  run z config runID range o0 es o -> report_ok o0 ->
  pipeline_ok z config runID (o_pipe o0) -> desk_ok (desk_of (o_pipe o0)) ->
  report_ok o /\ announced o <= announced o0 + accepted_of es - flushed_of es /\
  (s_shutdown (p_shared (o_pipe o)) = false ->
   announced o = announced o0 + accepted_of es - flushed_of es).
Proof.
  intros Hrun Hrep0 Ok0 Hd0.
  induction Hrun as [|es es' o o' Hrun IH Hst]; [unfold accepted_of, flushed_of; cbn; split_and!; [done|lia|lia]|].
  pose proof (run_steps _ _ _ _ _ _ _ Hrun) as Hr.
  pose proof (steps_pipeline z config runID range Hrange Hpath _ _ Hr Ok0) as Ok.
  destruct (steps_desk z config runID range Hrange Hpath _ _ Hr Ok0 Hd0) as [Hd _].
  destruct IH as (Hrep & IH1 & IH2).
  destruct (observe_announced _ _ _ Hst Hrep Ok Hd) as (Hrep' & drop & Hb & Hpos & Hz).
  rewrite accepted_of_app, flushed_of_app. split_and!; [done|lia|]. intros Hs.
  assert (s_shutdown (p_shared (o_pipe o)) = false) as Hs0.
  { destruct Hst; try done; by eapply step_shutdown_monotone. }
  specialize (Hz Hs0). specialize (IH2 Hs0). lia.
Qed.

(** The counter is what the input events of the run amount to. *)
Lemma counter_of_run es des t :
  filter input_event des.*2 = filter input_event es -> counter_value pendingInputs t = 0 ->
  counter_value pendingInputs (foldl onEvent t des) = accepted_of es - flushed_of es.
Proof.
  intros Hf Ht. destruct (input_counts es) as [Ha1 Hf1]. destruct (input_counts des.*2) as [Ha2 Hf2].
  rewrite pending_counter, Ht, <- Ha2, <- Hf2, Hf, Ha1, Hf1. lia.
Qed.

(** C14. What the gauge of pending inputs shows: along every run of the
    producer from its start, whatever other observer calls come in between,
    and until the shutdown signal, the counter is the number of inputs
    accepted and not resolved (in the channel, in the accumulator, in batches
    on their way), less those whose [AppendContext] has sent them and not yet
    called [OnAccepted], less those of the batch that the resolver has reported
    and not yet resolved. So it is exact whenever no call is between its send
    and its report; and after shutdown it is never below this number. *)
Theorem pending_inputs_exact st es o des t :
  run z config runID range (Obs (initial config st) [] false) es o ->
  filter input_event des.*2 = filter input_event es -> counter_value pendingInputs t = 0 ->
  let shown := counter_value pendingInputs (foldl onEvent t des) in
  pending_of (o_pipe o) - len (o_sent o) - reported_inputs o <= shown /\
  (s_shutdown (p_shared (o_pipe o)) = false ->
   shown = pending_of (o_pipe o) - len (o_sent o) - reported_inputs o /\
   (o_sent o = [] -> o_reported o = false -> shown = pending_of (o_pipe o))).
Proof.
  intros Hrun Hf Ht shown.
  destruct (run_announced _ _ _ Hrun) as (_ & Hle & Heq); [done| |by apply initial_desk|].
  { eapply reachable_pipeline; [done..|apply rtc_refl]. }
  unfold shown. rewrite (counter_of_run es des t Hf Ht).
  change (announced (Obs (initial config st) [] false)) with 0 in *. unfold announced in *.
  split; [lia|]. intros Hs. specialize (Heq Hs). split; [lia|]. intros Hsent Hrep.
  assert (reported_inputs o = 0) as Hz.
  { unfold reported_inputs. rewrite Hrep. by destruct (b_resolver _). }
  rewrite Hsent, len_nil, Hz in Heq. lia.
Qed.

(** Every state can be reached with no call having reported. *)
Lemma steps_unreported s0 s :
  rtc (step z config runID range) s0 s -> pipeline_ok z config runID s0 -> desk_ok (desk_of s0) ->
  exists es sent, run z config runID range (Obs s0 [] false) es (Obs s sent false) /\
    accepted_of es = 0 /\ 0 <= flushed_of es.
Proof.
  intros Hr Ok Hd. revert s Hr. apply rtc_ind_r.
  { exists [], []. split; [apply run_nil|]. done. }
  intros s1 s2 Hr Hst (es & sent & Hrun & Ha & Hf).
  destruct (steps_desk z config runID range Hrange Hpath _ _ Hr Ok Hd) as [Hd1 _].
  destruct (steps_late z config runID range s1 sent s2 Hst) as (es' & Hrun' & Hes').
  eexists (es ++ es'), _. split; [by eapply run_trans|]. rewrite accepted_of_app, flushed_of_app.
  destruct Hes' as [->|(rs & -> & Hrs)];
    [change (accepted_of []) with 0; change (flushed_of []) with 0; lia|].
  pose proof (resolving_inputs _ _ Hd1 Hrs) as Hin. cbn [cargo_inputs] in Hin.
  unfold accepted_of, flushed_of in *. cbn. rewrite !sumZ_cons, !sumZ_nil, Hin. len_pose. lia.
Qed.

(** C15. The gauge can be negative. Whenever the resolver has a batch in hand,
    there is a run to that state in which it reports the batch while the
    [AppendContext] calls of its inputs, which have sent them, have not got to
    their reports; the counter is then at most minus the number of the batch's
    inputs, all of which are still pending. *)
Theorem pending_inputs_negative st s rs :
  reachable z config runID range st s -> b_resolver (p_back s) = ResResolve rs ->
  exists es sent, run z config runID range (Obs (initial config st) [] false) es (Obs s sent true) /\
    len (rs_watchers rs) <= pending_of s /\
    forall des t, filter input_event des.*2 = filter input_event es -> counter_value pendingInputs t = 0 ->
      counter_value pendingInputs (foldl onEvent t des) <= - len (rs_watchers rs).
Proof.
  intros Hr Hrs. pose proof (reachable_desk z config runID range Hrange Hpath _ _ Hr) as Hd.
  destruct (steps_unreported _ _ Hr) as (es & sent & Hrun & Ha & Hf); [|by apply initial_desk|].
  { eapply reachable_pipeline; [done..|apply rtc_refl]. }
  pose proof (resolving_inputs _ _ Hd Hrs) as Hin. cbn [cargo_inputs] in Hin.
  exists (es ++ [flush_event rs]), sent. split_and!.
  - eapply run_step; [exact Hrun|by constructor].
  - unfold pending_of, batched, cargos. rewrite Hrs, !bind_app, !len_app. cbn. rewrite len_app.
    len_pose. lia.
  - intros des t Hdes Ht. rewrite (counter_of_run _ _ _ Hdes Ht), accepted_of_app, flushed_of_app.
    unfold accepted_of, flushed_of in *. cbn. rewrite !sumZ_cons, !sumZ_nil, Hin. lia.
Qed.
End Gauge.

(** ** Conflicts *)

Section Conflicts.
Context {W : Type} (cas : list enqueueItem -> W -> option (W * Z * option error)).
Context (range : readyMap -> list uploadCompletion) (config : ProducerConfig).

(** The two ways in which conflicts are reported, in one list of events. *)
Definition conflicts_agree (es : list event) : Prop :=
  (es ≫= event_values manifestConflictsPerWrite) = (es ≫= event_values manifestAppendCasRetries).

Lemma conflicts_agree_app es es' : conflicts_agree es -> conflicts_agree es' -> conflicts_agree (es ++ es').
Proof. unfold conflicts_agree. intros H1 H2. by rewrite !bind_app, H1, H2. Qed.

Lemma commitGroup_agree group w w' err es :
  commitGroup cas config group w = Some (w', err, es) -> conflicts_agree es.
Proof.
  unfold commitGroup. case_test; [|by intros [= <- <- <-]].
  destruct (cas _ w) as [[[w1 n] e]|]; cbn; [|done]. intros [= <- <- <-].
  unfold observe. by destruct (Observer config).
Qed.

Lemma drain_agree fuel : forall c w d,
  drain cas range config fuel c w = Some d -> conflicts_agree (dr_events d).
Proof.
  induction fuel as [|fuel IH]; intros c w d; cbn [drain]; [done|].
  destruct (collect _ _ _ _ _) as [[[nx rd] group] failed]. case_match; [by intros [= <-]|].
  destruct (commitGroup cas config group w) as [[[w1 err] es]|] eqn:E; cbn; [|done].
  apply commitGroup_agree in E. destruct err as [e|]; [destruct (negb (errors_Is e ErrShutdown))|].
  - unfold enterHalted. intros [= <-]. cbn. apply conflicts_agree_app; [done|].
    unfold observe. by repeat case_match.
  - destruct (drain _ _ _ fuel _ _) as [rest|] eqn:Er; cbn; [|done]. intros [= <-]. cbn.
    apply conflicts_agree_app; [done|by eapply IH].
  - destruct (drain _ _ _ fuel _ _) as [rest|] eqn:Er; cbn; [|done]. intros [= <-]. cbn.
    apply conflicts_agree_app; [done|by eapply IH].
Qed.

(** The two series of manifest conflicts agree: whatever a drain of the
    committer does, the histogram of conflicts per write and the histogram of
    the producer's retries receive the same values in the same order, and the
    counter of conflicts grows by their positive part. *)
Theorem conflict_metrics_agree fuel c w d des t :
  drain cas range config fuel c w = Some d -> des.*2 = dr_events d ->
  recorded manifestConflictsPerWrite t = recorded manifestAppendCasRetries t ->
  let t' := foldl onEvent t des in
  recorded manifestConflictsPerWrite t' = recorded manifestAppendCasRetries t' /\
  counter_value manifestConflictsTotal t' = counter_value manifestConflictsTotal t +
    sumZ (Z.max 0 <$> (dr_events d ≫= event_values manifestConflictsPerWrite)).
Proof.
  intros Hd Hes Ht t'. apply drain_agree in Hd. unfold t', counter_value.
  rewrite !telemetry_recorded, Hes, Ht by (unfold counting; set_solver). split; [by f_equal|].
  rewrite sumZ_app. f_equal. clear. induction (dr_events d) as [|e es IH]; [done|]. cbn.
  rewrite fmap_app, !sumZ_app, IH. f_equal. clear.
  destruct e; try done. cbn. case_test; rewrite ?sumZ_cons, ?sumZ_nil; lia.
Qed.
End Conflicts.

(** ** A batch dropped at shutdown *)

(** The default configuration with room for one batch. *)
Definition one_batch : ProducerConfig := {|
  DataPathPrefix := DefaultDataPathPrefix; ManifestPath := DefaultManifestPath;
  FlushInterval := DefaultFlushInterval; FlushSizeBytes := DefaultFlushSizeBytes;
  MaxBufferedInputs := DefaultMaxBufferedInputs; BatchCompression := CompressionNone;
  Observer := true; EncodeConcurrency := 1; UploadConcurrency := 1; MaxInFlightBatches := 1;
  MaxInFlightBytes := DefaultMaxInFlightBytes; ManifestAppendBatchSize := 1;
  UploadMaxAttempts := 6; UploadInitialBackoff := DefaultUploadInitialBackoff;
  ManifestMaxAttempts := 6; ManifestInitialBackoff := DefaultManifestInitialBackoff;
|}.

Lemma one_batch_paths k : objectAt one_batch "run" k <> ManifestPath one_batch.
Proof. unfold objectAt, batchLocation. cbn. discriminate. Qed.

(** A step that leaves the calls and the resolver alone. *)
Lemma quiet_run {St} {HO : ObjectStore St} {HC : StoreContents St} z config runID range (s s' : pipeline St) :
  step z config runID range s s' -> f_callers (p_front s') = f_callers (p_front s) ->
  b_resolver (p_back s') = b_resolver (p_back s) ->
  run z config runID range (Obs s [] false) [] (Obs s' [] false).
Proof.
  intros Hst Hc Hb. assert (accepted_between s s' = []) as Ha.
  { apply filter_none. intros m Hm [Hn _]. apply Hn. unfold calling. rewrite Hc. by apply list_elem_of_fmap_2. }
  pose proof (observe_quiet z config runID range s s' [] false Hst (flushed_same _ _ Hb)) as Ho.
  rewrite Ha in Ho. by apply run_one.
Qed.

(** Two inputs, the first in a batch on its way, the second waiting for the
    batch slot; then [Close] is called with a context that has ended. *)
Lemma waiting_trace e : exists s s1 s2,
  rtc (step stored one_batch "run" values) (initial one_batch NewInMemory) s /\
  s_shutdown (p_shared s) = false /\ pending_of s = 2 /\
  Close stored one_batch "run" values (Some e) false s s1 (Some e) /\
  run stored one_batch "run" values (Obs s [] false) [] (Obs s1 [] false) /\
  run stored one_batch "run" values (Obs s1 [] false) [] (Obs s2 [] false) /\ pending_of s2 = 1 /\
  decided (Some (Sentinel ErrShutdown)) 1%nat s2.
Proof.
  pose proof (rtc_refl (step stored one_batch "run" values) (initial one_batch NewInMemory)) as H.
  advance H @by_append ltac:(eapply (step_checked _ _ _ _ _ _ _ _ _ _ [string_bytes "ab"]
    (string_bytes "meta__")); computed).
  advance H @by_append ltac:(eapply (step_reserve _ [] _ [] _ _ _ _ _ _ _ _ 3 0%nat); [computed|computed]).
  advance H @by_append ltac:(eapply (step_handoff _ _ [] _ [] _ _ _ _ 7); [discriminate|computed]).
  advance H @by_rotator ltac:(eapply step_timer; [computed|computed]).
  advance H @by_rotator ltac:(eapply step_acquire; computed).
  advance H @by_rotator ltac:(eapply (step_emit _ _ _ _ _ _ _ _ _ _ _ 9); [computed|computed|computed]).
  advance H @by_rotator ltac:(eapply step_pending; computed).
  advance H @by_append ltac:(eapply (step_checked _ _ _ _ _ _ _ _ _ _ [string_bytes "cd"]
    (string_bytes "meta__")); computed).
  advance H @by_append ltac:(eapply (step_reserve _ [] _ [] _ _ _ _ _ _ _ _ 3 1%nat); [computed|computed]).
  advance H @by_append ltac:(eapply (step_handoff _ _ [] _ [] _ _ _ _ 7); [discriminate|computed]).
  advance H @by_rotator ltac:(eapply step_timer; [computed|computed]).
  advance H @by_rotator ltac:(eapply step_acquire_wait; computed).
  lazymatch type of H with rtc _ _ ?s => exists s, (close_shutdownCh (close_appendCh s)) end.
  eexists. split; [exact H|]. split; [computed|]. split; [computed|]. split.
  { eapply close_aborted; [done|by apply flush_cancelled; [apply rtc_refl|]|apply rtc_refl|done]. }
  split.
  { eapply (run_trans _ _ _ _ _ [] _ []).
    - eapply quiet_run; [eapply by_world, step_close|done|done].
    - eapply quiet_run; [eapply by_world, step_shutdown; computed|done|done]. }
  split.
  { unfold close_shutdownCh, close_appendCh. unpipe. eapply quiet_run;
      [eapply by_rotator, step_drop; [reflexivity|computed|computed|computed]|done|done]. }
  split; computed.
Qed.

(** C39. The gauge leaks at shutdown. When [Close] is called with a context
    that has ended while the rotator waits for a slot, the rotator drops its
    batch: it resolves the watchers and releases the bytes but reports no
    flush. There is a run with such a [Close], with every call reported, after
    which an input is decided with [ErrShutdown] and, whatever happens from
    then on, the gauge stays above what is pending and announced. *)
Theorem pending_inputs_leak e : exists es s0 s1 s,
  run stored one_batch "run" values (Obs (initial one_batch NewInMemory) [] false) es (Obs s0 [] false) /\
  Close stored one_batch "run" values (Some e) false s0 s1 (Some e) /\
  run stored one_batch "run" values (Obs s0 [] false) [] (Obs s1 [] false) /\
  run stored one_batch "run" values (Obs s1 [] false) [] (Obs s [] false) /\
  decided (Some (Sentinel ErrShutdown)) 1%nat s /\
  forall es' o des t, run stored one_batch "run" values (Obs s [] false) es' o ->
    filter input_event des.*2 = filter input_event (es ++ es') -> counter_value pendingInputs t = 0 ->
    pending_of (o_pipe o) - len (o_sent o) - reported_inputs o + 1 <=
      counter_value pendingInputs (foldl onEvent t des).
Proof.
  destruct (waiting_trace e) as (s & s1 & s2 & Hr & Hs & Hp & Hc & R1 & R2 & Hp2 & Hw).
  destruct (steps_run _ _ _ _ _ _ Hr) as [es Hrun]. exists es, s, s1, s2. split_and!; [done..|].
  pose proof (reachable_pipeline stored one_batch "run" values values_range one_batch_paths _ _ Hr) as Ok.
  pose proof (reachable_desk stored one_batch "run" values values_range one_batch_paths _ _ Hr) as Hd.
  pose proof (run_steps _ _ _ _ _ _ _ (run_trans _ _ _ _ _ _ _ _ _ R1 R2)) as H02. cbn in H02.
  pose proof (steps_pipeline stored one_batch "run" values values_range one_batch_paths _ _ H02 Ok) as Ok2.
  destruct (steps_desk stored one_batch "run" values values_range one_batch_paths _ _ H02 Ok Hd) as [Hd2 _].
  intros es' o des t Hrun' Hf Ht. rewrite (counter_of_run _ _ _ Hf Ht).
  destruct (run_announced stored one_batch "run" values values_range one_batch_paths _ _ _ Hrun)
    as (_ & _ & Heq); [done| |apply initial_desk|].
  { eapply reachable_pipeline; [apply values_range|apply one_batch_paths|apply rtc_refl]. }
  specialize (Heq Hs). change (announced (Obs (initial one_batch NewInMemory) [] false)) with 0 in Heq.
  destruct (run_announced stored one_batch "run" values values_range one_batch_paths _ _ _ Hrun')
    as (_ & Hle & _); [done..|].
  rewrite announced_still in Heq, Hle. rewrite accepted_of_app, flushed_of_app.
  unfold announced in Hle. lia.
Qed.

(** *** Witnesses *)

Definition fresh_telemetry : exporterTelemetry :=
  {| t_measurements := []; t_logger := []; t_producer := None;
     slowRequestThreshold := 5 * Second; slowFlushThreshold := 5 * Second |}.

Lemma pending_inputs_exact_witness : exists es (s : pipeline InMemory),
  run stored one_batch "run" values (Obs (initial one_batch NewInMemory) [] false) es (Obs s [] false) /\
  counter_value pendingInputs (foldl onEvent fresh_telemetry ((fun e => (0, e)) <$> es)) = 2.
Proof.
  destruct (waiting_trace (Sentinel ErrShutdown)) as (s & _ & _ & Hr & Hs & Hp & _).
  destruct (steps_run _ _ _ _ _ _ Hr) as [es Hrun]. exists es, s. split; [exact Hrun|].
  refine (eq_trans (proj2 (proj2 (pending_inputs_exact stored one_batch "run" values values_range one_batch_paths
    NewInMemory es (Obs s [] false) ((fun e => (0, e)) <$> es) fresh_telemetry Hrun _ eq_refl) Hs)
    eq_refl eq_refl) Hp).
  f_equal. rewrite <- list_fmap_compose. apply list_fmap_id.
Defined.

Lemma pending_inputs_negative_witness : exists es (o : observed InMemory),
  run stored DefaultProducerConfig "run" values (Obs (initial DefaultProducerConfig NewInMemory) [] false) es o /\
  counter_value pendingInputs (foldl onEvent fresh_telemetry ((fun e => (0, e)) <$> es)) <= -1.
Proof.
  destruct sample_trace as (s & _ & _ & _ & (Hr & rs & Hrv & _ & Hws) & _).
  destruct (pending_inputs_negative stored DefaultProducerConfig "run" values values_range sample_paths
    NewInMemory s rs Hr Hrv) as (es & sent & Hrun & _ & Hneg).
  exists es, (Obs s sent true). split; [exact Hrun|]. rewrite Hws in Hneg.
  apply (Hneg ((fun e => (0, e)) <$> es) fresh_telemetry); [|reflexivity].
  f_equal. rewrite <- list_fmap_compose. apply list_fmap_id.
Defined.

(** A manifest write that wins after two conflicts. *)
Definition contended_cas (items : list enqueueItem) (w : unit) : option (unit * Z * option error) :=
  Some (w, 2, None).

Definition ready_committer : committer :=
  with_ready 0 {[ 0 := sample_completion 0 None ]} newCommitter.

Lemma conflict_metrics_agree_witness : exists d,
  drain contended_cas values one_batch 2 ready_committer tt = Some d /\
  counter_value manifestConflictsTotal
    (foldl onEvent fresh_telemetry ((fun e => (0, e)) <$> dr_events d)) = 2.
Proof.
  eexists. split; [vm_compute; reflexivity|].
  refine (eq_trans (proj2 (conflict_metrics_agree contended_cas values one_batch 2 ready_committer tt _ _
    fresh_telemetry _ _ eq_refl)) _); vm_compute; reflexivity.
Defined.
