(* ===== verification/Exporter.v ===== *)
(** * The exporter ([src/exporter/opendataexporter/exporter.go])

    The exporter embeds a producer: [Start] builds it from the configuration,
    [Shutdown] takes it away and closes it, and the consumers marshal a request,
    append it as one entry under a fixed metadata header, and wait until it is
    durable. The producer is shared between the exporter and its telemetry:
    both hold a pointer, here an identifier in a table of producers.

    The marshalers and the logs they are given are code of the collector:
    parameters. *)

From S2P Require Import Prelude GoError Bytes Batch Manifest ObjStore Enqueuer Config Budget.
From S2P Require Import Watcher Accumulator Retry Committer Stages Pipeline PipelineInv Durability.
From S2P Require Import Progress Producer Desk Flush ExporterConfig Telemetry Observed.

Local Open Scope string_scope.
Local Open Scope list_scope.
Local Open Scope Z_scope.

Definition errExporterNotStarted : error := Foreign "opendata exporter not started".

(** ** Object *)

Section Exporter.
Context (Q : queue_lib).

Record openDataExporter := {
  e_config : ExporterConfig Q;
  e_signalType : Z;
  e_metadata : bytes;
  e_telemetry : exporterTelemetry;
  e_producer : option producer_id;
}.

Definition newOpenDataExporterForSignalWithTelemetry (meter : description -> option error)
    (cfg : ExporterConfig Q) (signalType : Z) : outcome openDataExporter :=
  if negb (signalType =? SignalTypeMetrics) && negb (signalType =? SignalTypeLogs)
  then Fail (errorf ("unsupported signal type " +:+ pretty signalType))
  else
    telemetry ← newExporterTelemetry Q meter cfg;
    Ret {| e_config := cfg; e_signalType := signalType;
           e_metadata := EncodeMetadata signalType PayloadEncodingOTLP;
           e_telemetry := telemetry; e_producer := None |}.

(** Without a meter provider, the instruments are those of the no-op meter,
    which accepts all. *)
Definition newOpenDataExporterForSignal (cfg : ExporterConfig Q) (signalType : Z)
    : outcome openDataExporter :=
  match newOpenDataExporterForSignalWithTelemetry (fun _ => None) cfg signalType with
  | Fail _ => Panic
  | r => r
  end.

Definition newOpenDataExporter (cfg : ExporterConfig Q) : outcome openDataExporter :=
  newOpenDataExporterForSignal cfg SignalTypeMetrics.

(** ** Factory ([factory.go]) *)

(** The options of [exporterhelper] that the factory uses. *)
Inductive helperOption :=
  | WithStart
  | WithShutdown
  | WithCapabilities (MutatesData : bool)
  | WithQueue (q : option (QueueBatchConfig Q))
  | WithTimeout (d : Z).

Definition Capabilities : bool := true.

(** [timeoutOptions]: a timeout only if one is configured. *)
Definition timeoutOptions (c : ExporterConfig Q) : list helperOption :=
  if 0 <? x_Timeout Q c then [WithTimeout (x_Timeout Q c)] else [].

(** [createMetricsExporter]: the exporter and the options it is wrapped with. *)
Definition createMetricsExporter (meter : description -> option error) (c : ExporterConfig Q)
    : outcome (openDataExporter * list helperOption) :=
  inner ← newOpenDataExporterForSignalWithTelemetry meter c SignalTypeMetrics;
  Ret (inner, [WithStart; WithShutdown; WithCapabilities Capabilities;
               WithQueue (x_SendingQueue Q c)] ++ timeoutOptions c).

(** ** Producers *)

Context {St : Type} {HO : ObjectStore St} {HC : StoreContents St}.

(** A producer: its configuration after defaulting, its run id, and the state
    of its pipeline. *)
Record producer := {
  pr_config : ProducerConfig;
  pr_runID : string;
  pr_pipeline : pipeline St;
}.

Record system := {
  sys_exporter : openDataExporter;
  sys_producers : gmap producer_id producer;
}.

Definition NewProducer (store : St) (config : ProducerConfig) (runID : string) : producer :=
  let config := withDefaults config in
  {| pr_config := config; pr_runID := runID; pr_pipeline := initial config store |}.

(** [newObjectStore]: loading the SDK's configuration may fail; [connect] makes
    the client, for an endpoint if one is given, and the store on a bucket. *)
Definition newObjectStore (LoadDefaultConfig : string -> option string)
    (connect : option string -> string -> St) (cfg : ObjectStoreConfig) : outcome St :=
  if bool_decide (Type_ cfg = objectStoreTypeS3) then
    match LoadDefaultConfig (Region cfg) with
    | Some msg => Fail (errorf ("load aws config: " +:+ msg))
    | None =>
        Ret (connect (if bool_decide (Endpoint cfg = "") then None else Some (Endpoint cfg)) (Bucket cfg))
    end
  else Fail (errorf ("unsupported object_store.type " +:+ Quote (Type_ cfg))).

(** ** Life cycle *)

Definition with_producer (p : option producer_id) (e : openDataExporter) : openDataExporter :=
  {| e_config := e_config e; e_signalType := e_signalType e; e_metadata := e_metadata e;
     e_telemetry := e_telemetry e; e_producer := p |}.
Definition with_telemetry (t : exporterTelemetry) (e : openDataExporter) : openDataExporter :=
  {| e_config := e_config e; e_signalType := e_signalType e; e_metadata := e_metadata e;
     e_telemetry := t; e_producer := e_producer e |}.

(** [Start]; [id] and [runID] are those of the producer it may create. *)
Definition Start (storeFactory : ObjectStoreConfig -> outcome St) (id : producer_id)
    (runID : string) (sys : system) : outcome system :=
  let e := sys_exporter sys in
  _ ← Validate Q (Some (e_config e));
  match e_producer e with
  | Some _ => Ret sys
  | None =>
      store ← storeFactory (x_ObjectStore Q (e_config e));
      compression ← compressionTypeFromString (x_Compression Q (e_config e));
      let p := NewProducer store (producerConfigOf Q (e_config e) compression) runID in
      let e := with_producer (Some id) e in
      let t := setProducer (Some id) (e_telemetry e) in
      let t := log Info "Starting OpenData exporter" t in
      Ret {| sys_exporter := with_telemetry t e; sys_producers := <[id := p]> (sys_producers sys) |}
  end.

(** [Shutdown] in its critical section: it takes the producer. *)
Definition Shutdown_take (sys : system) : system * option producer_id :=
  ({| sys_exporter := with_producer None (sys_exporter sys); sys_producers := sys_producers sys |},
   e_producer (sys_exporter sys)).

(** Then, if there was one: the telemetry lets go of it. [Close] follows. *)
Definition Shutdown_detach (sys : system) : system :=
  let e := sys_exporter sys in
  {| sys_exporter := with_telemetry (setProducer None (e_telemetry e)) e;
     sys_producers := sys_producers sys |}.

(** ** Requests *)

Context (z : zstd_lib) (range : readyMap -> list uploadCompletion).

(** The steps of a producer's pipeline. *)
Definition psteps (p : producer) : pipeline St -> pipeline St -> Prop :=
  rtc (step z (pr_config p) (pr_runID p) range).

(** A returned error as an outcome. *)
Definition returned (err : option error) : outcome unit :=
  match err with Some e => Fail e | None => Ret tt end.

(** [appendAndAwait], given the producer the exporter holds, in state [s0], and
    the telemetry: it returns in state [s], with the telemetry after the call,
    and its outcome. [d] is the time measured. *)
Inductive appendAndAwait (ctx : option error) (payload metadata : bytes)
    : option (producer * pipeline St) -> exporterTelemetry ->
      option (pipeline St) -> exporterTelemetry -> outcome unit -> Prop :=
  | await_not_started t :
      appendAndAwait ctx payload metadata None t None
        (recordFailure "start" errExporterNotStarted t) (Fail errExporterNotStarted)
  | await_enqueue_failed p s0 t s d e :
      Append z (pr_config p) (pr_runID p) range [payload] metadata s0 s (Fail e) ->
      appendAndAwait ctx payload metadata (Some (p, s0)) t (Some s)
        (recordFailure "enqueue" e (recordEnqueueWait d t)) (Fail e)
  | await_enqueue_panics p s0 t s :
      Append z (pr_config p) (pr_runID p) range [payload] metadata s0 s Panic ->
      appendAndAwait ctx payload metadata (Some (p, s0)) t (Some s) t Panic
  | await_done p s0 t s1 s d w dw r :
      Append z (pr_config p) (pr_runID p) range [payload] metadata s0 s1 (Ret w) ->
      psteps p s1 s -> s_watchers (p_shared s) !! w = Some dw -> AwaitDurable dw ctx r ->
      appendAndAwait ctx payload metadata (Some (p, s0)) t (Some s)
        (match r with
         | Some e => recordFailure "durable_wait" e (recordEnqueueWait d t)
         | None => recordEnqueueWait d t
         end) (returned r).

(** [ConsumeMetrics] and [ConsumeLogs] after their first lines, which differ:
    the payload or the marshaler's error, the append, and the time it took. *)
Inductive marshalAndAppend (ctx : option error) (metadata : bytes) (marshaled : bytes + error)
    : option (producer * pipeline St) -> exporterTelemetry ->
      option (pipeline St) -> exporterTelemetry -> outcome unit -> Prop :=
  | marshal_failed held t e :
      marshaled = inr e ->
      marshalAndAppend ctx metadata marshaled held t (snd <$> held) (recordFailure "marshal" e t)
        (Fail e)
  | marshal_done held t buf s t' d d' err :
      marshaled = inl buf ->
      appendAndAwait ctx buf metadata held (recordMarshal (len buf) d t) s t' (returned err) ->
      marshalAndAppend ctx metadata marshaled held t s (recordDurableWait d' err t') (returned err)
  | marshal_panics held t buf s t' d :
      marshaled = inl buf ->
      appendAndAwait ctx buf metadata held (recordMarshal (len buf) d t) s t' Panic ->
      marshalAndAppend ctx metadata marshaled held t s t' Panic.

Section Consume.
(** [pmetric.Metrics] with its counts and its marshaler. *)
Context (Metrics : Type) (MetricCount DataPointCount : Metrics -> Z)
        (MarshalMetrics : Metrics -> bytes + error).

Inductive ConsumeMetrics (ctx : option error) (e : openDataExporter) (md : Metrics)
    (held : option (producer * pipeline St))
    : option (pipeline St) -> exporterTelemetry -> outcome unit -> Prop :=
  | consume_metrics_wrong :
      e_signalType e <> SignalTypeMetrics ->
      ConsumeMetrics ctx e md held (snd <$> held) (e_telemetry e)
        (Fail (errorf ("ConsumeMetrics called on " +:+ signalLabel (e_signalType e) +:+ " exporter")))
  | consume_metrics s t r :
      e_signalType e = SignalTypeMetrics ->
      marshalAndAppend ctx (e_metadata e) (MarshalMetrics md) held
        (recordRequestStartMetrics (MetricCount md) (DataPointCount md) (e_telemetry e)) s t r ->
      ConsumeMetrics ctx e md held s t r.

(** [plog.Logs]: resources with their attributes, integer values apart, and the
    records below them. *)
Context (AttrValue Records : Type).

Record ResourceLogs := {
  rl_attributes : gmap string (Z + AttrValue);
  rl_records : Records;
}.

Definition Logs : Type := list ResourceLogs.

Context (LogRecordCount : Logs -> Z) (MarshalLogs : Logs -> bytes + error).

Definition gatewayReceivedAtAttrKey : string := "_odb_gateway_received_at".

Definition stampGatewayReceivedAt (ld : Logs) (stampUnixNano : Z) : Logs :=
  (fun rl => {| rl_attributes := <[gatewayReceivedAtAttrKey := inl stampUnixNano]> (rl_attributes rl);
                rl_records := rl_records rl |}) <$> ld.

Inductive ConsumeLogs (ctx : option error) (e : openDataExporter) (ld : Logs) (now : Z)
    (held : option (producer * pipeline St))
    : option (pipeline St) -> exporterTelemetry -> outcome unit -> Prop :=
  | consume_logs_wrong :
      e_signalType e <> SignalTypeLogs ->
      ConsumeLogs ctx e ld now held (snd <$> held) (e_telemetry e)
        (Fail (errorf ("ConsumeLogs called on " +:+ signalLabel (e_signalType e) +:+ " exporter")))
  | consume_logs s t r :
      e_signalType e = SignalTypeLogs ->
      marshalAndAppend ctx (e_metadata e) (MarshalLogs (stampGatewayReceivedAt ld now)) held
        (recordRequestStartLogs (LogRecordCount (stampGatewayReceivedAt ld now)) (e_telemetry e))
        s t r ->
      ConsumeLogs ctx e ld now held s t r.
End Consume.
End Exporter.

(** ** Lemmas *)

Section Requests.
Context (Q : queue_lib).
Context {St : Type} {HO : ObjectStore St} {HC : StoreContents St} {HL : StoreLaws St}.
Context (z : zstd_lib) (range : readyMap -> list uploadCompletion).
Context (Hrange : forall m, range m ≡ₚ values m).

(** A request that was answered with success is in the store. *)
Lemma appendAndAwait_durable `{!ZstdLaws z} ctx payload metadata p (s0 : pipeline St) t s t' st :
  (forall k, objectAt (pr_config p) (pr_runID p) k <> ManifestPath (pr_config p)) ->
  zstd_NewReader z = None -> reachable z (pr_config p) (pr_runID p) range st s0 ->
  appendAndAwait z range ctx payload metadata (Some (p, s0)) t s t' (Ret tt) ->
  exists s' m, s = Some s' /\ msg_entries m = [payload] /\ msg_metadata m = metadata /\
    (within_format (pr_config p) st (p_shared s') ->
     durably_stored z (pr_config p) (s_commits (p_shared s')) m).
Proof.
  intros Hpath Hz Hr Ha. inversion Ha as [| | |p' s0' t0 s1 s' d w dw r Happ Hst Hw Haw]; subst.
  destruct r as [e|]; [done|]. destruct (Append_accepted _ _ _ _ _ _ _ _ _ Happ) as (H01 & (m & Hm & He & Hmd) & _).
  exists s', m. split_and!; [done|done|done|]. intros Hfit. unfold psteps in Hst.
  eapply (await_success z (pr_config p) (pr_runID p) range Hrange Hpath); [done| |exact Hfit| |done|exact Haw].
  - unfold reachable in *. etrans; [exact Hr|]. by etrans.
  - by eapply steps_submitted.
Qed.
End Requests.

(** ** Properties *)

(** [Start], on every branch: a configuration that does not validate is
    refused with one of its violations; a started exporter is left as it is;
    otherwise the error of the store factory is returned, or a producer is
    created whose configuration is the operator's, unchanged by the producer's
    defaults, and both the exporter and its telemetry point to it. *)
Theorem Start_outcome Q {St} storeFactory id runID (sys : system Q (St := St)) :
  let c := e_config Q (sys_exporter Q sys) in
  match Start Q storeFactory id runID sys with
  | Fail err => violation Q c err \/
      usable Q c /\ e_producer Q (sys_exporter Q sys) = None /\
      storeFactory (x_ObjectStore Q c) = Fail err
  | Panic => storeFactory (x_ObjectStore Q c) = Panic
  | Ret sys' =>
      usable Q c /\
      match e_producer Q (sys_exporter Q sys) with
      | Some _ => sys' = sys
      | None => exists store compression p,
          storeFactory (x_ObjectStore Q c) = Ret store /\
          compressionTypeFromString (x_Compression Q c) = Ret compression /\
          sys_producers Q sys' = <[id := p]> (sys_producers Q sys) /\
          pr_config p = producerConfigOf Q c compression /\ limits_ok (pr_config p) /\
          pr_pipeline p = initial (pr_config p) store /\ pr_runID p = runID /\
          e_producer Q (sys_exporter Q sys') = Some id /\
          t_producer (e_telemetry Q (sys_exporter Q sys')) = Some id
      end
  end.
Proof.
  cbv zeta. unfold Start. set (c := e_config Q (sys_exporter Q sys)).
  pose proof (Validate_spec Q c) as Hv. destruct (Validate Q (Some c)) as [u|e|]; [|by left|done].
  cbn [mbind outcome_bind]. destruct (e_producer Q (sys_exporter Q sys)) as [old|] eqn:Ep; [done|].
  destruct (storeFactory _) as [store|e|] eqn:Es; [|right; done|done]. cbn [mbind outcome_bind].
  destruct (compression_usable Q c Hv) as (comp & Hc & _). rewrite Hc. cbn [mbind outcome_bind].
  pose proof (producerConfigOf_limits Q c comp Hv) as L.
  split; [done|]. exists store, comp, (NewProducer store (producerConfigOf Q c comp) runID).
  split_and!; try done; unfold NewProducer; cbn; by rewrite ?(withDefaults_id _ L).
Qed.

(** C11. A request the exporter acknowledges is durable: if [ConsumeMetrics]
    returns nil, the request was marshaled, and, as long as the manifest was one
    at the start and the entries the producer wrote were within the limits of
    its format, after one of the producer's manifest appends the store held a
    manifest entry that refers to a data object; the entry has a record with the
    exporter's metadata header, and that record's share of the object is the one
    marshaled payload. *)
Theorem ConsumeMetrics_durable Q {St} {HO : ObjectStore St} {HC : StoreContents St} {HL : StoreLaws St}
    z `{!ZstdLaws z} range Metrics MetricCount DataPointCount (MarshalMetrics : Metrics -> bytes + error)
    ctx e md p (s0 : pipeline St) s t st :
  (forall m, range m ≡ₚ values m) ->
  (forall k, objectAt (pr_config p) (pr_runID p) k <> ManifestPath (pr_config p)) ->
  zstd_NewReader z = None -> reachable z (pr_config p) (pr_runID p) range st s0 ->
  ConsumeMetrics Q z range Metrics MetricCount DataPointCount MarshalMetrics ctx e md (Some (p, s0))
    s t (Ret tt) ->
  exists buf s' m, MarshalMetrics md = inl buf /\ s = Some s' /\
    msg_entries m = [buf] /\ msg_metadata m = e_metadata Q e /\
    (within_format (pr_config p) st (p_shared s') ->
     durably_stored z (pr_config p) (s_commits (p_shared s')) m).
Proof.
  intros Hrange Hpath Hz Hr Hc. inversion Hc as [|s' t' r Hsig Hm]; subst.
  inversion Hm as [|held t0 buf s1 t1 d d' err Hbuf Ha|]; subst. destruct err as [?|]; [done|].
  destruct (appendAndAwait_durable z range Hrange _ _ _ _ _ _ _ _ st Hpath Hz Hr Ha)
    as (s' & m & ? & ? & ? & ?). by exists buf, s', m.
Qed.

(** The same for logs: what is durable is the marshaled form of the logs with
    the gateway's time stamp on every resource, and the stamp replaces an
    earlier one and nothing else. *)
Theorem ConsumeLogs_durable Q {St} {HO : ObjectStore St} {HC : StoreContents St} {HL : StoreLaws St}
    z `{!ZstdLaws z} range AttrValue Records LogRecordCount
    (MarshalLogs : Logs AttrValue Records -> bytes + error) ctx e ld now p (s0 : pipeline St) s t st :
  (forall m, range m ≡ₚ values m) ->
  (forall k, objectAt (pr_config p) (pr_runID p) k <> ManifestPath (pr_config p)) ->
  zstd_NewReader z = None -> reachable z (pr_config p) (pr_runID p) range st s0 ->
  ConsumeLogs Q z range AttrValue Records LogRecordCount MarshalLogs ctx e ld now (Some (p, s0))
    s t (Ret tt) ->
  exists stamped buf s' m, MarshalLogs stamped = inl buf /\ s = Some s' /\
    Forall2 (fun rl rl' : ResourceLogs AttrValue Records =>
      rl_attributes _ _ rl' !! gatewayReceivedAtAttrKey = Some (inl now) /\
      delete gatewayReceivedAtAttrKey (rl_attributes _ _ rl') =
        delete gatewayReceivedAtAttrKey (rl_attributes _ _ rl) /\
      rl_records _ _ rl' = rl_records _ _ rl) ld stamped /\
    msg_entries m = [buf] /\ msg_metadata m = e_metadata Q e /\
    (within_format (pr_config p) st (p_shared s') ->
     durably_stored z (pr_config p) (s_commits (p_shared s')) m).
Proof.
  intros Hrange Hpath Hz Hr Hc. inversion Hc as [|s' t' r Hsig Hm]; subst.
  inversion Hm as [|held t0 buf s1 t1 d d' err Hbuf Ha|]; subst. destruct err as [?|]; [done|].
  destruct (appendAndAwait_durable z range Hrange _ _ _ _ _ _ _ _ st Hpath Hz Hr Ha)
    as (s' & m & ? & ? & ? & ?).
  exists (stampGatewayReceivedAt _ _ ld now), buf, s', m. split_and!; try done.
  clear. induction ld as [|rl ld IH]; constructor; [|exact IH]. cbn.
  rewrite lookup_insert_eq, delete_insert_eq. done.
Qed.

(** The failures an outcome counts as. *)
Definition failures_of (r : outcome unit) : list Z := match r with Fail _ => [1] | _ => [] end.

Lemma appendAndAwait_counts {St} {HO : ObjectStore St} {HC : StoreContents St} z range ctx payload
    metadata held t (s : option (pipeline St)) t' r :
  appendAndAwait z range ctx payload metadata held t s t' r ->
  recorded requestFailuresTotal t' = recorded requestFailuresTotal t ++ failures_of r /\
  recorded requestsTotal t' = recorded requestsTotal t.
Proof.
  destruct 1 as [| | |? ? ? ? ? ? ? ? [e|]]; unfold recordFailure, recordEnqueueWait;
    rewrite ?recorded_log, ?recorded_record; cbn; by rewrite ?app_nil_r.
Qed.

Lemma recordDurableWait_counts d err t :
  recorded requestFailuresTotal (recordDurableWait d err t) = recorded requestFailuresTotal t /\
  recorded requestsTotal (recordDurableWait d err t) = recorded requestsTotal t.
Proof.
  unfold recordDurableWait. destruct err; [|case_match]; rewrite ?recorded_log, ?recorded_record; cbn;
    by rewrite ?app_nil_r.
Qed.

(** C22. Requests are counted: every request a metrics exporter handles counts as
    one request, and as one failure exactly when the call returns an error,
    whatever the stage at which it failed; a call on an exporter of another
    signal counts as neither and is refused. *)
Theorem ConsumeMetrics_counts Q {St} {HO : ObjectStore St} {HC : StoreContents St} z range Metrics
    MetricCount DataPointCount (MarshalMetrics : Metrics -> bytes + error) ctx e md held
    (s : option (pipeline St)) t r :
  ConsumeMetrics Q z range Metrics MetricCount DataPointCount MarshalMetrics ctx e md held s t r ->
  if decide (e_signalType Q e = SignalTypeMetrics) then
    recorded requestsTotal t = recorded requestsTotal (e_telemetry Q e) ++ [1] /\
    recorded requestFailuresTotal t = recorded requestFailuresTotal (e_telemetry Q e) ++ failures_of r
  else t = e_telemetry Q e /\ exists err, r = Fail err.
Proof.
  destruct 1 as [Hs|s t r Hs Hm]; [rewrite decide_False by done; eauto|]. rewrite decide_True by done.
  unfold recordRequestStartMetrics in Hm. inversion Hm as [held' t0 err Hb|? ? buf ? t' ? ? err Hb Ha|? ? buf ? t' ? Hb Ha];
    subst; try (apply appendAndAwait_counts in Ha as [Hf Hr]; unfold recordMarshal in *);
    try destruct (recordDurableWait_counts d' err t') as [-> ->];
    rewrite ?Hf, ?Hr; unfold recordFailure; rewrite ?recorded_log, ?recorded_record; cbn;
    by rewrite ?app_nil_r.
Qed.

(** The deadline of a request does not bound its enqueueing: the exporter
    appends without the request's context, so a call that returns the context's
    error had its payload accepted before; while the byte budget or the
    channel is full, a request waits past its deadline. *)
Theorem deadline_does_not_bound_enqueue {St} {HO : ObjectStore St} {HC : StoreContents St} z range e
    payload metadata p s0 t (s : option (pipeline St)) t' :
  e = CtxCanceled \/ e = CtxDeadlineExceeded ->
  appendAndAwait z range (Some (Sentinel e)) payload metadata (Some (p, s0)) t s t' (Fail (Sentinel e)) ->
  exists s' w m, s = Some s' /\ s_submitted (p_shared s') !! w = Some m /\
    msg_entries m = [payload] /\ msg_metadata m = metadata.
Proof.
  intros He Ha. inversion Ha as [|p' s0' t0 s1 d err Happ| |p' s0' t0 s1 s' d w dw r Happ Hst Hw Haw]; subst.
  - exfalso. inversion Happ as [? ? ? Hck|? ? ? ? ? ? ? ? ? [?|[_ ?]]|? ? ? ? ? ? ? ? ? ? ? [?|[_ ?]]| |];
      subst; try done; try (destruct He; congruence).
    unfold appendChecks in Hck. repeat case_test; simplify_eq. destruct He; congruence.
  - destruct (Append_accepted _ _ _ _ _ _ _ _ _ Happ) as (_ & (m & Hm & ? & ?) & _). exists s', w, m.
    split_and!; try done. by eapply steps_submitted.
Qed.

(** [Start] races with [Shutdown]: [Shutdown] clears the telemetry's pointer
    after it has left its critical section, so an exporter that is started
    again in between has a producer that its telemetry no longer observes. *)
Theorem restart_loses_gauge Q {St} storeFactory id id' runID (sys sys1 : system Q (St := St)) p :
  e_producer Q (sys_exporter Q sys) = Some p ->
  Start Q storeFactory id runID (Shutdown_take Q sys).1 = Ret sys1 ->
  Start Q storeFactory id' runID (Shutdown_detach Q sys1) = Ret (Shutdown_detach Q sys1) /\
  e_producer Q (sys_exporter Q (Shutdown_detach Q sys1)) = Some id /\
  is_Some (sys_producers Q (Shutdown_detach Q sys1) !! id) /\
  forall age, observeOldest age (e_telemetry Q (sys_exporter Q (Shutdown_detach Q sys1))) = None.
Proof.
  intros Hp Hst. unfold Start in Hst. cbn [Shutdown_take fst sys_exporter with_producer e_config e_producer] in Hst.
  destruct (Validate Q (Some (e_config Q (sys_exporter Q sys)))) as [u|e|] eqn:Hv; cbn [mbind outcome_bind] in Hst; try done.
  destruct (storeFactory _) as [store|e|]; cbn [mbind outcome_bind] in Hst; try done.
  destruct (compressionTypeFromString _) as [comp|e|]; cbn [mbind outcome_bind] in Hst; try done.
  injection Hst as <-. split_and!; [|done|cbn; by rewrite lookup_insert_eq|done].
  unfold Start. cbn -[Validate]. by rewrite Hv.
Qed.

(** *** Witnesses *)

Definition sample_producer : producer (St := InMemory) :=
  {| pr_config := DefaultProducerConfig; pr_runID := "run";
     pr_pipeline := initial DefaultProducerConfig NewInMemory |}.

Definition sample_exporter (signal : Z) : openDataExporter sample_queue := {|
  e_config := sample_exporter_config; e_signalType := signal; e_metadata := string_bytes "meta__";
  e_telemetry := fresh_telemetry; e_producer := Some 0%nat |}.

(** An append from the start on whose watcher reports success. *)
Lemma sample_append_awaited : exists s : pipeline InMemory,
  Append stored DefaultProducerConfig "run" values [string_bytes "ab"] (string_bytes "meta__")
    (initial DefaultProducerConfig NewInMemory) s (Ret 0%nat) /\
  s_watchers (p_shared s) !! 0%nat = Some {| result := None; done := true; ch_closed := true |} /\
  within_format DefaultProducerConfig NewInMemory (p_shared s).
Proof.
  destruct sample_trace as (_ & s & _ & _ & _ & (Hr & Hw & Hm & _ & _ & _ & Hwr) & _).
  exists s. split; [|split; [exact Hw|split; [exists empty_state; apply sample_manifest|]]].
  2: { rewrite Hwr. constructor; [exact sample_fits|constructor]. }
  apply (append_accepted _ _ _ _ _ _ _ _ (initial DefaultProducerConfig NewInMemory) s
    {| call_entries := [string_bytes "ab"]; call_metadata := string_bytes "meta__" |} 3 0%nat);
    [apply rtc_refl|reflexivity|reflexivity|exact Hr|exact Hm|by rewrite Hw|].
  intros Hin. pose proof (reachable_pipeline stored DefaultProducerConfig "run" values values_range
    sample_paths _ _ Hr) as Ok. rewrite (calling_open _ _ _ _ _ Ok Hin) in Hw. discriminate.
Qed.

Lemma sample_request (metadata := string_bytes "meta__") : exists s,
  appendAndAwait stored values None (string_bytes "ab") metadata
    (Some (sample_producer, initial DefaultProducerConfig NewInMemory))
    (recordMarshal 2 0 (recordRequestStartMetrics 1 1 fresh_telemetry)) (Some s)
    (recordEnqueueWait 0 (recordMarshal 2 0 (recordRequestStartMetrics 1 1 fresh_telemetry))) (Ret tt) /\
  within_format DefaultProducerConfig NewInMemory (p_shared s).
Proof.
  destruct sample_append_awaited as (s & Ha & Hw & Hfit). exists s. split; [|exact Hfit].
  exact (await_done stored values None (string_bytes "ab") metadata sample_producer _ _ s s 0 0%nat _ None
    Ha (rtc_refl _ _) Hw (await_ch {| result := None; done := true; ch_closed := true |} None eq_refl)).
Qed.

Lemma sample_consume : exists s, ConsumeMetrics sample_queue stored values unit (fun _ => 1) (fun _ => 1)
  (fun _ => inl (string_bytes "ab")) None (sample_exporter SignalTypeMetrics) tt
  (Some (sample_producer, initial DefaultProducerConfig NewInMemory)) (Some s)
  (recordDurableWait 0 None (recordEnqueueWait 0 (recordMarshal 2 0
     (recordRequestStartMetrics 1 1 fresh_telemetry)))) (Ret tt) /\
  within_format DefaultProducerConfig NewInMemory (p_shared s).
Proof.
  destruct sample_request as (s & Ha & Hfit). exists s. split; [|exact Hfit].
  apply consume_metrics; [reflexivity|].
  exact (marshal_done stored values None _ _ _ _ (string_bytes "ab") _ _ 0 0 None eq_refl Ha).
Qed.

Lemma ConsumeMetrics_durable_witness : exists s' m,
  msg_entries m = [string_bytes "ab"] /\ msg_metadata m = string_bytes "meta__" /\
  durably_stored stored DefaultProducerConfig (s_commits (p_shared (St := InMemory) s')) m.
Proof.
  destruct sample_consume as (s & Hc & Hfit).
  destruct (ConsumeMetrics_durable sample_queue stored values unit (fun _ => 1) (fun _ => 1)
    (fun _ => inl (string_bytes "ab")) None (sample_exporter SignalTypeMetrics) tt sample_producer _ _ _
    NewInMemory values_range sample_paths eq_refl (rtc_refl _ _) Hc) as (buf & s' & m & [= <-] & [= <-] & H1 & H2 & H3).
  exists s, m. split_and!; [exact H1|exact H2|exact (H3 Hfit)].
Defined.

Lemma ConsumeMetrics_counts_witness : exists s t, ConsumeMetrics sample_queue stored values unit
    (fun _ => 1) (fun _ => 1) (fun _ => inl (string_bytes "ab")) None (sample_exporter SignalTypeMetrics) tt
    (Some (sample_producer, initial DefaultProducerConfig NewInMemory)) s t (Ret tt) /\
  recorded requestsTotal t = [1] /\ recorded requestFailuresTotal t = [].
Proof.
  destruct sample_consume as (s & Hc & Hfit). do 2 eexists. split; [exact Hc|].
  exact (ConsumeMetrics_counts _ _ _ _ _ _ _ _ _ _ _ _ _ _ Hc).
Defined.

Lemma ConsumeLogs_durable_witness : exists s' m,
  msg_entries m = [string_bytes "ab"] /\ msg_metadata m = string_bytes "meta__" /\
  durably_stored stored DefaultProducerConfig (s_commits (p_shared (St := InMemory) s')) m.
Proof.
  destruct sample_append_awaited as (s & Ha & Hw & Hfit).
  pose (ld := [{| rl_attributes := (∅ : gmap string (Z + unit)); rl_records := tt |}]).
  assert (ConsumeLogs sample_queue stored values unit unit (fun _ => 1) (fun _ => inl (string_bytes "ab"))
    None (sample_exporter SignalTypeLogs) ld 5
    (Some (sample_producer, initial DefaultProducerConfig NewInMemory)) (Some s)
    (recordDurableWait 0 None (recordEnqueueWait 0 (recordMarshal 2 0
       (recordRequestStartLogs 1 fresh_telemetry)))) (Ret tt)) as Hc.
  { apply consume_logs; [reflexivity|].
    refine (marshal_done stored values None _ _ _ _ (string_bytes "ab") _ _ 0 0 None eq_refl _).
    exact (await_done stored values None (string_bytes "ab") (string_bytes "meta__") sample_producer _ _
      s s 0 0%nat _ None Ha (rtc_refl _ _) Hw (await_ch {| result := None; done := true; ch_closed := true |} None eq_refl)). }
  destruct (ConsumeLogs_durable sample_queue stored values unit unit (fun _ => 1)
    (fun _ => inl (string_bytes "ab")) None (sample_exporter SignalTypeLogs) ld 5 sample_producer _ _ _
    NewInMemory values_range sample_paths eq_refl (rtc_refl _ _) Hc)
    as (stamped & buf & s' & m & [= <-] & [= <-] & _ & H1 & H2 & H3).
  exists s, m. split_and!; [exact H1|exact H2|exact (H3 Hfit)].
Defined.

Lemma deadline_does_not_bound_enqueue_witness : exists (s : pipeline InMemory) w m,
  s_submitted (p_shared s) !! w = Some m /\ msg_entries m = [string_bytes "ab"].
Proof.
  destruct sample_append_awaited as (s & Ha & Hw & Hfit).
  destruct (deadline_does_not_bound_enqueue stored values CtxDeadlineExceeded (string_bytes "ab")
    (string_bytes "meta__") sample_producer (initial DefaultProducerConfig NewInMemory) fresh_telemetry
    (Some s) (recordFailure "durable_wait" (Sentinel CtxDeadlineExceeded) (recordEnqueueWait 0 fresh_telemetry))
    (or_intror eq_refl)) as (s' & w & m & _ & Hm & He & _).
  - exact (await_done stored values (Some (Sentinel CtxDeadlineExceeded)) (string_bytes "ab")
      (string_bytes "meta__") sample_producer _ _ s s 0 0%nat _ (Some (Sentinel CtxDeadlineExceeded))
      Ha (rtc_refl _ _) Hw (await_ctx _ _ _ eq_refl)).
  - exists s', w, m. split; [exact Hm|exact He].
Defined.

Lemma restart_loses_gauge_witness :
  let sys : system sample_queue (St := InMemory) :=
    {| sys_exporter := sample_exporter SignalTypeMetrics; sys_producers := {[0%nat := sample_producer]} |} in
  exists sys1, Start sample_queue (fun _ => Ret NewInMemory) 1%nat "run2" (Shutdown_take sample_queue sys).1
                 = Ret sys1 /\
    e_producer sample_queue (sys_exporter sample_queue (Shutdown_detach sample_queue sys1)) = Some 1%nat /\
    observeOldest (fun _ => 7)
      (e_telemetry sample_queue (sys_exporter sample_queue (Shutdown_detach sample_queue sys1))) = None.
Proof.
  cbv zeta. eexists. split; [reflexivity|].
  destruct (restart_loses_gauge sample_queue (fun _ => Ret NewInMemory) 1%nat 2%nat "run2"
    {| sys_exporter := sample_exporter SignalTypeMetrics; sys_producers := {[0%nat := sample_producer]} |}
    _ 0%nat eq_refl eq_refl) as (_ & H1 & _ & H2). split; [exact H1|apply H2].
Defined.
