(* ===== verification/Client.v ===== *)
(** * Programs that use a producer

    A program that calls [Append], [AwaitDurable], [Flush] and [Close] of one
    producer, as a computation on the producer's pipeline: a relation between
    the state it starts in, the state it ends in and its outcome, because the
    goroutines, the clock and the other processes at the store decide how it
    goes. Such computations form a monad, so that a program reads like its
    source; [triple] states what holds whenever one returns, with a rule per
    construct. The calls wrap an error as their callers do. *)

From S2P Require Import Prelude GoError Bytes Batch Manifest ObjStore Enqueuer Config Budget.
From S2P Require Import Watcher Accumulator Retry Committer Stages Pipeline PipelineInv Durability.
From S2P Require Import Progress Producer Desk Flush.

Local Open Scope Z_scope.

(** [fmt.Errorf("prefix: %w", err)]; no caller looks inside. *)
Definition wrapf (prefix : string) (err : error) : error :=
  Foreign (prefix +:+ ": " +:+ error_message err).

Definition wrapped {A} (prefix : string) (o : outcome A) : outcome A :=
  match o with Fail e => Fail (wrapf prefix e) | o => o end.

(** ** Computations *)

Section Monad.
Context (St : Type).

Definition act (A : Type) : Type := pipeline St -> pipeline St -> outcome A -> Prop.

Inductive act_bind_rel {A B} (k : A -> act B) (m : act A) (s : pipeline St) : pipeline St -> outcome B -> Prop :=
  | bind_ret s1 x s' r : m s s1 (Ret x) -> k x s1 s' r -> act_bind_rel k m s s' r
  | bind_fail s' e : m s s' (Fail e) -> act_bind_rel k m s s' (Fail e)
  | bind_panic s' : m s s' Panic -> act_bind_rel k m s s' Panic.

#[export] Instance act_bind : MBind act := fun A B k m => act_bind_rel k m.

(** A computation that does not touch the producer. *)
Definition pure {A} (o : outcome A) : act A := fun s s' r => s' = s /\ r = o.

(** A reading of the clock. *)
Definition clock : act Z := fun s s' r => s' = s /\ exists t, r = Ret t.

(** [for _, x := range l]: the body gets the state of the loop's variables. *)
Fixpoint loop {X A} (body : X -> A -> act A) (l : list X) (a : A) : act A :=
  match l with
  | [] => pure (Ret a)
  | x :: l => mbind (M := act) (fun a => loop body l a) (body x a)
  end.

(** What holds if the computation returns a value. *)
Definition triple {A} (P : pipeline St -> Prop) (m : act A) (Q : A -> pipeline St -> Prop) : Prop :=
  forall s s' r, P s -> m s s' r -> match r with Ret x => Q x s' | _ => True end.

Lemma triple_bind {A B} P (m : act A) R (k : A -> act B) Q :
  triple P m R -> (forall x, triple (R x) (k x) Q) -> triple P (mbind (M := act) k m) Q.
Proof.
  intros Hm Hk s s' r HP [s1 x s2 r' H1 H2|s2 e H1|s2 H1]; [|done|done].
  eapply Hk; [|exact H2]. exact (Hm _ _ _ HP H1).
Qed.

Lemma triple_pure {A} (P : pipeline St -> Prop) (o : outcome A) (Q : A -> pipeline St -> Prop) :
  (forall x s, o = Ret x -> P s -> Q x s) -> triple P (pure o) Q.
Proof. intros HQ s s' r HP [-> ->]. destruct o; [by apply HQ|done|done]. Qed.

Lemma triple_clock P (Q : Z -> pipeline St -> Prop) :
  (forall t s, P s -> Q t s) -> triple P clock Q.
Proof. intros HQ s s' r HP [-> [t ->]]. by apply HQ. Qed.

Lemma triple_weaken {A} (P P' : pipeline St -> Prop) (m : act A) (Q Q' : A -> pipeline St -> Prop) :
  (forall s, P' s -> P s) -> (forall x s, Q x s -> Q' x s) -> triple P m Q -> triple P' m Q'.
Proof. intros HP HQ H s s' r Hs Hm. specialize (H s s' r (HP s Hs) Hm). destruct r; auto. Qed.

(** A premise that does not speak of the state. *)
Lemma triple_pre {A} (phi : Prop) P (m : act A) Q : (phi -> triple P m Q) -> triple (fun s => P s /\ phi) m Q.
Proof. intros H s s' r [HP Hphi]. by apply H. Qed.

Lemma triple_bind_clock {B} P (k : Z -> act B) Q :
  (forall t, triple P (k t) Q) -> triple P (mbind (M := act) k clock) Q.
Proof. intros Hk. by eapply triple_bind; [apply (triple_clock P (fun _ => P))|]. Qed.

Lemma triple_bind_pure {A B} P (o : outcome A) (k : A -> act B) Q :
  (forall x, o = Ret x -> triple P (k x) Q) -> triple P (mbind (M := act) k (pure o)) Q.
Proof.
  intros Hk s s' r HP [s1 x s2 r' [-> Ho] H2|s2 e H1|s2 H1]; [|done|done].
  by eapply Hk.
Qed.

(** The invariant of a loop speaks of the elements done. *)
Lemma triple_loop_from {X A} (body : X -> A -> act A) (I : list X -> A -> pipeline St -> Prop) all l :
  forall before a, all = before ++ l ->
  (forall before x after a, all = before ++ x :: after -> triple (I before a) (body x a) (I (before ++ [x]))) ->
  triple (I before a) (loop body l a) (I all).
Proof.
  induction l as [|x l IH]; intros before a Hall Hb; cbn [loop].
  - apply triple_pure. intros a' s [= <-] H. by rewrite app_nil_r in Hall; subst all.
  - eapply triple_bind; [by eapply Hb|]. intros a'. cbn beta. apply IH; [|exact Hb].
    by rewrite <- (assoc_L (++)).
Qed.

Lemma triple_loop {X A} (body : X -> A -> act A) (I : list X -> A -> pipeline St -> Prop) l a :
  (forall before x after a, l = before ++ x :: after -> triple (I before a) (body x a) (I (before ++ [x]))) ->
  triple (I [] a) (loop body l a) (I l).
Proof. by apply triple_loop_from. Qed.
End Monad.
Arguments act : clear implicits.
Arguments pure {St A}.
Arguments clock {St}.
Arguments loop {St X A}.
Arguments triple {St A}.

(** ** Putting a run together *)

Section Runs.
Context {St : Type}.

Lemma run_bind {A B} (m : act St A) (k : A -> act St B) s s1 x s' r :
  m s s1 (Ret x) -> k x s1 s' r -> mbind (M := act St) k m s s' r.
Proof. apply bind_ret. Qed.

Lemma run_clock (s : pipeline St) t : clock s s (Ret t).
Proof. split; [done|by exists t]. Qed.

Lemma run_pure {A} (s : pipeline St) (o : outcome A) : pure o s s o.
Proof. done. Qed.

Lemma run_loop_one {X A} (body : X -> A -> act St A) x a a' s s' :
  body x a s s' (Ret a') -> loop body [x] a s s' (Ret a').
Proof. intros H. cbn [loop]. eapply run_bind; [exact H|done]. Qed.
End Runs.

(** Goes through a program: the clock shows 0, other steps are hypotheses. *)
Ltac perform :=
  lazymatch goal with
  | |- mbind _ clock _ _ _ => eapply run_bind; [apply (run_clock _ 0)|cbv beta iota zeta]
  | |- mbind _ (pure _) _ _ _ => eapply run_bind; [vm_compute; split; reflexivity|cbv beta iota zeta]
  | |- mbind _ (loop _ _ _) _ _ _ => eapply run_bind; [apply run_loop_one|cbv beta iota zeta]
  | |- mbind _ _ _ _ _ => eapply run_bind; [eassumption|cbv beta iota zeta]
  | |- pure _ _ _ _ => apply run_pure
  end.

(** ** Calls *)

Section Calls.
Context {St : Type} {HO : ObjectStore St} {HC : StoreContents St}.
Context (z : zstd_lib) (config : ProducerConfig) (runID : string).
Context (range : readyMap -> list uploadCompletion).

Definition call_Append (prefix : string) (entries : list bytes) (metadata : bytes) : act St watcher_id :=
  fun s s' r => exists r0, Append z config runID range entries metadata s s' r0 /\ r = wrapped prefix r0.

(** [w.AwaitDurable(context.Background())]. *)
Definition call_AwaitDurable (prefix : string) (w : watcher_id) : act St unit := fun s s' r =>
  exists dw e, rtc (step z config runID range) s s' /\ s_watchers (p_shared s') !! w = Some dw /\
    AwaitDurable dw None e /\ r = wrapped prefix (match e with Some e => Fail e | None => Ret tt end).

Definition call_Flush (prefix : string) : act St unit := fun s s' r =>
  exists e, Flush z config runID range None s s' e /\
    r = wrapped prefix (match e with Some e => Fail e | None => Ret tt end).

(** The program calls [Close] once. *)
Definition call_Close (prefix : string) : act St unit := fun s s' r =>
  exists e, Close z config runID range None false s s' e /\
    r = wrapped prefix (match e with Some e => Fail e | None => Ret tt end).
End Calls.

(** ** Their rules *)

Section Rules.
Context {St : Type} {HO : ObjectStore St} {HC : StoreContents St} {HL : StoreLaws St}.
Context (z : zstd_lib) `{!ZstdLaws z} (config : ProducerConfig) (runID : string).
Context (range : readyMap -> list uploadCompletion) (Hrange : forall m, range m ≡ₚ values m).
Context (Hpath : forall k, objectAt config runID k <> ManifestPath config).
Context (Hz : zstd_NewReader z = None).
Implicit Types (s : pipeline St) (P : pipeline St -> Prop).

Abbreviation steps := (rtc (step z config runID range)).

(** What the other goroutines cannot undo. *)
Definition stable P : Prop := forall s s', steps s s' -> P s -> P s'.

Definition accepted (w : watcher_id) (entries : list bytes) (metadata : bytes) s : Prop :=
  exists m, s_submitted (p_shared s) !! w = Some m /\ msg_entries m = entries /\ msg_metadata m = metadata.

Definition persisted (entries : list bytes) (metadata : bytes) s : Prop :=
  exists m, msg_entries m = entries /\ msg_metadata m = metadata /\
    durably_stored z config (s_commits (p_shared s)) m.

(** So it is as long as the manifest entries are within the format's limits. *)
Definition assured (st : St) (entries : list bytes) (metadata : bytes) s : Prop :=
  within_format config st (p_shared s) -> persisted entries metadata s.

(** Its caller has the watcher. *)
Definition entered (st : St) (w : watcher_id) s : Prop :=
  reachable z config runID range st s /\ is_Some (s_watchers (p_shared s) !! w) /\ w ∉ calling s.

Lemma stable_and P P' : stable P -> stable P' -> stable (fun s => P s /\ P' s).
Proof. unfold stable. naive_solver. Qed.

Lemma stable_Forall2 {X Y} (R : X -> Y -> pipeline St -> Prop) xs ys :
  (forall x y, stable (R x y)) -> stable (fun s => Forall2 (fun x y => R x y s) xs ys).
Proof. intros HR s s' Hst H. eapply Forall2_impl; [exact H|]. intros x y. by apply HR. Qed.

Lemma stable_Forall {X} (R : X -> pipeline St -> Prop) xs :
  (forall x, stable (R x)) -> stable (fun s => Forall (fun x => R x s) xs).
Proof. intros HR s s' Hst H. eapply Forall_impl; [exact H|]. intros x. by apply HR. Qed.

Lemma stable_reachable st : stable (reachable z config runID range st).
Proof. intros s s' Hst Hr. unfold reachable in *. by etrans. Qed.

Lemma stable_accepted w entries metadata : stable (accepted w entries metadata).
Proof. intros s s' Hst (m & Hm & ?). exists m. split; [by eapply steps_submitted|done]. Qed.

Lemma stable_persisted entries metadata : stable (persisted entries metadata).
Proof. intros s s' Hst (m & ? & ? & Hm). exists m. split_and!; [done..|by eapply steps_stored]. Qed.

Lemma stable_assured st entries metadata : stable (assured st entries metadata).
Proof.
  intros s s' Hst Hs Hfit. eapply stable_persisted; [exact Hst|].
  by eapply Hs, (steps_within_format z config runID range).
Qed.

Lemma stable_entered st w : stable (entered st w).
Proof.
  intros s s' Hst (Hr & Hw & Hc). split; [by eapply stable_reachable|].
  eapply (steps_accepted z config runID range); try done.
  by apply (reachable_pipeline _ _ _ _ Hrange Hpath _ _ Hr).
Qed.

(** Whoever entered before [Close] is decided when it returns. *)
Lemma triple_Close_decided P st prefix :
  stable P -> (forall s, P s -> reachable z config runID range st s) ->
  triple P (call_Close z config runID range prefix)
    (fun _ s => P s /\ (forall w, entered st w s -> exists err, decided err w s) /\
       batched s = [] /\ collected s = [] /\ batchesUsed (s_budget (p_shared s)) = 0).
Proof.
  intros HP Hr s s' r Hs (e & HC0 & ->). destruct e; [done|]. cbn.
  inversion HC0 as [|s1 s2 flushErr _ HF Hst _ _ _ _ Hd|]; subst; try done.
  assert (P s') as Hs'.
  { eapply HP; [|exact Hs]. etrans; [by eapply Flush_steps|]. eapply rtc_l; [apply close_step|done]. }
  split; [done|]. split; [|by eapply (done_is_empty z config runID range Hrange Hpath); [apply Hr|]].
  intros w (_ & Hw & Hc). by eapply (done_decides z config runID range Hrange Hpath); [apply Hr| | |].
Qed.

Lemma triple_Append P prefix entries metadata :
  stable P -> triple P (call_Append z config runID range prefix entries metadata)
                (fun w s => P s /\ accepted w entries metadata s).
Proof.
  intros HP s s' r Hs (r0 & Ha & ->). destruct r0 as [w|e|]; [|done|done]. cbn.
  destruct (Append_accepted _ _ _ _ _ _ _ _ _ Ha) as (Hst & Hm & _). split; [by eapply HP|done].
Qed.

Lemma triple_AwaitDurable P st prefix w entries metadata :
  stable P -> (forall s, P s -> reachable z config runID range st s) ->
  triple (fun s => P s /\ accepted w entries metadata s) (call_AwaitDurable z config runID range prefix w)
    (fun _ s => P s /\ assured st entries metadata s).
Proof.
  intros HP Hr s s' r [Hs Ha] (dw & e & Hst & Hw & Haw & ->). destruct e as [e|]; [done|]. cbn.
  split; [by eapply HP|]. intros Hfit.
  destruct (stable_accepted _ _ _ _ _ Hst Ha) as (m & Hm & ? & ?). exists m. split_and!; [done..|]. eapply (await_success z config runID range Hrange Hpath); try done.
  by apply Hr, (HP _ _ Hst).
Qed.

Lemma triple_Flush P prefix : stable P -> triple P (call_Flush z config runID range prefix) (fun _ => P).
Proof.
  intros HP s s' r Hs (e & HF & ->). destruct e; [done|]. cbn. eapply HP; [|done].
  by eapply Flush_steps.
Qed.

Lemma triple_Close P st prefix :
  stable P -> (forall s, P s -> reachable z config runID range st s) ->
  triple P (call_Close z config runID range prefix)
    (fun _ s => P s /\ batched s = [] /\ collected s = [] /\ batchesUsed (s_budget (p_shared s)) = 0).
Proof.
  intros HP Hr. eapply triple_weaken; [exact (fun s H => H)| |by apply triple_Close_decided].
  cbn beta. tauto.
Qed.
End Rules.
#[export] Hint Resolve stable_and stable_Forall2 stable_Forall stable_reachable stable_accepted
  stable_persisted stable_assured stable_entered : opendata.
