(* ===== verification/Float.v ===== *)
(** * Go's [float64]

    Binary floating-point numbers as the Standard Library specifies them
    ([SpecFloat]), at 53 bits of precision and exponents up to 1024: the
    operations the program uses, each rounded to the nearest number, ties to
    even. The lemmas say how far rounding can move a product of an integer and a
    fraction, which the percentiles of the benchmark depend on. *)

From S2P Require Import Prelude GoError Bytes.
From Stdlib Require Export SpecFloat.

Local Open Scope Z_scope.

Abbreviation float64 := spec_float.

Definition prec : Z := 53.
Definition emax : Z := 1024.

(** [float64(n)]. *)
Definition float_of (n : Z) : float64 := binary_normalize prec emax n 0 false.

Definition fadd : float64 -> float64 -> float64 := SFadd prec emax.
Definition fsub : float64 -> float64 -> float64 := SFsub prec emax.
Definition fmul : float64 -> float64 -> float64 := SFmul prec emax.
Definition fdiv : float64 -> float64 -> float64 := SFdiv prec emax.

(** The constant [p/q]: the number nearest to it. *)
Definition lit (p q : Z) : float64 := fdiv (float_of p) (float_of q).

Definition fzero : float64 := S754_zero false.

Definition isNaN (x : float64) : bool := match x with S754_nan => true | _ => false end.
Definition isFinite (x : float64) : bool :=
  match x with S754_zero _ | S754_finite _ _ _ => true | _ => false end.

(** [int(x)]: truncation towards zero. What Go makes of other values depends on
    the machine; here they give 0. *)
Definition int_of (x : float64) : Z :=
  match x with
  | S754_finite s m e =>
      let n := if 0 <=? e then Zpos m * 2 ^ e else Zpos m / 2 ^ (- e) in
      if s then - n else n
  | _ => 0
  end.

(** [time.Duration.Seconds] of a number of nanoseconds. *)
Definition Seconds (d : Z) : float64 :=
  fadd (float_of (Z.quot d 1000000000)) (fdiv (float_of (Z.rem d 1000000000)) (float_of 1000000000)).

#[export] Instance float64_eq_dec : EqDecision float64.
Proof. solve_decision. Defined.

(** ** Digits *)

Lemma digits2_pos_range m : 2 ^ (Zpos (digits2_pos m) - 1) <= Zpos m < 2 ^ Zpos (digits2_pos m).
Proof.
  induction m as [m IH|m IH|]; cbn [digits2_pos]; rewrite ?Pos2Z.inj_succ; [| |done];
    replace (Z.succ (Zpos (digits2_pos m)) - 1) with (Z.succ (Zpos (digits2_pos m) - 1)) by lia;
    rewrite !Z.pow_succ_r by lia; lia.
Qed.

Lemma digits2_pos_unique m k : 0 <= k -> 2 ^ k <= Zpos m < 2 ^ (k + 1) -> Zpos (digits2_pos m) = k + 1.
Proof.
  intros Hk Hm. pose proof (digits2_pos_range m) as Hd.
  assert (k < Zpos (digits2_pos m)) by (apply (Z.pow_lt_mono_r_iff 2); lia).
  assert (Zpos (digits2_pos m) - 1 < k + 1) by (apply (Z.pow_lt_mono_r_iff 2); lia). lia.
Qed.

(** ** Shifting with the bits that fall off *)

(** [mrs] is [m0] shifted by [k] bits: [shr_r] is the highest bit that fell off,
    [shr_s] whether a lower one was set. *)
Definition shifted (m0 k : Z) (mrs : shr_record) : Prop :=
  0 <= k /\ 0 <= m0 /\ shr_m mrs = m0 / 2 ^ k /\
  exists rest, 2 * (m0 mod 2 ^ k) = (if shr_r mrs then 2 ^ k else 0) + rest /\ 0 <= rest < 2 ^ k /\
    if shr_s mrs then 0 < rest else rest = 0.

Lemma shr_1_shifted m0 k mrs : shifted m0 k mrs -> shifted m0 (k + 1) (shr_1 mrs).
Proof.
  destruct mrs as [m r b]. intros (Hk & H0 & Hm & rest & Hrest & Hlt & Hb). cbn [shr_m shr_r shr_s] in *.
  assert (0 <= m) by (subst m; apply Z.div_pos; lia).
  assert (m0 / 2 ^ (k + 1) = m / 2) as Hdiv
    by (rewrite Z.pow_add_r, <- Z.div_div by lia; by subst m).
  assert (m0 mod 2 ^ (k + 1) = m0 mod 2 ^ k + 2 ^ k * (m mod 2)) as Hmod
    by (rewrite Z.pow_add_r by lia; rewrite Z.rem_mul_r by lia; by subst m).
  unfold shifted. assert (shr_m (shr_1 {| shr_m := m; shr_r := r; shr_s := b |}) = m / 2 /\
          shr_r (shr_1 {| shr_m := m; shr_r := r; shr_s := b |}) = Z.odd m /\
          shr_s (shr_1 {| shr_m := m; shr_r := r; shr_s := b |}) = r || b) as (-> & -> & ->).
  { destruct m as [|p|p]; [done| |lia]. destruct p as [p|p|]; cbn; split_and!; try done;
      rewrite <- ?Z.div2_div; done. }
  split_and!; [lia|done|done|]. rewrite Hmod, Z.pow_add_r, Zmod_odd by lia. exists (2 * (m0 mod 2 ^ k)).
  rewrite Hrest. destruct (Z.odd m), r, b; cbn [orb]; lia.
Qed.

Lemma iter_shifted m0 p : forall k mrs,
  shifted m0 k mrs -> shifted m0 (k + Zpos p) (iter_pos shr_1 p mrs).
Proof.
  induction p as [p IH|p IH|]; intros k mrs H; cbn [iter_pos].
  - replace (k + Zpos p~1) with (k + 1 + Zpos p + Zpos p) by lia. by apply IH, IH, shr_1_shifted.
  - replace (k + Zpos p~0) with (k + Zpos p + Zpos p) by lia. by apply IH, IH.
  - by apply shr_1_shifted.
Qed.

(** Rounding goes to the nearest. *)
Lemma round_shifted m0 k mrs :
  shifted m0 k mrs ->
  2 * Z.abs (round_nearest_even (shr_m mrs) (loc_of_shr_record mrs) * 2 ^ k - m0) <= 2 ^ k.
Proof.
  intros (Hk & H0 & Hm & rest & Hrest & Hlt & Hb). destruct mrs as [m r b]. cbn [shr_m shr_r shr_s] in *.
  pose proof (Z.div_mod m0 (2 ^ k) ltac:(lia)) as Hdm. rewrite <- Hm in Hdm.
  destruct r, b; cbn [loc_of_shr_record round_nearest_even]; try (destruct (Z.even m));
    rewrite Hdm; lia.
Qed.

(** ** Products *)

Lemma fexp_normal d : - 1021 <= d -> fexp prec emax d = d - 53.
Proof. unfold fexp, emin, prec, emax. lia. Qed.

Lemma shr_fexp_nothing m e :
  fexp prec emax (Zdigits2 m + e) <= e ->
  shr_fexp prec emax m e loc_Exact = ({| shr_m := m; shr_r := false; shr_s := false |}, e).
Proof. intros H. unfold shr_fexp, shr. destruct (fexp _ _ _ - e) eqn:E; [done|lia|done]. Qed.

Lemma shr_fexp_some m e s :
  0 < m -> fexp prec emax (Zdigits2 m + e) - e = s -> 0 < s ->
  exists mrs, shr_fexp prec emax m e loc_Exact = (mrs, e + s) /\ shifted m s mrs.
Proof.
  intros Hm Hs Hp. unfold shr_fexp, shr. rewrite Hs. destruct s as [|p|p]; [lia| |lia].
  eexists. split; [done|]. apply (iter_shifted m p 0). unfold shifted. cbn -[Z.mul Z.add].
  rewrite Z.div_1_r, Z.mod_1_r. split_and!; [lia|lia|done|]. exists 0. lia.
Qed.

Lemma round_normal M e D :
  Zdigits2 (Zpos M) = D -> 54 <= D -> - 1021 <= D + e -> D + e <= 1000 ->
  exists r m e', binary_round_aux prec emax false (Zpos M) e loc_Exact = S754_finite false m e' /\
    2 * Z.abs (r * 2 ^ (D - 53) - Zpos M) <= 2 ^ (D - 53) /\ 2 ^ 52 <= r <= 2 ^ 53 /\
    ((Zpos m = r /\ e' = D + e - 53) \/ (r = 2 ^ 53 /\ Zpos m = 2 ^ 52 /\ e' = D + e - 52)).
Proof.
  intros HD H1 H2 H3. cbn [Zdigits2] in HD. pose proof (digits2_pos_range M) as HM. rewrite HD in HM.
  unfold binary_round_aux.
  destruct (shr_fexp_some (Zpos M) e (D - 53)) as (mrs & -> & Hsh);
    [lia|cbn [Zdigits2]; rewrite fexp_normal; lia|lia|].
  pose proof (round_shifted _ _ _ Hsh) as Hnear.
  set (r := round_nearest_even _ _) in *. clearbody r.
  assert (2 ^ D = 2 ^ 53 * 2 ^ (D - 53)) as E1 by (rewrite <- Z.pow_add_r by lia; f_equal; lia).
  assert (2 ^ (D - 1) = 2 ^ 52 * 2 ^ (D - 53)) as E2 by (rewrite <- Z.pow_add_r by lia; f_equal; lia).
  assert (2 ^ 52 <= r).
  { enough (2 ^ 52 < r + 1) by lia. apply (Z.mul_lt_mono_pos_r (2 ^ (D - 53))); lia. }
  assert (r <= 2 ^ 53).
  { enough (r - 1 < 2 ^ 53) by lia. apply (Z.mul_lt_mono_pos_r (2 ^ (D - 53))); lia. }
  destruct (Z.eq_dec r (2 ^ 53)) as [Hr|Hr].
  - rewrite Hr. destruct (shr_fexp_some (2 ^ 53) (e + (D - 53)) 1) as (mrs' & Hs' & _ & _ & Hm' & _);
      [done|change (Zdigits2 (2 ^ 53)) with 54; rewrite fexp_normal; lia|lia|].
    rewrite Hs', Hm'. change (2 ^ 53 / 2 ^ 1) with (2 ^ 52).
    exists (2 ^ 53), 4503599627370496%positive, (D + e - 52).
    change (2 ^ 52) with (Zpos 4503599627370496). rewrite <- Hr.
    replace (e + (D - 53) + 1 <=? emax - prec) with true by (symmetry; apply Z.leb_le; unfold emax, prec; lia).
    split; [f_equal; lia|]. split; [done|]. split; [lia|]. right. split_and!; [lia|done|done].
  - destruct r as [|m|m] eqn:Er; try lia.
    assert (Zpos (digits2_pos m) = 53) as Hd by (apply (digits2_pos_unique m 52); lia).
    rewrite shr_fexp_nothing by (cbn [Zdigits2]; rewrite Hd, fexp_normal; lia). cbn [shr_m].
    replace (e + (D - 53) <=? emax - prec) with true by (symmetry; apply Z.leb_le; unfold emax, prec; lia).
    exists (Zpos m), m, (D + e - 53). split; [f_equal; lia|]. split; [done|]. split; [lia|]. left. split; [done|lia].
Qed.

(** An integer up to 53 bits is exact. *)
Lemma float_of_exact k :
  0 < k < 2 ^ 53 ->
  exists m e, float_of k = S754_finite false m e /\ Zpos m = k * 2 ^ (- e) /\ - 52 <= e <= 0 /\
    Zpos (digits2_pos m) = 53.
Proof.
  intros Hk. destruct k as [|p|p]; try lia. unfold float_of, binary_normalize, binary_round.
  pose proof (digits2_pos_range p) as Hp. set (d := Zpos (digits2_pos p)) in *.
  assert (d <= 53) by (enough (d - 1 < 53) by lia; apply (Z.pow_lt_mono_r_iff 2); lia).
  rewrite fexp_normal by lia. replace (d + 0 - 53) with (- (53 - d)) by lia.
  assert (exists m, shl_align p 0 (- (53 - d)) = (m, - (53 - d)) /\ Zpos m = Zpos p * 2 ^ (53 - d)) as (m & -> & Hm).
  { unfold shl_align. destruct (- (53 - d) - 0) as [|q|q] eqn:E; [|lia|].
    - exists p. replace (53 - d) with 0 by lia. split; [done|lia].
    - eexists. split; [done|]. replace (53 - d) with (Zpos q) by lia.
      clear. rewrite <- Pos2Z.inj_pow, <- Pos2Z.inj_mul. f_equal.
      induction q as [|q IH] using Pos.peano_ind; [cbn; lia|]. rewrite Pos.iter_succ, Pos.pow_succ_r. lia. }
  assert (Zpos (digits2_pos m) = 53) as Hd.
  { apply (digits2_pos_unique m 52); [lia|]. rewrite Hm.
    assert (2 ^ 53 = 2 ^ d * 2 ^ (53 - d)) by (rewrite <- Z.pow_add_r by lia; f_equal; lia).
    assert (2 ^ 52 = 2 ^ (d - 1) * 2 ^ (53 - d)) by (rewrite <- Z.pow_add_r by lia; f_equal; lia).
    change (52 + 1) with 53. nia. }
  unfold binary_round_aux. rewrite shr_fexp_nothing by (cbn [Zdigits2]; rewrite Hd, fexp_normal; lia).
  cbn [shr_m loc_of_shr_record round_nearest_even].
  rewrite shr_fexp_nothing by (cbn [Zdigits2]; rewrite Hd, fexp_normal; lia). cbn [shr_m].
  replace (- (53 - d) <=? emax - prec) with true by (symmetry; apply Z.leb_le; unfold emax, prec; lia).
  exists m, (- (53 - d)). split_and!; try done; try lia. rewrite Hm. f_equal. f_equal. lia.
Qed.

(** From a mantissa scaled by [A], with [S] its unit, to the number itself. *)
Lemma unscale_near A S M B Q r x :
  0 < A -> 0 < Q -> A * B = Q * S -> M = x * A -> 2 * Z.abs (r * S - M) <= S ->
  2 * Z.abs (r * B - x * Q) <= B.
Proof.
  intros HA HQ HAB -> Hn. apply (Z.mul_le_mono_pos_l _ _ A); [done|].
  replace (A * (2 * Z.abs (r * B - x * Q))) with (2 * Z.abs (A * (r * B - x * Q)))
    by (rewrite Z.abs_mul, (Z.abs_eq A) by lia; ring).
  replace (A * (r * B - x * Q)) with (Q * (r * S - x * A))
    by (transitivity (r * (A * B) - x * Q * A); [rewrite HAB|]; ring).
  rewrite Z.abs_mul, (Z.abs_eq Q), HAB by lia. nia.
Qed.

Lemma unscale_lt A S M B Q x c :
  0 < A -> 0 < Q -> A * B = Q * S -> M = x * A -> M < c * S -> x * Q < c * B.
Proof.
  intros HA HQ HAB -> Hn. apply (Z.mul_lt_mono_pos_l A); [done|].
  replace (A * (x * Q)) with (Q * (x * A)) by ring.
  replace (A * (c * B)) with (Q * (c * S)) by (transitivity (c * (A * B)); [rewrite HAB|]; ring).
  by apply Z.mul_lt_mono_pos_l.
Qed.

(** The product of an integer and a fraction at most 1, with [r] its rounded
    mantissa at [q] bits after the point. *)
Lemma product_rounded k f e g :
  0 < k < 2 ^ (53 - g) -> 0 < g < 53 -> Zpos (digits2_pos f) = 53 -> - 900 <= e < 0 ->
  Zpos f <= 2 ^ (- e) ->
  exists r q, g <= q /\ int_of (fmul (float_of k) (S754_finite false f e)) = r / 2 ^ q /\
    2 * Z.abs (r * 2 ^ (- e) - k * Zpos f * 2 ^ q) <= 2 ^ (- e) /\
    k * Zpos f * 2 ^ q < 2 ^ 53 * 2 ^ (- e).
Proof.
  intros Hk Hg Hf He Hle. assert (2 ^ (53 - g) < 2 ^ 53) by (apply Z.pow_lt_mono_r; lia).
  destruct (float_of_exact k) as (m & e1 & -> & Hm & He1 & Hdm); [lia|]. unfold fmul, SFmul. cbn [xorb].
  pose proof (digits2_pos_range m) as Rm. pose proof (digits2_pos_range f) as Rf. rewrite Hdm in Rm. rewrite Hf in Rf.
  change (53 - 1) with 52 in *. set (M := (m * f)%positive). set (D := Zdigits2 (Zpos M)).
  pose proof (digits2_pos_range M) as RM. change (Zpos (digits2_pos M)) with D in RM.
  assert (Zpos M = Zpos m * Zpos f) as HM by lia. assert (0 < D) by done.
  assert (Zdigits2 (Zpos M) = D) as HD by done. clearbody D. clearbody M.
  assert (104 < D) by (apply (Z.pow_lt_mono_r_iff 2); [lia..|]; change (2 ^ 104) with (2 ^ 52 * 2 ^ 52);
    apply Z.le_lt_trans with (Zpos M); [rewrite HM; apply Z.mul_le_mono_nonneg|]; lia).
  assert (D - 1 + e + e1 < 53 - g).
  { assert (2 ^ (D - 1) < 2 ^ (53 - g - e - e1));
      [|enough (D - 1 < 53 - g - e - e1) by lia; apply (Z.pow_lt_mono_r_iff 2); lia].
    replace (53 - g - e - e1) with (53 - g + - e1 + - e) by lia. rewrite !Z.pow_add_r by lia.
    apply Z.le_lt_trans with (Zpos M); [lia|]. rewrite HM, Hm.
    apply Z.lt_le_trans with (2 ^ (53 - g) * 2 ^ (- e1) * Zpos f); [|apply Z.mul_le_mono_nonneg_l; lia].
    apply Z.mul_lt_mono_pos_r; [lia|]. apply Z.mul_lt_mono_pos_r; lia. }
  destruct (round_normal M (e1 + e) D) as (r & m' & e' & -> & Hnear & Hr & Hres); [done|lia..|].
  set (q := 53 - D - e1 - e). exists r, q.
  assert (2 ^ (- e1) * 2 ^ (- e) = 2 ^ q * 2 ^ (D - 53)) as Hpow by (rewrite <- !Z.pow_add_r by lia; f_equal; lia).
  assert (2 ^ D = 2 ^ 53 * 2 ^ (D - 53)) by (rewrite <- Z.pow_add_r by lia; f_equal; lia).
  split_and!; [lia|..].
  - unfold int_of. destruct Hres as [[Hm' He']|(Hr' & Hm' & He')].
    + replace (0 <=? e') with false by (symmetry; apply Z.leb_gt; lia). rewrite Hm'. f_equal. f_equal. lia.
    + rewrite Hm', Hr'. replace (2 ^ 53) with (2 ^ 52 * 2) by done. replace q with (- e' + 1) by lia.
      rewrite Z.pow_add_r by lia. change (2 ^ 1) with 2. rewrite Z.div_mul_cancel_r by lia.
      destruct (Z.leb_spec 0 e') as [?|?]; [replace e' with 0 by lia; rewrite Z.div_1_r; lia|done].
  - apply (unscale_near (2 ^ (- e1)) (2 ^ (D - 53)) (Zpos M)); first [by rewrite HM, Hm; ring|lia].
  - apply (unscale_lt (2 ^ (- e1)) (2 ^ (D - 53)) (Zpos M)); first [by rewrite HM, Hm; ring|lia].
Qed.

(** When [f * 2^e] is close enough to [n / d], truncating the rounded product
    with an integer gives the exact quotient. *)
Lemma int_of_fraction k f e n d :
  0 <= k < 2 ^ 46 -> 0 < d < 2 ^ 7 -> 0 <= n ->
  Zpos (digits2_pos f) = 53 -> - 900 <= e < 0 -> Zpos f <= 2 ^ (- e) ->
  Z.abs (Zpos f * d - n * 2 ^ (- e)) * 2 ^ 54 <= d * Zpos f ->
  2 * 2 ^ 46 * Z.abs (Zpos f * d - n * 2 ^ (- e)) <= 2 ^ (- e) ->
  int_of (fmul (float_of k) (S754_finite false f e)) = n * k / d.
Proof.
  intros Hk Hd Hn Hf He Hle Herr1 Herr2. destruct (Z.eq_dec k 0) as [->|Hk0].
  { rewrite Z.mul_0_r. done. }
  destruct (product_rounded k f e 7) as (r & q & Hq & -> & Hnear & Hlt); [lia..|].
  assert (2 ^ 7 <= 2 ^ q) by (apply Z.pow_le_mono_r; lia).
  set (B := 2 ^ (- e)) in *. set (W := 2 ^ q) in *. assert (0 < B) by (subst B; lia). clearbody B W.
  set (err := Zpos f * d - n * B) in *.
  pose proof (Z.div_mod (n * k) d ltac:(lia)) as Hdm. pose proof (Z.mod_pos_bound (n * k) d ltac:(lia)) as Hrho.
  set (t := n * k / d) in *. set (rho := (n * k) mod d) in *.
  assert (k * W * Zpos f * d = t * W * (d * B) + rho * (W * B) + k * W * err) as Hprod.
  { transitivity (W * (k * (n * B + err))); [unfold err; ring|].
    transitivity (W * ((n * k) * B) + k * W * err); [ring|]. rewrite Hdm. ring. }
  assert (Z.abs (k * W * err) = k * W * Z.abs err) as Habs by (rewrite Z.abs_mul, Z.abs_eq; nia).
  assert (2 * Z.abs (k * W * err) < d * B) as Hsmall.
  { rewrite Habs. assert (k * W * (Z.abs err * 2 ^ 54) <= k * W * (d * Zpos f)) by (apply Z.mul_le_mono_nonneg_l; nia).
    assert (d * (k * Zpos f * W) < d * (2 ^ 53 * B)) by (apply Z.mul_lt_mono_pos_l; lia). lia. }
  assert (2 * Z.abs (k * W * err) <= W * B) as Htiny.
  { rewrite Habs. transitivity (W * (2 * 2 ^ 46 * Z.abs err)); [|apply Z.mul_le_mono_nonneg_l; lia].
    assert (W * Z.abs err * k <= W * Z.abs err * 2 ^ 46) by (apply Z.mul_le_mono_nonneg_l; nia). lia. }
  apply (Z.mul_le_mono_nonneg_l _ _ d) in Hnear; [|lia].
  assert (d * (2 * Z.abs (r * B - k * Zpos f * W)) = 2 * Z.abs (r * (d * B) - k * W * Zpos f * d)) as Hn2.
  { rewrite <- (Z.abs_eq d) at 1 by lia.
    transitivity (2 * (Z.abs d * Z.abs (r * B - k * Zpos f * W))); [ring|]. rewrite <- Z.abs_mul. f_equal. f_equal. ring. }
  rewrite Hn2, Hprod in Hnear. clear Hprod Hn2 Habs Herr1 Herr2 Hlt.
  symmetry. apply (Z.div_unique r W t (r - W * t)); [|lia]. left.
  assert (r < (t + 1) * W /\ t * W <= r); [|lia].
  assert (d * B < W * B) by (apply Z.mul_lt_mono_pos_r; lia).
  split; [apply Z.nle_gt|apply Z.nlt_ge]; intros Hc.
  - assert ((t + 1) * W * (d * B) <= r * (d * B)) by (apply Z.mul_le_mono_nonneg_r; nia).
    assert (rho * (W * B) <= (d - 1) * (W * B)) by (apply Z.mul_le_mono_nonneg_r; nia). lia.
  - assert (r * (d * B) <= (t * W - 1) * (d * B)) by (apply Z.mul_le_mono_nonneg_r; nia).
    destruct (Z.eq_dec rho 0) as [Hz|]; [rewrite Hz in *; lia|].
    assert (1 * (W * B) <= rho * (W * B)) by (apply Z.mul_le_mono_nonneg_r; nia). lia.
Qed.

(** The fractions the benchmark reports. *)
Definition fractions : list (Z * Z) := [(1, 10); (1, 2); (9, 10); (99, 100)].

Lemma rank_exact k n d :
  0 <= k < 2 ^ 46 -> (n, d) ∈ fractions -> int_of (fmul (float_of k) (lit n d)) = n * k / d.
Proof.
  intros Hk Hin. unfold fractions in Hin. rewrite !elem_of_cons, elem_of_nil in Hin.
  destruct Hin as [[= -> ->]|[[= -> ->]|[[= -> ->]|[[= -> ->]|[]]]]];
    match goal with |- context [lit ?a ?b] => let v := eval vm_compute in (lit a b) in change (lit a b) with v end;
    (apply int_of_fraction; [done|done|done|done|done|done|..]; apply (bool_decide_unpack _); vm_compute; exact I).
Qed.

(** ** No NaN from numbers that are not negative *)

Definition unsigned (x : float64) : Prop :=
  match x with
  | S754_zero b | S754_infinity b | S754_finite b _ _ => b = false
  | S754_nan => False
  end.

Lemma shr_nonneg mrs e n : 0 <= shr_m mrs -> 0 <= shr_m (shr mrs e n).1.
Proof.
  intros H. destruct n as [|p|p]; [done| |done]. cbn [shr fst].
  assert (forall r, 0 <= shr_m r -> 0 <= shr_m (shr_1 r)) as H1.
  { intros [m r b]; cbn. destruct m as [|[]|[]]; cbn; lia. }
  revert mrs H. induction p as [p IH|p IH|]; intros mrs H; cbn [iter_pos]; auto.
Qed.

Lemma round_aux_nonneg m e l : 0 <= m -> unsigned (binary_round_aux prec emax false m e l).
Proof.
  intros Hm. unfold binary_round_aux, shr_fexp.
  pose proof (shr_nonneg (shr_record_of_loc m l) e (fexp prec emax (Zdigits2 m + e) - e)) as H1.
  destruct (shr (shr_record_of_loc m l) e _) as [mrs e'].
  assert (0 <= shr_m mrs) as H2 by (apply H1; destruct l as [|[]]; done).
  set (r := round_nearest_even _ _). assert (0 <= r) as Hr.
  { unfold r. destruct (loc_of_shr_record mrs) as [|[]]; cbn [round_nearest_even]; try destruct (Z.even _); lia. }
  pose proof (shr_nonneg (shr_record_of_loc r loc_Exact) e' (fexp prec emax (Zdigits2 r + e') - e') Hr) as H3.
  destruct (shr (shr_record_of_loc r loc_Exact) e' _) as [mrs' e'']. cbn [fst] in H3.
  destruct (shr_m mrs') as [|p|p]; [done| |lia]. by destruct (_ <=? _).
Qed.

Lemma float_of_pos n : 0 < n < 2 ^ 900 -> exists m e, float_of n = S754_finite false m e.
Proof.
  intros Hn. destruct (Z_lt_ge_dec n (2 ^ 53)) as [Hlt|Hge].
  { destruct (float_of_exact n) as (m & e & -> & _); [lia|]. eauto. }
  destruct n as [|p|p]; try lia. unfold float_of, binary_normalize, binary_round.
  pose proof (digits2_pos_range p) as Hp. set (d := Zpos (digits2_pos p)) in *.
  assert (Zdigits2 (Zpos p) = d) as Hd by done. assert (0 < d) by done. clearbody d.
  assert (53 < d) by (apply (Z.pow_lt_mono_r_iff 2); lia).
  assert (d - 1 < 900) by (apply (Z.pow_lt_mono_r_iff 2); lia).
  rewrite fexp_normal by lia. unfold shl_align. destruct (d + 0 - 53 - 0) as [|q|q] eqn:E; [lia| |lia].
  destruct (round_normal p 0 d Hd) as (r & m & e & -> & _); [lia..|]. eauto.
Qed.

Lemma fdiv_unsigned m e m' e' : unsigned (fdiv (S754_finite false m e) (S754_finite false m' e')).
Proof.
  unfold fdiv, SFdiv, SFdiv_core_binary. cbn [xorb].
  set (n := match _ with Z0 => _ | Zpos _ => _ | Zneg _ => _ end).
  assert (0 <= n) as Hn.
  { unfold n. destruct (_ - _); [lia| |lia]. apply Z.shiftl_nonneg. lia. }
  pose proof (Z.div_pos n (Zpos m') Hn ltac:(lia)) as Hd. unfold Z.div in Hd.
  destruct (Z.div_eucl n (Zpos m')) as [q r]. by apply round_aux_nonneg.
Qed.

Lemma fmul_unsigned x m e : unsigned x -> unsigned (fmul x (S754_finite false m e)).
Proof.
  destruct x as [b|b| |b mx ex]; cbn [unsigned]; intros Hb; try done; subst b; try done.
  by apply round_aux_nonneg.
Qed.
