(* ===== verification/Stats.v ===== *)
(** * Statistics ([src/cmd/bench/main.go]: [aggregate], [median], [percentile];
    [src/buffer/manifest.go]: [conflictRate])

    Order statistics of samples of [float64], and the conflict rate. *)

From S2P Require Import Prelude GoError Bytes Batch Manifest ObjStore Enqueuer Float.
From stdpp Require Import sorting.

Local Open Scope Z_scope.

(** ** Order *)

(** [<] of [float64], and [sort.Float64Slice.Less], which puts NaN first. *)
Definition flt : float64 -> float64 -> bool := SFltb.
Definition float_less (x y : float64) : bool := flt x y || isNaN x && negb (isNaN y).
Definition fle (x y : float64) : Prop := float_less y x = false.

#[export] Instance fle_dec : RelDecision fle.
Proof. intros x y. unfold fle. apply _. Defined.

(** The order is that of triples: the class and sign, the exponent, the mantissa. *)
Definition rank (x : float64) : Z * Z * Z :=
  match x with
  | S754_nan => (-3, 0, 0)
  | S754_infinity true => (-2, 0, 0)
  | S754_finite true m e => (-1, - e, Zneg m)
  | S754_zero _ => (0, 0, 0)
  | S754_finite false m e => (1, e, Zpos m)
  | S754_infinity false => (2, 0, 0)
  end.

Definition rank_lt (a b : Z * Z * Z) : Prop :=
  a.1.1 < b.1.1 \/ a.1.1 = b.1.1 /\ (a.1.2 < b.1.2 \/ a.1.2 = b.1.2 /\ a.2 < b.2).

Lemma float_less_rank x y : float_less x y = true <-> rank_lt (rank x) (rank y).
Proof.
  unfold float_less, flt, SFltb, rank_lt, SFcompare.
  destruct x as [sx|sx| |sx mx ex], y as [sy|sy| |sy my ey]; try destruct sx; try destruct sy; cbn;
    try (split; [done||lia|done||lia]).
  all: destruct (Z.compare_spec ex ey); cbn; try (split; [done||lia|done||lia]).
  all: change (Pos.compare_cont Eq mx my) with (Pos.compare mx my);
    destruct (Pos.compare_spec mx my); cbn; split; try done; lia.
Qed.

Lemma fle_rank x y : fle x y <-> ~ rank_lt (rank y) (rank x).
Proof. unfold fle. rewrite <- float_less_rank. by destruct (float_less y x). Qed.

#[export] Instance fle_total : Total fle.
Proof. intros x y. rewrite !fle_rank. unfold rank_lt. lia. Qed.
#[export] Instance fle_transitive : Transitive fle.
Proof. intros x y w. rewrite !fle_rank. unfold rank_lt. lia. Qed.
#[export] Instance fle_reflexive : Reflexive fle.
Proof. intros x. rewrite fle_rank. unfold rank_lt. lia. Qed.

(** [sort.Float64s]. Two sorts of the same samples agree but for the order of
    the two zeros. *)
Definition Float64s (l : list float64) : list float64 := merge_sort fle l.

(** [s[i]]. *)
Definition index {A} (l : list A) (i : Z) : outcome A :=
  if i <? 0 then Panic else match l !! Z.to_nat i with Some x => Ret x | None => Panic end.

(** ** Statistics *)

Record scalarAgg := { Median : float64; P10 : float64; P90 : float64; N_ : Z }.

Definition quantile (s : list float64) (frac : float64) : outcome float64 :=
  index s (int_of (fmul (float_of (len s - 1)) frac)).

Definition aggregate (samples : list float64) : outcome scalarAgg :=
  if len samples =? 0 then Ret {| Median := fzero; P10 := fzero; P90 := fzero; N_ := 0 |}
  else
    let s := Float64s samples in
    m ← quantile s (lit 1 2);
    p10 ← quantile s (lit 1 10);
    p90 ← quantile s (lit 9 10);
    Ret {| Median := m; P10 := p10; P90 := p90; N_ := len s |}.

Definition median (samples : list float64) : outcome float64 :=
  if len samples =? 0 then Ret fzero
  else let s := Float64s samples in index s (len s `quot` 2).

Definition percentile (samples : list float64) (frac : float64) : outcome float64 :=
  if len samples =? 0 then Ret fzero
  else
    let s := Float64s samples in
    let idx := int_of (fmul (float_of (len s - 1)) frac) in
    index s idx.

(** [max]. *)
Definition fmax (a b : float64) : float64 := if flt b a then a else b.

Definition sumOf (s : list float64) : float64 := foldl fadd fzero s.

(** The conflict rate of the enqueuer, in percent. *)
Definition conflictRate (c : conflictCounter) : float64 :=
  let writes := writeCount c in
  if writes =? 0 then fzero
  else
    let conflicts := conflictCount c in
    let rate := fmul (fdiv (float_of conflicts) (float_of writes)) (float_of 100) in
    if flt (float_of 100) rate then float_of 100 else rate.

(** ** Order statistics *)

(** [x] is the element of rank [i], from 0, of [l]: enough samples are not above
    it, and enough not below. *)
Definition order_statistic (i : Z) (l : list float64) (x : float64) : Prop :=
  x ∈ l /\
  exists below above, l ≡ₚ below ++ x :: above /\ len below = i /\
    Forall (fun y => fle y x) below /\ Forall (fle x) above.

Lemma Float64s_perm l : Float64s l ≡ₚ l.
Proof. apply merge_sort_Permutation. Qed.

Lemma len_Float64s l : len (Float64s l) = len l.
Proof. by rewrite Float64s_perm. Qed.

Lemma StronglySorted_middle l k x :
  StronglySorted fle (l ++ x :: k) -> Forall (fun y => fle y x) l /\ Forall (fle x) k.
Proof.
  induction l as [|y l IH]; cbn; intros H; apply StronglySorted_inv in H as [Hs Hf]; [done|].
  destruct (IH Hs) as [Hl Hk]. split; [|done]. constructor; [|done].
  rewrite Forall_app, Forall_cons in Hf. tauto.
Qed.

Lemma index_sorted l i :
  0 <= i < len l -> exists x, index (Float64s l) i = Ret x /\ order_statistic i l x.
Proof.
  intros Hi. rewrite <- (len_Float64s l) in Hi. unfold index.
  replace (i <? 0) with false by (symmetry; apply Z.ltb_ge; lia).
  destruct (lookup_lt_is_Some_2 (Float64s l) (Z.to_nat i)) as [x Hx]; [unfold len in Hi; lia|].
  rewrite Hx. exists x. split; [done|]. pose proof (Float64s_perm l) as Hp.
  pose proof (StronglySorted_merge_sort fle l) as Hs. fold (Float64s l) in Hs.
  split; [rewrite <- Hp; by eapply list_elem_of_lookup_2|].
  pose proof (take_drop_middle _ _ _ Hx) as Hm. rewrite <- Hm in Hs, Hp.
  apply StronglySorted_middle in Hs as [Hb Ha]. eexists _, _. split_and!; [by symmetry|..|done|done].
  unfold len in *. rewrite length_take. lia.
Qed.

Lemma index_mono l i j x y :
  index (Float64s l) i = Ret x -> index (Float64s l) j = Ret y -> i <= j -> fle x y.
Proof.
  unfold index. intros Hx Hy Hij. destruct (Z.ltb_spec i 0); [done|]. destruct (Z.ltb_spec j 0); [done|].
  destruct (Float64s l !! Z.to_nat i) as [x'|] eqn:Ex; [|done].
  destruct (Float64s l !! Z.to_nat j) as [y'|] eqn:Ey; [|done]. simplify_eq.
  destruct (decide (i = j)) as [->|Hne]; [by simplify_eq|].
  pose proof (StronglySorted_merge_sort fle l) as Hs. fold (Float64s l) in Hs.
  rewrite <- (take_drop_middle _ _ _ Ex) in Hs. apply StronglySorted_middle in Hs as [_ Ha].
  rewrite Forall_lookup in Ha. apply (Ha (Z.to_nat j - S (Z.to_nat i))%nat).
  rewrite lookup_drop, <- Ey. f_equal. lia.
Qed.

(** What the quotients of the ranks are good for. *)
Lemma rank_range k n d : 0 <= k -> (n, d) ∈ fractions -> 0 <= n * k / d <= k.
Proof.
  intros Hk Hin. assert (0 <= n <= d /\ 0 < d) as [? ?].
  { unfold fractions in Hin. rewrite !elem_of_cons, elem_of_nil in Hin. naive_solver lia. }
  split; [apply Z.div_pos; nia|]. apply Z.div_le_upper_bound; nia.
Qed.

Lemma quantile_exact l n d :
  l <> [] -> len l <= 2 ^ 46 -> (n, d) ∈ fractions ->
  quantile (Float64s l) (lit n d) = index (Float64s l) (n * (len l - 1) / d) /\
  exists x, quantile (Float64s l) (lit n d) = Ret x /\ order_statistic (n * (len l - 1) / d) l x.
Proof.
  intros Hl Hlen Hin. assert (0 < len l) by (destruct l; [done|autorewrite with len; pose proof (len_nonneg l); lia]).
  unfold quantile. rewrite len_Float64s, rank_exact by (done || lia). split; [done|]. apply index_sorted.
  pose proof (rank_range (len l - 1) n d ltac:(lia) Hin). lia.
Qed.

(** C29. The reported quantiles are exact order statistics: up to 2^46 samples,
    no index is out of range and rounding never moves one: the percentile at
    [n/d] of [l] is the sample of rank [n * (len l - 1) / d], the median the one
    of rank [len l / 2]; the aggregate's median, 10th and 90th percentile are
    those of rank [(len l - 1) / 2], [(len l - 1) / 10] and [9 (len l - 1) / 10],
    in order, and it counts the samples. *)
Theorem quantiles_exact l :
  l <> [] -> len l <= 2 ^ 46 ->
  (forall n d, (n, d) ∈ fractions -> exists x, percentile l (lit n d) = Ret x /\
     order_statistic (n * (len l - 1) / d) l x) /\
  (exists x, median l = Ret x /\ order_statistic (len l / 2) l x) /\
  exists a, aggregate l = Ret a /\ N_ a = len l /\ fle (P10 a) (Median a) /\ fle (Median a) (P90 a) /\
    order_statistic ((len l - 1) / 2) l (Median a) /\
    order_statistic ((len l - 1) / 10) l (P10 a) /\ order_statistic (9 * (len l - 1) / 10) l (P90 a).
Proof.
  intros Hl Hlen. assert (0 < len l) by (destruct l; [done|autorewrite with len; pose proof (len_nonneg l); lia]).
  unfold percentile, median, aggregate. replace (len l =? 0) with false by (symmetry; apply Z.eqb_neq; lia).
  split_and!.
  - intros n d Hin. apply (quantile_exact l n d Hl Hlen Hin).
  - rewrite len_Float64s, Z.quot_div_nonneg by lia. apply index_sorted.
    pose proof (Z.div_lt (len l) 2). pose proof (Z.div_pos (len l) 2). lia.
  - destruct (quantile_exact l 1 2 Hl Hlen) as (E1 & m & Hm & Om); [set_solver|].
    destruct (quantile_exact l 1 10 Hl Hlen) as (E2 & p & Hp & Op); [set_solver|].
    destruct (quantile_exact l 9 10 Hl Hlen) as (E3 & q & Hq & Oq); [set_solver|].
    rewrite Hm, Hp, Hq. eexists. split; [reflexivity|]. cbn [Median P10 P90 N_].
    rewrite E1 in Hm. rewrite E2 in Hp. rewrite E3 in Hq. rewrite Z.mul_1_l in *.
    split_and!; [apply len_Float64s|..|exact Om|exact Op|exact Oq];
      eapply index_mono; try eassumption; Z.to_euclidean_division_equations; lia.
Qed.

(** The benchmark has two medians, which differ on two samples. *)
Lemma medians_differ :
  let l := [float_of 1; float_of 2] in
  median l = Ret (float_of 2) /\ exists a, aggregate l = Ret a /\ Median a = float_of 1.
Proof. split; [reflexivity|]. eexists. split; [vm_compute; reflexivity|reflexivity]. Qed.

Lemma quantiles_exact_witness :
  let l := [float_of 3; lit 1 2; float_of 2] in
  percentile l (lit 99 100) = Ret (float_of 2) /\ exists x, median l = Ret x /\ order_statistic (3 / 2) l x.
Proof.
  split; [vm_compute; reflexivity|].
  exact (proj1 (proj2 (quantiles_exact [float_of 3; lit 1 2; float_of 2] ltac:(discriminate)
    ltac:(vm_compute; discriminate)))).
Defined.

(** ** The conflict rate *)

(** C30. The conflict rate is a percentage: for all values of the two counters it
    is a number, neither NaN nor infinite nor negative, and at most 100; it is 0
    when there was no conflict. *)
Theorem conflictRate_percentage c :
  is_uint64 (writeCount c) -> is_uint64 (conflictCount c) ->
  isFinite (conflictRate c) = true /\ fle fzero (conflictRate c) /\ fle (conflictRate c) (float_of 100) /\
  (conflictCount c = 0 -> conflictRate c = fzero).
Proof.
  intros Hw Hc. unfold is_uint64, MaxUint64 in *. unfold conflictRate.
  destruct (Z.eqb_spec (writeCount c) 0) as [|Hne]; [done|].
  destruct (float_of_pos (writeCount c)) as (mw & ew & ->); [lia|].
  destruct (float_of_pos 100) as (m1 & e1 & H100); [lia|].
  destruct (Z.eq_dec (conflictCount c) 0) as [->|Hc0]; [by vm_compute|].
  destruct (float_of_pos (conflictCount c)) as (mc & ec & ->); [lia|].
  assert (unsigned (fmul (fdiv (S754_finite false mc ec) (S754_finite false mw ew)) (float_of 100))) as Hu
    by (rewrite H100; apply fmul_unsigned, fdiv_unsigned).
  destruct (flt (float_of 100) _) eqn:E; [by vm_compute|]. set (r := fmul _ _) in *. clearbody r.
  split_and!; [|..|done].
  - destruct r as [b|b| |b mr er]; try done. cbn in Hu. subst b. by vm_compute in E.
  - destruct r as [b|b| |b mr er]; cbn in Hu; try done; by subst b.
  - unfold fle, float_less. rewrite E. by destruct r.
Qed.

Lemma conflictRate_percentage_witness :
  let c := {| writeCount := 8; conflictCount := 3 |} in
  conflictRate c = lit 75 2 /\ fle (conflictRate c) (float_of 100).
Proof.
  split; [vm_compute; reflexivity|].
  exact (proj1 (proj2 (proj2 (conflictRate_percentage {| writeCount := 8; conflictCount := 3 |}
    ltac:(vm_compute; split; discriminate) ltac:(vm_compute; split; discriminate))))).
Defined.
