(* ===== verification/Bench.v ===== *)
(** * The benchmark's iterations ([src/cmd/bench/main.go])

    The flags, the workload, and one iteration of either mode as a program on a
    producer over an in-memory store. Readings of the clock are what they are;
    the generator of [math/rand] is a parameter. *)

From S2P Require Import Prelude GoError Bytes Batch Manifest ObjStore Enqueuer Config Budget.
From S2P Require Import Watcher Accumulator Retry Committer Stages Pipeline PipelineInv Durability.
From S2P Require Import Progress Producer Desk Flush Client Float Stats.
From stdpp Require Import list_numbers.

Local Open Scope string_scope.
Local Open Scope list_scope.
Local Open Scope Z_scope.

(** ** Flags *)

Record args := {
  mode : string;
  recordsPerBatch : Z;
  batches : Z;
  recordBytes : Z;
  iterations : Z;
  seed : Z;
  outputDir : string;
  unitID : string;
  changeSlug : string;
  notes : string;
  a_flushSizeBytes : Z;
  a_encodeConcurrency : Z;
  a_uploadConcurrency : Z;
  a_manifestAppendBatchSize : Z;
  variedParamKind : string;
  variedParamName : string;
  variedParamBaseline : string;
  variedParamCandidate : string;
}.

(** The values of the flags that are not given. *)
Definition defaultArgs : args := {|
  mode := "exporter"; recordsPerBatch := 1000; batches := 100; recordBytes := 320;
  iterations := 5; seed := 42; outputDir := ""; unitID := ""; changeSlug := "baseline"; notes := "";
  a_flushSizeBytes := 1; a_encodeConcurrency := 1; a_uploadConcurrency := 1;
  a_manifestAppendBatchSize := 1; variedParamKind := ""; variedParamName := "";
  variedParamBaseline := ""; variedParamCandidate := "" |}.

Definition with_unitID (u : string) (a : args) : args := {|
  mode := mode a; recordsPerBatch := recordsPerBatch a; batches := batches a;
  recordBytes := recordBytes a; iterations := iterations a; seed := seed a; outputDir := outputDir a;
  unitID := u; changeSlug := changeSlug a; notes := notes a; a_flushSizeBytes := a_flushSizeBytes a;
  a_encodeConcurrency := a_encodeConcurrency a; a_uploadConcurrency := a_uploadConcurrency a;
  a_manifestAppendBatchSize := a_manifestAppendBatchSize a; variedParamKind := variedParamKind a;
  variedParamName := variedParamName a; variedParamBaseline := variedParamBaseline a;
  variedParamCandidate := variedParamCandidate a |}.

(** [parseArgs] after [flag.Parse] has filled in [a]: the arguments, or the code
    the process exits with. *)
Definition parseArgs (a : args) : args + Z :=
  if bool_decide (outputDir a = "") then inr 2
  else if bool_decide (unitID a = "") then
    if bool_decide (mode a = "exporter") then inl (with_unitID "1.1" a)
    else if bool_decide (mode a = "producer") then inl (with_unitID "1.2" a)
    else inr 2
  else inl a.

(** ** Workload *)

Record rand_lib := {
  Rand : Type;
  NewSource : Z -> Rand;
  Read : Rand -> Z -> Rand * bytes;   (** [Read] into a buffer of that length *)
}.

(** [Read] fills the buffer. *)
Class RandLaws (R : rand_lib) := {
  Read_len r n : 0 <= n -> len (Read R r n).2 = n;
}.

Section Workload.
Context (R : rand_lib).

(** [make] of a negative length panics. *)
Definition synthRecord (rng : Rand R) (target : Z) : outcome (Rand R * bytes) :=
  if target <? 0 then Panic else Ret (Read R rng target).

Fixpoint synthRecords (n : nat) (rng : Rand R) (recordBytes : Z) : outcome (list bytes) :=
  match n with
  | O => Ret []
  | S n =>
      '(rng, record) ← synthRecord rng recordBytes;
      rest ← synthRecords n rng recordBytes;
      Ret (record :: rest)
  end.

Definition mix : Z := 0x9E3779B9.

Definition batchSeed (seed batchIdx : Z) : Z := int64 (seed + int64 (batchIdx * mix)).

Definition synthBatch (seed batchIdx recordsPerBatch recordBytes : Z) : outcome (list bytes) :=
  let rng := NewSource R (batchSeed seed batchIdx) in
  if recordsPerBatch <? 0 then Panic
  else synthRecords (Z.to_nat recordsPerBatch) rng recordBytes.
End Workload.

(** ** Iterations *)

Abbreviation stageMap := (gmap string (list float64)).

(** [stages[name] = append(stages[name], v)]. *)
Definition addStage (name : string) (v : float64) (stages : stageMap) : stageMap :=
  <[name := default [] (stages !! name) ++ [v]]> stages.

Record iterationResult := {
  Iteration : Z;
  StartedUnixMs : Z;
  ElapsedSeconds : float64;
  RecordsProcessed : Z;
  BytesProcessed : Z;
  StageObservations : stageMap;
}.

(** [fmt.Sprintf("bench-UNIT/iter-%d/REST", iter)]. *)
Definition benchPath (unit : string) (iter : Z) (rest : string) : string :=
  "bench-" +:+ unit +:+ "/iter-" +:+ pretty iter +:+ "/" +:+ rest.

(** The configuration both modes build; the fields that are not set are zero. *)
Definition benchConfig (unit : string) (iter : Z) (a : args) : ProducerConfig := {|
  ManifestPath := benchPath unit iter "manifest";
  DataPathPrefix := benchPath unit iter "data";
  FlushInterval := 50 * Millisecond;
  FlushSizeBytes := a_flushSizeBytes a;
  MaxBufferedInputs := 1024;
  BatchCompression := CompressionNone;
  Observer := false;
  EncodeConcurrency := a_encodeConcurrency a;
  UploadConcurrency := a_uploadConcurrency a;
  MaxInFlightBatches := 0;
  MaxInFlightBytes := 0;
  ManifestAppendBatchSize := a_manifestAppendBatchSize a;
  UploadMaxAttempts := 0;
  UploadInitialBackoff := 0;
  ManifestMaxAttempts := 0;
  ManifestInitialBackoff := 0;
|}.

(** [make([]T, 0, n)] of a negative capacity panics. *)
Definition makeCap (n : Z) : outcome unit := if n <? 0 then Panic else Ret tt.

(** [for _, e := range entries { totalBytes += int64(len(e)) }]. *)
Definition addBytes (entries : list bytes) (total : Z) : Z := foldl (fun t e => t + len e) total entries.

Section Iterations.
Context (R : rand_lib) (z : zstd_lib) (runID : string).
Context (range : readyMap -> list uploadCompletion).

(** The variables of a loop over the batches; a pending batch is its watcher and
    the time it was staged. *)
Record benchState := {
  b_stages : stageMap;
  b_pendings : list (watcher_id * Z);
  b_records : Z;
  b_bytes : Z;
}.

Definition exporterBatch (config : ProducerConfig) (a : args) (batchIdx : Z) (b : benchState)
    : act InMemory benchState :=
  t0 ← clock;
  entries ← pure (synthBatch R (seed a) batchIdx (recordsPerBatch a) (recordBytes a));
  t1 ← clock;
  let stages := addStage "marshal" (Seconds (t1 - t0)) (b_stages b) in
  let totalBytes := addBytes entries (b_bytes b) in
  let totalRecords := b_records b + len entries in
  stagedAt ← clock;
  w ← call_Append z config runID range "Append" entries [];
  t2 ← clock;
  let stages := addStage "enqueue" (Seconds (t2 - stagedAt)) stages in
  pure (Ret {| b_stages := stages; b_pendings := b_pendings b ++ [(w, stagedAt)];
               b_records := totalRecords; b_bytes := totalBytes |}).

Definition exporterAwait (config : ProducerConfig) (pn : watcher_id * Z) (stages : stageMap)
    : act InMemory stageMap :=
  _ ← call_AwaitDurable z config runID range "AwaitDurable" pn.1;
  t ← clock;
  pure (Ret (addStage "await_durable" (Seconds (t - pn.2)) stages)).

(** [runExporterIteration], on a producer whose pipeline is fresh. *)
Definition runExporterIteration (iter : Z) (a : args) : act InMemory iterationResult :=
  let config := withDefaults (benchConfig "1.1" iter a) in
  startedMs ← clock;
  startWall ← clock;
  let stages := <["marshal" := []]> (<["enqueue" := []]> (<["await_durable" := []]> (∅ : stageMap))) in
  _ ← pure (makeCap (batches a));
  b ← loop (exporterBatch config a) (seqZ 0 (batches a))
        {| b_stages := stages; b_pendings := []; b_records := 0; b_bytes := 0 |};
  stages ← loop (exporterAwait config) (b_pendings b) (b_stages b);
  _ ← call_Flush z config runID range "Flush";
  _ ← call_Close z config runID range "Close";
  t ← clock;
  pure (Ret {| Iteration := iter; StartedUnixMs := startedMs; ElapsedSeconds := Seconds (t - startWall);
               RecordsProcessed := b_records b; BytesProcessed := b_bytes b;
               StageObservations := stages |}).

(** Pass (a): encoding and writing alone, on a store of its own. [%08d] pads
    with zeros. *)
Definition pad8 (n : Z) : string :=
  let digits := pretty n in
  String.concat "" (replicate (8 - String.length digits) "0") +:+ digits.

Record sandboxState := {
  x_sandbox : InMemory;
  x_stages : stageMap;
  x_records : Z;
  x_bytes : Z;
}.

Definition sandboxBatch (iter : Z) (a : args) (batchIdx : Z) (x : sandboxState) : act InMemory sandboxState :=
  entries ← pure (synthBatch R (seed a) batchIdx (recordsPerBatch a) (recordBytes a));
  let totalBytes := addBytes entries (x_bytes x) in
  let totalRecords := x_records x + len entries in
  t0 ← clock;
  payload ← pure (wrapped "EncodeBatch" (EncodeBatch z entries CompressionNone));
  t1 ← clock;
  let stages := addStage "encode" (Seconds (t1 - t0)) (x_stages x) in
  let stages := addStage "compress" fzero stages in
  t2 ← clock;
  let '(sandbox, r) :=
    InMemory_Put (x_sandbox x) (benchPath "1.2" iter "sandbox/batch-" +:+ pad8 batchIdx) payload in
  _ ← pure (wrapped "sandbox.Put" r);
  t3 ← clock;
  let stages := addStage "object_put" (Seconds (t3 - t2)) stages in
  pure (Ret {| x_sandbox := sandbox; x_stages := stages; x_records := totalRecords;
               x_bytes := totalBytes |}).

(** Pass (b): the whole pipeline. *)
Definition producerBatch (config : ProducerConfig) (a : args) (batchIdx : Z)
    (b : stageMap * list watcher_id) : act InMemory (stageMap * list watcher_id) :=
  entries ← pure (synthBatch R (seed a) batchIdx (recordsPerBatch a) (recordBytes a));
  t0 ← clock;
  w ← call_Append z config runID range "Append" entries [];
  t1 ← clock;
  pure (Ret (addStage "append_total" (Seconds (t1 - t0)) b.1, b.2 ++ [w])).

(** [p.ConflictRate()], of whatever the enqueuer has counted. *)
Definition call_ConflictRate : act InMemory float64 := fun s s' r =>
  s' = s /\ exists c, is_uint64 (writeCount c) /\ is_uint64 (conflictCount c) /\ r = Ret (conflictRate c).

Definition producerAwait (config : ProducerConfig) (w : watcher_id) (u : unit) : act InMemory unit :=
  call_AwaitDurable z config runID range "AwaitDurable" w.

(** What is left of a batch's time once encoding and writing are taken off. *)
Definition manifestAppendPerBatch (elapsed encodeMedian putMedian : float64) (batches : Z) : float64 :=
  let perBatchTotal := fdiv elapsed (float_of batches) in
  let v := fsub (fsub perBatchTotal encodeMedian) putMedian in
  if flt v fzero then fzero else v.

(** [for i := 0; i < a.batches; i++]. *)
Fixpoint addStages (n : nat) (name : string) (v : float64) (stages : stageMap) : stageMap :=
  match n with O => stages | S n => addStages n name v (addStage name v stages) end.

Definition runProducerIteration (iter : Z) (a : args) : act InMemory iterationResult :=
  startedMs ← clock;
  let stages := <["encode" := []]> (<["compress" := []]> (<["object_put" := []]>
    (<["manifest_append" := []]> (<["append_total" := []]> (∅ : stageMap))))) in
  x ← loop (sandboxBatch iter a) (seqZ 0 (batches a))
        {| x_sandbox := NewInMemory; x_stages := stages; x_records := 0; x_bytes := 0 |};
  let config := withDefaults (benchConfig "1.2" iter a) in
  startWall ← clock;
  _ ← pure (makeCap (batches a));
  '(stages, pendings) ← loop (producerBatch config a) (seqZ 0 (batches a)) (x_stages x, []);
  _ ← call_Flush z config runID range "Flush";
  _ ← loop (producerAwait config) pendings tt;
  rate ← call_ConflictRate;
  _ ← call_Close z config runID range "Close";
  t ← clock;
  let elapsed := Seconds (t - startWall) in
  encodeMedian ← pure (median (default [] (stages !! "encode")));
  putMedian ← pure (median (default [] (stages !! "object_put")));
  let v := manifestAppendPerBatch elapsed encodeMedian putMedian (batches a) in
  let stages := addStages (Z.to_nat (batches a)) "manifest_append" v stages in
  let stages := <["_conflict_rate_const" := [rate]]> stages in
  pure (Ret {| Iteration := iter; StartedUnixMs := startedMs; ElapsedSeconds := elapsed;
               RecordsProcessed := x_records x; BytesProcessed := x_bytes x;
               StageObservations := stages |}).
End Iterations.

(** ** Counting *)

Definition samples (name : string) (stages : stageMap) : Z := len (default [] (stages !! name)).

Lemma samples_addStage name name' v stages :
  samples name (addStage name' v stages) =
  samples name stages + if bool_decide (name' = name) then 1 else 0.
Proof.
  unfold samples, addStage. case_bool_decide as Hn; [subst name'|].
  - rewrite lookup_insert_eq. cbn. autorewrite with len. lia.
  - rewrite lookup_insert_ne by done. lia.
Qed.

Lemma samples_addStages n name v : forall name' stages,
  samples name' (addStages n name v stages) =
  samples name' stages + if bool_decide (name = name') then Z.of_nat n else 0.
Proof.
  induction n as [|n IH]; intros name' stages; cbn [addStages]; [case_bool_decide; lia|].
  rewrite IH, samples_addStage. case_bool_decide; lia.
Qed.

Lemma addStages_values n name v : forall stages,
  default [] (addStages n name v stages !! name) = default [] (stages !! name) ++ replicate n v.
Proof.
  induction n as [|n IH]; intros stages; cbn [addStages replicate]; [by rewrite app_nil_r|].
  rewrite IH. unfold addStage. rewrite lookup_insert_eq. cbn. by rewrite <- (assoc_L (++)).
Qed.

Lemma samples_insert name name' l stages :
  samples name (<[name' := l]> stages) = if bool_decide (name' = name) then len l else samples name stages.
Proof.
  unfold samples. case_bool_decide as Hn; [subst name'; by rewrite lookup_insert_eq|].
  by rewrite lookup_insert_ne.
Qed.

(** Counts samples of stages whose names are given. *)
Ltac count_samples :=
  repeat first [rewrite samples_addStage|rewrite samples_addStages|rewrite samples_insert];
  repeat match goal with
  | |- context [bool_decide (?x = ?y)] =>
      let b := eval vm_compute in (bool_decide (x = y)) in change (bool_decide (x = y)) with b; cbv iota
  end.

Lemma addBytes_sum entries total n :
  Forall (fun e => len e = n) entries -> addBytes entries total = total + len entries * n.
Proof.
  unfold addBytes. rewrite foldl_sum. intros H. f_equal.
  induction H as [|e l He _ IH]; [done|]. rewrite fmap_cons, sumZ_cons, IH, He. autorewrite with len. lia.
Qed.

Lemma makeCap_nonneg n u : makeCap n = Ret u -> 0 <= n.
Proof. unfold makeCap. destruct (Z.ltb_spec n 0); [done|lia]. Qed.

Section Counting.
Context (R : rand_lib) `{!RandLaws R}.

Lemma synthRecords_len n : forall rng rb es,
  synthRecords R n rng rb = Ret es -> len es = Z.of_nat n /\ Forall (fun e => len e = rb) es.
Proof.
  induction n as [|n IH]; intros rng rb es; cbn [synthRecords]; [by intros [= <-]|].
  unfold synthRecord. destruct (Z.ltb_spec rb 0) as [|Hrb]; [done|]. cbn [mbind outcome_bind].
  pose proof (Read_len rng rb Hrb) as Hl. destruct (Read R rng rb) as [rng' rec]. cbn [snd] in Hl.
  destruct (synthRecords R n rng' rb) as [rest|e|] eqn:E; cbn; try done. intros [= <-].
  destruct (IH _ _ _ E) as [Hn Hf]. autorewrite with len. split; [lia|by constructor].
Qed.

Lemma synthBatch_len sd i rpb rb es :
  synthBatch R sd i rpb rb = Ret es -> len es = rpb /\ Forall (fun e => len e = rb) es.
Proof.
  unfold synthBatch. destruct (Z.ltb_spec rpb 0); [done|]. intros Hs%synthRecords_len.
  by rewrite Z2Nat.id in Hs.
Qed.
End Counting.

(** ** Paths *)

Lemma app_left_inj (p x y : string) : p +:+ x = p +:+ y -> x = y.
Proof. induction p as [|c p IH]; cbn; [done|]. intros [= H]. by apply IH. Qed.

Lemma string_app_assoc (x y w : string) : (x +:+ y) +:+ w = x +:+ y +:+ w.
Proof. induction x as [|c x IH]; [done|]. exact (f_equal (String c) IH). Qed.

Lemma bench_paths unit iter a runID k :
  let config := withDefaults (benchConfig unit iter a) in
  objectAt config runID k <> ManifestPath config.
Proof.
  unfold objectAt, batchLocation. cbn [DataPathPrefix ManifestPath withDefaults benchConfig]. unfold benchPath.
  rewrite !string_app_assoc. intros H. do 5 apply app_left_inj in H. done.
Qed.

(** ** What an iteration did *)

Section Done.
Context (R : rand_lib) `{!RandLaws R} (z : zstd_lib) `{!ZstdLaws z} (runID : string).
Context (range : readyMap -> list uploadCompletion) (Hrange : forall m, range m ≡ₚ values m).
Context (Hz : zstd_NewReader z = None) (iter : Z) (a : args).
Implicit Types s : pipeline InMemory.

(** The entries of a batch. *)
Definition batchIs (i : nat) (es : list bytes) : Prop :=
  synthBatch R (seed a) (Z.of_nat i) (recordsPerBatch a) (recordBytes a) = Ret es.

Lemma batchIs_len i es :
  batchIs i es -> len es = recordsPerBatch a /\ Forall (fun e => len e = recordBytes a) es.
Proof. by apply synthBatch_len. Qed.

Lemma seqZ_split n before x after :
  seqZ 0 n = before ++ x :: after -> x = Z.of_nat (length before).
Proof.
  intros H. assert (seqZ 0 n !! length before = Some x) as Hx by (rewrite H; apply list_lookup_middle; done).
  apply lookup_seqZ in Hx. lia.
Qed.

Section Producer.
Context (config : ProducerConfig) (Hpath : forall k, objectAt config runID k <> ManifestPath config).

Abbreviation reach := (reachable z config runID range NewInMemory).

(** The batches whose watchers are [ws] were accepted, or are stored. *)
Definition all_accepted (ws : list watcher_id) s : Prop :=
  forall i w, ws !! i = Some w -> exists es, batchIs i es /\ accepted w es [] s.
Definition all_stored (n : nat) s : Prop :=
  forall i, (i < n)%nat -> exists es, batchIs i es /\ assured z config NewInMemory es [] s.

Lemma stable_all_accepted ws : stable z config runID range (all_accepted ws).
Proof.
  intros s s' Hst H i w Hi. destruct (H i w Hi) as (es & ? & ?). exists es.
  split; [done|]. by eapply stable_accepted.
Qed.

Lemma stable_all_stored n : stable z config runID range (all_stored n).
Proof.
  intros s s' Hst H i Hi. destruct (H i Hi) as (es & ? & ?). exists es.
  split; [done|]. by eapply stable_assured.
Qed.
Hint Resolve stable_all_accepted stable_all_stored : opendata.

(** Appending a batch. *)
Lemma append_batch ws i es :
  batchIs i es -> length ws = i ->
  triple (fun s => reach s /\ all_accepted ws s) (call_Append z config runID range "Append" es [])
    (fun w s => reach s /\ all_accepted (ws ++ [w]) s).
Proof.
  intros Hb Hi. eapply triple_weaken; [exact (fun s H => H)| |apply triple_Append; eauto with opendata].
  intros w s [[Hr Ha] Hw]. split; [done|]. intros k w' Hk.
  apply lookup_app_Some in Hk as [Hk|[Hl Hk]]; [by apply Ha|].
  apply list_lookup_singleton_Some in Hk as [Hk <-]. exists es. replace k with i by lia. done.
Qed.

(** Awaiting one. *)
Lemma await_batch ws i w :
  ws !! i = Some w ->
  triple (fun s => (reach s /\ all_accepted ws s) /\ all_stored i s)
    (call_AwaitDurable z config runID range "AwaitDurable" w)
    (fun _ s => (reach s /\ all_accepted ws s) /\ all_stored (S i) s).
Proof.
  intros Hi s s' r [[Hr Ha] Hst] Hcall. destruct (Ha i w Hi) as (es & Hb & Hw).
  assert (triple (fun s => ((reach s /\ all_accepted ws s) /\ all_stored i s) /\ accepted w es [] s)
            (call_AwaitDurable z config runID range "AwaitDurable" w)
            (fun _ s => ((reach s /\ all_accepted ws s) /\ all_stored i s) /\
              assured z config NewInMemory es [] s)) as HT.
  { eapply (triple_AwaitDurable z config runID range Hrange Hpath Hz _ NewInMemory); eauto with opendata. naive_solver. }
  specialize (HT s s' r (conj (conj (conj Hr Ha) Hst) Hw) Hcall). destruct r as [u| |]; [|done|done].
  destruct HT as [[HP Hst'] Hes]. split; [done|]. intros k Hk.
  destruct (decide (k = i)) as [->|]; [by exists es|]. apply Hst'. lia.
Qed.
End Producer.

(** *** The exporter mode *)

Definition exporterConfig : ProducerConfig := withDefaults (benchConfig "1.1" iter a).

Abbreviation exporter_reach := (reachable z exporterConfig runID range NewInMemory).

(** After [n] batches were appended. *)
Definition exporter_appended (n : nat) (b : benchState) s : Prop :=
  (exporter_reach s /\ all_accepted ((b_pendings b).*1) s) /\ length (b_pendings b) = n /\
  b_records b = Z.of_nat n * recordsPerBatch a /\
  b_bytes b = Z.of_nat n * recordsPerBatch a * recordBytes a /\
  samples "marshal" (b_stages b) = Z.of_nat n /\ samples "enqueue" (b_stages b) = Z.of_nat n /\
  samples "await_durable" (b_stages b) = 0.

Lemma exporterBatch_spec n b :
  triple (exporter_appended n b) (exporterBatch R z runID range exporterConfig a (Z.of_nat n) b)
    (exporter_appended (S n)).
Proof.
  unfold exporterBatch. apply triple_bind_clock. intros t0. apply triple_bind_pure. intros es Hes.
  apply triple_bind_clock. intros t1. apply triple_bind_clock. intros t2.
  destruct (batchIs_len n es Hes) as [Hlen Hall].
  intros s s' r [HP (Hl & Hrec & Hby & Hm & He & Haw)].
  apply (triple_bind _ (fun s => exporter_reach s /\ all_accepted ((b_pendings b).*1) s) _
    (fun w s => exporter_reach s /\ all_accepted ((b_pendings b).*1 ++ [w]) s)
    (fun w => _) (exporter_appended (S n))); [|intros w|exact HP].
  { apply (append_batch exporterConfig _ n es Hes). by rewrite length_fmap. }
  apply triple_bind_clock. intros t3. apply triple_pure. intros b' s1 [= <-] [Hr Ha].
  unfold exporter_appended. cbn [b_pendings b_records b_bytes b_stages].
  rewrite fmap_app, length_app, (addBytes_sum es _ (recordBytes a)) by done. count_samples.
  cbn [fmap list_fmap fst length]. rewrite Hlen. split_and!; [done|done|lia..].
Qed.

Definition exporter_awaited (ws : list watcher_id) (n : nat) (stages : stageMap) s : Prop :=
  ((exporter_reach s /\ all_accepted ws s) /\ all_stored exporterConfig n s) /\
  samples "await_durable" stages = Z.of_nat n /\
  samples "marshal" stages = len ws /\ samples "enqueue" stages = len ws.

Lemma exporterAwait_spec ws n pn stages :
  ws !! n = Some pn.1 ->
  triple (exporter_awaited ws n stages) (exporterAwait z runID range exporterConfig pn stages)
    (exporter_awaited ws (S n)).
Proof.
  intros Hn s s' r [HP (Ha & Hm & He)].
  apply (triple_bind _ _ _ (fun _ s => (exporter_reach s /\ all_accepted ws s) /\ all_stored exporterConfig (S n) s)
    (fun _ => _) (exporter_awaited ws (S n)) (await_batch exporterConfig (bench_paths _ _ _ _) ws n pn.1 Hn));
    [intros u|exact HP].
  apply triple_bind_clock. intros t. apply triple_pure. intros st' s1 [= <-] H. split; [done|].
  count_samples. lia.
Qed.

Lemma exporter_loops (b0 : benchState) :
  b0 = {| b_stages := <["marshal" := []]> (<["enqueue" := []]> (<["await_durable" := []]> (∅ : stageMap)));
          b_pendings := []; b_records := 0; b_bytes := 0 |} ->
  triple exporter_reach (loop (exporterBatch R z runID range exporterConfig a) (seqZ 0 (batches a)) b0)
    (exporter_appended (Z.to_nat (batches a))).
Proof.
  intros ->. eapply triple_weaken; [| |eapply (triple_loop _ _ (fun before => exporter_appended (length before)))].
  - intros s Hs. unfold exporter_appended. cbn. unfold samples. split_and!; try done.
  - intros b s H. by rewrite length_seqZ in H.
  - intros before x after b Hsplit. rewrite (seqZ_split _ _ _ _ Hsplit), length_app, Nat.add_1_r.
    apply exporterBatch_spec.
Qed.

Lemma exporter_awaits b :
  triple (exporter_appended (Z.to_nat (batches a)) b)
    (loop (exporterAwait z runID range exporterConfig) (b_pendings b) (b_stages b))
    (fun stages s => exporter_awaited ((b_pendings b).*1) (Z.to_nat (batches a)) stages s /\
       len ((b_pendings b).*1) = Z.of_nat (Z.to_nat (batches a)) /\
       b_records b = Z.of_nat (Z.to_nat (batches a)) * recordsPerBatch a /\
       b_bytes b = Z.of_nat (Z.to_nat (batches a)) * recordsPerBatch a * recordBytes a).
Proof.
  intros s s' r (HP & Hl & Hrec & Hby & Hm & He & Haw) Hrun.
  assert (len ((b_pendings b).*1) = Z.of_nat (Z.to_nat (batches a))) as Hlen
    by (unfold len; by rewrite length_fmap, Hl).
  assert (triple (exporter_awaited ((b_pendings b).*1) 0 (b_stages b))
    (loop (exporterAwait z runID range exporterConfig) (b_pendings b) (b_stages b))
    (exporter_awaited ((b_pendings b).*1) (length (b_pendings b)))) as HT.
  { apply (triple_loop _ _ (fun before => exporter_awaited ((b_pendings b).*1) (length before))).
    intros before pn after stages Hsplit. rewrite length_app, Nat.add_1_r. apply exporterAwait_spec.
    by rewrite Hsplit, fmap_app, fmap_cons, list_lookup_middle by (by rewrite length_fmap). }
  specialize (HT s s' r). destruct r as [stages| |]; [|done|done]. rewrite <- Hl. split.
  - apply HT; [|done]. split; [split; [done|intros i; lia]|]. lia.
  - rewrite Hl. done.
Qed.

Lemma exporter_finish :
  triple exporter_reach (runExporterIteration R z runID range iter a)
    (fun r s =>
       let n := Z.of_nat (Z.to_nat (batches a)) in
       0 <= batches a /\ RecordsProcessed r = n * recordsPerBatch a /\
       BytesProcessed r = n * recordsPerBatch a * recordBytes a /\
       Forall (fun name => samples name (StageObservations r) = n) ["marshal"; "enqueue"; "await_durable"] /\
       all_stored exporterConfig (Z.to_nat (batches a)) s /\
       batched s = [] /\ collected s = [] /\ batchesUsed (s_budget (p_shared s)) = 0).
Proof.
  unfold runExporterIteration. apply triple_bind_clock. intros t0. apply triple_bind_clock. intros t1.
  apply triple_bind_pure. intros _ Hcap%makeCap_nonneg.
  eapply triple_bind; [by apply exporter_loops|intros b]. eapply triple_bind; [apply exporter_awaits|intros stages].
  set (P := fun s => exporter_reach s /\ all_stored exporterConfig (Z.to_nat (batches a)) s).
  assert (stable z exporterConfig runID range P) as Hst.
  { apply stable_and; [apply stable_reachable|apply stable_all_stored]. }
  intros s s' r [[[[Hr _] Hall] Hsam] (Hlen & Hrec & Hby)] Hrun.
  assert (triple P (_ ← call_Flush z exporterConfig runID range "Flush";
                    _ ← call_Close z exporterConfig runID range "Close";
                    t ← clock; pure (Ret {| Iteration := iter; StartedUnixMs := t0;
                      ElapsedSeconds := Seconds (t - t1); RecordsProcessed := b_records b;
                      BytesProcessed := b_bytes b; StageObservations := stages |}))
    (fun r s => P s /\ (batched s = [] /\ collected s = [] /\ batchesUsed (s_budget (p_shared s)) = 0) /\
       RecordsProcessed r = b_records b /\ BytesProcessed r = b_bytes b /\ StageObservations r = stages)) as HT.
  { eapply triple_bind; [by apply triple_Flush|intros u]. cbn beta.
    eapply triple_bind; [eapply (triple_Close z exporterConfig runID range Hrange (bench_paths _ _ _ _) P NewInMemory _ Hst);
      by intros ? [? _]|intros u']. cbn beta.
    apply triple_bind_clock. intros t. apply triple_pure. intros r' s1 [= <-] [? ?]. done. }
  specialize (HT s s' r (conj Hr Hall) Hrun). destruct r as [r| |]; [|done|done].
  destruct HT as ([_ Hst'] & He & -> & -> & ->). split_and!; try done; try tauto.
  rewrite !Forall_cons, Forall_nil. lia.
Qed.

(** *** The producer mode *)

Definition producerConfig : ProducerConfig := withDefaults (benchConfig "1.2" iter a).

Abbreviation producer_reach := (reachable z producerConfig runID range NewInMemory).

(** After [n] batches were encoded and written to the sandbox. *)
Definition sandboxed (n : nat) (x : sandboxState) s : Prop :=
  producer_reach s /\ x_records x = Z.of_nat n * recordsPerBatch a /\
  x_bytes x = Z.of_nat n * recordsPerBatch a * recordBytes a /\
  Forall (fun name => samples name (x_stages x) = Z.of_nat n) ["encode"; "compress"; "object_put"] /\
  Forall (fun name => samples name (x_stages x) = 0) ["manifest_append"; "append_total"].

Lemma sandboxBatch_spec n x :
  triple (sandboxed n x) (sandboxBatch R z iter a (Z.of_nat n) x) (sandboxed (S n)).
Proof.
  unfold sandboxBatch. apply triple_bind_pure. intros es Hes. apply triple_bind_clock. intros t0.
  apply triple_bind_pure. intros payload _. apply triple_bind_clock. intros t1. apply triple_bind_clock. intros t2.
  destruct (InMemory_Put _ _ payload) as [sandbox r]. apply triple_bind_pure. intros u _.
  apply triple_bind_clock. intros t3. apply triple_pure. intros x' s [= <-] (Hr & Hrec & Hby & Hn & H0).
  destruct (batchIs_len n es Hes) as [Hlen Hall]. unfold sandboxed. cbn [x_records x_bytes x_stages].
  rewrite (addBytes_sum es _ (recordBytes a)), Hlen by done. rewrite !Forall_cons, !Forall_nil in *. count_samples.
  split_and!; [done|lia..].
Qed.

(** After [n] batches were appended to the producer; the stages [names] stay as
    they were. *)
Definition producer_appended (m : Z) (n : nat) (b : stageMap * list watcher_id) s : Prop :=
  (producer_reach s /\ all_accepted b.2 s) /\ length b.2 = n /\ samples "append_total" b.1 = Z.of_nat n /\
  samples "manifest_append" b.1 = 0 /\
  Forall (fun name => samples name b.1 = m) ["encode"; "compress"; "object_put"].

Lemma producerBatch_spec m n b :
  triple (producer_appended m n b) (producerBatch R z runID range producerConfig a (Z.of_nat n) b)
    (producer_appended m (S n)).
Proof.
  unfold producerBatch. apply triple_bind_pure. intros es Hes. apply triple_bind_clock. intros t0.
  intros s s' r [HP (Hl & Ha & Hm & H0)].
  apply (triple_bind _ (fun s => producer_reach s /\ all_accepted b.2 s) _
    (fun w s => producer_reach s /\ all_accepted (b.2 ++ [w]) s) (fun w => _) (producer_appended m (S n)));
    [|intros w|exact HP].
  { by apply (append_batch producerConfig _ n es Hes). }
  apply triple_bind_clock. intros t1. apply triple_pure. intros b' s1 [= <-] [Hr Hacc].
  unfold producer_appended. cbn [fst snd]. rewrite length_app, !Forall_cons, !Forall_nil in *. count_samples.
  cbn [length]. split_and!; [done|done|lia..].
Qed.

Lemma producer_appends x :
  triple (sandboxed (Z.to_nat (batches a)) x)
    (loop (producerBatch R z runID range producerConfig a) (seqZ 0 (batches a)) (x_stages x, []))
    (fun b s => producer_appended (Z.of_nat (Z.to_nat (batches a))) (Z.to_nat (batches a)) b s /\
       x_records x = Z.of_nat (Z.to_nat (batches a)) * recordsPerBatch a /\
       x_bytes x = Z.of_nat (Z.to_nat (batches a)) * recordsPerBatch a * recordBytes a).
Proof.
  intros s s' r (Hr & Hrec & Hby & Hn & H0) Hrun.
  assert (triple (producer_appended (Z.of_nat (Z.to_nat (batches a))) 0 (x_stages x, []))
    (loop (producerBatch R z runID range producerConfig a) (seqZ 0 (batches a)) (x_stages x, []))
    (producer_appended (Z.of_nat (Z.to_nat (batches a))) (length (seqZ 0 (batches a))))) as HT.
  { apply (triple_loop _ _ (fun before => producer_appended _ (length before))).
    intros before i after b Hsplit. rewrite (seqZ_split _ _ _ _ Hsplit), length_app, Nat.add_1_r.
    apply producerBatch_spec. }
  specialize (HT s s' r). destruct r as [b| |]; [|done|done]. rewrite length_seqZ in HT. split; [|done].
  apply HT; [|done]. rewrite !Forall_cons in H0. unfold producer_appended. cbn [fst snd]. split_and!; tauto || done.
Qed.

Lemma producer_awaits ws n :
  length ws = n ->
  triple (fun s => producer_reach s /\ all_accepted ws s)
    (loop (producerAwait z runID range producerConfig) ws tt)
    (fun _ s => producer_reach s /\ all_stored producerConfig n s).
Proof.
  intros <-. eapply triple_weaken;
    [| |eapply (triple_loop _ _ (fun before _ s => (producer_reach s /\ all_accepted ws s) /\
          all_stored producerConfig (length before) s))].
  - intros s H. split; [exact H|intros i; cbn; lia].
  - cbn. tauto.
  - intros before w after u Hsplit. rewrite length_app, Nat.add_1_r.
    apply (await_batch producerConfig (bench_paths _ _ _ _)). by rewrite Hsplit, list_lookup_middle.
Qed.

Lemma producer_end t0 t1 x stages ws :
  triple (fun s => producer_appended (Z.of_nat (Z.to_nat (batches a))) (Z.to_nat (batches a)) (stages, ws) s)
    (_ ← call_Flush z producerConfig runID range "Flush";
     _ ← loop (producerAwait z runID range producerConfig) ws tt;
     rate ← call_ConflictRate;
     _ ← call_Close z producerConfig runID range "Close";
     t ← clock;
     let elapsed := Seconds (t - t1) in
     encodeMedian ← pure (median (default [] (stages !! "encode")));
     putMedian ← pure (median (default [] (stages !! "object_put")));
     let v := manifestAppendPerBatch elapsed encodeMedian putMedian (batches a) in
     let stages := addStages (Z.to_nat (batches a)) "manifest_append" v stages in
     let stages := <["_conflict_rate_const" := [rate]]> stages in
     pure (Ret {| Iteration := iter; StartedUnixMs := t0; ElapsedSeconds := elapsed;
                  RecordsProcessed := x_records x; BytesProcessed := x_bytes x;
                  StageObservations := stages |}))
    (fun r s => all_stored producerConfig (Z.to_nat (batches a)) s /\
       (batched s = [] /\ collected s = [] /\ batchesUsed (s_budget (p_shared s)) = 0) /\
       RecordsProcessed r = x_records x /\ BytesProcessed r = x_bytes x /\
       Forall (fun name => samples name (StageObservations r) = Z.of_nat (Z.to_nat (batches a)))
         ["encode"; "compress"; "object_put"; "manifest_append"; "append_total"] /\
       Forall (fun v => flt v fzero = false) (default [] (StageObservations r !! "manifest_append"))).
Proof.
  unfold producer_appended. cbn [fst snd]. apply triple_pre. intros (Hl & Happ & Hm & H0).
  set (P := fun s => producer_reach s /\ all_stored producerConfig (Z.to_nat (batches a)) s).
  assert (stable z producerConfig runID range P) as Hst
    by (apply stable_and; [apply stable_reachable|apply stable_all_stored]).
  eapply triple_bind; [apply triple_Flush, stable_and; [apply stable_reachable|apply stable_all_accepted]|intros []].
  cbn beta. eapply triple_bind; [by apply (producer_awaits ws)|intros []]. cbn beta.
  apply (triple_bind _ _ _ (fun _ => P)); [by intros s s' r HP [-> (c & _ & _ & ->)]|intros rate].
  eapply triple_bind; [eapply (triple_Close z producerConfig runID range Hrange (bench_paths _ _ _ _) P NewInMemory _ Hst);
    by intros ? [? _]|intros []]. cbn beta.
  apply triple_bind_clock. intros t. cbv zeta. apply triple_bind_pure. intros em _. apply triple_bind_pure. intros pm _.
  apply triple_pure. intros r s [= <-] [[_ Hall] He]. cbn [RecordsProcessed BytesProcessed StageObservations].
  split_and!; try done; try tauto.
  - rewrite !Forall_cons, !Forall_nil in *. count_samples. split_and!; lia || tauto.
  - rewrite lookup_insert_ne by done. rewrite addStages_values.
    replace (default [] (stages !! "manifest_append")) with (@nil float64)
      by (symmetry; by apply len_zero_nil).
    apply Forall_replicate. unfold manifestAppendPerBatch. cbv zeta.
    match goal with |- context [if ?b then _ else _] => destruct b eqn:E; [done|exact E] end.
Qed.

Lemma producer_finish :
  triple producer_reach (runProducerIteration R z runID range iter a)
    (fun r s =>
       let n := Z.of_nat (Z.to_nat (batches a)) in
       0 <= batches a /\ RecordsProcessed r = n * recordsPerBatch a /\
       BytesProcessed r = n * recordsPerBatch a * recordBytes a /\
       Forall (fun name => samples name (StageObservations r) = n)
         ["encode"; "compress"; "object_put"; "manifest_append"; "append_total"] /\
       Forall (fun v => flt v fzero = false) (default [] (StageObservations r !! "manifest_append")) /\
       all_stored producerConfig (Z.to_nat (batches a)) s /\
       batched s = [] /\ collected s = [] /\ batchesUsed (s_budget (p_shared s)) = 0).
Proof.
  unfold runProducerIteration. apply triple_bind_clock. intros t0. cbv zeta.
  eapply triple_bind with (R := sandboxed (Z.to_nat (batches a))).
  { eapply triple_weaken; [| |eapply (triple_loop _ _ (fun before => sandboxed (length before)))].
    - intros s Hs. unfold sandboxed. cbn [x_records x_bytes x_stages length].
      rewrite !Forall_cons, !Forall_nil. count_samples. split_and!; done.
    - intros x s H. by rewrite length_seqZ in H.
    - intros before i after x Hsplit. rewrite (seqZ_split _ _ _ _ Hsplit), length_app, Nat.add_1_r.
      apply sandboxBatch_spec. }
  intros x. apply triple_bind_clock. intros t1.
  apply triple_bind_pure. intros _ Hcap%makeCap_nonneg. eapply triple_bind; [apply producer_appends|intros [stages ws]].
  cbn beta iota. apply triple_pre. intros [Hrec Hby].
  eapply triple_weaken; [exact (fun s H => H)| |apply (producer_end t0 t1 x stages ws)].
  intros r s (Hall & He & -> & -> & Hs & Hnn). cbv zeta. tauto.
Qed.
End Done.

(** ** Properties *)

(** C25. An iteration of the exporter mode that returns a result measured what it
    says: it processed [batches] times [recordsPerBatch] records of
    [recordBytes] bytes, it has one sample per batch for each of its stages, and
    every batch of the workload is durable (as long as the manifest entries were
    within the limits of their format): the store holds a manifest entry and
    an object that decode to it; and it leaves nothing in the producer. *)
Theorem exporter_iteration_complete R `{!RandLaws R} z `{!ZstdLaws z} runID range iter a r s :
  (forall m, range m ≡ₚ values m) -> zstd_NewReader z = None ->
  runExporterIteration R z runID range iter a
    (initial (withDefaults (benchConfig "1.1" iter a)) NewInMemory) s (Ret r) ->
  RecordsProcessed r = batches a * recordsPerBatch a /\
  BytesProcessed r = batches a * recordsPerBatch a * recordBytes a /\
  Forall (fun name => samples name (StageObservations r) = batches a) ["marshal"; "enqueue"; "await_durable"] /\
  (Forall fits (s_written (p_shared s)) -> forall i, 0 <= i < batches a -> exists es,
     synthBatch R (seed a) i (recordsPerBatch a) (recordBytes a) = Ret es /\
     persisted z (withDefaults (benchConfig "1.1" iter a)) es [] s) /\
  batched s = [] /\ collected s = [] /\ batchesUsed (s_budget (p_shared s)) = 0.
Proof.
  intros Hrange Hz Hrun.
  pose proof (exporter_finish R z runID range Hrange Hz iter a _ _ _ (rtc_refl _ _) Hrun) as H.
  cbn beta iota zeta in H. destruct H as (Hb & H). rewrite Z2Nat.id in H by lia. destruct H as (H1 & H2 & H3 & H4 & H5).
  split_and!; try done; try tauto. intros Hfit i Hi. destruct (H4 (Z.to_nat i)) as (es & He & Hs); [lia|].
  exists es. unfold batchIs in He. rewrite Z2Nat.id in He by lia. split; [done|]. apply Hs.
  split; [exists empty_state; apply sample_manifest|done].
Qed.

(** C26. The same for the producer mode, which has five stages; the time it
    attributes to the manifest is never negative. *)
Theorem producer_iteration_complete R `{!RandLaws R} z `{!ZstdLaws z} runID range iter a r s :
  (forall m, range m ≡ₚ values m) -> zstd_NewReader z = None ->
  runProducerIteration R z runID range iter a
    (initial (withDefaults (benchConfig "1.2" iter a)) NewInMemory) s (Ret r) ->
  RecordsProcessed r = batches a * recordsPerBatch a /\
  BytesProcessed r = batches a * recordsPerBatch a * recordBytes a /\
  Forall (fun name => samples name (StageObservations r) = batches a)
    ["encode"; "compress"; "object_put"; "manifest_append"; "append_total"] /\
  Forall (fun v => flt v fzero = false) (default [] (StageObservations r !! "manifest_append")) /\
  (Forall fits (s_written (p_shared s)) -> forall i, 0 <= i < batches a -> exists es,
     synthBatch R (seed a) i (recordsPerBatch a) (recordBytes a) = Ret es /\
     persisted z (withDefaults (benchConfig "1.2" iter a)) es [] s) /\
  batched s = [] /\ collected s = [] /\ batchesUsed (s_budget (p_shared s)) = 0.
Proof.
  intros Hrange Hz Hrun.
  pose proof (producer_finish R z runID range Hrange Hz iter a _ _ _ (rtc_refl _ _) Hrun) as H.
  cbn beta iota zeta in H. destruct H as (Hb & H). rewrite Z2Nat.id in H by lia. destruct H as (H1 & H2 & H3 & H4 & H5 & H6).
  split_and!; try done; try tauto. intros Hfit i Hi. destruct (H5 (Z.to_nat i)) as (es & He & Hs); [lia|].
  exists es. unfold batchIs in He. rewrite Z2Nat.id in He by lia. split; [done|]. apply Hs.
  split; [exists empty_state; apply sample_manifest|done].
Qed.

(** ** A run

    One batch of one record of two bytes, in either mode. *)

Definition zero_rand : rand_lib :=
  {| Rand := unit; NewSource := fun _ => tt; Read := fun r n => (r, replicate (Z.to_nat n) (byte_of_Z 97)) |}.

#[export] Instance zero_rand_laws : RandLaws zero_rand.
Proof. split. intros r n Hn. cbn. unfold len. rewrite length_replicate. lia. Qed.

Definition sample_args : args := {|
  mode := "exporter"; recordsPerBatch := 1; batches := 1; recordBytes := 2; iterations := 1; seed := 42;
  outputDir := "out"; unitID := "1.1"; changeSlug := "baseline"; notes := ""; a_flushSizeBytes := 1;
  a_encodeConcurrency := 1; a_uploadConcurrency := 1; a_manifestAppendBatchSize := 1;
  variedParamKind := ""; variedParamName := ""; variedParamBaseline := ""; variedParamCandidate := "" |}.

Definition sample_bench (unit : string) : ProducerConfig := withDefaults (benchConfig unit 1 sample_args).

Definition bench_message : appendMessage :=
  newMessage {| call_entries := [string_bytes "aa"]; call_metadata := [] |} 3 0%nat.

Definition bench_data (unit : string) : bytes :=
  serialize [{| Sequence := 0; Location := objectAt (sample_bench unit) "run" 0;
                Metadata := metadata_from 0 [bench_message] |}] 1 0.

Definition bench_items (unit : string) : list enqueueItem :=
  [{| item_Location := objectAt (sample_bench unit) "run" 0;
      item_Metadata := metadata_from 0 [bench_message] |}].

Definition bench_payload : bytes := appendBatchFooter (appendRecords [] [string_bytes "aa"]) 0 [string_bytes "aa"].

(** The store after the object, and after the manifest was written. *)
Lemma bench_stores unit :
  unit = "1.1" \/ unit = "1.2" -> exists st1 st2 : InMemory,
    Put NewInMemory (objectAt (sample_bench unit) "run" 0) bench_payload = (st1, Ret tt) /\
    casEffect (sample_bench unit) (bench_items unit) st1 st2 None.
Proof.
  intros Hu. eexists _, (InMemory_Put _ (ManifestPath (sample_bench unit)) (bench_data unit)).1.
  split; [reflexivity|]. set (st := {| objects := _ |}).
  assert (contents st (ManifestPath (sample_bench unit)) = None) as Hnone.
  { unfold contents, InMemory_contents, st. cbn [objects]. by rewrite lookup_insert_ne by apply bench_paths. }
  assert (writes st (InMemory_Put st (ManifestPath (sample_bench unit)) (bench_data unit)).1
            (ManifestPath (sample_bench unit)) (bench_data unit)) as Hw.
  { refine (Put_ok st (ManifestPath (sample_bench unit)) (bench_data unit) _). cbn. unfold InMemory_Put. by destruct (objects st !! _). }
  split; [intros q; by eapply writes_other|]. intros (Hwf & _) a [_ Ha]. rewrite Hnone in Ha.
  apply (writes_appends _ _ Hwf _ _ a (bench_data unit)); [|subst a; solve_bounds|done|].
  - subst a. split; [solve_bounds|]. by rewrite Hnone.
  - subst a. destruct Hu as [-> | ->]; vm_compute; reflexivity.
Qed.

Lemma bench_fits unit : unit = "1.1" \/ unit = "1.2" -> fits (bench_items unit).
Proof. intros [-> | ->]; (split_and!; [solve_bounds|discriminate|solve_bounds]). Qed.

Lemma bench_trace unit st1 st2 :
  Put NewInMemory (objectAt (sample_bench unit) "run" 0) bench_payload = (st1, Ret tt) ->
  casEffect (sample_bench unit) (bench_items unit) st1 st2 None ->
  let steps := rtc (step stored (sample_bench unit) "run" values) in
  exists s1 s2 s : pipeline InMemory,
    (steps (initial (sample_bench unit) NewInMemory) s1 /\
     s_watchers (p_shared s1) !! 0%nat = Some {| result := None; done := true; ch_closed := true |} /\
     s_submitted (p_shared s1) !! 0%nat = Some bench_message /\ calling s1 = []) /\
    (handoff 5%nat s1 s2 /\ s_acks (p_shared s2) !! 5%nat = Some (Some None) /\
     (waitDrained_locked (s_budget (p_shared s2))).2 = Acquired /\
     s_watchers (p_shared s2) !! 0%nat = Some {| result := None; done := true; ch_closed := true |}) /\
    handoff 6%nat s2 s /\ s_acks (p_shared s) !! 6%nat = Some (Some None) /\
    (waitDrained_locked (s_budget (p_shared s))).2 = Acquired /\
    exists s', steps (close_appendCh s) s' /\ rotatorDone s' /\ encoderPoolDone s' /\ uploaderPoolDone s' /\
      committerDone s' /\ resolverDone s' /\ s_written (p_shared s') = [bench_items unit].
Proof.
  intros Hput Hcas. cbv zeta. pose proof (rtc_refl (step stored (sample_bench unit) "run" values)
    (initial (sample_bench unit) NewInMemory)) as H.
  advance H @by_append ltac:(eapply (step_checked _ _ _ _ _ _ _ _ _ _ [string_bytes "aa"] []); computed).
  advance H @by_append ltac:(eapply (step_reserve _ [] _ [] _ _ _ _ _ _ _ _ 3 0%nat); [computed|computed]).
  eexists _, _, _.
  advance H @by_append ltac:(eapply (step_handoff _ _ [] _ [] _ _ _ _ 7); [discriminate|computed]).
  advance H @by_rotator ltac:(eapply step_acquire; computed).
  advance H @by_rotator ltac:(eapply (step_emit _ _ _ _ _ _ _ _ _ _ _ 9); [computed|computed|computed]).
  advance H @by_rotator ltac:(eapply step_pending; computed).
  advance H @by_encoder ltac:(eapply (step_encode _ _ _ _ []); computed).
  advance H @by_encoder ltac:(eapply (step_encoded _ _ _ _ []); computed).
  advance H @by_uploader ltac:(eapply (step_put_ok _ _ _ []); exact Hput).
  advance H @by_uploader ltac:(eapply (step_uploaded _ _ _ []); computed).
  advance H @by_committer ltac:(eapply (step_gather _ _ _ _ _ _ _ _ _ _ false); [computed|discriminate]).
  advance H @by_committer ltac:(eapply step_drain; computed).
  advance H @by_committer ltac:(eapply step_cas_ok; [exact Hcas|computed]).
  advance H @by_committer ltac:(eapply step_hand).
  advance H @by_resolver ltac:(eapply step_resolve; computed).
  advance H @by_resolver ltac:(eapply step_release; computed).
  advance H @by_committer ltac:(eapply step_handed).
  advance H @by_committer ltac:(eapply step_drain; computed).
  split; [split_and!; [exact H|computed|computed|computed]|]; clear H.
  split; [split_and!; [eapply (handoff_intro _ _ _ [] [] _ _ _ _ _ _ 10);
         [discriminate|reflexivity|discriminate|computed|computed]|computed|computed|computed]|].
  split; [eapply (handoff_intro _ _ _ [] [] _ _ _ _ _ _ 11);
         [discriminate|reflexivity|discriminate|computed|computed]|].
  split; [computed|]; split; [computed|].
  match goal with |- exists s', rtc ?R ?s0 s' /\ _ => pose proof (rtc_refl R s0) as H end.
  unfold close_appendCh in *; unpipe.
  advance H @by_rotator ltac:(eapply step_closed; computed).
  advance H @by_committer ltac:(eapply step_upstream_done).
  advance H @by_committer ltac:(eapply step_drain; computed).
  eexists; split; [exact H|]; by repeat split.
Qed.

Lemma bench_calls unit (config := sample_bench unit) :
  unit = "1.1" \/ unit = "1.2" -> forall pa pw pf pc, exists s1 s2 s : pipeline InMemory,
    call_Append stored config "run" values pa [string_bytes "aa"] []
      (initial config NewInMemory) s1 (Ret 0%nat) /\
    call_AwaitDurable stored config "run" values pw 0%nat s1 s1 (Ret tt) /\
    call_Flush stored config "run" values pf s1 s2 (Ret tt) /\
    call_AwaitDurable stored config "run" values pw 0%nat s2 s2 (Ret tt) /\
    call_Close stored config "run" values pc s2 s (Ret tt) /\
    Forall fits (s_written (p_shared s)).
Proof.
  intros Hu pa pw pf pc. destruct (bench_stores unit Hu) as (st1 & st2 & Hput & Hcas).
  destruct (bench_trace unit st1 st2 Hput Hcas) as (s1 & s2 & s3 & (Hr & Hw & Hm & Hc) & (Hh & Ha & Hd & Hw2) &
    Hh' & Ha' & Hd' & s & Hs & D1 & D2 & D3 & D4 & D5 & Hwr).
  exists s1, s2, s. split_and!.
  - exists (Ret 0%nat). split; [|reflexivity].
    apply (append_accepted _ _ _ _ _ _ _ _ (initial config NewInMemory) s1
      {| call_entries := [string_bytes "aa"]; call_metadata := [] |} 3 0%nat);
      [apply rtc_refl|reflexivity|reflexivity|exact Hr|exact Hm|by rewrite Hw|rewrite Hc; apply not_elem_of_nil].
  - eexists _, None. split_and!; [apply rtc_refl|exact Hw|by apply await_ch|reflexivity].
  - exists None. split; [|reflexivity].
    exact (flush_done _ _ _ _ None s1 5%nat s1 s2 s2 s2 None (rtc_refl _ _) Hh (rtc_refl _ _) Ha (rtc_refl _ _) Hd).
  - eexists _, None. split_and!; [apply rtc_refl|exact Hw2|by apply await_ch|reflexivity].
  - exists None. split; [|reflexivity].
    refine (close_done _ _ _ _ None false s2 s3 s None eq_refl _ Hs D1 D2 D3 D4 D5).
    exact (flush_done _ _ _ _ None s2 6%nat s2 s3 s3 s3 None (rtc_refl _ _) Hh' (rtc_refl _ _) Ha' (rtc_refl _ _) Hd').
  - rewrite Hwr. constructor; [by apply bench_fits|constructor].
Qed.

(** It takes a second, at the end. *)
Definition sample_result : iterationResult := {|
  Iteration := 1; StartedUnixMs := 0; ElapsedSeconds := Seconds (1000 * Millisecond);
  RecordsProcessed := 1; BytesProcessed := 2;
  StageObservations := <["await_durable" := [Seconds 0]]> (<["enqueue" := [Seconds 0]]>
    (<["marshal" := [Seconds 0]]> (∅ : stageMap))) |}.

Lemma exporter_run : exists s, runExporterIteration zero_rand stored "run" values 1 sample_args
  (initial (withDefaults (benchConfig "1.1" 1 sample_args)) NewInMemory) s (Ret sample_result) /\
  Forall fits (s_written (p_shared s)).
Proof.
  destruct (bench_calls "1.1" ltac:(by left) "Append" "AwaitDurable" "Flush" "Close") as (s1 & s2 & s & Ha & Hw & Hf & _ & Hc & Hfit).
  exists s. split; [|exact Hfit]. unfold runExporterIteration. change (withDefaults _) with (sample_bench "1.1").
  do 4 perform; [unfold exporterBatch; repeat perform|].
  perform; [unfold exporterAwait; repeat perform|]. do 2 perform.
  eapply run_bind; [apply (run_clock _ (1000 * Millisecond))|]. by vm_compute.
Qed.

Lemma InMemory_Put_ret m path data : InMemory_Put m path data = ((InMemory_Put m path data).1, Ret tt).
Proof. unfold InMemory_Put. by case_match. Qed.

Lemma producer_run : exists s r, runProducerIteration zero_rand stored "run" values 1 sample_args
  (initial (withDefaults (benchConfig "1.2" 1 sample_args)) NewInMemory) s (Ret r).
Proof.
  destruct (bench_calls "1.2" ltac:(by right) "Append" "AwaitDurable" "Flush" "Close") as (s1 & s2 & s & Ha & _ & Hf & Hw & Hc & _).
  exists s. eexists. unfold runProducerIteration. change (withDefaults _) with (sample_bench "1.2").
  do 2 perform.
  { unfold sandboxBatch. repeat perform. rewrite InMemory_Put_ret. cbv iota beta. repeat perform. }
  do 3 perform; [unfold producerBatch; repeat perform|]. cbv beta iota.
  do 2 perform; [exact Hw|].
  eapply run_bind; [split; [reflexivity|]; exists {| writeCount := 1; conflictCount := 0 |}; by vm_compute|cbv beta zeta].
  repeat perform.
Qed.

Lemma exporter_iteration_complete_witness : exists s r, RecordsProcessed r = 1 /\ BytesProcessed r = 2 /\
  exists es, synthBatch zero_rand 42 0 1 2 = Ret es /\
    persisted stored (withDefaults (benchConfig "1.1" 1 sample_args)) es [] s.
Proof.
  destruct exporter_run as (s & Hrun & Hfit). exists s, sample_result.
  destruct (exporter_iteration_complete zero_rand stored "run" values 1 sample_args sample_result s values_range eq_refl
    Hrun) as (H1 & H2 & _ & H3 & _).
  split_and!; [exact H1|exact H2|exact (H3 Hfit 0 ltac:(vm_compute; split; [discriminate|reflexivity]))].
Defined.

Lemma producer_iteration_complete_witness : exists s r, RecordsProcessed r = 1 /\
  samples "manifest_append" (StageObservations r) = 1 /\ batched (St := InMemory) s = [].
Proof.
  destruct producer_run as (s & r & Hrun). exists s, r.
  destruct (producer_iteration_complete zero_rand stored "run" values 1 sample_args r s values_range eq_refl
    Hrun) as (H1 & _ & H2 & _ & _ & H3 & _).
  split_and!; [exact H1| |exact H3]. rewrite !Forall_cons in H2. exact (proj1 (proj2 (proj2 (proj2 H2)))).
Defined.
