(* ===== verification/Report.v ===== *)
(** * The benchmark's report ([src/cmd/bench/main.go]: [main] and its helpers)

    [main] runs the iterations, aggregates their samples and writes its
    artifacts as JSON. What the operating system answers (the clock, the
    environment, [git], the file system) is a parameter; a process is a
    computation on the files written so far that may exit with a code. *)

From S2P Require Import Prelude GoError Bytes Batch Manifest ObjStore Enqueuer Config Budget.
From S2P Require Import Watcher Accumulator Retry Committer Stages Pipeline PipelineInv Durability.
From S2P Require Import Progress Producer Desk Flush Client Float Stats Bench.
From stdpp Require Import list_numbers.
From Stdlib Require Import Ascii.

Local Open Scope string_scope.
Local Open Scope list_scope.
Local Open Scope Z_scope.

(** ** JSON *)

Inductive json :=
  | JNull
  | JBool (b : bool)
  | JInt (n : Z)
  | JFloat (x : float64)
  | JString (s : string)
  | JArray (l : list json)
  | JObject (fields : list (string * json)).   (** a struct or a map; the encoder sorts a map's keys *)

(** [encoding/json] refuses infinities and NaN. *)
Fixpoint encodable (j : json) : bool :=
  match j with
  | JFloat x => isFinite x
  | JArray l => forallb encodable l
  | JObject fs => forallb (fun f => encodable f.2) fs
  | _ => true
  end.

(** ** Processes *)

Inductive content :=
  | Json (j : json)
  | JsonLines (l : list json).

(** A file: written in full, or torn, with only part of what was meant. *)
Inductive file :=
  | Whole (c : content)
  | Torn (c : content).

Abbreviation files := (list (string * file)).

Definition proc (A : Type) : Type := files -> files * (A + Z).

Instance proc_ret : MRet proc := fun A x d => (d, inl x).
Instance proc_bind : MBind proc := fun A B k m d =>
  match m d with
  | (d, inl x) => k x d
  | (d, inr code) => (d, inr code)
  end.

Definition exit {A} (code : Z) : proc A := fun d => (d, inr code).

(** A panic ends the process with code 2. *)
Definition orExit {A} (o : outcome A) : proc A :=
  match o with Ret x => mret x | Fail _ => exit 1 | Panic => exit 2 end.

(** The file system's answer to the writing of a file: it refuses to create
    it, it fails when part of it may have been written, or it writes it. *)
Inductive written := Refused | Partial | Complete.

(** What [main] gets from outside. *)
Record env := {
  e_mkdirFails : string -> bool;
  e_write : string -> written;
  e_Join : string -> string -> string;      (** [filepath.Join] *)
  e_startedISO : string;
  e_endedISO : string;
  e_runStamp : string;                      (** the date of [runIDSlug] *)
  e_Getenv : string -> string;
  e_GOOS : string;
  e_GOARCH : string;
  e_NumCPU : Z;
  e_Output : list string -> option string;  (** [exec.Command(...).Output()] *)
  e_sha256Hex : string -> string;
  e_Marshal : json -> string;               (** the text [json.Marshal] makes *)
  e_rangeStages : stageMap -> list (string * list float64);   (** the order of a range over the map *)
}.

Section Main.
Context (E : env).

Definition mkdirAll (path : string) : proc unit := if e_mkdirFails E path then exit 1 else mret tt.

(** [os.WriteFile], whose errors [main] answers with [os.Exit(1)]: one in the
    middle of the writing leaves part of the file. *)
Definition writeFile (path : string) (c : content) : proc unit := fun d =>
  match e_write E path with
  | Refused => (d, inr 1)
  | Partial => (d ++ [(path, Torn c)], inr 1)
  | Complete => (d ++ [(path, Whole c)], inl tt)
  end.

(** [os.Create], whose error is an [os.Exit(1)], and the writing of the lines
    and [Close], whose errors are ignored. *)
Definition writeLines (path : string) (l : list json) : proc unit := fun d =>
  match e_write E path with
  | Refused => (d, inr 1)
  | Partial => (d ++ [(path, Torn (JsonLines l))], inl tt)
  | Complete => (d ++ [(path, Whole (JsonLines l))], inl tt)
  end.

(** [writeJSON], whose errors [main] answers with [os.Exit(1)]. *)
Definition writeJSON (path : string) (v : json) : proc unit :=
  if encodable v then writeFile path (Json v) else exit 1.

(** ** Units *)

Record unitMeta := {
  u_id : string;
  u_title : string;
  u_stages : list string;
  u_scalarNames : list string;
}.

Definition unitTable (id : string) : option unitMeta :=
  if bool_decide (id = "1.1") then Some {|
    u_id := "1.1";
    u_title := "Benchmark current Go exporter marshal + durable wait latency";
    u_stages := ["marshal"; "enqueue"; "await_durable"];
    u_scalarNames := ["total_throughput_records_per_sec"; "total_throughput_bytes_per_sec";
                      "p99_end_to_end_durable_latency_ms"] |}
  else if bool_decide (id = "1.2") then Some {|
    u_id := "1.2";
    u_title := "Benchmark current Go Buffer producer encode, S3/MinIO put, manifest append";
    u_stages := ["encode"; "compress"; "object_put"; "manifest_append"];
    u_scalarNames := ["total_throughput_records_per_sec"; "manifest_cas_conflict_rate"] |}
  else None.

(** ** Aggregation *)

Definition isExporter (a : args) : bool := bool_decide (mode a = "exporter").

Definition observations (name : string) (r : iterationResult) : list float64 :=
  default [] (StageObservations r !! name).

Definition throughput (n : Z) (r : iterationResult) : float64 :=
  fdiv (float_of n) (fmax (ElapsedSeconds r) (lit 1 1000000000)).

Definition thrRecsPerSec (r : iterationResult) : float64 := throughput (RecordsProcessed r) r.
Definition thrBytesPerSec (r : iterationResult) : float64 := throughput (BytesProcessed r) r.

Definition ms (x : float64) : float64 := fmul x (float_of 1000).

Definition durLatencyP99Ms (a : args) (r : iterationResult) : outcome float64 :=
  let s := observations (if isExporter a then "await_durable" else "append_total") r in
  x ← percentile s (lit 99 100);
  Ret (ms x).

Definition iterationElapsed (rs : list iterationResult) : list float64 := ElapsedSeconds <$> rs.

Definition traverse {A B} (f : A -> outcome B) : list A -> outcome (list B) :=
  fix go l := match l with
              | [] => Ret []
              | x :: l => y ← f x; ys ← go l; Ret (y :: ys)
              end.

(** The aggregate of a stage over all iterations. *)
Definition stageOut (iters : list iterationResult) (name : string) : outcome json :=
  let all := iters ≫= observations name in
  m ← median all;
  p10 ← percentile all (lit 1 10);
  p90 ← percentile all (lit 9 10);
  Ret (JObject [("name", JString name); ("median_ms_per_op", JFloat (ms m)); ("p10", JFloat (ms p10));
                ("p90", JFloat (ms p90));
                ("ops_per_sec", JFloat (fdiv (float_of (len all)) (sumOf (iterationElapsed iters))))]).

Definition aggJson (a : scalarAgg) : json :=
  JObject [("median", JFloat (Median a)); ("p10", JFloat (P10 a)); ("p90", JFloat (P90 a)); ("n", JInt (N_ a))].

Definition scalarsOut (a : args) (iters : list iterationResult) : outcome json :=
  p99s ← traverse (durLatencyP99Ms a) iters;
  recs ← aggregate (thrRecsPerSec <$> iters);
  byts ← aggregate (thrBytesPerSec <$> iters);
  last ← (if isExporter a
          then agg ← aggregate p99s; Ret ("p99_end_to_end_durable_latency_ms", aggJson agg)
          else agg ← aggregate (iters ≫= observations "_conflict_rate_const");
               Ret ("manifest_cas_conflict_rate", aggJson agg));
  Ret (JObject [("total_throughput_records_per_sec", aggJson recs);
                ("total_throughput_bytes_per_sec", aggJson byts); last]).

Definition stagePerIter (r : iterationResult) (name : string) : outcome json :=
  m ← median (observations name r);
  p10 ← percentile (observations name r) (lit 1 10);
  p90 ← percentile (observations name r) (lit 9 10);
  Ret (JObject [("name", JString name); ("median_ms_per_op", JFloat (ms m)); ("p10", JFloat (ms p10));
                ("p90", JFloat (ms p90))]).

Definition rawName (i : Z) : string := "raw/run-" +:+ pretty i +:+ ".metrics.jsonl".

Definition perIter (unit : unitMeta) (r : iterationResult) : outcome json :=
  stages ← traverse (stagePerIter r) (u_stages unit);
  Ret (JObject
    [("iteration", JInt (Iteration r));
     ("scalars", JObject
        [("iteration_elapsed_seconds", JFloat (ElapsedSeconds r));
         ("iteration_throughput_records_per_sec", JFloat (thrRecsPerSec r));
         ("iteration_throughput_bytes_per_sec", JFloat (thrBytesPerSec r));
         ("iteration_records_processed", JFloat (float_of (RecordsProcessed r)))]);
     ("stages", JArray stages); ("histograms", JObject []);
     ("raw_log", JString (rawName (Iteration r))); ("raw_metrics", JString (rawName (Iteration r)))]).

Definition resultsJson (a : args) (unit : unitMeta) (iters : list iterationResult) : outcome json :=
  stages ← traverse (stageOut iters) (u_stages unit);
  scalars ← scalarsOut a iters;
  iterations ← traverse (perIter unit) iters;
  Ret (JObject [("schema_version", JInt 2); ("scalars", scalars); ("stages", JArray stages);
                ("histograms", JObject []); ("iterations", JArray iterations)]).

(** ** Metadata *)

Definition workloadJson (a : args) : json :=
  JObject [("kind", JString "buffer-synthetic-bytes");
           ("records_per_batch", JInt (recordsPerBatch a));
           ("batches", JInt (batches a));
           ("record_bytes", JInt (recordBytes a));
           ("compression", JString "none");
           ("schema", JString "buffer-bytes-v1");
           ("generator", JString ("opendata-go cmd/bench --mode " +:+ mode a))].

Definition fingerprint (a : args) : string :=
  "buffer-go-" +:+ pretty (recordsPerBatch a) +:+ "rec-per-batch-" +:+ pretty (batches a) +:+
  "batches-" +:+ pretty (recordBytes a) +:+ "bytes-no-compression".

(** [strings.TrimSpace], of ASCII text. *)
Definition isSpace (c : ascii) : bool :=
  let n := Ascii.nat_of_ascii c in ((9 <=? n) && (n <=? 13) || (n =? 32))%nat.

Fixpoint trimLeft (l : list ascii) : list ascii :=
  match l with c :: l' => if isSpace c then trimLeft l' else l | [] => [] end.

Definition TrimSpace (s : string) : string :=
  String.string_of_list_ascii (rev (trimLeft (rev (trimLeft (String.list_ascii_of_string s))))).

(** [run]: the output of a command, or nothing. *)
Definition runCommand (cmd : list string) : string :=
  match e_Output E cmd with Some out => TrimSpace out | None => "" end.

Definition gitInfo (repo : string) : json :=
  let rev := runCommand ["git"; "-C"; repo; "rev-parse"; "HEAD"] in
  let rev := if (7 <? String.length rev)%nat then String.substring 0 7 rev else rev in
  let branch := runCommand ["git"; "-C"; repo; "rev-parse"; "--abbrev-ref"; "HEAD"] in
  let dirty := negb (bool_decide (runCommand ["git"; "-C"; repo; "status"; "--porcelain"] = "")) in
  JObject [("rev", JString rev); ("branch", JString branch); ("dirty", JBool dirty)].

Definition variedParamObject (a : args) : json :=
  if bool_decide (variedParamKind a = "") || bool_decide (variedParamName a = "") ||
     bool_decide (variedParamBaseline a = "") || bool_decide (variedParamCandidate a = "")
  then JNull
  else JObject [("kind", JString (variedParamKind a)); ("name", JString (variedParamName a));
                ("baseline", JString (variedParamBaseline a));
                ("candidate", JString (variedParamCandidate a))].

Definition hostJson : json :=
  JObject [("machine", JString (e_Getenv E "HOSTNAME"));
           ("os", JString (e_GOOS E +:+ " " +:+ e_GOARCH E));
           ("cpu_model", JString (e_Getenv E "CPU_MODEL"));
           ("cpu_count_logical", JInt (e_NumCPU E));
           ("memory_gb", JInt (-1)); ("container", JNull); ("low_perturbation", JBool true)].

Definition gitMap : json :=
  let repoPath := e_Getenv E "OPENDATA_GO_REPO_PATH" in
  let repoPath := if bool_decide (repoPath = "") then "." else repoPath in
  JObject [("opendata", JNull); ("opendata-go", gitInfo repoPath); ("opendata-contrib", JNull)].

Definition metadataJson (a : args) (unit : unitMeta) : json :=
  JObject
  [("schema_version", JInt 2);
   ("phase", JString "phase01-baseline");
   ("unit_id", JString (u_id unit));
   ("unit_title", JString (u_title unit));
   ("owner", JString "Benchmark/Perf Implementor");
   ("started_at", JString (e_startedISO E));
   ("ended_at", JString (e_endedISO E));
   ("experiment", JObject
     [("kind", JString "ab"); ("dimensions", JArray []);
      ("fixed_controls", JObject
        [("records_per_batch", JInt (recordsPerBatch a)); ("batches", JInt (batches a));
         ("record_bytes", JInt (recordBytes a))]);
      ("matrix_file", JNull)]);
   ("varied_param", variedParamObject a);
   ("git", gitMap);
   ("host", hostJson);
   ("binary", JObject
     [("name", JString "opendata-go-cmd-bench");
      ("build_command", JString "go build -o bench ./cmd/bench");
      ("build_rev", JString "see git.opendata-go.rev");
      ("build_flags", JString "GOAMD64=v3 (recommend); default goarch otherwise")]);
   ("config", JObject
     [("runtime_yaml_path", JNull); ("effective_yaml_hash", JString "n/a");
      ("effective_yaml", JObject
        [("object_store", JString "InMemory"); ("flush_size_bytes", JInt (a_flushSizeBytes a));
         ("flush_interval_ms", JInt 50); ("max_buffered_inputs", JInt 1024);
         ("batch_compression", JString "none"); ("encode_concurrency", JInt (a_encodeConcurrency a));
         ("upload_concurrency", JInt (a_uploadConcurrency a));
         ("manifest_append_batch_size", JInt (a_manifestAppendBatchSize a))])]);
   ("services", JObject
     [("clickhouse", JNull);
      ("object_store", JObject
        [("kind", JString "in-memory"); ("endpoint", JNull); ("region", JNull); ("bucket", JNull);
         ("container_image", JNull)]);
      ("iceberg", JNull)]);
   ("workload", JObject
     [("generator", JString "opendata-go cmd/bench");
      ("generator_rev", JString "see git.opendata-go.rev");
      ("seed", JInt (seed a));
      ("schema", JString "buffer-bytes-v1");
      ("schema_hash", JString ("sha256:" +:+ e_sha256Hex E "buffer-bytes-v1"));
      ("fingerprint", JString (fingerprint a));
      ("fingerprint_hash", JString ("sha256:" +:+ e_sha256Hex E (e_Marshal E (workloadJson a))));
      ("canonical_path", JString "raw/workload.canonical.json");
      ("records_total", JInt (int64 (recordsPerBatch a * batches a)));
      ("batches_total", JInt (batches a));
      ("records_per_batch", JInt (recordsPerBatch a));
      ("approx_bytes_per_record", JInt (recordBytes a));
      ("encoding", JString "raw-bytes"); ("compression", JString "none");
      ("attribute_cardinality", JNull)]);
   ("iterations", JInt (iterations a));
   ("baseline_run", JNull);
   ("notes", JString (notes a))].

(** ** [main] *)

(** A line of the raw samples. *)
Definition rawLine (r : iterationResult) (i : Z) (stage : string) (idx : nat) (secs : float64) : json :=
  JObject [("ts_unix_ms", JInt (int64 (StartedUnixMs r + Z.of_nat idx)));
           ("metric", JString ("stage." +:+ stage +:+ ".duration_seconds"));
           ("value", JFloat secs);
           ("labels", JObject [("iteration", JInt i); ("batch_index", JInt (Z.of_nat idx))])].

(** The errors of the encoder are ignored: a line it refuses is missing. *)
Definition rawLines (r : iterationResult) (i : Z) : list json :=
  filter (fun j => encodable j = true)
    (e_rangeStages E (StageObservations r) ≫= fun st => imap (rawLine r i st.1) st.2).

Definition rawPath (rawDir : string) (i : Z) : string :=
  e_Join E rawDir ("run-" +:+ pretty i +:+ ".metrics.jsonl").

(** [iterate] is what the iterations return. *)
Definition benchIteration (iterate : Z -> outcome iterationResult) (a : args) (rawDir : string) (i : Z)
    (iters : list iterationResult) : proc (list iterationResult) :=
  r ← (if bool_decide (mode a = "exporter") || bool_decide (mode a = "producer")
       then orExit (iterate i) else exit 2);
  _ ← writeLines (rawPath rawDir i) (rawLines r i);
  mret (iters ++ [r]).

Fixpoint benchIterations (iterate : Z -> outcome iterationResult) (a : args) (rawDir : string)
    (todo : list Z) (iters : list iterationResult) : proc (list iterationResult) :=
  match todo with
  | [] => mret iters
  | i :: todo =>
      iters ← benchIteration iterate a rawDir i iters;
      benchIterations iterate a rawDir todo iters
  end.

Definition runDirOf (a : args) : string := e_Join E (outputDir a) (e_runStamp E +:+ "-" +:+ changeSlug a).

(** [main] on the flags as parsed. *)
Definition main (iterate : Z -> outcome iterationResult) (flags : args) : proc unit :=
  a ← (match parseArgs flags with inl a => mret a | inr code => exit code end);
  unit ← (match unitTable (unitID a) with Some unit => mret unit | None => exit 2 end);
  let runDir := runDirOf a in
  let rawDir := e_Join E runDir "raw" in
  _ ← mkdirAll rawDir;
  _ ← orExit (makeCap (iterations a));
  iters ← benchIterations iterate a rawDir (seqZ 1 (iterations a)) [];
  results ← orExit (resultsJson a unit iters);
  _ ← writeJSON (e_Join E runDir "results.json") results;
  _ ← writeFile (e_Join E rawDir "workload.canonical.json") (Json (workloadJson a));
  writeJSON (e_Join E runDir "metadata.json") (metadataJson a unit).

(** ** What is written *)

(** The files of a run that ends normally, in the order they are written; the
    samples of an iteration may be torn. *)
Definition rawFile (rawDir : string) (i : Z) (r : iterationResult) : string * file :=
  let c := JsonLines (rawLines r i) in
  (rawPath rawDir i, match e_write E (rawPath rawDir i) with Complete => Whole c | _ => Torn c end).

Definition artifacts (a : args) (unit : unitMeta) (iters : list iterationResult) (results : json) : files :=
  let runDir := runDirOf a in
  let rawDir := e_Join E runDir "raw" in
  zip_with (rawFile rawDir) (seqZ 1 (iterations a)) iters ++
  [(e_Join E runDir "results.json", Whole (Json results));
   (e_Join E rawDir "workload.canonical.json", Whole (Json (workloadJson a)));
   (e_Join E runDir "metadata.json", Whole (Json (metadataJson a unit)))].

Definition artifactPaths (a : args) : list string :=
  let runDir := runDirOf a in
  let rawDir := e_Join E runDir "raw" in
  (rawPath rawDir <$> seqZ 1 (iterations a)) ++
  [e_Join E runDir "results.json"; e_Join E rawDir "workload.canonical.json"; e_Join E runDir "metadata.json"].

Lemma bind_inl {A B} (m : proc A) (k : A -> proc B) d d' y :
  (m ≫= k) d = (d', inl y) -> exists d1 x, m d = (d1, inl x) /\ k x d1 = (d', inl y).
Proof. unfold mbind, proc_bind. destruct (m d) as [d1 [x|c]]; [eauto|done]. Qed.

Lemma orExit_inl {A} (o : outcome A) d d' x : orExit o d = (d', inl x) -> o = Ret x /\ d' = d.
Proof. destruct o; cbn; [by intros [= -> ->]|done|done]. Qed.

Lemma writeFile_inl path c d d' u : writeFile path c d = (d', inl u) -> d' = d ++ [(path, Whole c)].
Proof. unfold writeFile. destruct (e_write E path); by intros [= <- _]. Qed.

Lemma writeLines_inl rawDir i r d d' u :
  writeLines (rawPath rawDir i) (rawLines r i) d = (d', inl u) -> d' = d ++ [rawFile rawDir i r].
Proof. unfold writeLines, rawFile. destruct (e_write E _); by intros [= <- _]. Qed.

Lemma writeJSON_inl path v d d' u :
  writeJSON path v d = (d', inl u) -> encodable v = true /\ d' = d ++ [(path, Whole (Json v))].
Proof. unfold writeJSON. destruct (encodable v); [|done]. by intros H%writeFile_inl. Qed.

Lemma benchIterations_inl iterate a rawDir todo : forall iters d d' iters',
  benchIterations iterate a rawDir todo iters d = (d', inl iters') ->
  exists rs, iters' = iters ++ rs /\ Forall2 (fun i r => iterate i = Ret r) todo rs /\
    d' = d ++ zip_with (rawFile rawDir) todo rs.
Proof.
  induction todo as [|i todo IH]; intros iters d d' iters' H; cbn [benchIterations] in H.
  - injection H as <- <-. exists []. by rewrite !app_nil_r.
  - apply bind_inl in H as (d1 & iters1 & H1 & H). unfold benchIteration in H1.
    apply bind_inl in H1 as (d2 & r & Hr & H1). apply bind_inl in H1 as (d3 & u & Hw%writeLines_inl & H1).
    injection H1 as <- <-. destruct (_ || _); [|done]. apply orExit_inl in Hr as [Hr ->].
    apply IH in H as (rs & -> & Hrs & ->). exists (r :: rs). subst d3. rewrite <- !(assoc_L (++)).
    by split_and!; [|constructor|].
Qed.

(** *** Failures

    [m] writes the files at [paths]; if it exits, some may be missing at the end. *)
Definition writes {A} (m : proc A) (paths : list string) : Prop := forall d,
  match m d with
  | (d', inl _) => exists w, d' = d ++ w /\ w.*1 = paths
  | (d', inr code) => (code = 1 \/ code = 2) /\ exists w rest, d' = d ++ w /\ paths = w.*1 ++ rest
  end.

Lemma writes_bind {A B} (m : proc A) (k : A -> proc B) ps qs :
  writes m ps -> (forall x, writes (k x) qs) -> writes (m ≫= k) (ps ++ qs).
Proof.
  intros Hm Hk d. specialize (Hm d). unfold mbind, proc_bind. destruct (m d) as [d1 [x|code]].
  - destruct Hm as (w & -> & <-). specialize (Hk x (d ++ w)). destruct (k x (d ++ w)) as [d2 [y|code]].
    + destruct Hk as (w' & -> & <-). exists (w ++ w'). by rewrite fmap_app, (assoc_L (++)).
    + destruct Hk as (Hc & w' & rest & -> & ->). split; [done|]. exists (w ++ w'), rest.
      by rewrite fmap_app, !(assoc_L (++)).
  - destruct Hm as (Hc & w & rest & -> & ->). split; [done|]. exists w, (rest ++ qs).
    by rewrite (assoc_L (++)).
Qed.

Lemma writes_ret {A} (x : A) : writes (mret x) [].
Proof. intros d. exists []. by rewrite app_nil_r. Qed.

Lemma writes_exit {A} code ps : code = 1 \/ code = 2 -> writes (@exit A code) ps.
Proof. intros Hc d. cbn. split; [done|]. exists [], ps. by rewrite app_nil_r. Qed.

Lemma writes_orExit {A} (o : outcome A) : writes (orExit o) [].
Proof. destruct o; [apply writes_ret|apply writes_exit; by left|apply writes_exit; by right]. Qed.

Lemma writes_writeFile path c : writes (writeFile path c) [path].
Proof.
  intros d. unfold writeFile. destruct (e_write E path).
  - split; [by left|]. exists [], [path]. by rewrite app_nil_r.
  - split; [by left|]. exists [(path, Torn c)], []. done.
  - by exists [(path, Whole c)].
Qed.

Lemma writes_writeLines path l : writes (writeLines path l) [path].
Proof.
  intros d. unfold writeLines. destruct (e_write E path).
  - split; [by left|]. exists [], [path]. by rewrite app_nil_r.
  - by exists [(path, Torn (JsonLines l))].
  - by exists [(path, Whole (JsonLines l))].
Qed.

Lemma writes_writeJSON path v : writes (writeJSON path v) [path].
Proof. unfold writeJSON. destruct (encodable v); [apply writes_writeFile|apply writes_exit; by left]. Qed.

Lemma writes_benchIterations iterate a rawDir todo : forall iters,
  writes (benchIterations iterate a rawDir todo iters) (rawPath rawDir <$> todo).
Proof.
  induction todo as [|i todo IH]; intros iters; [apply writes_ret|]. cbn [benchIterations].
  refine (writes_bind _ _ [_] (rawPath rawDir <$> todo) _ IH). unfold benchIteration.
  refine (writes_bind _ _ [] [_] _ (fun r => writes_bind _ _ [_] [] (writes_writeLines _ _) (fun _ => writes_ret _))).
  destruct (_ || _); [apply writes_orExit|apply writes_exit; by right].
Qed.

(** A process that writes a file last has not written it in full if it exits. *)
Definition unfinished (w : files) (rest : list string) : Prop :=
  rest <> [] \/ exists w0 path c, w = w0 ++ [(path, Torn c)].

Definition writes_last {A} (m : proc A) (paths : list string) : Prop := forall d,
  match m d with
  | (d', inl _) => exists w, d' = d ++ w /\ w.*1 = paths
  | (d', inr code) => (code = 1 \/ code = 2) /\
      exists w rest, d' = d ++ w /\ paths = w.*1 ++ rest /\ unfinished w rest
  end.

Lemma writes_last_bind {A B} (m : proc A) (k : A -> proc B) ps qs :
  qs <> [] -> writes m ps -> (forall x, writes_last (k x) qs) -> writes_last (m ≫= k) (ps ++ qs).
Proof.
  intros Hqs Hm Hk d. specialize (Hm d). unfold mbind, proc_bind. destruct (m d) as [d1 [x|code]].
  - destruct Hm as (w & -> & <-). specialize (Hk x (d ++ w)). destruct (k x (d ++ w)) as [d2 [y|code]].
    + destruct Hk as (w' & -> & <-). exists (w ++ w'). by rewrite fmap_app, (assoc_L (++)).
    + destruct Hk as (Hc & w' & rest & -> & -> & Hu). split; [done|]. exists (w ++ w'), rest.
      rewrite fmap_app, !(assoc_L (++)). split_and!; [done..|].
      destruct Hu as [?|(w0 & path & c & ->)]; [by left|right]. exists (w ++ w0), path, c.
      by rewrite (assoc_L (++)).
  - destruct Hm as (Hc & w & rest & -> & ->). split; [done|]. exists w, (rest ++ qs).
    rewrite (assoc_L (++)). split_and!; [done..|]. left. by intros [_ ?]%app_nil.
Qed.

Lemma writes_last_writeJSON path v : writes_last (writeJSON path v) [path].
Proof.
  intros d. unfold writeJSON, writeFile. destruct (encodable v); [destruct (e_write E path)|].
  - split; [by left|]. exists [], [path]. rewrite app_nil_r. split_and!; [done..|by left].
  - split; [by left|]. exists [(path, Torn (Json v))], []. split_and!; [done..|right]. by exists [], path, (Json v).
  - by exists [(path, Whole (Json v))].
  - split; [by left|]. exists [], [path]. rewrite app_nil_r. split_and!; [done..|by left].
Qed.

Lemma mkdirAll_inl path d d' u : mkdirAll path d = (d', inl u) -> d' = d.
Proof. unfold mkdirAll. destruct (e_mkdirFails E path); [done|]. by intros [= <- _]. Qed.

Lemma writes_last_ret {A B} (x : A) (k : A -> proc B) ps : writes_last (k x) ps -> writes_last (mret x ≫= k) ps.
Proof. exact (fun H => H). Qed.

(** [main] once the flags are read. *)
Lemma main_writes iterate flags a :
  parseArgs flags = inl a -> writes_last (main iterate flags) (artifactPaths a).
Proof.
  intros Hp. unfold main, artifactPaths. rewrite Hp. apply writes_last_ret.
  refine (writes_last_bind _ _ [] _ _ _ (fun unit => _)); [by intros [_ ?]%app_nil| |].
  { destruct (unitTable (unitID a)); [apply writes_ret|apply writes_exit; by right]. }
  refine (writes_last_bind _ _ [] _ _ _ (fun _ => _)); [by intros [_ ?]%app_nil| |].
  { unfold mkdirAll. destruct (e_mkdirFails E _); [apply writes_exit; by left|apply writes_ret]. }
  refine (writes_last_bind _ _ [] _ _ (writes_orExit _) (fun _ => _)); [by intros [_ ?]%app_nil|].
  refine (writes_last_bind _ _ _ _ _ (writes_benchIterations _ _ _ _ _) (fun iters => _)); [done|].
  refine (writes_last_bind _ _ [] _ _ (writes_orExit _) (fun results => _)); [done|].
  refine (writes_last_bind _ _ [_] _ _ (writes_writeJSON _ _) (fun _ => _)); [done|].
  refine (writes_last_bind _ _ [_] _ _ (writes_writeFile _ _) (fun _ => _)); [done|].
  apply writes_last_writeJSON.
Qed.

Lemma main_inl iterate flags d u :
  main iterate flags [] = (d, inl u) -> exists a unit iters results,
    parseArgs flags = inl a /\ unitTable (unitID a) = Some unit /\
    Forall2 (fun i r => iterate i = Ret r) (seqZ 1 (iterations a)) iters /\
    resultsJson a unit iters = Ret results /\ encodable results = true /\
    d = artifacts a unit iters results.
Proof.
  unfold main. intros H. apply bind_inl in H as (d1 & a & Ha & H).
  destruct (parseArgs flags) as [a'|c]; [|done]. injection Ha as <- <-.
  apply bind_inl in H as (d2 & unit & Hu & H). destruct (unitTable (unitID a')) as [unit'|] eqn:Eu; [|done].
  injection Hu as <- <-. apply bind_inl in H as (d3 & u1 & ->%mkdirAll_inl & H).
  apply bind_inl in H as (d4 & u2 & [_ ->]%orExit_inl & H).
  apply bind_inl in H as (d5 & iters & (rs & -> & Hrs & ->)%benchIterations_inl & H).
  apply bind_inl in H as (d6 & results & [Hres ->]%orExit_inl & H).
  apply bind_inl in H as (d7 & u3 & [Henc ->]%writeJSON_inl & H).
  apply bind_inl in H as (d8 & u4 & ->%writeFile_inl & H). apply writeJSON_inl in H as [_ ->].
  exists a', unit', rs, results. split_and!; try done. unfold artifacts. by rewrite <- !(assoc_L (++)).
Qed.
End Main.

(** C28. What a run of the benchmark leaves behind, on a file system that may
    refuse a file or fail in the middle of one. If [main] ends normally, every
    iteration returned a result, the files are, in order, the samples of each
    iteration, the results, the workload and the metadata, the last three
    written in full, and no number in the results is a NaN or an infinity; but
    the samples may be torn. Otherwise it exits with code 1 or 2, with the same
    files in the same order up to some point, where the last one may be torn; in
    any case the metadata are not there in full. *)
Theorem main_artifacts E iterate flags :
  match main E iterate flags [] with
  | (files, inl _) => exists a samples results workload metadata,
      parseArgs flags = inl a /\
      Forall (fun i => exists r, iterate i = Ret r) (seqZ 1 (iterations a)) /\
      files.*1 = artifactPaths E a /\
      files = samples ++ [(e_Join E (runDirOf E a) "results.json", Whole (Json results));
                          (e_Join E (e_Join E (runDirOf E a) "raw") "workload.canonical.json", Whole workload);
                          (e_Join E (runDirOf E a) "metadata.json", Whole metadata)] /\
      encodable results = true
  | (files, inr code) => (code = 1 \/ code = 2) /\
      match parseArgs flags with
      | inl a => exists rest, artifactPaths E a = files.*1 ++ rest /\ unfinished files rest
      | inr _ => code = 2 /\ files = []
      end
  end.
Proof.
  destruct (main E iterate flags []) as [d [u|code]] eqn:H.
  - destruct (main_inl _ _ _ _ _ H) as (a & unit & iters & results & Hp & _ & Hit & _ & Henc & ->).
    pose proof (main_writes E iterate flags a Hp []) as Hw. rewrite H in Hw. destruct Hw as (w & Hw & Hpaths).
    cbn in Hw. subst w. do 5 eexists. split_and!; [done| |done|reflexivity|done].
    apply Forall_lookup. intros k i Hi. destruct (Forall2_lookup_l _ _ _ _ _ Hit Hi) as (r & _ & ?). by exists r.
  - destruct (parseArgs flags) as [a|c] eqn:Ep.
    + pose proof (main_writes E iterate flags a Ep []) as Hw. rewrite H in Hw.
      destruct Hw as (Hc & w & rest & -> & -> & Hu). split; [done|]. by exists rest.
    + unfold main in H. rewrite Ep in H. injection H as <- <-. unfold parseArgs in Ep.
      repeat case_bool_decide; simplify_eq; auto.
Qed.

(** C33. With [--iterations 0] the benchmark fails on every machine: nothing was
    timed, so the operations per second of the first stage are 0/0, which JSON
    cannot hold; [main] exits with code 1 and no file is written. *)
Theorem zero_iterations_fail E iterate flags a unit :
  parseArgs flags = inl a -> unitTable (unitID a) = Some unit -> iterations a = 0 ->
  main E iterate flags [] = ([], inr 1).
Proof.
  intros Hp Hu H0. unfold main. rewrite Hp. unfold mbind, proc_bind, mret, proc_ret, mkdirAll. rewrite Hu.
  destruct (e_mkdirFails E _); [done|]. rewrite H0. unfold unitTable in Hu.
  assert (exists j, resultsJson a unit [] = Ret j /\ encodable j = false) as (j & Ej & Hj).
  { unfold resultsJson, scalarsOut. repeat case_bool_decide; simplify_eq;
      destruct (isExporter a); eexists; split; vm_compute; reflexivity. }
  change (seqZ 1 0) with (@nil Z). cbn [orExit makeCap Z.ltb Z.compare benchIterations mret proc_ret]. rewrite Ej.
  cbn [orExit mret proc_ret]. unfold writeJSON. by rewrite Hj.
Qed.

(** ** Whole runs *)

(** What an iteration of [main] may answer. *)
Definition ran (R : rand_lib) (z : zstd_lib) (runID : Z -> string) (range : readyMap -> list uploadCompletion)
    (a : args) (i : Z) (o : outcome iterationResult) : Prop :=
  if isExporter a
  then exists s, runExporterIteration R z (runID i) range i a
         (initial (withDefaults (benchConfig "1.1" i a)) NewInMemory) s o
  else exists s, runProducerIteration R z (runID i) range i a
         (initial (withDefaults (benchConfig "1.2" i a)) NewInMemory) s o.

(** The unit that describes a mode. *)
Definition modeUnit (a : args) : string := if isExporter a then "1.1" else "1.2".

Definition complete (a : args) (r : iterationResult) : Prop :=
  RecordsProcessed r = batches a * recordsPerBatch a /\
  BytesProcessed r = batches a * recordsPerBatch a * recordBytes a /\
  forall unit name, unitTable (modeUnit a) = Some unit -> name ∈ u_stages unit ->
    samples name (StageObservations r) = batches a.

Lemma ran_complete R `{!RandLaws R} z `{!ZstdLaws z} runID range a i r :
  (forall m, range m ≡ₚ values m) -> zstd_NewReader z = None ->
  ran R z runID range a i (Ret r) -> complete a r.
Proof.
  intros Hrange Hz Hran. unfold ran, complete, modeUnit in *. destruct (isExporter a); destruct Hran as [s Hs].
  - pose proof (exporter_finish R z _ range Hrange Hz i a _ _ _ (rtc_refl _ _) Hs) as (Hb & H). cbv zeta in H.
    rewrite Z2Nat.id in H by lia. destruct H as (H1 & H2 & H3 & _). split_and!; [done..|].
    intros unit name [= <-] Hin. rewrite Forall_forall in H3. by apply H3.
  - pose proof (producer_finish R z _ range Hrange Hz i a _ _ _ (rtc_refl _ _) Hs) as (Hb & H). cbv zeta in H.
    rewrite Z2Nat.id in H by lia. destruct H as (H1 & H2 & H3 & _). split_and!; [done..|].
    intros unit name [= <-] Hin. rewrite Forall_forall in H3. apply H3. cbn [u_stages] in Hin. set_solver.
Qed.

(** C27. A run that ends normally reports the whole workload: there is one result
    per iteration, each of [batches] times [recordsPerBatch] records of
    [recordBytes] bytes, with [batches] samples of each stage of the mode's unit;
    and the results that were written are the aggregates of just these. *)
Theorem main_measures R `{!RandLaws R} z `{!ZstdLaws z} runID range E iterate flags a written :
  (forall m, range m ≡ₚ values m) -> zstd_NewReader z = None -> parseArgs flags = inl a ->
  (forall i, 1 <= i <= iterations a -> ran R z runID range a i (iterate i)) ->
  main E iterate flags [] = (written, inl tt) ->
  exists unit iters results, unitTable (unitID a) = Some unit /\ len iters = Z.max 0 (iterations a) /\
    Forall (complete a) iters /\ resultsJson a unit iters = Ret results /\
    (e_Join E (runDirOf E a) "results.json", Whole (Json results)) ∈ written.
Proof.
  intros Hrange Hz Hp Hran Hm. destruct (main_inl E iterate flags written tt Hm)
    as (a' & unit & iters & results & Hp' & Hu & Hit & Hres & _ & ->). rewrite Hp in Hp'. injection Hp' as <-.
  exists unit, iters, results. split_and!; try done.
  - apply Forall2_length in Hit. unfold len. rewrite <- Hit, length_seqZ. lia.
  - apply Forall_lookup. intros k r Hk. destruct (Forall2_lookup_r _ _ _ _ _ Hit Hk) as (i & Hi & Hr).
    apply lookup_seqZ in Hi as [-> Hi]. eapply (ran_complete R z runID range); [done..|].
    rewrite <- Hr. apply Hran. lia.
  - unfold artifacts. set_solver.
Qed.

(** *** A machine *)

Definition sample_env : env := {|
  e_mkdirFails := fun _ => false; e_write := fun _ => Complete; e_Join := fun p q => p +:+ "/" +:+ q;
  e_startedISO := "2024-01-01T00:00:00Z"; e_endedISO := "2024-01-01T00:00:01Z"; e_runStamp := "2024-01-01T0000";
  e_Getenv := fun _ => ""; e_GOOS := "linux"; e_GOARCH := "amd64"; e_NumCPU := 8;
  e_Output := fun _ => None; e_sha256Hex := fun _ => ""; e_Marshal := fun _ => "";
  e_rangeStages := map_to_list |}.

Definition sample_main : files * (unit + Z) := main sample_env (fun _ => Ret sample_result) sample_args [].

Definition producer_args (unitID : string) (iterations : Z) : args :=
  {| mode := "producer"; recordsPerBatch := 1; batches := 1; recordBytes := 2; iterations := iterations;
    seed := 42; outputDir := "out"; unitID := unitID; changeSlug := "baseline"; notes := "";
    a_flushSizeBytes := 1; a_encodeConcurrency := 1; a_uploadConcurrency := 1;
    a_manifestAppendBatchSize := 1; variedParamKind := ""; variedParamName := "";
    variedParamBaseline := ""; variedParamCandidate := "" |}.

Definition producer_result : iterationResult := {|
  Iteration := 1; StartedUnixMs := 0; ElapsedSeconds := Seconds (1000 * Millisecond);
  RecordsProcessed := 1; BytesProcessed := 2;
  StageObservations := list_to_map [("encode", [Seconds 0]); ("compress", [fzero]); ("object_put", [Seconds 0]);
    ("manifest_append", [float_of 1]); ("append_total", [Seconds 0]); ("_conflict_rate_const", [fzero])] |}.

(** The unit is not compared with the mode: [--mode producer --unit-id 1.1]
    succeeds, and reports the exporter's stages, of which it has no samples. *)
Lemma unit_mode_unchecked :
  let a := producer_args "1.1" 1 in
  (exists written, main sample_env (fun _ => Ret producer_result) a [] = (written, inl tt)) /\
  unitID a <> modeUnit a /\
  forall unit, unitTable (unitID a) = Some unit ->
    Forall (fun name => samples name (StageObservations producer_result) = 0) (u_stages unit).
Proof.
  cbv zeta. split_and!; [|discriminate|].
  - exists (main sample_env (fun _ => Ret producer_result) (producer_args "1.1" 1) []).1. vm_compute. reflexivity.
  - intros unit [= <-]. repeat constructor.
Qed.

Lemma zero_iterations_fail_witness : main sample_env (fun _ => Panic) (producer_args "" 0) [] = ([], inr 1).
Proof. eapply zero_iterations_fail; vm_compute; reflexivity. Defined.

Lemma main_measures_witness : exists written results,
  sample_main = (written, inl tt) /\ length written = 4%nat /\
  ("out/2024-01-01T0000-baseline/results.json", Whole (Json results)) ∈ written.
Proof.
  destruct (main_measures zero_rand stored (fun _ => "run") values sample_env (fun _ => Ret sample_result)
    sample_args sample_args sample_main.1 values_range eq_refl) as (unit & iters & results & _ & _ & _ & _ & Hin).
  - reflexivity.
  - intros i Hi. assert (i = 1) as -> by (cbn in Hi; lia). destruct exporter_run as [s [Hs _]]. exists s. exact Hs.
  - vm_compute. reflexivity.
  - exists sample_main.1, results. split_and!; [vm_compute; reflexivity|vm_compute; reflexivity|exact Hin].
Defined.
