(* ===== verification/Gauges.v ===== *)
(** * The in-flight gauges ([src/buffer/producer.go]: [emitInflightSnapshot])

    Every place that changes the budget then reads it back and reports the two
    values to the observer. Each change, each reading and each report is atomic,
    but nothing keeps the three together: the reports of goroutines that change
    the budget at about the same time may come in any order. *)

From S2P Require Import Prelude GoError Bytes Batch Manifest ObjStore Enqueuer Config Budget.
From S2P Require Import Watcher Accumulator Retry Committer Stages Pipeline PipelineInv Durability.
From S2P Require Import Progress Producer.

Local Open Scope Z_scope.

(** ** Emissions *)

(** The places: [AppendContext] reserves bytes, the rotator acquires a slot and
    reconciles the bytes of a batch, and a cancelled append, a dropped batch and
    the resolver release. *)
Inductive mutation :=
  | Reserve (n : Z)
  | AcquireSlot
  | Reconcile (extra : Z)
  | Release (bytes batches : Z).

Definition acquired (r : producerBudget * locked_result) : option producerBudget :=
  match r with (b, Acquired) => Some b | _ => None end.

Definition returned (o : outcome producerBudget) : option producerBudget :=
  match o with Ret b => Some b | _ => None end.

(** [None] if the caller has to wait. *)
Definition mutate (m : mutation) (b : producerBudget) : option producerBudget :=
  match m with
  | Reserve n => acquired (reserveBytes_locked n b)
  | AcquireSlot => acquired (acquireBatchSlot_locked b)
  | Reconcile extra => returned (addReservation extra b)
  | Release bytes batches => returned (release bytes batches b)
  end.

(** What [emitInflightSnapshot] reports when it reads the budget [b]. *)
Definition emitInflightSnapshot (observer : bool) (b : producerBudget) : list event :=
  if observer then
    let '(usedBytes, usedBatches) := snapshot b in
    [OnInflightBytes usedBytes; OnInflightBatches usedBatches]
  else [].

(** A goroutine inside [emitInflightSnapshot], before it reads the budget or
    with reports to make. *)
Inductive emission :=
  | Reading
  | Reporting (reports : list event).

(** The state, with what a proof needs to know of the past: the values the
    budget had, and with each emission and report the number of the change it
    follows. *)
Record gauges := {
  g_budget : producerBudget;
  g_emitters : gmap nat (nat * emission);
  g_past : list (Z * Z);
  g_seen : list (nat * event);
}.

Section Gauges.
Context (observer : bool).

Inductive change : gauges -> gauges -> Prop :=
  | step_change t m b em past seen b' :
      em !! t = None -> mutate m b = Some b' ->
      change {| g_budget := b; g_emitters := em; g_past := past; g_seen := seen |}
        {| g_budget := b'; g_emitters := <[t := (length past, Reading)]> em;
           g_past := past ++ [snapshot b']; g_seen := seen |}.

(** Waiting for capacity touches only the channels. *)
Inductive report : gauges -> gauges -> Prop :=
  | step_wait o b em past seen b' ch :
      locked o b = (b', WaitOn ch) ->
      report {| g_budget := b; g_emitters := em; g_past := past; g_seen := seen |}
        {| g_budget := b'; g_emitters := em; g_past := past; g_seen := seen |}
  | step_read t k b em past seen :
      em !! t = Some (k, Reading) ->
      report {| g_budget := b; g_emitters := em; g_past := past; g_seen := seen |}
        {| g_budget := b; g_emitters := <[t := (k, Reporting (emitInflightSnapshot observer b))]> em;
           g_past := past; g_seen := seen |}
  | step_report t k e es b em past seen :
      em !! t = Some (k, Reporting (e :: es)) ->
      report {| g_budget := b; g_emitters := em; g_past := past; g_seen := seen |}
        {| g_budget := b; g_emitters := <[t := (k, Reporting es)]> em;
           g_past := past; g_seen := seen ++ [(k, e)] |}
  | step_return t k b em past seen :
      em !! t = Some (k, Reporting []) ->
      report {| g_budget := b; g_emitters := em; g_past := past; g_seen := seen |}
        {| g_budget := b; g_emitters := delete t em; g_past := past; g_seen := seen |}.

Definition gauge_step (g g' : gauges) : Prop := change g g' \/ report g g'.

Definition idle (b : producerBudget) : gauges :=
  {| g_budget := b; g_emitters := ∅; g_past := [snapshot b]; g_seen := [] |}.

Definition observed (b : producerBudget) (g : gauges) : Prop := rtc gauge_step (idle b) g.

(** The value a gauge shows: the last one reported. *)
Definition bytesReport (e : event) : option Z := match e with OnInflightBytes n => Some n | _ => None end.
Definition batchesReport (e : event) : option Z := match e with OnInflightBatches n => Some n | _ => None end.

Definition gauge (f : event -> option Z) (g : gauges) : option Z := last (omap f (g_seen g).*2).

(** ** Samples *)

(** The event reports what the budget was at a moment after change [k]. *)
Definition true_since (past : list (Z * Z)) (k : nat) (e : event) : Prop :=
  exists j v, (k <= j)%nat /\ past !! j = Some v /\ (e = OnInflightBytes v.1 \/ e = OnInflightBatches v.2).

Definition emission_ok (past : list (Z * Z)) (em : nat * emission) : Prop :=
  (em.1 < length past)%nat /\
  match em.2 with Reading => True | Reporting es => Forall (true_since past em.1) es end.

Record gauges_ok (g : gauges) : Prop := {
  ok_last : last (g_past g) = Some (snapshot (g_budget g));
  ok_emitters : map_Forall (fun _ => emission_ok (g_past g)) (g_emitters g);
  ok_seen : Forall (fun s => true_since (g_past g) s.1 s.2) (g_seen g);
}.

Lemma true_since_app past k e v : true_since past k e -> true_since (past ++ [v]) k e.
Proof. intros (j & w & Hk & Hj & He). exists j, w. split_and!; [done|by apply lookup_app_l_Some|done]. Qed.

Lemma emission_ok_app past em v : emission_ok past em -> emission_ok (past ++ [v]) em.
Proof.
  intros [Hk H]. split; [rewrite length_app; lia|]. destruct em as [k [|es]]; [done|]. cbn in *.
  eapply Forall_impl; [exact H|]. intros e. apply true_since_app.
Qed.

Lemma wait_snapshot o b b' ch : locked o b = (b', WaitOn ch) -> snapshot b' = snapshot b.
Proof.
  unfold snapshot. destruct o; cbn [locked].
  1,2: unfold reserveBytes_locked, acquireBatchSlot_locked, ensureWaiterLocked, make_chan;
    repeat case_match; intros; by simplify_eq.
  unfold waitDrained_locked, make_chan. repeat case_match; intros; by simplify_eq.
Qed.

Lemma read_true past k b :
  (k < length past)%nat -> last past = Some (snapshot b) -> Forall (true_since past k) (emitInflightSnapshot observer b).
Proof.
  intros Hk Hl. unfold emitInflightSnapshot. destruct observer; [|constructor]. cbn.
  rewrite last_lookup in Hl.
  repeat constructor; exists (Nat.pred (length past)), (snapshot b); (split_and!; [lia|done|]); [by left|by right].
Qed.

Lemma gauge_step_ok g g' : gauge_step g g' -> gauges_ok g -> gauges_ok g'.
Proof.
  intros [H|H] [Hl He Hs]; destruct H; constructor; cbn in *; try done.
  - by rewrite last_snoc.
  - apply map_Forall_insert_2; [split; cbn; [rewrite length_app; cbn; lia|done]|].
    intros i x Hx. apply emission_ok_app, (He i x Hx).
  - eapply Forall_impl; [exact Hs|]. intros [k e]. apply true_since_app.
  - by erewrite (wait_snapshot _ _ b').
  - apply map_Forall_insert_2; [|done]. destruct (He _ _ H) as [Hk _]. split; [done|]. by apply read_true.
  - apply map_Forall_insert_2; [|done]. destruct (He _ _ H) as [Hk Hes]. cbn in *.
    split; [done|]. by inversion Hes.
  - apply Forall_app. split; [done|]. destruct (He _ _ H) as [Hk Hes]. cbn in *. by inversion Hes; constructor.
  - by apply map_Forall_delete.
Qed.

Lemma idle_ok b : gauges_ok (idle b).
Proof. constructor; cbn; [done|apply map_Forall_empty|constructor]. Qed.

Lemma observed_ok b g : observed b g -> gauges_ok g.
Proof. intros H. eapply (rtc_invariant gauge_step _ (idle b)); [apply idle_ok| |exact H]. intros ????. by eapply gauge_step_ok. Qed.
End Gauges.

(** ** Exactness *)

(** One emission, of the goroutine [t], is under way or done. *)
Inductive alone (t k : nat) (v : Z * Z) (g : gauges) : Prop :=
  | alone_reading : g_emitters g = {[t := (k, Reading)]} -> alone t k v g
  | alone_read : g_emitters g = {[t := (k, Reporting [OnInflightBytes v.1; OnInflightBatches v.2])]} -> alone t k v g
  | alone_bytes : g_emitters g = {[t := (k, Reporting [OnInflightBatches v.2])]} ->
      gauge bytesReport g = Some v.1 -> alone t k v g
  | alone_batches : g_emitters g = {[t := (k, Reporting [])]} \/ g_emitters g = ∅ ->
      gauge bytesReport g = Some v.1 -> gauge batchesReport g = Some v.2 -> alone t k v g.

Lemma gauge_snoc f b em past seen k e :
  gauge f {| g_budget := b; g_emitters := em; g_past := past; g_seen := seen ++ [(k, e)] |} =
  match f e with
  | Some n => Some n
  | None => gauge f {| g_budget := b; g_emitters := em; g_past := past; g_seen := seen |}
  end.
Proof.
  unfold gauge. cbn [g_seen]. rewrite fmap_app, omap_app. cbn. destruct (f e); [by rewrite last_snoc|by rewrite app_nil_r].
Qed.

Lemma report_alone t k v g g' :
  report true g g' -> snapshot (g_budget g) = v -> alone t k v g ->
  snapshot (g_budget g') = v /\ alone t k v g'.
Proof.
  intros H Hv Ha. destruct H as [o b em past seen b' ch Hw|t' k' b em past seen Ht|t' k' e es b em past seen Ht
    |t' k' b em past seen Ht]; cbn [g_budget] in *.
  - split; [by erewrite wait_snapshot|]. by destruct Ha; econstructor.
  - split; [done|]. destruct Ha as [He|He|He|[He|He]]; cbn in He; subst em; simplify_map_eq.
    apply alone_read. cbn. by rewrite insert_singleton_eq.
  - split; [done|]. destruct Ha as [He|He|He Hb|[He|He]]; cbn in He; subst em; simplify_map_eq.
    + apply alone_bytes; cbn; [by rewrite insert_singleton_eq|by rewrite gauge_snoc].
    + apply alone_batches; [left; cbn; by rewrite insert_singleton_eq|..]; by rewrite gauge_snoc.
  - split; [done|]. destruct Ha as [He|He|He|[He|He]]; cbn in He; subst em; simplify_map_eq.
    apply alone_batches; [right; cbn; by rewrite delete_singleton_eq|done..].
Qed.

(** ** The pipeline *)

Lemma send_ack_budget {St} ack err (sh : shared St) : s_budget (send_ack ack err sh) = s_budget sh.
Proof. by destruct ack. Qed.

(** Every change the pipeline makes to the budget is one of the places. *)
Lemma step_mutation {St} {HO : ObjectStore St} {HC : StoreContents St} z config runID range (s s' : pipeline St) :
  Pipeline.step z config runID range s s' ->
  let b := s_budget (p_shared s) in let b' := s_budget (p_shared s') in
  b' = b \/ (exists m, mutate m b = Some b') \/ (exists o ch, locked o b = (b', WaitOn ch)).
Proof.
  intros [H|H|H|H|H|H|H]; destruct H; cbv zeta; unpipe; rewrite ?send_ack_budget; unpipe; try (by left);
  match goal with
  | H : reserveBytes_locked ?n _ = (_, Acquired) |- _ => right; left; exists (Reserve n); cbn [mutate]; by rewrite H
  | H : acquireBatchSlot_locked _ = (_, Acquired) |- _ => right; left; exists AcquireSlot; cbn [mutate]; by rewrite H
  | H : addReservation ?n _ = _ |- _ => right; left; exists (Reconcile n); cbn [mutate]; by rewrite H
  | H : release ?n ?k _ = _ |- _ => right; left; exists (Release n k); cbn [mutate]; by rewrite H
  | H : reserveBytes_locked ?n _ = (_, WaitOn ?ch) |- _ => right; right; by exists (OpReserve n), ch
  | H : acquireBatchSlot_locked _ = (_, WaitOn ?ch) |- _ => right; right; by exists OpAcquire, ch
  | H : waitDrained_locked _ = (_, WaitOn ?ch) |- _ => right; right; by exists OpDrain, ch
  | H : onMessage _ _ _ _ _ = _ |- _ => left; apply onMessage_spec in H; apply H
  | H : beginEmit _ _ _ _ = _ |- _ => left; apply beginEmit_spec in H; apply H
  end.
Qed.

(** So the budget of a run of the pipeline is that of a run with emissions. *)
Lemma pipeline_observed {St} {HO : ObjectStore St} {HC : StoreContents St} z config runID range (st : St) s :
  reachable z config runID range st s ->
  exists g, observed (Observer config) (s_budget (p_shared (initial config st))) g /\
    g_budget g = s_budget (p_shared s).
Proof.
  revert s. apply rtc_ind_r; [eexists; by split; [apply rtc_refl|]|].
  intros s s' _ Hst (g & Hg & Hb).
  destruct g as [b em past seen]. cbn in Hb. subst b.
  destruct (step_mutation _ _ _ _ _ _ Hst) as [He|[[m Hm]|(o & ch & Hw)]].
  - eexists. by split; [exact Hg|].
  - eexists. split; [eapply rtc_r; [exact Hg|left; eapply (step_change (stdpp.base.fresh (dom em))); [|exact Hm]]|done].
    apply not_elem_of_dom, is_fresh.
  - eexists. split; [eapply rtc_r; [exact Hg|right; by eapply step_wait]|done].
Qed.

(** ** Properties *)

(** The gauges never invent a value: each sample the observer gets was the
    budget's own, bytes or batches, at a moment after the change that triggered
    the sample. *)
Theorem gauge_samples b observer g k e :
  observed observer b g -> (k, e) ∈ g_seen g ->
  exists j v, (k <= j)%nat /\ g_past g !! j = Some v /\ (e = OnInflightBytes v.1 \/ e = OnInflightBatches v.2).
Proof. intros H%observed_ok Hin. pose proof (ok_seen _ H) as Hs. rewrite Forall_forall in Hs. exact (Hs _ Hin). Qed.


(** ** Races *)

(** Two appends race: the budget holds 12 bytes, nobody is about to report, and
    the gauge shows 5. *)
Lemma gauge_stale : exists g, observed true (newProducerBudget 100 10) g /\
  g_emitters g = ∅ /\ snapshot (g_budget g) = (12, 0) /\ gauge bytesReport g = Some 5.
Proof.
  pose proof (rtc_refl (gauge_step true) (idle (newProducerBudget 100 10))) as H. unfold idle in H.
  advance H @or_introl ltac:(eapply (step_change 0%nat (Reserve 5)); computed).
  advance H @or_intror ltac:(eapply (step_read _ 0%nat); computed).
  advance H @or_introl ltac:(eapply (step_change 1%nat (Reserve 7)); computed).
  advance H @or_intror ltac:(eapply (step_read _ 1%nat); computed).
  do 2 advance H @or_intror ltac:(eapply (step_report _ 1%nat); computed).
  do 2 advance H @or_intror ltac:(eapply (step_report _ 0%nat); computed).
  advance H @or_intror ltac:(eapply (step_return _ 0%nat); computed).
  advance H @or_intror ltac:(eapply (step_return _ 1%nat); computed).
  eexists. split; [exact H|]. repeat split.
Qed.


Lemma gauge_samples_witness : exists g v, g_seen g = [(1%nat, OnInflightBytes 5)] /\ v ∈ g_past g /\ v.1 = 5.
Proof.
  pose proof (rtc_refl (gauge_step true) (idle (newProducerBudget 100 10))) as H. unfold idle in H.
  advance H @or_introl ltac:(eapply (step_change 0%nat (Reserve 5)); computed).
  advance H @or_intror ltac:(eapply (step_read _ 0%nat); computed).
  advance H @or_intror ltac:(eapply (step_report _ 0%nat); computed).
  destruct (gauge_samples _ true _ 1%nat (OnInflightBytes 5) H ltac:(vm_compute; left)) as (j & v & _ & Hv & [He|He]);
    [|discriminate]. injection He as He. eexists _, v. split; [|split; [by eapply list_elem_of_lookup_2|done]].
  reflexivity.
Defined.
