(* ===== verification/Compat.v ===== *)
(** * The compatibility producer ([src/test/compat-producer/main.go])

    The program writes three known batches to an S3 store for a consumer in
    another language to read. The AWS SDK and the environment are parameters;
    the store is any that keeps the laws, as the one of [S3.v] does. *)

From S2P Require Import Prelude GoError Bytes Batch Manifest ObjStore Enqueuer S3 Config Budget.
From S2P Require Import Watcher Accumulator Retry Committer Stages Pipeline PipelineInv Durability.
From S2P Require Import Progress Producer Desk Flush Client Float Stats Bench.
From Stdlib Require Import Ascii.

Local Open Scope string_scope.
Local Open Scope list_scope.
Local Open Scope Z_scope.

(** ** Environment *)

Section Environment.
Context (Getenv : string -> string).

Definition envOrDefault (key fallback : string) : string :=
  let v := Getenv key in if negb (bool_decide (v = "")) then v else fallback.

Definition compressionFromEnv : Z :=
  if bool_decide (Getenv "BATCH_COMPRESSION" = "zstd") then CompressionZstd else CompressionNone.

Definition bucketAlreadyExists (err : option error) : bool :=
  match err with
  | None => false
  | Some err =>
      let msg := error_message err in
      Contains msg "BucketAlreadyOwnedByYou" || Contains msg "BucketAlreadyExists"
  end.

(** The calls of the SDK: their errors. *)
Record aws := {
  LoadDefaultConfig : string -> string -> string -> option error;    (** region, access key, secret key *)
  CreateBucket : string -> string -> option error;                   (** endpoint, bucket *)
}.

(** [main] up to the creation of the store; [log.Fatalf] ends the program. *)
Definition setup (A : aws) : outcome unit :=
  let endpoint := envOrDefault "S3_ENDPOINT" "http://localhost:9000" in
  let bucket := envOrDefault "S3_BUCKET" "compat-test" in
  let accessKey := envOrDefault "AWS_ACCESS_KEY_ID" "test" in
  let secretKey := envOrDefault "AWS_SECRET_ACCESS_KEY" "testtesttest" in
  let region := envOrDefault "AWS_REGION" "us-east-1" in
  match LoadDefaultConfig A region accessKey secretKey with
  | Some err => Fail (wrapf "failed to load aws config" err)
  | None =>
      let err := CreateBucket A endpoint bucket in
      match err with
      | Some e => if negb (bucketAlreadyExists err) then Fail (wrapf "create bucket failed" e) else Ret tt
      | None => Ret tt
      end
  end.

Definition compatConfig : ProducerConfig := {|
  DataPathPrefix := "ingest";
  ManifestPath := "ingest/manifest";
  FlushInterval := 24 * 3600 * Second;
  FlushSizeBytes := 64 * 1024 * 1024;
  MaxBufferedInputs := 1000;
  BatchCompression := compressionFromEnv;
  Observer := false;
  EncodeConcurrency := 0;
  UploadConcurrency := 0;
  MaxInFlightBatches := 0;
  MaxInFlightBytes := 0;
  ManifestAppendBatchSize := 0;
  UploadMaxAttempts := 0;
  UploadInitialBackoff := 0;
  ManifestMaxAttempts := 0;
  ManifestInitialBackoff := 0;
|}.
End Environment.

Definition quote : string := String (ascii_of_nat 34) "".

(** The metadata of batch [n], a JSON object. *)
Definition compatMetadata (n : string) : bytes :=
  string_bytes ("{" +:+ quote +:+ "batch" +:+ quote +:+ ":" +:+ n +:+ "}").

Definition compatBatches : list (list bytes * bytes) :=
  [(string_bytes <$> ["hello"; "world"], compatMetadata "1");
   (string_bytes <$> ["foo"; "bar"; "baz"], compatMetadata "2");
   ([string_bytes "single-entry"], compatMetadata "3")].

(** ** Producing *)

Section Produce.
Context {St : Type} {HO : ObjectStore St} {HC : StoreContents St}.
Context (z : zstd_lib) (runID : string) (range : readyMap -> list uploadCompletion).

Definition produceBatch (config : ProducerConfig) (ib : nat * (list bytes * bytes)) (u : unit) : act St unit :=
  let n := pretty (Z.of_nat ib.1 + 1) in
  _ ← call_Append z config runID range ("append batch " +:+ n +:+ " failed") ib.2.1 ib.2.2;
  call_Flush z config runID range ("flush batch " +:+ n +:+ " failed").

(** The loop of [main] over its batches, and [Close]. *)
Definition produceBatches (config : ProducerConfig) (batches : list (list bytes * bytes)) : act St unit :=
  _ ← loop (produceBatch config) (imap pair batches) tt;
  call_Close z config runID range "close failed".

Definition compatMain (Getenv : string -> string) (A : aws) : act St unit :=
  _ ← pure (setup Getenv A);
  produceBatches (withDefaults (compatConfig Getenv)) compatBatches.
End Produce.

(** ** What it wrote *)

Lemma imap_pair_snd {X} (l : list X) : (imap pair l).*2 = l.
Proof.
  apply list_eq. intros i. rewrite list_lookup_fmap, list_lookup_imap. by destruct (l !! i).
Qed.

Section Wrote.
Context {St : Type} {HO : ObjectStore St} {HC : StoreContents St} {HL : StoreLaws St}.
Context (z : zstd_lib) `{!ZstdLaws z} (config : ProducerConfig) (runID : string).
Context (range : readyMap -> list uploadCompletion) (Hrange : forall m, range m ≡ₚ values m).
Context (Hpath : forall k, objectAt config runID k <> ManifestPath config).
Context (Hz : zstd_NewReader z = None) (st : St).
Implicit Types s : pipeline St.

Abbreviation reach := (reachable z config runID range st).
Abbreviation steps := (rtc (step z config runID range)).

(** The batch [b] is settled before the program goes on: [Append] accepted it
    under the watcher [w] in [sa]; the rotator took the [Flush] that follows in
    [sh]; when that [Flush] returned, in [sb], the batch was decided, and if it
    was still in the channel or the accumulator when the rotator took the
    [Flush], it was decided with success and can be read back. *)
Definition settled (b : list bytes * bytes) (w : watcher_id) s1 : Prop :=
  exists s0 sa a sh sh' sb,
    reach s0 /\ Append z config runID range b.1 b.2 s0 sa (Ret w) /\
    steps sa sh /\ handoff a sh sh' /\ steps sh' sb /\ steps sb s1 /\
    (exists err, decided err w sb) /\
    (w ∈ collected sh -> decided None w sb /\
       (within_format config st (p_shared sb) -> persisted z config b.1 b.2 sb)).

Definition all_settled (bs : list (list bytes * bytes)) s : Prop :=
  reach s /\ exists ws, Forall2 (fun b w => settled b w s) bs ws.

Lemma stable_settled b w : stable z config runID range (settled b w).
Proof.
  intros s s' Hst (s0 & sa & a & sh & sh' & sb & H). exists s0, sa, a, sh, sh', sb.
  destruct H as (H1 & H2 & H3 & H4 & H5 & H6 & H7).
  split; [exact H1|]. do 4 (split; [assumption|]). split; [by etrans|exact H7].
Qed.

Lemma stable_all_settled bs : stable z config runID range (all_settled bs).
Proof.
  apply stable_and; [apply stable_reachable|]. intros s s' Hst [ws H]. exists ws.
  eapply Forall2_impl; [exact H|]. intros b w. by apply stable_settled.
Qed.

Lemma accepted_persisted s b w :
  reach s -> accepted w b.1 b.2 s -> decided None w s ->
  within_format config st (p_shared s) -> persisted z config b.1 b.2 s.
Proof.
  intros Hr (m & Hm & ? & ?) Hd Hfit. exists m. split_and!; [done..|].
  eapply (await_success z config runID range Hrange Hpath _ _ _ _ _ None); try done. by apply await_ch.
Qed.

(** An [Append] and the [Flush] after it. *)
Lemma append_flush b s0 sa sb w :
  reach s0 -> Append z config runID range b.1 b.2 s0 sa (Ret w) ->
  Flush z config runID range None sa sb None -> settled b w sb.
Proof.
  intros Hr Ha HF. destruct (Append_accepted _ _ _ _ _ _ _ _ _ Ha) as (H0a & Hm & Hw & Hc).
  assert (reach sa) as Hra by by eapply stable_reachable.
  assert (reach sb) as Hrb by (eapply stable_reachable; [|exact Hra]; by eapply Flush_steps).
  assert (accepted w b.1 b.2 sb) as Hacc by (eapply stable_accepted; [by eapply Flush_steps|exact Hm]).
  inversion HF as [| | | | |a s1 s2 s3 s' r H01 Hh H23 Hak H3s Hd]; subst.
  destruct (flush_phases z config runID range Hrange Hpath st _ a _ _ _ _ _ Hra H01 Hh H23 Hak H3s Hd)
    as [Hown Hall].
  exists s0, sa, a, s1, s2, sb. split; [exact Hr|]. do 3 (split; [assumption|]).
  split; [by etrans|]. split; [apply rtc_refl|]. split; [by apply Hall|]. intros Hin. split; [by apply Hown|]. by apply (accepted_persisted sb b w); [..|apply Hown].
Qed.

Lemma produceBatch_spec bs i b :
  triple (all_settled bs) (produceBatch z runID range config (i, b) tt) (fun _ => all_settled (bs ++ [b])).
Proof.
  unfold produceBatch. cbn [fst snd].
  apply (triple_bind _ _ _ (fun w sa => all_settled bs sa /\ exists s0, reach s0 /\
    Append z config runID range b.1 b.2 s0 sa (Ret w))).
  - intros s0 sa r Hs (r0 & Ha & ->). destruct r0 as [w|e|]; [|done|done]. cbn.
    split; [|exists s0; split; [apply Hs|done]].
    eapply stable_all_settled; [|exact Hs]. by eapply Append_accepted.
  - intros w sa sb r [Hs (s0 & Hr & Ha)] (e & HF & ->). destruct e as [e|]; [done|]. cbn.
    destruct (stable_all_settled _ _ _ (Flush_steps _ _ _ _ _ _ _ _ HF) Hs) as [Hr' [ws Hws]].
    split; [done|]. exists (ws ++ [w]). apply Forall2_app; [done|].
    apply Forall2_cons_2; [by eapply (append_flush b s0 sa sb w)|constructor].
Qed.

Lemma produceBatches_spec bs :
  triple reach (produceBatches z runID range config bs)
    (fun _ s => all_settled bs s /\
       batched s = [] /\ collected s = [] /\ batchesUsed (s_budget (p_shared s)) = 0).
Proof.
  unfold produceBatches. eapply (triple_bind _ _ _ (fun _ => all_settled bs)).
  - eapply triple_weaken; [| |eapply (triple_loop _ _ (fun before _ s => all_settled before.*2 s))].
    + intros s Hs. split; [exact Hs|]. by exists [].
    + cbn beta. intros u s. by rewrite imap_pair_snd.
    + intros before [i b] after [] _. rewrite fmap_app. apply produceBatch_spec.
  - intros []. eapply triple_weaken; [exact (fun s H => H)| |
      apply (triple_Close_decided z config runID range Hrange Hpath (all_settled bs) st);
        [apply stable_all_settled|by intros s [? _]]].
    intros [] s (H1 & _ & H2). done.
Qed.
End Wrote.

(** The paths of this program's producer, whatever its run is called. *)
Lemma compat_paths Getenv runID k :
  let config := withDefaults (compatConfig Getenv) in objectAt config runID k <> ManifestPath config.
Proof.
  cbv zeta. unfold objectAt, batchLocation. cbn [DataPathPrefix ManifestPath withDefaults compatConfig].
  intros H. change "ingest/manifest" with ("ingest" +:+ "/" +:+ "manifest") in H.
  do 2 apply app_left_inj in H. assert (Contains "manifest" "/" = true) by (apply Contains_spec; eauto). done.
Qed.


(** The producer starts only over a bucket: [setup] succeeds exactly when the
    SDK's configuration loads and the bucket was created or exists already, by
    the message of the error. *)
Theorem setup_bucket Getenv A :
  let bucket := envOrDefault Getenv "S3_BUCKET" "compat-test" in
  let endpoint := envOrDefault Getenv "S3_ENDPOINT" "http://localhost:9000" in
  setup Getenv A = Ret tt <->
  LoadDefaultConfig A (envOrDefault Getenv "AWS_REGION" "us-east-1")
    (envOrDefault Getenv "AWS_ACCESS_KEY_ID" "test")
    (envOrDefault Getenv "AWS_SECRET_ACCESS_KEY" "testtesttest") = None /\
  forall e, CreateBucket A endpoint bucket = Some e -> exists a b,
    error_message e = a +:+ "BucketAlreadyOwnedByYou" +:+ b \/ error_message e = a +:+ "BucketAlreadyExists" +:+ b.
Proof.
  cbv zeta. unfold setup. destruct (LoadDefaultConfig A _ _ _); [split; [done|by intros [? _]]|].
  destruct (CreateBucket A _ _) as [e|]; [|split; [done|done]]. unfold bucketAlreadyExists.
  destruct (Contains (error_message e) "BucketAlreadyOwnedByYou") eqn:E1; cbn [orb negb].
  { apply Contains_spec in E1 as (a & b & E1). split; [|done]. intros _. split; [done|]. intros e' [= <-]. eauto. }
  destruct (Contains (error_message e) "BucketAlreadyExists") eqn:E2; cbn [negb].
  { apply Contains_spec in E2 as (a & b & E2). split; [|done]. intros _. split; [done|]. intros e' [= <-]. eauto. }
  split; [done|]. intros [_ H]. destruct (H e eq_refl) as (a & b & [Hc|Hc]).
  - assert (Contains (error_message e) "BucketAlreadyOwnedByYou" = true) by (apply Contains_spec; eauto). congruence.
  - assert (Contains (error_message e) "BucketAlreadyExists" = true) by (apply Contains_spec; eauto). congruence.
Qed.

